(* ===== verification/_CoqProject ===== *)
-Q . S2P
Prelude.v
RustStd.v
RustFmt.v
Interfaces.v
Instances.v
Cell.v
Fragmentation.v
Reassembly.v
Encryption.v
Keys.v
CoreTests.v
Forwarding.v
Mailbox.v
PullListener.v
PullServer.v
Node.v
RelayProcess.v
Topology.v
TopologyFile.v
PathSelection.v
Circuit.v
RoutingTests.v
TopologyFileTests.v
Discovery.v
DummyTraffic.v
Envelope.v
Session.v
Client.v
CoverTraffic.v
Receiver.v
EndToEnd.v
Links.v
Deployment.v
DeploymentRun.v
Progress.v
Reliable.v
Delivery.v
SmokeTest.v
RelayMain.v
Cli.v
RelayTests.v
SocketTests.v
UnitTests.v
CliRun.v
Laboratory.v
Witnesses.v
Runs.v
DeployedRun.v
FullRun.v
