(* ===== verification/Prelude.v ===== *)
(** * Veil: a verification library for the oblivious relay fabric

    ORF-Veil moves messages through volunteer relays so that no relay sees
    both ends. This development models the implementation crate by crate and
    proves the properties that make it work, up to the theorem that a message
    handed to [VeilClient::send] is returned by [Receiver::poll] at its
    recipient, whatever the interleaving of the relays.

    ** The program and its model

    A message is cut into 512-byte cells, each cell is encrypted end to end,
    put in an envelope with the sender's ephemeral public key, wrapped in one
    onion layer per relay of a freshly chosen path, and written to the first
    relay. A relay peels one layer per frame and forwards the rest or, at the
    exit, queues the body in its mailbox, from which the recipient pulls.

    - [RustStd]: the standard-library functions on strings and integers the
      sources use (UTF-8 validation, trimming, splitting, decimal integers,
      IPv4 literals, checked [u16] addition, socket addresses). [RustFmt]:
      [String::from_utf8_lossy] and the [{:?}] of a string.
    - [Interfaces]: one type class per third-party crate, with a second class
      of laws for the documented behaviour the program relies on; randomness,
      AEAD, X25519, HKDF, hex, TCP streams, hash-map order, semaphores,
      channels, files, JSON, listening sockets, sleeping and spawning.
      [Instances] implements them by concrete functions, and [Laboratory] adds a
      world in which packets sent to a network of relays really travel, so the
      laws are consistent and theorems can be applied to concrete inputs.
    - [Cell], [Fragmentation], [Reassembly], [Encryption], [Keys] model
      [veil-core/src] (cell.rs and error.rs, fragmentation.rs, reassembly.rs,
      crypto/encryption.rs, crypto/keys.rs).
    - [Forwarding], [Mailbox], [PullListener], [Node], [RelayMain] model
      [veil-relay/src] (forwarding.rs, mailbox.rs and metrics.rs,
      pull_listener.rs, node.rs, then config.rs, main.rs and bin/).
      [PullServer] is the request task of pull_listener.rs cut at its [await]
      points, and [RelayProcess] the running relay: the tasks that main.rs and
      [serve] spawn, as one step relation over their shared state.
    - [Topology], [TopologyFile], [PathSelection], [Circuit], [Discovery],
      [DummyTraffic] model [veil-routing/src] (topology.rs, topology_file.rs,
      path_selection.rs, lib.rs, discovery.rs with
      examples/discover_relays.rs, dummy_traffic.rs).
    - [Envelope], [Session], [Client], [CoverTraffic], [Receiver] model
      [veil-sdk/src] (envelope.rs, session.rs, client.rs and cover_traffic.rs,
      receiver.rs).
    - [Cli] models the whole of [veil-cli/src/main.rs], [CliRun] proves what its
      two modes print, and that the self-hosted mode spawns the relays that its
      topology describes. A program's arguments are [String]s: [env::args] has
      already panicked on anything else.
    - [EndToEnd] composes the client, the relays and the receiver over an
      abstract fabric. [Deployment] composes whole relay processes over the byte
      streams between them, [Links] has the facts about such streams,
      [DeploymentRun] proves that a deployment implements the fabric,
      [Progress] that it does a bounded amount of work and can always finish
      it, [Reliable] that when nothing fails everything can be delivered, and
      [Delivery] puts a sender and a recipient with its PULL requests at
      its ends. [SmokeTest] is examples/e2e_smoke_test.rs of [veil-relay], whose two
      relays are such a deployment.
    - [CoreTests], [RoutingTests], [TopologyFileTests], [RelayTests] and
      [SocketTests] translate the unit tests of the crates, and [UnitTests]
      proves that the model passes them on every run.
    - [Witnesses], [Runs], [DeployedRun] and [FullRun] apply every theorem that has
      hypotheses to concrete inputs, [Runs] to whole runs of processes and
      programs, [DeployedRun] to a run of two relays, which [FullRun] continues
      to the PULL that collects what they delivered.

    ** How code is translated

    Byte vectors, slices and strings are lists of bytes; machine integers are
    [Z] with the casts and wrap-arounds written out; array types are lists
    whose lengths the well-formedness predicates fix. A Rust [Result] is
    [result], an operation that can panic (indexing, slicing, [expect],
    overflow, remainder by zero) returns an [outcome], and [let?], [let!] and
    [let!?] are the corresponding early returns. A constructor that two Rust
    enums share carries a prefix here (for instance
    [OnionDecryptionFailed] and [ClientIo]). Hash maps are [gmap]s; their
    iteration order is a parameter of the model. Randomness and the
    network are states that every operation takes and returns, in the order in
    which the code uses them. A loop is a [Fixpoint] over the list it
    iterates; the frame loop of a relay, which ends when its stream does, takes
    fuel, and one more than the number of bytes to be read is proved to be
    enough. The other fuels are internal: [chunks] and [split_frames] use the
    length of their input, which suffices because every round consumes at least
    one byte, as every character or malformed sequence of [utf8_chunks] does;
    [show_uint] uses 20 digits, enough for every [u64], and [show_hex] six, enough
    for every code point. Which characters above U+007F [{:?}] escapes is data of
    the Rust release and a parameter ([RustFmt.CharTable]).

    ** Concurrency

    Tasks share the node through its mutexes, so a run is a sequence of atomic
    steps. The mailbox is verified for every sequence of pushes and drains
    ([mailbox_run]); the accept loop and the connections of a relay for every
    sequence of arrivals, frames and closings ([relay_step], one frame being
    the unit of interleaving); the fabric for every order in which relays
    process the packets in flight ([fabric_step]).

    A relay process interleaves more finely: [RelayProcess.process_step] lets
    the network act, or a connection arrive, process a frame or close, or the
    queueing task receive or push, or a request of the pull listener take the
    turn between two of its [await] points ([PullServer.task_step]); the only
    things the tasks share are the delivery channel, the mailbox and the
    network. Starting a process is sequential in the model where the code spawns
    a task: the mailbox address is bound before the main one
    ([RelayMain.relay_main]). What the rest of the world does while a program
    sleeps is the function [sleep] of the interface, about which only the
    hypothesis [CliRun.settles] says anything: the packets that were sent have
    been processed in some order, and the mailboxes hold what was delivered.

    Several relays together are [Deployment.deployment_step]: every host is a
    process with its own view of the network, and between hosts there are links,
    each a stream with its origin (a client, or a relay and the stream it
    dialled), its destination, what has been carried to the far end and how many
    frames were processed there. A step lets a client send, the network carry
    any number of bytes, or a task of a host take its turn; a connection may be
    refused at the limit, a stream may break in the middle of a frame, a forward
    may fail and end the connection it came from. What was sent on a link and
    not processed is [pending]; on a link whose far end is closed it stays
    pending, which is how a lost packet shows. Reading the links and the
    delivery channels of the hosts as the packets in flight and the deliveries
    of the fabric is the simulation of [DeploymentRun.deployment_refines_fabric].
    [Interfaces.StreamBreakLaws] says what a failing write leaves behind: a
    broken stream with a part of the bytes on it, which takes no more.

    ** What the theorems show

    - The whole way: [Delivery.message_goes_all_the_way] (a message sent into a
      deployment that has processed everything is returned to the recipient
      whose PULL requests were answered), [Delivery.pulls_collect_deliveries]
      (what such requests collect is what the fabric delivered) and
      [SmokeTest.smoke_test_delivers] (the same for the smoke test's onion, in all
      its runs).
    - Deployments: [DeploymentRun.deployment_refines_fabric] (relays over real
      streams never make up, alter or repeat a packet, whatever is refused, cut
      or closed), [DeploymentRun.deployment_hands_over] (what was delivered is
      what PULL requests were handed and what waits at the hosts) and [DeploymentRun.deployment_delivers_message] (each cell of a
      message was delivered once or is pending, and with none pending the
      recipient recovers the message).
    - Progress: [Progress.deployment_work_bounded] (the streams accepted and
      closed and the frames processed are paid for, two for a stream and three
      for a layer, by what clients sent: every accepted stream, closed stream and
      processed frame lowers [Progress.work], so no run works for ever) and
      [Progress.deployment_quiesces] (from every reachable state, a network that
      can deliver ([Progress.NetFlow]) and the tasks can bring every packet to
      its end and every delivery into its mailbox) and
      [Reliable.message_can_arrive] (with relays where the topology says, room
      for the connections and networks that work ([Reliable.reliable]), all of a
      message can get into mailboxes, from which the recipient recovers it).
    - End to end: [EndToEnd.message_reaches_recipient] (delivery in a bounded
      number of steps without getting stuck, then recovery by polling), resting
      on [Client.client_send_spec] and [Receiver.polls_recover_message];
      [EndToEnd.relay_refines_fabric] says that a single relay node implements a
      step of the fabric.
    - Programs: [CliRun.external_mode_prints] and [CliRun.self_hosted_mode] (the
      command line prints one line for each piece of its message, the text of a
      short one being that of the message; the self-hosted mode does so over the
      very processes it spawned, and panics without relays, ports or an acceptable
      message), [RelayMain.relay_main_starts] (the relay binary starts as
      configured, returns the right error, or panics on a port or a connection
      limit that is too large).
    - Process: [RelayProcess.process_hands_out_once] (no interleaving loses,
      duplicates or reorders a delivery on its way to a PULL, and every response
      is whole), [RelayProcess.deliveries_reach_mailbox] (the queueing task gets
      through its backlog), [PullServer.request_task_serves] (the task of
      a request ends, and the client reads from its answer what the relay holds);
      [PullServer.request_task_agrees] says that the task cut at its [await]
      points does what the handler does.
    - Core: cells parse exactly when they were serialized from a well-formed
      cell; fragmentation and its bounds; the reassembler refines a
      specification over finite maps and recovers a message under any order,
      duplication and interleaving; encryption round trips and accepts only
      genuine cells; identities persist.
    - Relay: the payload codec is a bijection, layers round trip and accept only
      genuine frames, frames are read whole or not at all, a connection is
      served to its end, forwarding hands over one whole frame, the connection
      limit is an invariant, the mailbox delivers exactly once, PULL and
      DESCRIBE transfer what they should.
    - Routing: topologies and their files, distinct and diverse paths, circuits
      that each relay unwraps by one layer, discovery, whose topologies are
      well typed whatever the network sends, timing.
    - Client side: envelopes, key agreement, refusals before any network
      activity, the command line, and [CoverTraffic.cover_task_runs] (cover
      traffic has the shape of real traffic and keeps its pace).
    - Tests: [UnitTests.unit_tests_pass].

    Where the code falls short of its documentation a theorem states what it
    does: [Forwarding.long_address_is_misread] (a truncated length prefix),
    [Receiver.failed_pull_loses_batch] (cells drained before a later mailbox
    fails are lost), [DummyTraffic.dummy_span_truncates] (a remainder by zero),
    [RelayMain.mailbox_addr_spec] (port overflow),
    [Reassembly.single_cell_always_delivers] (dummy cells are not filtered),
    [CliRun.cut_character_is_replaced] (a character that is cut at the end of a
    cell is printed as replacement characters).

    ** What is not modelled

    Secrecy and anonymity, which are not functional properties; logging,
    progress lines and the periodic metrics printer, which changes no state; the
    failure of [accept] on the main listener of a relay, which ends the process
    (on the mailbox listener it is a step); the passing of time, a sleep being a
    parameter; in a deployment, fairness (which step comes next is open, so what
    is proved is what holds in every state, what can always be reached from it,
    and how much can happen at all); the retransmission of lost packets, which
    the program does not do; benchmarks and the integration tests; of the unit
    tests, the five of cryptographic strength (a wrong key, a tampered
    ciphertext, contexts or key pairs that give different keys), which no law of
    an interface can decide. Tests over sockets run on the network of
    [Instances], a listener being its request handler; what [serde_json] makes
    of four particular texts is a hypothesis
    ([TopologyFileTests.parses_test_texts]). The zeroing of
    secrets on drop is modelled as a function, not as a property of memory. *)
From Stdlib Require Export ZArith Lia.
From Stdlib Require Export Init.Byte.
From Stdlib Require Import Strings.Byte.
From Stdlib Require Import Strings.String.
From stdpp Require Export base gmap list strings.

(** ** Results, panics and their notations *)

(** Rust's [Result<A, E>]. *)
Inductive result (E A : Type) : Type :=
  | Ok (a : A)
  | Err (e : E).
Arguments Ok {E A} a.
Arguments Err {E A} e.

(** The outcome of code that may panic: an out-of-range slice or index, a
    [copy_from_slice] of unequal lengths, an [expect] on [None], an
    arithmetic overflow under overflow checks. *)
Inductive outcome (A : Type) : Type :=
  | Done (a : A)
  | Panic.
Arguments Done {A} a.
Arguments Panic {A}.

#[export] Instance result_eq_dec {E A} `{EqDecision E, EqDecision A} :
  EqDecision (result E A).
Proof. solve_decision. Defined.

#[export] Instance outcome_eq_dec {A} `{EqDecision A} : EqDecision (outcome A).
Proof. solve_decision. Defined.

(** [Result::map_err]. *)
Definition map_err {E F A : Type} (f : E -> F) (r : result E A) : result F A :=
  match r with Ok a => Ok a | Err e => Err (f e) end.

(** [Option::ok_or]. *)
Definition ok_or {E A : Type} (o : option A) (e : E) : result E A :=
  match o with Some a => Ok a | None => Err e end.

Declare Scope veil_scope.
Delimit Scope veil_scope with veil.
Open Scope veil_scope.

(** The [?] operator: bind a result, return early on an error. *)
Notation "'let?' x := m 'in' k" :=
  (match m with Ok x => k | Err e => Err e end)
    (at level 10, x pattern, m at level 100, k at level 200) : veil_scope.

(** Bind code that may panic. *)
Notation "'let!' x := m 'in' k" :=
  (match m with Done x => k | Panic => Panic end)
    (at level 10, x pattern, m at level 100, k at level 200) : veil_scope.

(** Bind code that may panic and may return early with an error. *)
Notation "'let!?' x := m 'in' k" :=
  (match m with Done (Ok x) => k | Done (Err e) => Done (Err e) | Panic => Panic end)
    (at level 10, x pattern, m at level 100, k at level 200) : veil_scope.

(** ** Bytes and machine integers *)

#[export] Instance byte_eq_decision : EqDecision byte := Byte.byte_eq_dec.

#[export] Instance byte_inhabited : Inhabited byte := populate x00.

#[export] Program Instance byte_countable : Countable byte :=
  inj_countable Byte.to_N Byte.of_N _.
Next Obligation. intros x. apply Byte.of_to_N. Qed.

(** A byte string: Rust's [Vec<u8>], [&[u8]], and (with its UTF-8
    invariant, see [RustStd]) the contents of a [String]. *)
Abbreviation bytes := (list byte).

(** [l.len()] as a [usize]. *)
Definition len {A : Type} (l : list A) : Z := Z.of_nat (length l).

(** The value of a [u8], and the cast [as u8]. *)
Definition byte_to_Z (b : byte) : Z := Z.of_N (Byte.to_N b).
Definition byte_of_Z (z : Z) : byte :=
  match Byte.of_N (Z.to_N (z mod 256)) with
  | Some b => b
  | None => x00
  end.

(** Casts to narrower unsigned integers: [as u16], [as u32], [as u64]. *)
Definition as_u16 (z : Z) : Z := z mod 2 ^ 16.
Definition as_u32 (z : Z) : Z := z mod 2 ^ 32.
Definition as_u64 (z : Z) : Z := z mod 2 ^ 64.

Definition u16_MAX : Z := 65535.

(** [uN::to_be_bytes] and [uN::from_be_bytes], for an [n]-byte integer. *)
Fixpoint to_be_bytes (n : nat) (z : Z) : bytes :=
  match n with
  | O => []
  | S n' => to_be_bytes n' (z / 256) ++ [byte_of_Z z]
  end.

Definition from_be_bytes (l : bytes) : Z :=
  fold_left (fun acc b => acc * 256 + byte_to_Z b)%Z l 0%Z.

(** ** Arrays and slices *)

(** [[0u8; n]]. *)
Definition zeros (n : nat) : bytes := replicate n x00.

(** [&buf[i..j]]: panics when [i > j] or [j > buf.len()]. *)
Definition slice {A : Type} (i j : nat) (buf : list A) : outcome (list A) :=
  if decide (i <= j /\ j <= length buf)%nat
  then Done (take (j - i) (drop i buf))
  else Panic.

(** [buf[off..off + src.len()].copy_from_slice(src)] where the destination
    range has the length of [src], as the array types of the source show. *)
Definition blit (off : nat) (src buf : bytes) : bytes :=
  take off buf ++ src ++ drop (off + length src) buf.

(** [buf[i..j].copy_from_slice(src)]: panics when the range is out of bounds
    or its length is not [src.len()]. *)
Definition copy_from_slice (i j : nat) (src buf : bytes) : outcome bytes :=
  if decide (i <= j /\ j <= length buf /\ length src = j - i)%nat
  then Done (blit i src buf)
  else Panic.

(** [slice::chunks(n)]: the successive pieces of length [n], the last one
    possibly shorter. The fuel [length l] suffices: every piece but the last
    of an empty tail removes at least one element. *)
Fixpoint chunks_fuel {A : Type} (fuel n : nat) (l : list A) : list (list A) :=
  match fuel, l with
  | S fuel', _ :: _ => take n l :: chunks_fuel fuel' n (drop n l)
  | _, _ => []
  end.
Definition chunks {A : Type} (n : nat) (l : list A) : list (list A) :=
  chunks_fuel (length l) n l.

(** [slice::split_last]: the last element and the others. *)
Fixpoint split_last {A : Type} (l : list A) : option (A * list A) :=
  match l with
  | [] => None
  | x :: l' => match split_last l' with
               | Some (last, rest) => Some (last, x :: rest)
               | None => Some (x, [])
               end
  end.

(** [usize::div_ceil]. *)
Definition div_ceil (a b : Z) : Z :=
  if (0 <? a mod b)%Z then (a / b + 1)%Z else (a / b)%Z.

#[global] Arguments byte_of_Z : simpl never.
#[global] Arguments byte_to_Z : simpl never.
#[global] Arguments from_be_bytes : simpl never.
#[global] Arguments len : simpl never.
#[global] Arguments zeros : simpl never.
#[global] Arguments slice : simpl never.
#[global] Arguments blit : simpl never.
#[global] Arguments copy_from_slice : simpl never.
#[global] Arguments chunks : simpl never.

(** ** Tactics *)

(** Unfold one layer of results in the hypotheses and close the
    contradictory ones. *)
Ltac simpl_res :=
  repeat match goal with
  | H : Ok _ = Ok _ |- _ => injection H; clear H; intros; subst
  | H : Err _ = Err _ |- _ => injection H; clear H; intros; subst
  | H : Done _ = Done _ |- _ => injection H; clear H; intros; subst
  | H : Ok _ = Err _ |- _ => discriminate H
  | H : Err _ = Ok _ |- _ => discriminate H
  | H : Done _ = Panic |- _ => discriminate H
  | H : Panic = Done _ |- _ => discriminate H
  end; simplify_eq.

(** Case analysis on the conditional or match at the head of [H]. *)
Ltac case_in H :=
  match type of H with
  | context [if decide ?P then _ else _] => destruct (decide P)
  | context [match ?x with _ => _ end] =>
      lazymatch x with
      | context [match _ with _ => _ end] => fail
      | _ => let E := fresh "E" in destruct x eqn:E
      end
  end; simpl_res.

(** Prove a permutation by an equality. *)
Ltac eq_perm :=
  match goal with |- ?a ≡ₚ ?b => let E := fresh in assert (a = b) as E; [|rewrite E; reflexivity] end.

(** Prove an equation by evaluating both sides and comparing the values, which
    for maps is much cheaper than printing them. *)
Ltac vm_refl := match goal with |- _ = ?b => vm_cast_no_check (eq_refl b) end.

(** A component of a result is what evaluation finds it to be. *)
Lemma run_pair {A B} (m : A * B) a : m.1 = a -> m = (a, m.2).
Proof. intros <-. by destruct m. Qed.

Lemma run_1 {A B} (m : A * B) a : m.1 = a -> exists b, m = (a, b).
Proof. intros E. exists m.2. by apply run_pair. Qed.

Lemma run_1_of_2 {A B} (m : A * B) a b a' : m = (a, b) -> m.1 = a' -> a = a'.
Proof. by intros ->. Qed.

Lemma run_1_of_3 {A B C} (m : A * B * C) a b c a' : m = (a, b, c) -> m.1.1 = a' -> a = a'.
Proof. by intros ->. Qed.

Create HintDb veil.
Create Rewrite HintDb veil_rw.

(** ** Bytes *)

Lemma byte_to_Z_range b : (0 <= byte_to_Z b < 256)%Z.
Proof. unfold byte_to_Z. pose proof (Byte.to_N_bounded b). lia. Qed.

Lemma byte_to_Z_of_Z z : byte_to_Z (byte_of_Z z) = (z mod 256)%Z.
Proof.
  unfold byte_of_Z, byte_to_Z.
  pose proof (Z.mod_pos_bound z 256 ltac:(lia)).
  destruct (Byte.of_N (Z.to_N (z mod 256))) as [b|] eqn:E.
  - apply Byte.to_of_N in E. rewrite E. lia.
  - apply Byte.of_N_None_iff in E. lia.
Qed.

Lemma byte_of_Z_to_Z b : byte_of_Z (byte_to_Z b) = b.
Proof.
  unfold byte_of_Z. rewrite Z.mod_small by apply byte_to_Z_range.
  unfold byte_to_Z. by rewrite N2Z.id, Byte.of_to_N.
Qed.

Lemma byte_to_Z_inj b c : byte_to_Z b = byte_to_Z c -> b = c.
Proof. intros E. by rewrite <- (byte_of_Z_to_Z b), E, byte_of_Z_to_Z. Qed.

Lemma byte_of_Z_mod z : byte_of_Z (z mod 256) = byte_of_Z z.
Proof. unfold byte_of_Z. by rewrite Z.mod_mod by lia. Qed.

(** ** Big-endian integers *)

Lemma length_to_be_bytes n z : length (to_be_bytes n z) = n.
Proof.
  revert z; induction n as [|n IH]; intros z; cbn; [done|].
  rewrite length_app, IH. cbn. lia.
Qed.

Lemma from_be_bytes_snoc l b :
  from_be_bytes (l ++ [b]) = (from_be_bytes l * 256 + byte_to_Z b)%Z.
Proof. unfold from_be_bytes. by rewrite fold_left_app. Qed.

Lemma from_to_be_bytes n z :
  from_be_bytes (to_be_bytes n z) = (z mod 256 ^ Z.of_nat n)%Z.
Proof.
  revert z; induction n as [|n IH]; intros z; cbn [to_be_bytes].
  - cbn. by rewrite Z.mod_1_r.
  - rewrite from_be_bytes_snoc, IH, byte_to_Z_of_Z.
    rewrite Nat2Z.inj_succ, Z.pow_succ_r by lia.
    rewrite Z.rem_mul_r by lia. lia.
Qed.

Lemma from_to_be_bytes_small n z :
  (0 <= z < 256 ^ Z.of_nat n)%Z -> from_be_bytes (to_be_bytes n z) = z.
Proof. intros H. rewrite from_to_be_bytes. by apply Z.mod_small. Qed.

Lemma from_be_bytes_range l :
  (0 <= from_be_bytes l < 256 ^ len l)%Z.
Proof.
  unfold len. induction l as [|b l IH] using rev_ind; [unfold from_be_bytes; cbn; lia|].
  rewrite from_be_bytes_snoc, length_app, Nat2Z.inj_add.
  change (Z.of_nat (length [b])) with 1%Z.
  rewrite Z.pow_add_r by lia. pose proof (byte_to_Z_range b). lia.
Qed.

Lemma to_from_be_bytes l : to_be_bytes (length l) (from_be_bytes l) = l.
Proof.
  induction l as [|b l IH] using rev_ind; [done|].
  rewrite from_be_bytes_snoc, length_app. cbn [length].
  rewrite Nat.add_1_r. cbn [to_be_bytes]. pose proof (byte_to_Z_range b).
  rewrite Z.div_add_l, Z.div_small, Z.add_0_r, IH by lia. f_equal. f_equal.
  rewrite <- byte_of_Z_mod, Z.add_comm, Z.mod_add, byte_of_Z_mod by lia.
  apply byte_of_Z_to_Z.
Qed.

Lemma to_from_be_bytes_n n l :
  length l = n -> to_be_bytes n (from_be_bytes l) = l.
Proof. intros <-. apply to_from_be_bytes. Qed.

(** ** Lists and slices *)

Section lists.
Context {A : Type}.
Implicit Types l : list A.

Lemma len_nonneg l : (0 <= len l)%Z.
Proof. unfold len. lia. Qed.

Lemma len_app l1 l2 : len (l1 ++ l2) = (len l1 + len l2)%Z.
Proof. unfold len. rewrite length_app. lia. Qed.

Lemma len_0 l : len l = 0%Z <-> l = [].
Proof. unfold len. destruct l; cbn; split; intros; try done; lia. Qed.

Lemma slice_app l1 l2 l3 :
  slice (length l1) (length l1 + length l2) (l1 ++ l2 ++ l3) = Done l2.
Proof.
  unfold slice. rewrite decide_True by (rewrite !length_app; lia).
  rewrite drop_app_length. f_equal.
  replace (length l1 + length l2 - length l1)%nat with (length l2) by lia.
  by rewrite take_app_length.
Qed.

Lemma slice_Done i j l l' :
  slice i j l = Done l' ->
  l' = take (j - i) (drop i l) /\ length l' = (j - i)%nat.
Proof.
  unfold slice. case_decide; [|done]. intros [= <-]. split; [done|].
  rewrite length_take, length_drop. lia.
Qed.

Lemma slice_ok i j l :
  (i <= j)%nat -> (j <= length l)%nat -> slice i j l = Done (take (j - i) (drop i l)).
Proof. intros. unfold slice. by rewrite decide_True. Qed.

(** Reading an array of options index by index keeps what is present. *)
Lemma omap_seq_options (f : nat -> option A) (l : list (option A)) k :
  (forall j, (j < length l)%nat -> f (k + j)%nat = mjoin (l !! j)) ->
  omap f (seq k (length l)) = omap id l.
Proof.
  revert k. induction l as [|o l IH]; intros k Hk; cbn; [done|].
  pose proof (Hk 0%nat ltac:(cbn; lia)) as H0. rewrite Nat.add_0_r in H0. cbn in H0.
  rewrite H0, (IH (S k)); [by destruct o|].
  intros j Hj. rewrite Nat.add_succ_comm. apply (Hk (S j)). cbn. lia.
Qed.

Lemma omap_seq (f : nat -> option A) l :
  (forall j, (j < length l)%nat -> f j = l !! j) -> omap f (seq 0 (length l)) = l.
Proof.
  intros Hf. rewrite <- (length_fmap Some l), omap_seq_options.
  - clear. induction l as [|x l IH]; cbn; congruence.
  - intros j Hj. rewrite length_fmap in Hj. rewrite Hf, list_lookup_fmap by done.
    cbn. by destruct (l !! j).
Qed.

Lemma split_last_snoc l x : split_last (l ++ [x]) = Some (x, l).
Proof. induction l as [|y l IH]; cbn; [done|]. by rewrite IH. Qed.

Lemma filter_Forall (P : A -> Prop) `{forall x, Decision (P x)} l :
  Forall P l -> filter P l = l.
Proof. induction 1 as [|x l Hx _ IH]; [done|]. by rewrite filter_cons_True, IH. Qed.

Lemma filter_Forall_not (P : A -> Prop) `{forall x, Decision (P x)} l :
  Forall (fun x => ~ P x) l -> filter P l = [].
Proof. induction 1 as [|x l Hx _ IH]; [done|]. by rewrite filter_cons_False, IH. Qed.

Lemma omap_nothing {B : Type} (f : A -> option B) l :
  Forall (fun x => f x = None) l -> omap f l = [].
Proof. induction 1 as [|x l Hx _ IH]; cbn; [done|]. by rewrite Hx. Qed.

(** The last element with a property, and what follows it. *)
Lemma split_at_last (P : A -> Prop) `{forall x, Decision (P x)} l :
  Exists P l -> exists l1 x l2, l = l1 ++ x :: l2 /\ P x /\ Forall (fun y => ~ P y) l2.
Proof.
  induction l as [|y l IH] using rev_ind; [by intros ?%Exists_nil|].
  intros He. destruct (decide (P y)) as [Hy|Hy].
  - exists l, y, []. by split_and!.
  - apply Exists_app in He as [He|[?|?%Exists_nil]%Exists_cons]; [|done|done].
    destruct (IH He) as (l1 & x & l2 & -> & Hx & Hl2).
    exists l1, x, (l2 ++ [y]). rewrite <- app_assoc. split_and!; [done|done|].
    apply Forall_app_2; [done|by constructor].
Qed.

(** A list cut at consecutive offsets. *)
Lemma take_drop_split n m l :
  take (n + m) l = take n l ++ take m (drop n l).
Proof. symmetry. apply take_take_drop. Qed.

Lemma cut_drop i n l :
  drop i l = take n (drop i l) ++ drop (i + n) l.
Proof. by rewrite <- drop_drop, take_drop. Qed.
End lists.

Lemma length_zeros n : length (zeros n) = n.
Proof. apply length_replicate. Qed.

Lemma length_blit off src buf :
  (off + length src <= length buf)%nat -> length (blit off src buf) = length buf.
Proof.
  intros. unfold blit. rewrite !length_app, length_take, length_drop. lia.
Qed.

(** Writing the range that follows the already written prefix. *)
Lemma blit_app pre rest src :
  (length src <= length rest)%nat ->
  blit (length pre) src (pre ++ rest) = (pre ++ src) ++ drop (length src) rest.
Proof.
  intros. unfold blit. rewrite take_app_length, <- app_assoc. do 2 f_equal.
  rewrite <- drop_drop. by rewrite drop_app_length.
Qed.

(** Filling a zeroed buffer field by field. *)
Lemma blit_zeros off pre src n :
  off = length pre -> (length src <= n)%nat ->
  blit off src (pre ++ zeros n) = (pre ++ src) ++ zeros (n - length src).
Proof.
  intros -> Hn. rewrite blit_app by (rewrite length_zeros; lia).
  unfold zeros. by rewrite drop_replicate.
Qed.

Lemma blit_whole src n : length src = n -> blit 0 src (zeros n) = src.
Proof.
  intros H. change (zeros n) with ([] ++ zeros n).
  rewrite blit_zeros, H, Nat.sub_diag by (done || lia). apply app_nil_r.
Qed.

Lemma copy_from_slice_all src buf :
  length src = length buf -> copy_from_slice 0 (length buf) src buf = Done src.
Proof.
  intros H. unfold copy_from_slice. rewrite decide_True by lia.
  unfold blit. cbn. by rewrite drop_ge, app_nil_r by lia.
Qed.

(** ** Chunks *)

Section chunks.
Context {A : Type}.
Implicit Types l : list A.

Lemma chunks_fuel_enough n f l :
  (0 < n)%nat -> (length l <= f)%nat -> chunks_fuel f n l = chunks n l.
Proof.
  intros Hn. unfold chunks. revert l.
  enough (forall k f g l, (length l <= k)%nat -> (length l <= f)%nat ->
            (length l <= g)%nat -> chunks_fuel f n l = chunks_fuel g n l) as H
    by (intros; eapply H; done).
  induction k as [|k IH]; intros f' g l Hk Hf Hg.
  - destruct l; [|cbn in *; lia]. by destruct f', g.
  - destruct l as [|x l]; [by destruct f', g|].
    destruct f' as [|f'], g as [|g]; cbn in *; try lia.
    f_equal. apply IH; rewrite length_drop; cbn; lia.
Qed.

Lemma chunks_nil n : chunks n (@nil A) = [].
Proof. done. Qed.

(** The defining equation of [chunks] on a non-empty slice. *)
Lemma chunks_cons n l :
  (0 < n)%nat -> l <> [] -> chunks n l = take n l :: chunks n (drop n l).
Proof.
  intros Hn Hl. destruct l as [|x l]; [done|].
  unfold chunks at 1. cbn [length chunks_fuel]. f_equal.
  apply chunks_fuel_enough; [done|]. rewrite length_drop. cbn. lia.
Qed.

Lemma chunks_concat n l : (0 < n)%nat -> concat (chunks n l) = l.
Proof.
  intros Hn. remember (length l) as k eqn:Hk. revert l Hk.
  induction k as [k IH] using lt_wf_ind. intros l ->.
  destruct (decide (l = [])) as [->|Hl]; [done|].
  rewrite chunks_cons by done. cbn. rewrite (IH (length (drop n l))); [by rewrite take_drop| |done].
  rewrite length_drop. destruct l; [done|]. cbn. lia.
Qed.

Lemma chunks_lookup n l i :
  (0 < n)%nat ->
  chunks n l !! i =
    if decide (i * n < length l)%nat then Some (take n (drop (i * n) l)) else None.
Proof.
  intros Hn. revert l. induction i as [|i IH]; intros l.
  - destruct (decide (l = [])) as [->|Hl]; [by rewrite chunks_nil|].
    rewrite chunks_cons by done. cbn. destruct l; [done|]. cbn. by rewrite decide_True by lia.
  - destruct (decide (l = [])) as [->|Hl].
    + rewrite chunks_nil. cbn. by rewrite decide_False by lia.
    + rewrite chunks_cons by done. cbn [lookup list_lookup]. rewrite IH, length_drop.
      rewrite drop_drop. replace (n + i * n)%nat with (S i * n)%nat by lia.
      repeat case_decide; try done; lia.
Qed.

Lemma length_chunks n l :
  (0 < n)%nat -> len (chunks n l) = div_ceil (len l) (Z.of_nat n).
Proof.
  intros Hn. unfold div_ceil, len.
  remember (length l) as k eqn:Hk. revert l Hk.
  induction k as [k IH] using lt_wf_ind. intros l ->.
  destruct (decide (l = [])) as [->|Hl].
  { rewrite chunks_nil. cbn [length]. by rewrite Z.mod_0_l, Z.div_0_l by lia. }
  rewrite chunks_cons by done. cbn [length]. rewrite Nat2Z.inj_succ.
  assert (0 < length l)%nat by (destruct l; [done|cbn; lia]).
  rewrite (IH (length (drop n l))) by (rewrite ?length_drop; lia || done).
  rewrite length_drop. destruct (decide (length l <= n)%nat) as [Hle|Hgt].
  - replace (length l - n)%nat with 0%nat by lia. rewrite Z.mod_0_l, Z.div_0_l by lia.
    cbn. destruct (decide (length l = n)) as [->|].
    + by rewrite Z_mod_same_full, Z_div_same by lia.
    + by rewrite Z.mod_small, Z.div_small, (proj2 (Z.ltb_lt _ _)) by lia.
  - replace (Z.of_nat (length l)) with (Z.of_nat (length l - n) + 1 * Z.of_nat n)%Z by lia.
    rewrite Z_mod_plus_full, Z.div_add by lia. case_match; lia.
Qed.

Lemma length_chunk n l c : (0 < n)%nat -> c ∈ chunks n l -> (0 < length c <= n)%nat.
Proof.
  intros Hn [i Hi]%list_elem_of_lookup. rewrite chunks_lookup in Hi by done.
  case_decide; [|done]. simplify_eq. rewrite length_take, length_drop. lia.
Qed.
End chunks.

#[export] Hint Rewrite @length_app @length_take @length_drop length_zeros
  length_to_be_bytes : veil_rw.
