(* ===== verification/RustStd.v ===== *)
(** * The parts of the Rust standard library the program uses on strings

    A [String] or [&str] is the list of its UTF-8 bytes. This file models
    [String::from_utf8], [str::trim], [str::rsplit_once] with an ASCII
    delimiter, the decimal [FromStr] and [Display] of unsigned integers, the
    [FromStr] of [Ipv4Addr], and the overflow behaviour of [u16] addition. *)
From S2P Require Import Prelude.

Open Scope Z_scope.

(** ** UTF-8 validation *)

Definition in_range (lo hi : Z) (b : byte) : bool :=
  (lo <=? byte_to_Z b) && (byte_to_Z b <=? hi).

(** The second byte a three-byte or four-byte sequence may have, given its
    first: no overlong encodings, no surrogates, nothing above U+10FFFF. *)
Definition second_of_3 (a b : byte) : bool :=
  let a := byte_to_Z a in
  if a =? 224 then in_range 160 191 b
  else if a =? 237 then in_range 128 159 b
  else in_range 128 191 b.

Definition second_of_4 (a b : byte) : bool :=
  let a := byte_to_Z a in
  if a =? 240 then in_range 144 191 b
  else if a =? 244 then in_range 128 143 b
  else in_range 128 191 b.

(** The check of [String::from_utf8]. *)
Fixpoint utf8_valid (l : bytes) : bool :=
  match l with
  | [] => true
  | a :: l1 =>
    if in_range 0 127 a then utf8_valid l1
    else match l1 with
    | [] => false
    | b :: l2 =>
      if in_range 194 223 a then in_range 128 191 b && utf8_valid l2
      else match l2 with
      | [] => false
      | c :: l3 =>
        if in_range 224 239 a
        then second_of_3 a b && in_range 128 191 c && utf8_valid l3
        else match l3 with
        | [] => false
        | d :: l4 =>
          in_range 240 244 a && second_of_4 a b && in_range 128 191 c &&
          in_range 128 191 d && utf8_valid l4
        end
      end
    end
  end.

(** [String::from_utf8]. *)
Definition from_utf8 (l : bytes) : option bytes := if utf8_valid l then Some l else None.

(** ** [str::trim] *)

(** The length of the whitespace character (Unicode [White_Space]) a string
    starts with, 0 when it starts with another character. *)
Definition ws_start (l : bytes) : nat :=
  match map byte_to_Z (take 3 l) with
  | a :: r =>
    if ((9 <=? a) && (a <=? 13)) || (a =? 32) then 1%nat
    else match r with
    | b :: r =>
      if (a =? 194) && ((b =? 133) || (b =? 160)) then 2%nat
      else match r with
      | c :: _ =>
        if ((a =? 225) && (b =? 154) && (c =? 128)) ||
           ((a =? 226) && (b =? 128) &&
             (((128 <=? c) && (c <=? 138)) || (c =? 168) || (c =? 169) || (c =? 175))) ||
           ((a =? 226) && (b =? 129) && (c =? 159)) ||
           ((a =? 227) && (b =? 128) && (c =? 128))
        then 3%nat else 0%nat
      | [] => 0%nat
      end
    | [] => 0%nat
    end
  | [] => 0%nat
  end.

(** The length of the whitespace character a string ends with. *)
Definition ws_end (l : bytes) : nat :=
  let tail k := drop (length l - k) l in
  if decide (ws_start (tail 1%nat) = 1%nat) then 1%nat
  else if decide (2 <= length l /\ ws_start (tail 2%nat) = 2)%nat then 2%nat
  else if decide (3 <= length l /\ ws_start (tail 3%nat) = 3)%nat then 3%nat
  else 0%nat.

(** Remove whitespace at one end while there is some; each round removes at
    least one byte, so the length of the string is enough fuel. *)
Fixpoint trim_start_fuel (fuel : nat) (l : bytes) : bytes :=
  match fuel with
  | O => l
  | S fuel' =>
      match ws_start l with
      | O => l
      | k => trim_start_fuel fuel' (drop k l)
      end
  end.

Fixpoint trim_end_fuel (fuel : nat) (l : bytes) : bytes :=
  match fuel with
  | O => l
  | S fuel' =>
      match ws_end l with
      | O => l
      | k => trim_end_fuel fuel' (take (length l - k) l)
      end
  end.

Definition trim (l : bytes) : bytes :=
  let l := trim_start_fuel (length l) l in
  trim_end_fuel (length l) l.

(** ** [str::rsplit_once] *)

Fixpoint rsplit_once (d : byte) (l : bytes) : option (bytes * bytes) :=
  match l with
  | [] => None
  | b :: l' =>
      match rsplit_once d l' with
      | Some (h, t) => Some (b :: h, t)
      | None => if decide (b = d) then Some ([], l') else None
      end
  end.

(** ** Decimal integers *)

Definition digit_of (b : byte) : option Z :=
  if in_range 48 57 b then Some (byte_to_Z b - 48) else None.

(** The value of a string of digits, [None] when another byte occurs. *)
Fixpoint parse_digits (acc : Z) (l : bytes) : option Z :=
  match l with
  | [] => Some acc
  | b :: l' => match digit_of b with
               | Some d => parse_digits (acc * 10 + d) l'
               | None => None
               end
  end.

(** [FromStr] of an unsigned integer with the given maximum: an optional
    plus sign, at least one digit, no overflow. *)
Definition parse_uint (max : Z) (l : bytes) : option Z :=
  let l := match l with
           | b :: l' => if decide (byte_to_Z b = 43) then l' else l
           | [] => l
           end in
  match l with
  | [] => None
  | _ => match parse_digits 0 l with
         | Some v => if decide (v <= max) then Some v else None
         | None => None
         end
  end.

(** [Display] of an unsigned integer below [10 ^ fuel]. *)
Fixpoint show_uint_fuel (fuel : nat) (z : Z) : bytes :=
  match fuel with
  | O => []
  | S fuel' =>
      (if decide (z < 10) then [] else show_uint_fuel fuel' (z / 10))
        ++ [byte_of_Z (48 + z mod 10)]
  end.

(** 20 digits are enough for every [u64]. *)
Definition show_uint (z : Z) : bytes := show_uint_fuel 20 z.

(** ** [Ipv4Addr::from_str] *)

(** The leading digits of a string. *)
Fixpoint span_digits (l : bytes) : bytes * bytes :=
  match l with
  | [] => ([], [])
  | b :: l' =>
      if in_range 48 57 b
      then let '(ds, rest) := span_digits l' in (b :: ds, rest)
      else ([], l)
  end.

(** One octet: one to three digits, no leading zero, at most 255. *)
Definition read_octet (l : bytes) : option (Z * bytes) :=
  let '(ds, rest) := span_digits l in
  if decide (ds = [] \/ 3 < length ds)%nat then None
  else if decide (1 < length ds /\ hd x00 ds = x30)%nat then None
  else match parse_digits 0 ds with
       | Some v => if decide (v <= 255) then Some (v, rest) else None
       | None => None
       end.

Definition read_dot (l : bytes) : option bytes :=
  match l with
  | b :: l' => if decide (b = x2e) then Some l' else None
  | [] => None
  end.

(** [s.parse::<Ipv4Addr>().ok()], as its four octets. *)
Definition parse_ipv4 (l : bytes) : option (Z * Z * Z * Z) :=
  if decide (15 < length l)%nat then None
  else
    '(a, l) ← read_octet l; l ← read_dot l;
    '(b, l) ← read_octet l; l ← read_dot l;
    '(c, l) ← read_octet l; l ← read_dot l;
    '(d, l) ← read_octet l;
    match l with [] => Some (a, b, c, d) | _ => None end.

(** ** Checked arithmetic

    [a + b] on [u16]: overflow panics when the build has overflow checks
    (the development profile), and wraps otherwise (the release profile). *)
Definition add_u16 (overflow_checks : bool) (a b : Z) : outcome Z :=
  if decide (a + b <= u16_MAX) then Done (a + b)
  else if overflow_checks then Panic else Done (as_u16 (a + b)).

(** ** Socket addresses

    [SocketAddr] with the host part as [Display] writes it (an IPv6 address
    in its brackets). *)
Record SocketAddr : Type := mkSocketAddr { sa_host : bytes; sa_port : Z }.

(** [SocketAddr::to_string] *)
Definition SocketAddr_to_string (a : SocketAddr) : bytes :=
  sa_host a ++ [x3a] ++ show_uint (sa_port a).

(** [SocketAddr::set_port] *)
Definition set_port (a : SocketAddr) (p : Z) : SocketAddr :=
  {| sa_host := sa_host a; sa_port := p |}.

#[global] Arguments ws_start : simpl never.
#[global] Arguments ws_end : simpl never.
#[global] Arguments show_uint : simpl never.

Example trim_ex : trim [x20; xc2; xa0; x61; x20; x62; xe2; x80; x89; x0a] = [x61; x20; x62].
Proof. reflexivity. Qed.
Example ipv4_ex : parse_ipv4 (String.list_byte_of_string "127.0.0.1") = Some (127, 0, 0, 1).
Proof. reflexivity. Qed.
Example ipv4_ex2 : parse_ipv4 (String.list_byte_of_string "127.00.0.1") = None.
Proof. reflexivity. Qed.
Example show_ex : show_uint 10001 = String.list_byte_of_string "10001".
Proof. reflexivity. Qed.

(** ** Lemmas on [rsplit_once] *)

Lemma rsplit_once_None d l : rsplit_once d l = None <-> d ∉ l.
Proof.
  induction l as [|b l IH]; cbn.
  - split; [intros _; apply not_elem_of_nil|done].
  - rewrite not_elem_of_cons. destruct (rsplit_once d l) as [[h t]|].
    + split; [done|]. intros [_ Hl]. by apply IH in Hl.
    + case_decide as Hd; split; [done|intros [? _]; congruence| |done].
      intros _. split; [congruence|by apply IH].
Qed.

Lemma rsplit_once_app d h t : d ∉ t -> rsplit_once d (h ++ [d] ++ t) = Some (h, t).
Proof.
  intros Ht. induction h as [|b h IH]; cbn in *.
  - rewrite (proj2 (rsplit_once_None d t) Ht). by rewrite decide_True.
  - by rewrite IH.
Qed.

Lemma rsplit_once_Some d l h t :
  rsplit_once d l = Some (h, t) -> l = h ++ [d] ++ t /\ d ∉ t.
Proof.
  revert h. induction l as [|b l IH]; intros h; cbn; [done|].
  destruct (rsplit_once d l) as [[h' t']|] eqn:E.
  - intros [= <- <-]. destruct (IH h' eq_refl) as [-> ?]. done.
  - apply rsplit_once_None in E. case_decide; [|done]. intros [= <- <-]. by subst.
Qed.

(** ** Lemmas on [trim] *)

(** Printable ASCII other than the space, and ASCII whitespace. *)
Definition graphic (b : byte) : Prop := 33 <= byte_to_Z b <= 126.
Definition ascii_ws (b : byte) : Prop := 9 <= byte_to_Z b <= 13 \/ byte_to_Z b = 32.

Lemma ws_start_graphic b l : graphic b -> ws_start (b :: l) = 0%nat.
Proof.
  unfold graphic, ws_start. intros Hb. cbn.
  destruct (map byte_to_Z (take 2 l)) as [|y [|z r]]; repeat case_match; try done; lia.
Qed.

Lemma ws_start_ascii b l : ascii_ws b -> ws_start (b :: l) = 1%nat.
Proof. unfold ascii_ws, ws_start. intros Hb. cbn. case_match; [done|]. lia. Qed.

Lemma tail_snoc (l : bytes) b k :
  drop (length (l ++ [b]) - S k) (l ++ [b]) = drop (length l - k) l ++ [b].
Proof.
  rewrite length_app. cbn. rewrite drop_app_le by lia. do 2 f_equal. lia.
Qed.

Lemma ws_end_graphic l b : graphic b -> ws_end (l ++ [b]) = 0%nat.
Proof.
  unfold graphic, ws_end. intros Hb. rewrite !tail_snoc.
  rewrite (drop_ge l (length l - 0)) by lia. rewrite length_app. cbn [length app].
  rewrite decide_False by (by rewrite (ws_start_graphic b [] Hb)).
  rewrite decide_False; [rewrite decide_False; [done|]|].
  - intros [Hl H3]. assert (2 <= length l)%nat as Hl' by lia.
    assert (length (drop (length l - 2) l) = 2%nat) as Hd by (rewrite length_drop; lia).
    destruct (drop (length l - 2) l) as [|x [|y [|]]]; try done.
    unfold ws_start in H3. cbn in H3. repeat case_match; try done; lia.
  - intros [Hl H2]. assert (length (drop (length l - 1) l) = 1%nat) as Hd
      by (rewrite length_drop; lia).
    destruct (drop (length l - 1) l) as [|x [|]]; try done.
    unfold ws_start in H2. cbn in H2. repeat case_match; try done; lia.
Qed.

Lemma ws_end_ascii l b : ascii_ws b -> ws_end (l ++ [b]) = 1%nat.
Proof.
  intros Hb. unfold ws_end. rewrite tail_snoc, (drop_ge l (length l - 0)) by lia.
  cbn [app]. by rewrite decide_True by by apply ws_start_ascii.
Qed.

Lemma trim_start_fuel_app w l f :
  Forall ascii_ws w -> ws_start l = 0%nat -> (length w <= f)%nat ->
  trim_start_fuel f (w ++ l) = l.
Proof.
  intros Hw Hl. revert f. induction Hw as [|b w Hb _ IH]; intros f Hf; cbn in *.
  - destruct f; cbn; [done|]. by rewrite Hl.
  - destruct f; [lia|]. cbn. rewrite ws_start_ascii by done. cbn. rewrite drop_0.
    apply IH. lia.
Qed.

Lemma trim_end_fuel_app w l f :
  Forall ascii_ws w -> ws_end l = 0%nat -> (length w <= f)%nat ->
  trim_end_fuel f (l ++ w) = l.
Proof.
  intros Hw Hl. revert f. induction w as [|b w IH] using rev_ind; intros f Hf.
  - rewrite app_nil_r. destruct f; cbn; [done|]. by rewrite Hl.
  - apply Forall_app in Hw as [Hw Hb]. apply Forall_cons in Hb as [Hb _].
    rewrite length_app in Hf. cbn in Hf. destruct f; [lia|].
    rewrite app_assoc. cbn. rewrite ws_end_ascii by done.
    rewrite length_app. cbn. rewrite take_app_le by lia.
    rewrite Nat.add_sub, take_ge by lia. apply IH; [done|lia].
Qed.

(** Trimming removes exactly the surrounding whitespace. *)
Lemma trim_graphic w1 l w2 :
  Forall ascii_ws w1 -> Forall ascii_ws w2 -> Forall graphic l -> l <> [] ->
  trim (w1 ++ l ++ w2) = l.
Proof.
  intros H1 H2 Hl Hne. unfold trim.
  rewrite trim_start_fuel_app; [|done| |rewrite length_app; lia].
  - destruct (exists_last Hne) as (l' & b & ->). apply Forall_app in Hl as [_ Hb].
    apply Forall_cons in Hb as [Hb _]. apply trim_end_fuel_app; [done|by apply ws_end_graphic|].
    rewrite !length_app. lia.
  - destruct l as [|b l]; [done|]. apply Forall_cons in Hl as [Hb _].
    by apply ws_start_graphic.
Qed.

(** ** Lemmas on decimal integers *)

Lemma parse_digits_app acc l1 l2 :
  parse_digits acc (l1 ++ l2) = v ← parse_digits acc l1; parse_digits v l2.
Proof.
  revert acc. induction l1 as [|b l1 IH]; intros acc; cbn; [done|].
  destruct (digit_of b); [apply IH|done].
Qed.

Lemma digit_of_show d : 0 <= d < 10 -> digit_of (byte_of_Z (48 + d)) = Some d.
Proof.
  intros Hd. unfold digit_of, in_range. rewrite byte_to_Z_of_Z, Z.mod_small by lia.
  replace ((48 <=? 48 + d) && (48 + d <=? 57)) with true by lia. f_equal. lia.
Qed.

Lemma show_uint_digits f z :
  (0 < f)%nat -> 0 <= z < 10 ^ Z.of_nat f ->
  parse_digits 0 (show_uint_fuel f z) = Some z /\ show_uint_fuel f z <> [] /\
  Forall (fun b => 48 <= byte_to_Z b <= 57) (show_uint_fuel f z).
Proof.
  revert z. induction f as [|f IH]; intros z Hf Hz; [lia|]. cbn [show_uint_fuel].
  pose proof (Z.mod_pos_bound z 10 ltac:(lia)) as Hm.
  assert (48 <= byte_to_Z (byte_of_Z (48 + z mod 10)) <= 57) as Hb
    by (rewrite byte_to_Z_of_Z, Z.mod_small by lia; lia).
  rewrite parse_digits_app. case_decide as Hlt.
  - cbn. rewrite digit_of_show by done. rewrite Z.mod_small by lia.
    rewrite Z.mod_small in Hb by lia. split_and!; [by f_equal|done|by constructor].
  - rewrite Nat2Z.inj_succ, Z.pow_succ_r in Hz by lia.
    assert (0 <= z / 10 < 10 ^ Z.of_nat f) as Hq
      by (split; [apply Z.div_pos; lia|apply Z.div_lt_upper_bound; lia]).
    assert (0 < f)%nat.
    { destruct f; [|lia]. change (10 ^ Z.of_nat 0) with 1 in *. lia. }
    destruct (IH (z / 10)) as (-> & Hne & Hd); [done|done|]. cbn.
    rewrite digit_of_show by done. split_and!.
    + f_equal. pose proof (Z_div_mod_eq_full z 10). lia.
    + by destruct (show_uint_fuel f (z / 10)).
    + apply Forall_app_2; [done|by constructor].
Qed.

(** [Display] then [FromStr] is the identity on the integers that fit. *)
Lemma parse_show_uint max z :
  0 <= z <= max -> z < 10 ^ 20 -> parse_uint max (show_uint z) = Some z.
Proof.
  intros Hz Hs. destruct (show_uint_digits 20 z) as (Hp & Hne & Hd); [lia|change (Z.of_nat 20) with 20; lia|].
  fold (show_uint z) in *. unfold parse_uint.
  destruct (show_uint z) as [|b l]; [done|]. apply Forall_cons in Hd as [Hb _].
  rewrite decide_False by lia. rewrite Hp. by rewrite decide_True by lia.
Qed.

Lemma show_uint_no_colon z : 0 <= z < 10 ^ 20 -> x3a ∉ show_uint z.
Proof.
  intros Hz Hin. destruct (show_uint_digits 20 z) as (_ & _ & Hd); [lia|change (Z.of_nat 20) with 20; lia|].
  rewrite Forall_forall in Hd. apply Hd in Hin. change (byte_to_Z x3a) with 58 in Hin. lia.
Qed.

(** ** Lemmas on UTF-8 *)

Lemma utf8_valid_ascii l : Forall (fun b => byte_to_Z b <= 127) l -> utf8_valid l = true.
Proof.
  induction 1 as [|b l Hb _ IH]; cbn [utf8_valid]; [done|].
  unfold in_range at 1. pose proof (byte_to_Z_range b).
  by replace ((0 <=? byte_to_Z b) && (byte_to_Z b <=? 127)) with true by lia.
Qed.

Lemma from_utf8_Some l l' : from_utf8 l = Some l' <-> utf8_valid l = true /\ l = l'.
Proof.
  unfold from_utf8. destruct (utf8_valid l); split.
  - by intros [= ->].
  - by intros [_ ->].
  - done.
  - by intros [? _].
Qed.
