(* ===== verification/RustFmt.v ===== *)
(** * Printing text: [String::from_utf8_lossy] and [{:?}] of a string

    The command line prints a payload as [{:?}] of its lossy decoding. A byte
    string is cut into characters and malformed sequences as [Utf8Chunks] of the
    standard library cuts it; decoding replaces each malformed sequence by
    U+FFFD; [{:?}] puts quotes around the text and escapes characters. Which
    characters above U+007F are escaped is in the Unicode tables of the Rust
    release, a parameter ([CharTable]). *)
From S2P Require Import Prelude.
From S2P Require Import RustStd.

Open Scope Z_scope.

(** ** Characters of a byte string *)

(** A continuation byte. *)
Definition cont (b : byte) : bool := in_range 128 191 b.

(** The first character of a byte string, or the malformed sequence it starts
    with: the bytes of a character up to one that cannot follow. The flag tells
    which, then come its bytes and the rest. *)
Definition next_chunk (l : bytes) : option (bool * bytes * bytes) :=
  match l with
  | [] => None
  | a :: l1 => Some (
    if in_range 0 127 a then (true, [a], l1)
    else if in_range 194 223 a then
      match l1 with
      | b :: l2 => if cont b then (true, [a; b], l2) else (false, [a], l1)
      | [] => (false, [a], l1)
      end
    else if in_range 224 239 a then
      match l1 with
      | b :: l2 =>
        if second_of_3 a b then
          match l2 with
          | c :: l3 => if cont c then (true, [a; b; c], l3) else (false, [a; b], l2)
          | [] => (false, [a; b], l2)
          end
        else (false, [a], l1)
      | [] => (false, [a], l1)
      end
    else if in_range 240 244 a then
      match l1 with
      | b :: l2 =>
        if second_of_4 a b then
          match l2 with
          | c :: l3 =>
            if cont c then
              match l3 with
              | d :: l4 => if cont d then (true, [a; b; c; d], l4) else (false, [a; b; c], l3)
              | [] => (false, [a; b; c], l3)
              end
            else (false, [a; b], l2)
          | [] => (false, [a; b], l2)
          end
        else (false, [a], l1)
      | [] => (false, [a], l1)
      end
    else (false, [a], l1))
  end.

(** All of them; each takes at least one byte, so the length is enough fuel. *)
Fixpoint utf8_chunks_fuel (fuel : nat) (l : bytes) : list (bool * bytes) :=
  match fuel with
  | O => []
  | S fuel' =>
      match next_chunk l with
      | None => []
      | Some (valid, c, rest) => (valid, c) :: utf8_chunks_fuel fuel' rest
      end
  end.

Definition utf8_chunks (l : bytes) : list (bool * bytes) := utf8_chunks_fuel (length l) l.

(** ** [String::from_utf8_lossy] *)

(** U+FFFD *)
Definition REPLACEMENT : bytes := [xef; xbf; xbd].

Definition lossy_chunk (vc : bool * bytes) : bytes := if vc.1 then vc.2 else REPLACEMENT.

Definition from_utf8_lossy (l : bytes) : bytes := concat (map lossy_chunk (utf8_chunks l)).

(** ** [{:?}] of a [str] *)

(** The code point of a character, from its bytes. *)
Definition code_point (c : bytes) : Z :=
  match map byte_to_Z c with
  | [a] => a
  | [a; b] => (a - 192) * 2 ^ 6 + (b - 128)
  | [a; b; c] => (a - 224) * 2 ^ 12 + (b - 128) * 2 ^ 6 + (c - 128)
  | [a; b; c; d] => (a - 240) * 2 ^ 18 + (b - 128) * 2 ^ 12 + (c - 128) * 2 ^ 6 + (d - 128)
  | _ => 0
  end.

(** Whether the character with this code point, above U+007F, extends a
    grapheme or is not printable. *)
Class CharTable : Type := escaped : Z -> bool.

(** Lower-case hexadecimal without leading zeroes; six digits are enough for
    every code point. *)
Fixpoint show_hex_fuel (fuel : nat) (z : Z) : bytes :=
  match fuel with
  | O => []
  | S fuel' =>
      let d := z mod 16 in
      (if decide (z < 16) then [] else show_hex_fuel fuel' (z / 16))
        ++ [byte_of_Z (if decide (d < 10) then 48 + d else 87 + d)]
  end.

Definition show_hex (z : Z) : bytes := show_hex_fuel 6 z.

Section debug.
Context `{CharTable}.

(** [char::escape_debug] in a string: the named escapes, then [\u{..}] for what
    is not printable. *)
Definition escape_debug (c : bytes) : bytes :=
  let z := code_point c in
  if decide (z = 0) then [x5c; x30]
  else if decide (z = 9) then [x5c; x74]
  else if decide (z = 13) then [x5c; x72]
  else if decide (z = 10) then [x5c; x6e]
  else if decide (z = 92) then [x5c; x5c]
  else if decide (z = 34) then [x5c; x22]
  else if decide (z < 32 \/ z = 127 \/ (128 <= z /\ escaped z = true))
    then [x5c; x75; x7b] ++ show_hex z ++ [x7d]
  else c.

Definition debug_str (s : bytes) : bytes :=
  [x22] ++ concat (map (fun vc => escape_debug vc.2) (utf8_chunks s)) ++ [x22].
End debug.

#[global] Arguments utf8_chunks : simpl never.
#[global] Arguments from_utf8_lossy : simpl never.
#[global] Arguments debug_str : simpl never.

(** ** Lemmas *)

Lemma next_chunk_split l valid c rest :
  next_chunk l = Some (valid, c, rest) -> l = c ++ rest /\ c <> [].
Proof. destruct l as [|a l1]; [done|]. cbn. intros [= E]. repeat case_match; simplify_eq; by split. Qed.

Lemma utf8_chunks_fuel_concat f l : (length l <= f)%nat -> concat (map snd (utf8_chunks_fuel f l)) = l.
Proof.
  revert l. induction f as [|f IH]; intros l Hf; cbn; [by destruct l; cbn in Hf; [|lia]|].
  destruct (next_chunk l) as [[[v c] rest]|] eqn:E; [|by destruct l].
  apply next_chunk_split in E as [-> Hc]. cbn. rewrite IH; [done|].
  rewrite length_app in Hf. destruct c; [done|]. cbn in Hf. lia.
Qed.

(** Nothing is lost in the cutting. *)
Lemma utf8_chunks_concat l : concat (map snd (utf8_chunks l)) = l.
Proof. by apply utf8_chunks_fuel_concat. Qed.

Lemma utf8_chunks_fuel_more f1 f2 l :
  (length l <= f1)%nat -> (length l <= f2)%nat -> utf8_chunks_fuel f1 l = utf8_chunks_fuel f2 l.
Proof.
  revert f2 l. induction f1 as [|f1 IH]; intros [|f2] l H1 H2; cbn in *; try done.
  - by destruct l; [|cbn in H1; lia].
  - by destruct l; [|cbn in H2; lia].
  - destruct (next_chunk l) as [[[v c] rest]|] eqn:E; [|done]. f_equal.
    apply next_chunk_split in E as [-> Hc]. rewrite length_app in *. destruct c; [done|]. cbn in *. apply IH; lia.
Qed.

Lemma utf8_chunks_next l v c rest :
  next_chunk l = Some (v, c, rest) -> utf8_chunks l = (v, c) :: utf8_chunks rest.
Proof.
  intros E. unfold utf8_chunks. pose proof (next_chunk_split _ _ _ _ E) as [Hl Hc].
  destruct l as [|a l1]; [done|]. cbn [length utf8_chunks_fuel]. rewrite E. f_equal.
  apply utf8_chunks_fuel_more; [|done]. apply (f_equal length) in Hl. rewrite length_app in Hl.
  destruct c; [done|]. cbn in Hl. lia.
Qed.

Lemma utf8_valid_cons a l1 :
  utf8_valid (a :: l1) =
    if in_range 0 127 a then utf8_valid l1
    else match l1 with
    | [] => false
    | b :: l2 =>
      if in_range 194 223 a then in_range 128 191 b && utf8_valid l2
      else match l2 with
      | [] => false
      | c :: l3 =>
        if in_range 224 239 a
        then second_of_3 a b && in_range 128 191 c && utf8_valid l3
        else match l3 with
        | [] => false
        | d :: l4 =>
          in_range 240 244 a && second_of_4 a b && in_range 128 191 c &&
          in_range 128 191 d && utf8_valid l4
        end
      end
    end.
Proof. done. Qed.

(** A string is valid when it starts with a character and the rest is valid. *)
Lemma next_chunk_valid l v c rest :
  next_chunk l = Some (v, c, rest) -> utf8_valid l = v && utf8_valid rest.
Proof.
  destruct l as [|a l1]; [done|]. cbn [next_chunk]. unfold cont. intros [= E]. revert E. rewrite utf8_valid_cons.
  repeat (case_match; cbn [andb]); intros E; simplify_eq; try done.
Qed.

(** A character is found again whatever follows it. *)
Lemma next_chunk_again l c rest more :
  next_chunk l = Some (true, c, rest) -> next_chunk (c ++ more) = Some (true, c, more).
Proof.
  destruct l as [|a l1]; [done|]. cbn [next_chunk]. intros [= E]. revert E.
  repeat case_match; intros; simplify_eq; cbn [app next_chunk]; by repeat (case_match; simplify_eq).
Qed.

Lemma chunks_valid_fuel f l :
  (length l <= f)%nat -> utf8_valid l = true -> Forall (fun vc => vc.1 = true) (utf8_chunks_fuel f l).
Proof.
  revert l. induction f as [|f IH]; intros l Hf Hv; cbn; [done|].
  destruct (next_chunk l) as [[[v c] rest]|] eqn:E; [|done].
  rewrite (next_chunk_valid _ _ _ _ E) in Hv. apply andb_true_iff in Hv as [-> Hv].
  constructor; [done|]. apply IH; [|done].
  apply next_chunk_split in E as [-> Hc]. rewrite length_app in Hf. destruct c; [done|]. cbn in Hf. lia.
Qed.

(** Valid UTF-8 is decoded as it is. *)
Lemma lossy_valid l : utf8_valid l = true -> from_utf8_lossy l = l.
Proof.
  intros Hv. unfold from_utf8_lossy. rewrite <- (utf8_chunks_concat l) at 2. f_equal.
  assert (Forall (fun vc => vc.1 = true) (utf8_chunks l)) as Hall by by apply chunks_valid_fuel.
  induction Hall as [|[v c] cs Hvc _ IH]; [done|]. cbn in *. by rewrite IH, Hvc.
Qed.

Lemma lossy_next l v c rest :
  next_chunk l = Some (v, c, rest) -> from_utf8_lossy l = lossy_chunk (v, c) ++ from_utf8_lossy rest.
Proof. intros E. unfold from_utf8_lossy. by rewrite (utf8_chunks_next _ _ _ _ E). Qed.

(** What the decoding yields is always valid UTF-8. *)
Lemma lossy_is_valid l : utf8_valid (from_utf8_lossy l) = true.
Proof.
  remember (length l) as n eqn:Hn. revert l Hn.
  induction n as [n IH] using lt_wf_ind. intros l ->.
  destruct (next_chunk l) as [[[v c] rest]|] eqn:E; [|by destruct l].
  rewrite (lossy_next _ _ _ _ E). pose proof (next_chunk_split _ _ _ _ E) as [Hl Hc].
  assert (utf8_valid (from_utf8_lossy rest) = true) as Hr.
  { eapply IH; [|done]. rewrite Hl, length_app. destruct c; [done|]. cbn. lia. }
  destruct v; cbn [lossy_chunk fst snd].
  - by rewrite (next_chunk_valid _ _ _ _ (next_chunk_again _ _ _ _ E)).
  - change (REPLACEMENT ++ ?x) with ([xef; xbf; xbd] ++ x).
    by rewrite (next_chunk_valid ([xef; xbf; xbd] ++ from_utf8_lossy rest) true _ _ eq_refl).
Qed.

Lemma lossy_same l : from_utf8_lossy l = l <-> utf8_valid l = true.
Proof. split; [intros <-; apply lossy_is_valid|apply lossy_valid]. Qed.

(** ASCII that is printed as it is. *)
Definition plain (b : byte) : Prop := 32 <= byte_to_Z b <= 126 /\ b <> x22 /\ b <> x5c.

Lemma plain_valid l : Forall plain l -> utf8_valid l = true.
Proof. intros Hl. apply utf8_valid_ascii. eapply Forall_impl; [exact Hl|]. intros b [Hb _]. lia. Qed.

Lemma escape_plain `{CharTable} b : plain b -> escape_debug [b] = [b].
Proof.
  intros (Hb & Hq & Hs). unfold escape_debug, code_point. cbn [map].
  assert (forall n c, byte_to_Z c = n -> b <> c -> byte_to_Z b <> n) as Hinj.
  { intros n c <- Hne E. by apply Hne, byte_to_Z_inj. }
  pose proof (Hinj 92 x5c eq_refl Hs). pose proof (Hinj 34 x22 eq_refl Hq).
  by rewrite !decide_False by lia.
Qed.

(** Such text is printed between quotes. *)
Lemma debug_plain `{CharTable} l : Forall plain l -> debug_str l = [x22] ++ l ++ [x22].
Proof.
  intros Hl. unfold debug_str. f_equal. f_equal.
  induction Hl as [|b l Hb _ IH]; [done|].
  assert (next_chunk (b :: l) = Some (true, [b], l)) as E.
  { cbn. unfold in_range. destruct Hb as [Hb _]. by replace ((0 <=? byte_to_Z b) && (byte_to_Z b <=? 127)) with true by lia. }
  rewrite (utf8_chunks_next _ _ _ _ E). cbn [map concat snd]. by rewrite IH, escape_plain.
Qed.

Example lossy_cut : from_utf8_lossy [x61; xe2; x82] = [x61] ++ REPLACEMENT.
Proof. reflexivity. Qed.
Example lossy_surrogate : from_utf8_lossy [xed; xa0; x80] = REPLACEMENT ++ REPLACEMENT ++ REPLACEMENT.
Proof. reflexivity. Qed.
Example debug_controls : @debug_str (fun _ => false) [x22; x0a; x1b] =
  [x22; x5c; x22; x5c; x6e; x5c; x75; x7b; x31; x62; x7d; x22].
Proof. reflexivity. Qed.
