(* ===== verification/Interfaces.v ===== *)
(** * Interfaces to the code that is not in the repository

    The relay fabric is written against third-party crates: [rand],
    [chacha20poly1305], [x25519-dalek], [hkdf], [hex] and [tokio]. Each is a
    type class of operations here, with the documented behaviour the program
    relies on as a second class of laws. Every definition that uses such a
    crate takes the operations as an argument, every theorem that relies on
    its behaviour takes the laws. [Instances] discharges all of them with
    concrete functions. *)
From S2P Require Import Prelude.
From S2P Require Import RustStd.

Open Scope Z_scope.

(** ** Randomness: [rand::RngCore], [rand::seq::SliceRandom] and
    [x25519_dalek::StaticSecret::random_from_rng]

    The generator's state is passed explicitly; [OsRng] is one such state
    threaded through the program. *)
Class Rng (R : Type) : Type := {
  (** [fill_bytes] on a buffer of the given length. *)
  fill_bytes : nat -> R -> bytes * R;
  next_u64 : R -> Z * R;
  shuffle : forall {A : Type}, list A -> R -> list A * R;
  random_secret : R -> bytes * R
}.

Class RngLaws (R : Type) `{Rng R} : Prop := {
  fill_bytes_length n r : length (fill_bytes n r).1 = n;
  next_u64_range r : 0 <= (next_u64 r).1 < 2 ^ 64;
  (** A shuffle permutes the slice. *)
  shuffle_perm {A : Type} (l : list A) r : (shuffle l r).1 ≡ₚ l;
  random_secret_length r : length (random_secret r).1 = 32%nat
}.

(** ** Cryptography: [chacha20poly1305], [x25519_dalek], [hkdf]

    Keys, nonces, secrets and points are their byte strings: [StaticSecret]
    and [PublicKey] wrap 32 bytes, which [from] and [to_bytes]/[as_bytes]
    carry unchanged. *)
Class Crypto : Type := {
  (** [ChaCha20Poly1305::new(key).encrypt(nonce, plaintext)] *)
  aead_encrypt : bytes -> bytes -> bytes -> option bytes;
  (** [ChaCha20Poly1305::new(key).decrypt(nonce, ciphertext)] *)
  aead_decrypt : bytes -> bytes -> bytes -> option bytes;
  (** [PublicKey::from(&secret)] *)
  x25519_public : bytes -> bytes;
  (** [secret.diffie_hellman(&public).to_bytes()] *)
  x25519 : bytes -> bytes -> bytes;
  (** [Hkdf::<Sha256>::new(None, ikm).expand(info, &mut [0u8; n])] *)
  hkdf_sha256 : bytes -> bytes -> nat -> option bytes
}.

Class CryptoLaws `{Crypto} : Prop := {
  (** Encryption only fails on a plaintext beyond the cipher's block
      counter, far above 4 GiB. *)
  aead_encrypt_total k n m : len m < 2 ^ 32 -> is_Some (aead_encrypt k n m);
  (** The tag adds 16 bytes. *)
  aead_encrypt_length k n m c :
    aead_encrypt k n m = Some c -> length c = (length m + 16)%nat;
  aead_decrypt_encrypt k n m c :
    aead_encrypt k n m = Some c -> aead_decrypt k n c = Some m;
  (** The stream cipher and its tag are deterministic, and decryption
      recomputes the tag: what decrypts is what encryption produces. *)
  aead_decrypt_sound k n m c :
    aead_decrypt k n c = Some m -> aead_encrypt k n m = Some c;
  x25519_public_length s : length s = 32%nat -> length (x25519_public s) = 32%nat;
  (** Both ends of a Diffie-Hellman exchange agree. *)
  x25519_comm a b :
    length a = 32%nat -> length b = 32%nat ->
    x25519 a (x25519_public b) = x25519 b (x25519_public a);
  x25519_length s p :
    length s = 32%nat -> length p = 32%nat -> length (x25519 s p) = 32%nat;
  (** HKDF-SHA256 expands to at most 255 blocks of 32 bytes. *)
  hkdf_sha256_ok ikm info n :
    (n <= 255 * 32)%nat -> exists okm, hkdf_sha256 ikm info n = Some okm /\ length okm = n
}.

(** ** Hexadecimal: the [hex] crate

    [hex::encode] yields lowercase digits, two per byte. *)
Class Hex : Type := {
  hex_encode : bytes -> bytes;
  hex_decode : bytes -> option bytes
}.

Definition is_hex_digit (b : byte) : Prop :=
  48 <= byte_to_Z b <= 57 \/ 97 <= byte_to_Z b <= 102.

Class HexLaws `{Hex} : Prop := {
  hex_decode_encode b : hex_decode (hex_encode b) = Some b;
  hex_encode_digits b : Forall is_hex_digit (hex_encode b);
  hex_encode_length b : length (hex_encode b) = (2 * length b)%nat;
  hex_decode_length h b : hex_decode h = Some b -> length h = (2 * length b)%nat
}.

(** ** The network: [tokio::net::TcpStream] and the I/O extension traits

    [W] is the state of the world outside the program, [Conn] a connected
    stream. [inbox w c] is what the peer sends on [c] before it closes,
    [outbox w c] what was accepted for transmission on [c]. *)
Inductive io_error : Type :=
  | UnexpectedEof
  | InvalidData
  | ConnectionError (code : Z).

#[export] Instance io_error_eq_dec : EqDecision io_error.
Proof. solve_decision. Defined.

Abbreviation io_result := (result io_error).

(** Code that acts on the world and may fail with an I/O error: the state
    and the error travel together, and [x <-- m ;; k] is [m.await?]. *)
Definition io (W A : Type) : Type := W -> io_result A * W.

Definition io_ret {W A : Type} (a : A) : io W A := fun w => (Ok a, w).

Definition io_err {W A : Type} (e : io_error) : io W A := fun w => (Err e, w).

Definition io_bind {W A B : Type} (m : io W A) (k : A -> io W B) : io W B :=
  fun w => match m w with
           | (Ok a, w') => k a w'
           | (Err e, w') => (Err e, w')
           end.

Notation "x <-- m ;; k" := (io_bind m (fun x => k))
  (at level 100, m at next level, right associativity) : veil_scope.

Class Net (W Conn : Type) : Type := {
  connect : bytes -> io W Conn;
  read_exact : Conn -> nat -> io W bytes;
  write_all : Conn -> bytes -> io W unit;
  inbox : W -> Conn -> bytes;
  outbox : W -> Conn -> bytes;
  (** The address a stream was opened to. *)
  dialled : Conn -> bytes;
  (** The streams that are open in this process. *)
  live : W -> Conn -> Prop
}.

Class NetLaws (W Conn : Type) `{Net W Conn} : Prop := {
  (** [read_exact] fills the buffer when the peer sends enough, and leaves
      the rest for the next read. *)
  read_exact_ok c n w :
    (n <= length (inbox w c))%nat ->
    exists w', read_exact c n w = (Ok (take n (inbox w c)), w') /\
      inbox w' c = drop n (inbox w c);
  (** Otherwise the stream ends first. *)
  read_exact_eof c n w :
    (length (inbox w c) < n)%nat ->
    exists e w', read_exact c n w = (Err e, w');
  (** A successful [write_all] has handed over the whole buffer. *)
  write_all_ok c bs w w' :
    write_all c bs w = (Ok tt, w') -> outbox w' c = outbox w c ++ bs;
  (** Streams are independent: reading leaves what was sent alone, writing
      leaves what is to be received alone, and neither touches another
      stream or closes one. *)
  read_exact_frame c n w r w' c' :
    read_exact c n w = (r, w') ->
    outbox w' c' = outbox w c' /\ (c' <> c -> inbox w' c' = inbox w c') /\
    (live w c' -> live w' c');
  write_all_frame c bs w r w' c' :
    write_all c bs w = (r, w') ->
    inbox w' c' = inbox w c' /\ (c' <> c -> outbox w' c' = outbox w c') /\
    (live w c' -> live w' c');
  (** Connecting opens a new stream, on which nothing was sent yet. *)
  connect_fresh addr w r w' c' :
    connect addr w = (r, w') -> live w c' ->
    live w' c' /\ inbox w' c' = inbox w c' /\ outbox w' c' = outbox w c' /\ r <> Ok c';
  connect_ok addr w c w' :
    connect addr w = (Ok c, w') -> live w' c /\ outbox w' c = [] /\ dialled c = addr
}.

(** A stream on which a write has failed stays unusable: every later write
    fails too. A failed [write_all] has handed over less than the buffer, and
    writing an empty buffer does not touch the stream. *)
Class StreamBreak (W Conn : Type) : Type := broken : W -> Conn -> Prop.

Class StreamBreakLaws (W Conn : Type) `{Net W Conn} `{StreamBreak W Conn} : Prop := {
  write_all_err c bs w e w' :
    write_all c bs w = (Err e, w') ->
    broken w' c /\ exists k, (k < length bs)%nat /\ outbox w' c = outbox w c ++ take k bs;
  write_all_broken c bs w r w' :
    broken w c -> write_all c bs w = (r, w') ->
    outbox w' c = outbox w c /\ (bs <> [] -> r <> Ok tt);
  (** A broken stream stays so, whatever happens to it or to others. *)
  read_exact_broken c n w r w' c' : read_exact c n w = (r, w') -> broken w c' -> broken w' c';
  write_all_stays_broken c bs w r w' c' : write_all c bs w = (r, w') -> broken w c' -> broken w' c';
  connect_broken addr w r w' c' : connect addr w = (r, w') -> live w c' -> broken w c' -> broken w' c'
}.

(** ** Iteration order of [std::collections::HashMap]

    The order in which [values] visits a map is unspecified: it is some
    permutation of the entries, and every theorem holds for all of them. *)
Class HashOrder : Type := hash_order : forall {A : Type}, list A -> list A.

Class HashOrderLaws `{HashOrder} : Prop :=
  hash_order_perm : forall {A : Type} (l : list A), hash_order l ≡ₚ l.

(** ** Synchronisation: [tokio::sync::Semaphore] and [mpsc::unbounded_channel] *)

(** A counting semaphore: [try_acquire] takes a permit when one is left, and
    dropping the permit returns it. *)
Class Semaphore (S : Type) : Type := {
  sem_new : nat -> S;
  try_acquire : S -> option S;
  release : S -> S;
  available_permits : S -> nat
}.

(** [Semaphore::MAX_PERMITS], [usize::MAX >> 3]; [Semaphore::new] panics above. *)
Definition MAX_PERMITS : Z := 2 ^ 61 - 1.

Definition Semaphore_new {S : Type} `{Semaphore S} (permits : nat) : outcome S :=
  if decide (Z.of_nat permits <= MAX_PERMITS) then Done (sem_new permits) else Panic.

Class SemaphoreLaws (S : Type) `{Semaphore S} : Prop := {
  available_new n : available_permits (sem_new n) = n;
  available_acquire s s' :
    try_acquire s = Some s' -> available_permits s = Datatypes.S (available_permits s');
  available_exhausted s : try_acquire s = None <-> available_permits s = 0%nat;
  available_release s : available_permits (release s) = Datatypes.S (available_permits s)
}.

(** An unbounded channel: a send never blocks and never fails while the
    receiver is open; [ch_sent] is what was sent, in order. *)
Class Channel (Ch : Type) : Type := {
  ch_new : Ch;
  ch_send : bytes -> Ch -> Ch;
  ch_open : Ch -> bool;
  ch_sent : Ch -> list bytes
}.

Class ChannelLaws (Ch : Type) `{Channel Ch} : Prop := {
  ch_new_open : ch_open ch_new = true;
  ch_new_empty : ch_sent ch_new = [];
  ch_send_open b c : ch_open (ch_send b c) = ch_open c;
  ch_sent_send b c :
    ch_sent (ch_send b c) = if ch_open c then ch_sent c ++ [b] else ch_sent c
}.

(** ** Files: [std::fs], and JSON: [serde_json]

    Paths and file contents are strings. *)
Class Fs (W : Type) : Type := {
  read_to_string : bytes -> io W bytes;
  fs_write : bytes -> bytes -> io W unit
}.

Class FsLaws (W : Type) `{Fs W} : Prop := {
  (** What was written is what is read next. *)
  read_after_write path data w w' :
    fs_write path data w = (Ok tt, w') ->
    exists w'', read_to_string path w' = (Ok data, w'')
}.

(** Serialization of a derived type [A], with errors [E]. *)
Class Json (E A : Type) : Type := {
  from_str : bytes -> result E A;
  to_string_pretty : A -> result E bytes
}.

(** Every value of [A] serializes, and the text of a value that satisfies the
    invariants of its field types parses back to the value. *)
Class JsonLaws (E A : Type) (valid : A -> Prop) `{Json E A} : Prop := {
  to_string_pretty_ok a : exists s, to_string_pretty a = Ok s;
  from_str_to_string a s :
    valid a -> to_string_pretty a = Ok s -> from_str s = Ok a
}.

(** ** Listening, time and tasks: [TcpListener::bind], [tokio::time::sleep],
    [tokio::spawn]

    [bind] reserves a local address. While the program sleeps the network goes
    on. Spawning the tasks of a relay hands it to the runtime: [P] is the state
    of its tasks, listening at the first address, its mailbox at the second. *)
Class Listen (W : Type) : Type := { bind : SocketAddr -> io W unit }.

Class Clock (W : Type) : Type := { sleep : Z -> W -> W }.

Class Spawn (W P : Type) : Type := {
  spawn : SocketAddr -> SocketAddr -> P -> W -> W;
  (** What was spawned, as it was then. *)
  spawned : W -> list (SocketAddr * SocketAddr * P)
}.

Class SpawnLaws (W P : Type) `{Spawn W P} : Prop :=
  spawned_spawn a m p w : spawned (spawn a m p w) = spawned w ++ [(a, m, p)].
