(* ===== verification/Instances.v ===== *)
(** * Concrete instances of the interfaces

    Executable functions that satisfy the laws of [Interfaces]. They are not
    the third-party crates: they show that the laws are consistent and let
    the theorems be applied to concrete inputs. The cipher appends a checksum
    of key, nonce and plaintext, the exchange adds byte vectors, the random
    generator counts, and the network is a store of scripted streams. *)
From S2P Require Import Prelude.
From S2P Require Import RustFmt.
From S2P Require Import Interfaces.

Open Scope Z_scope.

(** ** Randomness *)

Definition counter_bytes (n : nat) (r : Z) : bytes :=
  map (fun i => byte_of_Z (r + Z.of_nat i)) (seq 0 n).

(** A rotation of the list by the generator's state. *)
Definition rotate_list {A : Type} (l : list A) (r : Z) : list A :=
  let k := Z.to_nat (r mod 7) in drop k l ++ take k l.

#[export] Instance counter_rng : Rng Z := {
  fill_bytes n r := (counter_bytes n r, r + 1);
  next_u64 r := (r mod 2 ^ 64, r + 1);
  shuffle A l r := (rotate_list l r, r + 1);
  random_secret r := (counter_bytes 32 r, r + 1)
}.

Lemma length_counter_bytes n r : length (counter_bytes n r) = n.
Proof. unfold counter_bytes. by rewrite length_map, length_seq. Qed.

Lemma rotate_list_perm {A : Type} (l : list A) r : rotate_list l r ≡ₚ l.
Proof. unfold rotate_list. rewrite Permutation_app_comm. by rewrite take_drop. Qed.

#[export] Instance counter_rng_laws : RngLaws Z.
Proof.
  constructor; intros.
  - apply length_counter_bytes.
  - apply Z.mod_pos_bound. lia.
  - apply rotate_list_perm.
  - apply length_counter_bytes.
Qed.

(** ** Cryptography *)

Definition sum_bytes (l : bytes) : Z := fold_right (fun b acc => byte_to_Z b + acc) 0 l.

Definition add_byte (a b : byte) : byte := byte_of_Z (byte_to_Z a + byte_to_Z b).

Definition checksum (k n m : bytes) : bytes :=
  to_be_bytes 16 (sum_bytes k * 2 ^ 40 + sum_bytes n * 2 ^ 20 + sum_bytes m).

Definition toy_encrypt (k n m : bytes) : option bytes := Some (m ++ checksum k n m).

Definition toy_decrypt (k n c : bytes) : option bytes :=
  let m := take (length c - 16) c in
  if decide (16 <= length c /\ drop (length c - 16) c = checksum k n m)%nat
  then Some m else None.

Definition toy_hkdf (ikm info : bytes) (n : nat) : option bytes :=
  if decide (n <= 255 * 32)%nat
  then Some (take n (map (add_byte (byte_of_Z (sum_bytes info))) ikm ++ zeros n))
  else None.

#[export] Instance toy_crypto : Crypto := {
  aead_encrypt := toy_encrypt;
  aead_decrypt := toy_decrypt;
  x25519_public s := s;
  x25519 s p := zip_with add_byte s p;
  hkdf_sha256 := toy_hkdf
}.

Lemma length_checksum k n m : length (checksum k n m) = 16%nat.
Proof. apply length_to_be_bytes. Qed.

Lemma add_byte_comm a b : add_byte a b = add_byte b a.
Proof. unfold add_byte. by rewrite Z.add_comm. Qed.

#[export] Instance toy_crypto_laws : CryptoLaws.
Proof.
  constructor; cbn.
  - intros k n m _. by eexists.
  - intros k n m c [= <-]. by rewrite length_app, length_checksum.
  - intros k n m c [= <-]. unfold toy_decrypt.
    rewrite length_app, length_checksum, Nat.add_sub.
    rewrite take_app_length, drop_app_length. rewrite decide_True; [done|]. split; [lia|done].
  - unfold toy_decrypt, toy_encrypt. intros k n m c. case_decide as E; [|done].
    intros [= <-]. destruct E as [_ E]. rewrite <- E. by rewrite take_drop.
  - done.
  - intros a b _ _. revert b. induction a as [|x a IH]; intros [|y b]; cbn; try done.
    by rewrite add_byte_comm, IH.
  - intros s p Hs Hp. rewrite length_zip_with. lia.
  - intros ikm info n Hn. unfold toy_hkdf. rewrite decide_True by done.
    eexists; split; [done|]. rewrite length_take, length_app, length_zeros. lia.
Qed.

(** ** Hexadecimal *)

Definition hex_digit (v : Z) : byte := byte_of_Z (if decide (v < 10) then 48 + v else 87 + v).

Definition hex_value (b : byte) : option Z :=
  let v := byte_to_Z b in
  if decide (48 <= v <= 57) then Some (v - 48)
  else if decide (97 <= v <= 102) then Some (v - 87)
  else None.

Fixpoint hex_string (l : bytes) : bytes :=
  match l with
  | [] => []
  | b :: l' => hex_digit (byte_to_Z b / 16) :: hex_digit (byte_to_Z b mod 16) :: hex_string l'
  end.

Fixpoint hex_parse (l : bytes) : option bytes :=
  match l with
  | [] => Some []
  | a :: b :: l' =>
      x ← hex_value a; y ← hex_value b; r ← hex_parse l';
      Some (byte_of_Z (x * 16 + y) :: r)
  | _ => None
  end.

#[export] Instance hex_crate : Hex := { hex_encode := hex_string; hex_decode := hex_parse }.

Lemma hex_digit_spec v :
  0 <= v < 16 -> is_hex_digit (hex_digit v) /\ hex_value (hex_digit v) = Some v.
Proof.
  intros Hv. unfold hex_digit, is_hex_digit, hex_value.
  rewrite byte_to_Z_of_Z, Z.mod_small by (case_decide; lia).
  repeat case_decide; try lia; split; try lia; f_equal; lia.
Qed.

Lemma nibbles b : 0 <= byte_to_Z b / 16 < 16 /\ 0 <= byte_to_Z b mod 16 < 16.
Proof.
  pose proof (byte_to_Z_range b). split; [|apply Z.mod_pos_bound; lia].
  split; [apply Z.div_pos; lia|apply Z.div_lt_upper_bound; lia].
Qed.

#[export] Instance hex_crate_laws : HexLaws.
Proof.
  constructor; cbn.
  - intros l. induction l as [|b l IH]; cbn; [done|]. destruct (nibbles b) as [H1 H2].
    rewrite (proj2 (hex_digit_spec _ H1)), (proj2 (hex_digit_spec _ H2)), IH. cbn.
    do 2 f_equal. rewrite <- (byte_of_Z_to_Z b) at 3. f_equal.
    pose proof (Z_div_mod_eq_full (byte_to_Z b) 16). lia.
  - intros l. induction l as [|b l IH]; cbn; [done|]. destruct (nibbles b) as [H1 H2].
    apply hex_digit_spec in H1 as [H1 _], H2 as [H2 _]. apply Forall_cons; split; [done|]. by apply Forall_cons.
  - intros l. induction l as [|b l IH]; cbn; [done|]. rewrite IH. lia.
  - intros h. remember (length h) as n eqn:Hn. revert h Hn.
    induction n as [n IH] using lt_wf_ind. intros [|a [|b h]] -> l; cbn; try done.
    { by intros [= <-]. }
    destruct (hex_value a), (hex_value b); cbn; try done.
    destruct (hex_parse h) as [r|] eqn:E; cbn; [|done]. intros [= <-]. cbn.
    pose proof (IH (length h) ltac:(cbn; lia) h eq_refl r E). lia.
Qed.

(** ** The network *)

(** A stream is its number and the address it was dialled to; [sim_script]
    gives, per address that accepts connections, what the peer sends; the
    streams whose numbers are in [sim_broken] refuse writes. *)
Abbreviation sim_conn := (nat * list byte)%type.

Record sim : Type := mkSim {
  sim_next : nat;
  sim_in : gmap sim_conn bytes;
  sim_out : gmap sim_conn bytes;
  sim_script : gmap bytes bytes;
  sim_broken : list nat
}.

Definition sim_connect (addr : bytes) (w : sim) : io_result sim_conn * sim :=
  match sim_script w !! addr with
  | None => (Err (ConnectionError 111), w)
  | Some b =>
      let c := (sim_next w, addr) in
      (Ok c,
       {| sim_next := S (sim_next w);
          sim_in := <[c := b]> (sim_in w);
          sim_out := <[c := []]> (sim_out w);
          sim_script := sim_script w; sim_broken := sim_broken w |})
  end.

Definition set_in (c : sim_conn) (b : bytes) (w : sim) : sim :=
  {| sim_next := sim_next w; sim_in := <[c := b]> (sim_in w); sim_out := sim_out w;
     sim_script := sim_script w; sim_broken := sim_broken w |}.

Definition set_out (c : sim_conn) (b : bytes) (w : sim) : sim :=
  {| sim_next := sim_next w; sim_in := sim_in w; sim_out := <[c := b]> (sim_out w);
     sim_script := sim_script w; sim_broken := sim_broken w |}.

Definition sim_inbox (w : sim) (c : sim_conn) : bytes := default [] (sim_in w !! c).
Definition sim_outbox (w : sim) (c : sim_conn) : bytes := default [] (sim_out w !! c).

#[export] Instance sim_net : Net sim sim_conn := {
  connect := sim_connect;
  read_exact c n w :=
    if decide (n <= length (sim_inbox w c))%nat
    then (Ok (take n (sim_inbox w c)), set_in c (drop n (sim_inbox w c)) w)
    else (Err UnexpectedEof, set_in c [] w);
  write_all c bs w :=
    if decide (bs <> [] /\ c.1 ∈ sim_broken w) then (Err (ConnectionError 32), w)
    else (Ok tt, set_out c (sim_outbox w c ++ bs) w);
  inbox := sim_inbox;
  outbox := sim_outbox;
  dialled c := c.2;
  live w c := (c.1 < sim_next w)%nat
}.

#[export] Instance sim_net_laws : NetLaws sim sim_conn.
Proof.
  constructor; cbn.
  - intros c n w Hn. rewrite decide_True by done. eexists; split; [done|].
    unfold sim_inbox; cbn. by rewrite lookup_insert_eq.
  - intros c n w Hn. rewrite decide_False by lia. by eexists _, _.
  - intros c bs w w'. case_decide; [done|]. intros [= <-].
    unfold sim_outbox; cbn. by rewrite lookup_insert_eq.
  - intros c n w r w' c'. case_decide; intros [= <- <-]; split_and!; try done;
      intros Hne; unfold sim_inbox; cbn; by rewrite lookup_insert_ne.
  - intros c bs w r w' c'. case_decide; intros [= <- <-]; split_and!; try done;
      intros Hne; unfold sim_outbox; cbn; by rewrite lookup_insert_ne.
  - unfold sim_connect. intros addr w r w' c'. case_match; intros [= <- <-] Hl; cbn;
      unfold sim_inbox, sim_outbox; cbn; [|by split_and!].
    rewrite !lookup_insert_ne by (intros <-; cbn in Hl; lia).
    split_and!; try done; [lia|]. intros [= <-]. cbn in Hl. lia.
  - unfold sim_connect. intros addr w c w'. case_match; intros [= <- <-]; cbn.
    unfold sim_outbox; cbn. rewrite lookup_insert_eq. split_and!; [lia|done..].
Qed.

#[export] Instance sim_break : StreamBreak sim sim_conn := fun w c => c.1 ∈ sim_broken w.

#[export] Instance sim_break_laws : StreamBreakLaws sim sim_conn.
Proof.
  constructor; cbn; unfold broken, sim_break.
  - intros c bs w e w'. case_decide as Hd; [|done]. intros [= _ <-]. split; [apply Hd|].
    exists 0%nat. rewrite app_nil_r. split; [|done]. destruct bs; [by destruct Hd as [[] _]|cbn; lia].
  - intros c bs w r w' Hb. case_decide as Hd; intros [= <- <-]; split; try done.
    + assert (bs = []) as -> by (destruct bs; [done|destruct Hd; by split]).
      unfold sim_outbox. cbn. by rewrite lookup_insert_eq, app_nil_r.
    + intros Hbs. by destruct Hd.
  - intros c n w r w' c'. by case_decide; intros [= <- <-].
  - intros c bs w r w' c'. by case_decide; intros [= <- <-].
  - unfold sim_connect. intros a w r w' c'. by case_match; intros [= <- <-].
Qed.

(** ** Hash map order *)

#[export] Instance id_order : HashOrder := fun _ l => l.

#[export] Instance id_order_laws : HashOrderLaws.
Proof. intros A l. reflexivity. Qed.

(** ** Synchronisation *)

(** Escapes the control characters above U+007F only. *)
#[export] Instance control_chars : CharTable := fun z => z <? 160.

#[export] Instance nat_semaphore : Semaphore nat := {
  sem_new n := n;
  try_acquire s := match s with O => None | S s' => Some s' end;
  release := S;
  available_permits s := s
}.

#[export] Instance nat_semaphore_laws : SemaphoreLaws nat.
Proof.
  constructor; cbn; try done.
  - intros [|s] s'; congruence.
  - by intros [|s].
Qed.

#[export] Instance list_channel : Channel (list bytes) := {
  ch_new := [];
  ch_send b c := c ++ [b];
  ch_open _ := true;
  ch_sent c := c
}.

#[export] Instance list_channel_laws : ChannelLaws (list bytes).
Proof. by constructor. Qed.

(** ** Files and JSON *)

#[export] Instance map_fs : Fs (gmap bytes bytes) := {
  read_to_string path w :=
    (match w !! path with Some s => Ok s | None => Err (ConnectionError 2) end, w);
  fs_write path data w := (Ok tt, <[path := data]> w)
}.

#[export] Instance map_fs_laws : FsLaws (gmap bytes bytes).
Proof. constructor. intros p d w w' [= <-]. cbn. rewrite lookup_insert_eq. by eexists. Qed.

(** Any countable type is serialized as the bits of its code. *)
Fixpoint bits_of_pos (p : positive) : bytes :=
  match p with
  | xI p => x31 :: bits_of_pos p
  | xO p => x30 :: bits_of_pos p
  | xH => []
  end.

Fixpoint pos_of_bits (l : bytes) : positive :=
  match l with
  | [] => xH
  | b :: l => if decide (b = x31) then xI (pos_of_bits l) else xO (pos_of_bits l)
  end.

Lemma pos_of_bits_of_pos p : pos_of_bits (bits_of_pos p) = p.
Proof. induction p as [p IH|p IH|]; cbn; [by rewrite IH..|done]. Qed.

Definition bits_json {A} `{Countable A} : Json unit A := {|
  from_str s := match decode (pos_of_bits s) with Some a => Ok a | None => Err tt end;
  to_string_pretty a := Ok (bits_of_pos (encode a))
|}.

Lemma bits_json_laws {A} `{Countable A} (valid : A -> Prop) :
  @JsonLaws unit A valid bits_json.
Proof.
  constructor; cbn; [by eexists|]. intros a s _ [= <-].
  by rewrite pos_of_bits_of_pos, decode_encode.
Qed.
