(* ===== verification/Cell.v ===== *)
(** * The cell format: [veil-core/src/error.rs] and [veil-core/src/cell.rs]

    The error type of the core crate and the fixed-size cell: its
    constructors, accessors, serialization and parsing. The theorems give the
    well-formedness invariant of every cell the public API produces, the
    branches of [new_data] and [from_bytes], and that serialization and
    parsing are mutually inverse. *)
From S2P Require Import Prelude.
From S2P Require Import Interfaces.

Open Scope Z_scope.

(** ** [error.rs] *)

Inductive VeilError : Type :=
  | PayloadTooLarge (len max : Z)
  | InvalidSequence (seq_index seq_total : Z)
  | UnsupportedVersion (v : byte)
  | InvalidCellType (v : byte)
  | MessageTooLarge (len max : Z)
  | IncompleteMessage (received expected : Z)
  | MismatchedMessageId
  | EncryptionFailed
  | DecryptionFailed
  | InvalidKey (reason : string).

Abbreviation VeilResult := (result VeilError).

#[export] Instance VeilError_eq_dec : EqDecision VeilError.
Proof. solve_decision. Defined.

(** ** [cell.rs] *)

Definition CELL_SIZE : nat := 512.
Definition HEADER_SIZE : nat := 24.
Definition PAYLOAD_CAPACITY : nat := CELL_SIZE - HEADER_SIZE.
Definition PROTOCOL_VERSION : byte := x01.
#[global] Arguments PAYLOAD_CAPACITY : simpl never.

Inductive CellType : Type := Data | Dummy.

#[export] Instance CellType_eq_dec : EqDecision CellType.
Proof. solve_decision. Defined.

(** The discriminants of the [repr(u8)] enum. *)
Definition CellType_as_u8 (t : CellType) : byte :=
  match t with Data => x00 | Dummy => x01 end.

Definition CellType_from_u8 (v : byte) : VeilResult CellType :=
  if decide (byte_to_Z v = 0) then Ok Data
  else if decide (byte_to_Z v = 1) then Ok Dummy
  else Err (InvalidCellType v).

(** [[u8; 16]]. *)
Abbreviation MessageId := (list byte).

Record Cell : Type := mkCell {
  c_version : byte;
  c_cell_type : CellType;
  c_message_id : MessageId;
  c_seq_index : Z;
  c_seq_total : Z;
  c_payload_len : Z;
  c_payload : bytes
}.

#[export] Instance Cell_eq_dec : EqDecision Cell.
Proof. solve_decision. Defined.

Definition new_data (message_id : MessageId) (seq_index seq_total : Z)
    (data : bytes) : VeilResult Cell :=
  if decide (len data > Z.of_nat PAYLOAD_CAPACITY)
  then Err (PayloadTooLarge (len data) (Z.of_nat PAYLOAD_CAPACITY))
  else if decide (seq_total = 0 \/ seq_index >= seq_total)
  then Err (InvalidSequence seq_index seq_total)
  else
    let payload := zeros PAYLOAD_CAPACITY in
    let payload := blit 0 data payload in
    Ok {| c_version := PROTOCOL_VERSION;
          c_cell_type := Data;
          c_message_id := message_id;
          c_seq_index := seq_index;
          c_seq_total := seq_total;
          c_payload_len := as_u16 (len data);
          c_payload := payload |}.

Definition new_dummy {R : Type} `{Rng R} (rng : R) : Cell * R :=
  let '(message_id, rng) := fill_bytes 16 rng in
  let '(payload, rng) := fill_bytes PAYLOAD_CAPACITY rng in
  ({| c_version := PROTOCOL_VERSION;
      c_cell_type := Dummy;
      c_message_id := message_id;
      c_seq_index := 0;
      c_seq_total := 1;
      c_payload_len := as_u16 (Z.of_nat PAYLOAD_CAPACITY);
      c_payload := payload |}, rng).

Definition cell_type (c : Cell) : CellType := c_cell_type c.
Definition message_id (c : Cell) : MessageId := c_message_id c.
Definition seq_index (c : Cell) : Z := c_seq_index c.
Definition seq_total (c : Cell) : Z := c_seq_total c.

(** [&self.payload[..self.payload_len as usize]]. *)
Definition payload (c : Cell) : outcome bytes :=
  slice 0 (Z.to_nat (c_payload_len c)) (c_payload c).

Definition to_bytes (c : Cell) : bytes :=
  let buf := zeros CELL_SIZE in
  let buf := <[0%nat := c_version c]> buf in
  let buf := <[1%nat := CellType_as_u8 (c_cell_type c)]> buf in
  let buf := blit 2 (c_message_id c) buf in
  let buf := blit 18 (to_be_bytes 2 (c_seq_index c)) buf in
  let buf := blit 20 (to_be_bytes 2 (c_seq_total c)) buf in
  let buf := blit 22 (to_be_bytes 2 (c_payload_len c)) buf in
  blit HEADER_SIZE (c_payload c) buf.

(** [buf] is a [[u8; CELL_SIZE]]: the constant indices and ranges below are
    within it. *)
Definition from_bytes (buf : bytes) : VeilResult Cell :=
  let version := buf !!! 0%nat in
  if decide (version <> PROTOCOL_VERSION)
  then Err (UnsupportedVersion version)
  else
  let? cell_type := CellType_from_u8 (buf !!! 1%nat) in
  let message_id := take 16 (drop 2 buf) in
  let seq_index := from_be_bytes [buf !!! 18%nat; buf !!! 19%nat] in
  let seq_total := from_be_bytes [buf !!! 20%nat; buf !!! 21%nat] in
  let payload_len := from_be_bytes [buf !!! 22%nat; buf !!! 23%nat] in
  if decide (payload_len > Z.of_nat PAYLOAD_CAPACITY)
  then Err (PayloadTooLarge payload_len (Z.of_nat PAYLOAD_CAPACITY))
  else if decide (seq_total = 0 \/ seq_index >= seq_total)
  then Err (InvalidSequence seq_index seq_total)
  else
    let payload := drop HEADER_SIZE buf in
    Ok {| c_version := version;
          c_cell_type := cell_type;
          c_message_id := message_id;
          c_seq_index := seq_index;
          c_seq_total := seq_total;
          c_payload_len := payload_len;
          c_payload := payload |}.

#[global] Arguments payload : simpl never.
#[global] Arguments to_bytes : simpl never.
#[global] Arguments from_bytes : simpl never.
#[global] Arguments new_data : simpl never.

(** The payload bytes without their padding. *)
Definition payload_bytes (c : Cell) : bytes :=
  take (Z.to_nat (c_payload_len c)) (c_payload c).

(** The invariant of every cell the crate's API builds or parses. *)
Record wf_cell (c : Cell) : Prop := {
  wf_version : c_version c = PROTOCOL_VERSION;
  wf_id : length (c_message_id c) = 16%nat;
  wf_seq_index : 0 <= c_seq_index c < c_seq_total c;
  wf_seq_total : c_seq_total c <= u16_MAX;
  wf_len : 0 <= c_payload_len c <= Z.of_nat PAYLOAD_CAPACITY;
  wf_payload : length (c_payload c) = PAYLOAD_CAPACITY
}.

(** The wire layout of the protocol: the fields one after the other. *)
Definition layout (c : Cell) : bytes :=
  [c_version c; CellType_as_u8 (c_cell_type c)] ++ c_message_id c ++
  to_be_bytes 2 (c_seq_index c) ++ to_be_bytes 2 (c_seq_total c) ++
  to_be_bytes 2 (c_payload_len c) ++ c_payload c.

(** ** Lemmas *)

Lemma capacity_pos : (0 < PAYLOAD_CAPACITY)%nat.
Proof. unfold PAYLOAD_CAPACITY. cbn. lia. Qed.

Lemma capacity_Z : Z.of_nat PAYLOAD_CAPACITY = 488.
Proof. done. Qed.

Lemma CellType_from_as_u8 t : CellType_from_u8 (CellType_as_u8 t) = Ok t.
Proof. by destruct t. Qed.

Lemma CellType_as_from_u8 v t : CellType_from_u8 v = Ok t -> CellType_as_u8 t = v.
Proof.
  unfold CellType_from_u8. intros H.
  repeat case_decide; simpl_res; apply byte_to_Z_inj; by cbn.
Qed.

Lemma to_bytes_layout c : wf_cell c -> to_bytes c = layout c.
Proof.
  intros [_ Hid _ _ _ Hp]. unfold to_bytes, layout, HEADER_SIZE. cbv zeta.
  change (<[1%nat:=CellType_as_u8 (c_cell_type c)]> (<[0%nat:=c_version c]> (zeros CELL_SIZE)))
    with ([c_version c; CellType_as_u8 (c_cell_type c)] ++ zeros 510).
  rewrite !blit_zeros by
    (rewrite ?length_app, ?length_to_be_bytes, ?Hid, ?Hp; unfold PAYLOAD_CAPACITY; cbn; lia).
  rewrite !length_to_be_bytes, Hid, Hp.
  change (zeros _) with (@nil byte). by rewrite app_nil_r, <- !app_assoc.
Qed.

Lemma length_layout c : wf_cell c -> length (layout c) = CELL_SIZE.
Proof.
  intros [_ Hid _ _ _ Hp]. unfold layout.
  rewrite !length_app, !length_to_be_bytes, Hid, Hp. done.
Qed.

Lemma length_to_bytes c : wf_cell c -> length (to_bytes c) = CELL_SIZE.
Proof. intros. by rewrite to_bytes_layout, length_layout. Qed.

Lemma to_be_bytes_2 z : to_be_bytes 2 z = [byte_of_Z (z / 256); byte_of_Z z].
Proof. done. Qed.

Lemma wf_u16_fields c :
  wf_cell c ->
  0 <= c_seq_index c < 256 ^ 2 /\ 0 <= c_seq_total c < 256 ^ 2 /\
  0 <= c_payload_len c < 256 ^ 2.
Proof.
  intros [_ _ ? Ht ? _]. unfold u16_MAX in Ht.
  change (Z.of_nat PAYLOAD_CAPACITY) with 488 in *. lia.
Qed.

Lemma parse_serialized c : wf_cell c -> from_bytes (to_bytes c) = Ok c.
Proof.
  intros Hc. rewrite to_bytes_layout by done. unfold layout, from_bytes.
  pose proof (wf_u16_fields c Hc) as (Hi & Ht & Hl).
  destruct Hc as [Hv Hid Hs _ Hlen Hp]. destruct c as [v ty id i t n p]; cbn in *.
  do 16 (destruct id as [|? id]; [done|]). destruct id; [|done].
  pose proof (from_to_be_bytes_small 2 i Hi) as Ei.
  pose proof (from_to_be_bytes_small 2 t Ht) as Et.
  pose proof (from_to_be_bytes_small 2 n Hl) as En.
  rewrite to_be_bytes_2 in Ei, Et, En.
  cbn -[from_be_bytes CellType_from_u8 PAYLOAD_CAPACITY]. rewrite Ei, Et, En, CellType_from_as_u8, drop_0.
  rewrite decide_False by (subst; tauto). rewrite decide_False by lia.
  by rewrite decide_False by lia.
Qed.

Lemma parsed_layout buf c :
  length buf = CELL_SIZE -> from_bytes buf = Ok c -> wf_cell c /\ layout c = buf.
Proof.
  intros Hbuf. unfold from_bytes.
  do 24 (destruct buf as [|? buf]; [done|]).
  cbn -[from_be_bytes CellType_from_u8 PAYLOAD_CAPACITY]. rewrite drop_0.
  case_decide as Hv; [done|].
  destruct (CellType_from_u8 _) as [ty|] eqn:Hty; [|done].
  apply CellType_as_from_u8 in Hty.
  case_decide as Hl; [done|]. case_decide as Hs; [done|]. intros [= <-].
  repeat match goal with |- context [from_be_bytes [?a; ?b]] =>
    let z := fresh "z" in
    pose proof (from_be_bytes_range [a; b]); pose proof (to_from_be_bytes [a; b]);
    set (z := from_be_bytes [a; b]) in *; clearbody z end.
  split.
  - constructor; cbn in *; try done; unfold u16_MAX, len in *; cbn in *; try lia.
    change CELL_SIZE with (24 + PAYLOAD_CAPACITY)%nat in Hbuf. lia.
  - unfold layout. cbn in *. congruence.
Qed.

Lemma new_data_ok id i t d c :
  length id = 16%nat -> 0 <= i -> t <= u16_MAX -> new_data id i t d = Ok c ->
  wf_cell c /\ payload_bytes c = d /\ c_cell_type c = Data /\
  c_message_id c = id /\ c_seq_index c = i /\ c_seq_total c = t.
Proof.
  intros Hid Hi Ht. unfold new_data.
  case_decide as Hl; [done|]. case_decide as Hs; [done|]. intros [= <-].
  assert (as_u16 (len d) = len d) as Hd.
  { apply Z.mod_small. pose proof (len_nonneg d).
    change (Z.of_nat PAYLOAD_CAPACITY) with 488 in *. lia. }
  assert (length d <= PAYLOAD_CAPACITY)%nat by (unfold len in *; lia).
  split_and!; try done.
  - constructor; cbn -[PAYLOAD_CAPACITY zeros]; rewrite ?Hd; try done; try lia.
    + pose proof (len_nonneg d). lia.
    + rewrite length_blit; by rewrite length_zeros.
  - unfold payload_bytes; cbn -[PAYLOAD_CAPACITY zeros]. rewrite Hd. unfold len.
    rewrite Nat2Z.id. change (zeros PAYLOAD_CAPACITY) with ([] ++ zeros PAYLOAD_CAPACITY).
    rewrite blit_zeros by done. cbn [app]. by rewrite take_app_length.
Qed.

Lemma payload_ok c : wf_cell c -> payload c = Done (payload_bytes c).
Proof.
  intros [_ _ _ _ Hl Hp]. unfold payload, payload_bytes.
  rewrite slice_ok by lia. by rewrite Nat.sub_0_r, drop_0.
Qed.

Lemma new_dummy_wf {R} `{RngLaws R} (rng : R) :
  wf_cell (new_dummy rng).1 /\ c_cell_type (new_dummy rng).1 = Dummy.
Proof.
  unfold new_dummy. destruct (fill_bytes 16 rng) as [id r1] eqn:E1.
  destruct (fill_bytes PAYLOAD_CAPACITY r1) as [p r2] eqn:E2.
  pose proof (fill_bytes_length 16 rng) as H1. rewrite E1 in H1.
  pose proof (fill_bytes_length PAYLOAD_CAPACITY r1) as H2. rewrite E2 in H2.
  split; [|done]. constructor; try done; cbn; lia.
Qed.

#[export] Hint Resolve capacity_pos length_to_bytes parse_serialized payload_ok : veil.

(** ** Properties *)

(** C30: parsing is the exact inverse of serialization. A 512-byte buffer is
    accepted with result [c] precisely when [c] is a well-formed cell whose
    serialization is that buffer; so parsing rejects every buffer that no
    cell serializes to, and no two buffers parse to the same cell. *)
Theorem from_bytes_iff buf c :
  length buf = CELL_SIZE ->
  from_bytes buf = Ok c <-> wf_cell c /\ to_bytes c = buf.
Proof.
  intros Hbuf. split.
  - intros H. destruct (parsed_layout buf c Hbuf H). by rewrite to_bytes_layout.
  - intros [Hc <-]. by apply parse_serialized.
Qed.

(** The data-cell constructor on every branch. It rejects an oversized
    fragment first, then an index outside the sequence; otherwise the cell is
    well formed, [payload] returns exactly the fragment without panicking,
    and the rest of the buffer is zero. *)
Theorem new_data_spec id i t d :
  length id = 16%nat -> 0 <= i -> 0 <= t <= u16_MAX ->
  match new_data id i t d with
  | Ok c => (length d <= PAYLOAD_CAPACITY)%nat /\ i < t /\ wf_cell c /\
      payload c = Done d /\ cell_type c = Data /\ message_id c = id /\
      seq_index c = i /\ seq_total c = t /\
      c_payload c = d ++ zeros (PAYLOAD_CAPACITY - length d)
  | Err e =>
      (length d > PAYLOAD_CAPACITY)%nat /\ e = PayloadTooLarge (len d) 488 \/
      (length d <= PAYLOAD_CAPACITY)%nat /\ t <= i /\ e = InvalidSequence i t
  end.
Proof.
  intros Hid Hi Ht. destruct (new_data id i t d) as [c|e] eqn:E.
  - destruct (new_data_ok _ _ _ _ _ Hid Hi (proj2 Ht) E) as (Hw & Hp & ? & ? & ? & ?).
    rewrite payload_ok, Hp by done.
    unfold new_data in E. case_decide as Hl; [done|]. case_decide as Hs; [done|].
    injection E as <-. assert (length d <= PAYLOAD_CAPACITY)%nat by (unfold len in *; lia).
    split_and!; try done; try lia. cbn.
    change (zeros PAYLOAD_CAPACITY) with ([] ++ zeros PAYLOAD_CAPACITY).
    by rewrite blit_zeros.
  - unfold new_data, len in *. repeat case_decide; simpl_res; [left|right]; split_and!;
      try done; lia.
Qed.
