(* ===== verification/Fragmentation.v ===== *)
(** * Fragmentation: [veil-core/src/fragmentation.rs]

    [fragment_message] splits a message into data cells. The theorems show
    that it succeeds exactly on the messages of 1 to [MAX_MESSAGE_SIZE]
    bytes, and that the cells it returns are well formed, share one message
    id, are numbered consecutively without truncation of the counters, and
    carry the message. *)
From S2P Require Import Prelude.
From S2P Require Import Interfaces.
From S2P Require Import Cell.

Open Scope Z_scope.

Definition MAX_MESSAGE_SIZE : Z := Z.of_nat PAYLOAD_CAPACITY * u16_MAX.

(** The loop [for (i, chunk) in message.chunks(..).enumerate()], from index
    [i], with [cells] the vector built so far. *)
Fixpoint fragment_loop (message_id : MessageId) (seq_total : Z) (i : Z)
    (chunks : list bytes) (cells : list Cell) : VeilResult (list Cell) :=
  match chunks with
  | [] => Ok cells
  | chunk :: chunks' =>
      let? cell := new_data message_id (as_u16 i) seq_total chunk in
      fragment_loop message_id seq_total (i + 1) chunks' (cells ++ [cell])
  end.

Definition fragment_message {R : Type} `{Rng R} (message : bytes) (rng : R) :
    VeilResult (list Cell) * R :=
  if decide (message = [])
  then (Err (MessageTooLarge 0 MAX_MESSAGE_SIZE), rng)
  else if decide (len message > MAX_MESSAGE_SIZE)
  then (Err (MessageTooLarge (len message) MAX_MESSAGE_SIZE), rng)
  else
    let '(message_id, rng) := fill_bytes 16 rng in
    let total_cells := div_ceil (len message) (Z.of_nat PAYLOAD_CAPACITY) in
    let seq_total := as_u16 total_cells in
    (fragment_loop message_id seq_total 0 (chunks PAYLOAD_CAPACITY message) [], rng).

(** ** Specification *)

(** [cells] are the fragments of [message] under [id], in sending order. *)
Record fragments_of (id : MessageId) (message : bytes) (cells : list Cell) : Prop := {
  fr_wf : Forall wf_cell cells;
  fr_id : Forall (fun c => c_message_id c = id) cells;
  fr_data : Forall (fun c => c_cell_type c = Data) cells;
  fr_total : Forall (fun c => c_seq_total c = len cells) cells;
  fr_index : forall i c, cells !! i = Some c -> c_seq_index c = Z.of_nat i;
  fr_payload : map payload_bytes cells = chunks PAYLOAD_CAPACITY message;
  fr_nonempty : cells <> []
}.

Lemma fragment_loop_spec id t i cs cells :
  length id = 16%nat -> 0 <= i -> t <= u16_MAX -> i + len cs <= t ->
  Forall (fun c => (length c <= PAYLOAD_CAPACITY)%nat) cs ->
  exists new,
    fragment_loop id t i cs cells = Ok (cells ++ new) /\
    Forall wf_cell new /\ map payload_bytes new = cs /\
    Forall (fun c => c_message_id c = id) new /\
    Forall (fun c => c_cell_type c = Data) new /\
    Forall (fun c => c_seq_total c = t) new /\
    (forall k c, new !! k = Some c -> c_seq_index c = i + Z.of_nat k).
Proof.
  intros Hid. revert i cells. induction cs as [|d cs IH]; intros i cells Hi Ht Hn Hcs.
  - exists []. rewrite app_nil_r. cbn. by split_and!.
  - apply Forall_cons in Hcs as [Hd Hcs]. cbn [fragment_loop].
    unfold len in Hn; cbn [length] in Hn.
    unfold as_u16. rewrite (Z.mod_small i (2 ^ 16)) by (unfold u16_MAX in *; lia).
    destruct (new_data id i t d) as [c|e] eqn:E.
    2: { unfold new_data, len in E. repeat case_decide; simpl_res; lia. }
    destruct (new_data_ok _ _ _ _ _ Hid Hi Ht E) as (? & ? & ? & ? & ? & ?).
    destruct (IH (i + 1) (cells ++ [c])) as (new & -> & Hwf & Hp & Hids & Hty & Htot & Hidx);
      [lia|done|unfold len; lia|done|].
    exists (c :: new). rewrite <- app_assoc. cbn. split_and!; try by constructor.
    + by f_equal.
    + intros [|k] c' Hk; cbn in Hk; simplify_eq; [lia|]. rewrite (Hidx _ _ Hk). lia.
Qed.

Lemma total_cells_bound (message : bytes) :
  message <> [] -> len message <= MAX_MESSAGE_SIZE ->
  1 <= div_ceil (len message) (Z.of_nat PAYLOAD_CAPACITY) <= u16_MAX.
Proof.
  intros Hne Hmax. assert (0 < len message) by (pose proof (len_nonneg message);
    pose proof (proj1 (len_0 message)); destruct (decide (len message = 0)); [tauto|lia]).
  unfold MAX_MESSAGE_SIZE, div_ceil, u16_MAX in *.
  change (Z.of_nat PAYLOAD_CAPACITY) with 488 in *.
  pose proof (Z_div_mod_eq_full (len message) 488).
  pose proof (Z.mod_pos_bound (len message) 488 ltac:(lia)).
  destruct (Z.ltb_spec 0 (len message mod 488)); lia.
Qed.

Section fragment_message.
Context {R : Type} `{RngLaws R}.

Lemma fragment_message_ok message (rng : R) :
  message <> [] -> len message <= MAX_MESSAGE_SIZE ->
  exists cells, fragment_message message rng = (Ok cells, (fill_bytes 16 rng).2) /\
    fragments_of (fill_bytes 16 rng).1 message cells /\
    len cells = div_ceil (len message) 488.
Proof.
  intros Hne Hmax. unfold fragment_message.
  rewrite decide_False, decide_False by (done || lia).
  pose proof (fill_bytes_length 16 rng) as Hid.
  destruct (fill_bytes 16 rng) as [id rng'] eqn:E. cbn in Hid |- *.
  pose proof (total_cells_bound message Hne Hmax) as Hb.
  pose proof (length_chunks PAYLOAD_CAPACITY message capacity_pos) as Hlen.
  unfold as_u16. rewrite Z.mod_small by (unfold u16_MAX in *; lia).
  destruct (fragment_loop_spec id _ 0 (chunks PAYLOAD_CAPACITY message) [] Hid
              (Z.le_refl 0) (proj2 Hb)) as (cells & Ho & Hwf & Hp & Hids & Hty & Htot & Hidx).
  { rewrite Hlen. lia. }
  { apply Forall_forall. intros c Hc. apply length_chunk in Hc; [lia|apply capacity_pos]. }
  assert (len cells = len (chunks PAYLOAD_CAPACITY message)) as Hc.
  { unfold len. by rewrite <- Hp, length_map. }
  exists cells. split_and!; [by rewrite Ho| |rewrite Hc; done].
  constructor; try done.
  - rewrite Hc, Hlen. done.
  - intros ->. unfold len in *; cbn in *; lia.
Qed.

End fragment_message.

(** ** Properties *)

(** C29: [fragment_message] succeeds exactly on the messages of 1 to
    [MAX_MESSAGE_SIZE] bytes. It then returns ceil(len/488) cells, at most
    65,535, none of whose construction fails and whose [u16] counters do not
    wrap: all are well-formed data cells with the id drawn from the
    generator, numbered 0, 1, 2, ... of the total, and their payloads
    concatenate to the message. Otherwise the error carries the length and
    the limit, and no randomness is consumed. *)
Theorem fragment_message_spec {R : Type} `{RngLaws R} (message : bytes) (rng : R) :
  match fragment_message message rng with
  | (Ok cells, rng') =>
      1 <= len message <= MAX_MESSAGE_SIZE /\
      rng' = (fill_bytes 16 rng).2 /\
      fragments_of (fill_bytes 16 rng).1 message cells /\
      concat (map payload_bytes cells) = message /\
      len cells = div_ceil (len message) 488 /\
      1 <= len cells <= u16_MAX
  | (Err e, rng') =>
      (len message = 0 \/ len message > MAX_MESSAGE_SIZE) /\
      e = MessageTooLarge (len message) MAX_MESSAGE_SIZE /\ rng' = rng
  end.
Proof.
  destruct (decide (message = [])) as [->|Hne].
  { by split_and!; [left|..]. }
  destruct (decide (len message > MAX_MESSAGE_SIZE)) as [Hbig|Hmax].
  { unfold fragment_message. rewrite decide_False, decide_True by done. auto. }
  destruct (fragment_message_ok message rng Hne ltac:(lia)) as (cells & -> & Hf & Hlen).
  pose proof (total_cells_bound message Hne ltac:(lia)) as Hb. rewrite capacity_Z in Hb.
  assert (len message <> 0) by (rewrite len_0; done). pose proof (len_nonneg message).
  split_and!; try done; try lia. rewrite (fr_payload _ _ _ Hf).
  apply chunks_concat, capacity_pos.
Qed.

(** Every cell of a fragmented message serializes to the same 512 bytes
    of wire size, every cell but the last is full, and the last one carries
    the remaining 1 to 488 bytes: an exact multiple of the capacity does not
    produce an empty trailing cell. *)
Theorem fragment_sizes {R : Type} `{RngLaws R} (message : bytes) (rng : R) cells rng' i c :
  fragment_message message rng = (Ok cells, rng') -> cells !! i = Some c ->
  length (to_bytes c) = CELL_SIZE /\
  (Z.of_nat (S i) < len cells -> length (payload_bytes c) = PAYLOAD_CAPACITY) /\
  (Z.of_nat (S i) = len cells ->
     1 <= len (payload_bytes c) <= 488 /\
     len message = Z.of_nat i * 488 + len (payload_bytes c)).
Proof.
  intros Hf Hc. destruct (decide (message = [])) as [->|Hne]; [done|].
  destruct (decide (len message > MAX_MESSAGE_SIZE)) as [Hbig|Hmax].
  { unfold fragment_message in Hf. by rewrite decide_False, decide_True in Hf. }
  destruct (fragment_message_ok message rng Hne ltac:(lia)) as (cells' & E & Hfr & _).
  rewrite E in Hf. injection Hf as -> <-. destruct Hfr as [Hwf _ _ _ _ Hp _].
  assert (map payload_bytes cells !! i = Some (payload_bytes c)) as Hi
    by (by rewrite list_lookup_fmap, Hc).
  assert ((S i * PAYLOAD_CAPACITY < length message)%nat <-> Z.of_nat (S i) < len cells) as Hn.
  { unfold len. rewrite <- Nat2Z.inj_lt, <- (length_map payload_bytes cells), Hp.
    rewrite <- (lookup_lt_is_Some (chunks PAYLOAD_CAPACITY message)).
    rewrite chunks_lookup by apply capacity_pos.
    case_decide; split; naive_solver. }
  assert (len cells = len (chunks PAYLOAD_CAPACITY message)) as Hlen
    by (unfold len; by rewrite <- Hp, length_map).
  rewrite Hp, chunks_lookup in Hi by apply capacity_pos.
  case_decide as Hlt; [|done]. injection Hi as Hi.
  split; [apply length_to_bytes; eapply Forall_lookup_1; eauto|].
  rewrite <- Hi. unfold len in *. rewrite length_take, length_drop.
  pose proof capacity_Z. unfold len in Hn. split; intros HSi; nia.
Qed.
