(* ===== verification/Reassembly.v ===== *)
(** * Reassembly: [veil-core/src/reassembly.rs]

    The [Reassembler] with its panicking indexing and [expect]s made
    explicit, its invariant, an abstract specification over finite maps, the
    refinement between the two, and the correctness of reassembly under any
    arrival order, duplication and interleaving. *)
From S2P Require Import Prelude.
From S2P Require Import Interfaces.
From S2P Require Import Cell.
From S2P Require Import Fragmentation.

Open Scope Z_scope.

Record PartialMessage : Type := mkPartial {
  pm_seq_total : Z;
  pm_received : Z;
  pm_fragments : list (option bytes)
}.

Record Reassembler : Type := mkReassembler {
  in_flight : gmap MessageId PartialMessage
}.

(** [Reassembler::new] *)
Definition new : Reassembler := {| in_flight := ∅ |}.

(** The loop that appends every fragment, with its [expect]. *)
Fixpoint concat_fragments (fragments : list (option bytes)) (message : bytes) :
    outcome bytes :=
  match fragments with
  | [] => Done message
  | Some fragment :: fragments' => concat_fragments fragments' (message ++ fragment)
  | None :: _ => Panic
  end.

(** The fresh entry of [or_insert_with]. *)
Definition fresh_partial (seq_total : Z) : PartialMessage :=
  {| pm_seq_total := seq_total; pm_received := 0;
     pm_fragments := replicate (Z.to_nat seq_total) None |}.

(** [entry.fragments[seq_index]] is filled when it is empty. *)
Definition store_fragment (entry : PartialMessage) (seq_index : nat) (cell : Cell) :
    outcome PartialMessage :=
  match pm_fragments entry !! seq_index with
  | None => Panic
  | Some None =>
      let! p := payload cell in
      Done {| pm_seq_total := pm_seq_total entry;
              pm_received := pm_received entry + 1;
              pm_fragments := <[seq_index := Some p]> (pm_fragments entry) |}
  | Some (Some _) => Done entry
  end.

Definition insert (self : Reassembler) (cell : Cell) :
    outcome (VeilResult (option bytes) * Reassembler) :=
  let id := message_id cell in
  let seq_total := seq_total cell in
  let seq_index := Z.to_nat (seq_index cell) in
  let entry := default (fresh_partial seq_total) (in_flight self !! id) in
  let flight := <[id := entry]> (in_flight self) in
  if decide (pm_seq_total entry <> seq_total)
  then Done (Err MismatchedMessageId, {| in_flight := flight |})
  else
    let! entry := store_fragment entry seq_index cell in
    let flight := <[id := entry]> flight in
    if decide (pm_received entry = pm_seq_total entry)
    then
      match flight !! id with
      | None => Panic
      | Some partial =>
          let flight := delete id flight in
          let! message := concat_fragments (pm_fragments partial) [] in
          Done (Ok (Some message), {| in_flight := flight |})
      end
    else Done (Ok None, {| in_flight := flight |}).

Definition pending_count (self : Reassembler) : Z := Z.of_nat (size (in_flight self)).

Definition evict (self : Reassembler) (id : MessageId) : Reassembler :=
  {| in_flight := delete id (in_flight self) |}.

(** Feeding cells one after the other, as a receiving client does. *)
Fixpoint insert_all (self : Reassembler) (cells : list Cell) :
    outcome (list (VeilResult (option bytes)) * Reassembler) :=
  match cells with
  | [] => Done ([], self)
  | cell :: cells' =>
      let! (res, self') := insert self cell in
      let! (rest, self'') := insert_all self' cells' in
      Done (res :: rest, self'')
  end.

(** ** Invariant *)

Definition count_some (fs : list (option bytes)) : nat := length (omap id fs).
#[global] Arguments count_some : simpl never.

Record wf_partial (p : PartialMessage) : Prop := {
  wp_total : 0 < pm_seq_total p <= u16_MAX;
  wp_length : length (pm_fragments p) = Z.to_nat (pm_seq_total p);
  wp_received : pm_received p = Z.of_nat (count_some (pm_fragments p));
  wp_progress : 0 < pm_received p < pm_seq_total p
}.

Definition wf_reassembler (r : Reassembler) : Prop :=
  map_Forall (fun id p => length id = 16%nat /\ wf_partial p) (in_flight r).

(** ** Abstract specification

    The state maps the id of each incomplete message to its total and to the
    payloads received so far, keyed by index. *)
Abbreviation spec_state := (gmap (list byte) (Z * gmap nat (list byte))).

(** The payloads of indices 0 to [n - 1], in order. *)
Definition spec_message (n : nat) (m : gmap nat bytes) : bytes :=
  concat (omap (fun i => m !! i) (seq 0 n)).

Definition spec_insert (s : spec_state) (cell : Cell) :
    VeilResult (option bytes) * spec_state :=
  let id := c_message_id cell in
  let i := Z.to_nat (c_seq_index cell) in
  let '(t, m) := default (c_seq_total cell, ∅) (s !! id) in
  if decide (t <> c_seq_total cell)
  then (Err MismatchedMessageId, s)
  else
    let m := match m !! i with Some _ => m | None => <[i := payload_bytes cell]> m end in
    if decide (Z.of_nat (size m) = t)
    then (Ok (Some (spec_message (Z.to_nat t) m)), delete id s)
    else (Ok None, <[id := (t, m)]> s).

(** The abstraction function: an array of optional fragments as a map. *)
Fixpoint frag_map (i : nat) (fs : list (option bytes)) : gmap nat bytes :=
  match fs with
  | [] => ∅
  | None :: fs' => frag_map (S i) fs'
  | Some p :: fs' => <[i := p]> (frag_map (S i) fs')
  end.

Definition abs_partial (p : PartialMessage) : Z * gmap nat bytes :=
  (pm_seq_total p, frag_map 0 (pm_fragments p)).

Definition abs (r : Reassembler) : spec_state := abs_partial <$> in_flight r.

Fixpoint spec_insert_all (s : spec_state) (cells : list Cell) :
    list (VeilResult (option bytes)) * spec_state :=
  match cells with
  | [] => ([], s)
  | cell :: cells' =>
      let '(res, s') := spec_insert s cell in
      let '(rest, s'') := spec_insert_all s' cells' in
      (res :: rest, s'')
  end.

(** ** Fragment arrays and their maps *)

Lemma frag_map_lookup i fs j :
  frag_map i fs !! j = if decide (i <= j)%nat then mjoin (fs !! (j - i)%nat) else None.
Proof.
  revert i. induction fs as [|[p|] fs IH]; intros i; cbn [frag_map].
  - rewrite lookup_empty. by case_decide.
  - destruct (decide (i = j)) as [->|Hne].
    + rewrite lookup_insert_eq, decide_True, Nat.sub_diag by lia. done.
    + rewrite lookup_insert_ne, IH by done. repeat case_decide; try lia; try done.
      by replace (j - i)%nat with (S (j - S i)) by lia.
  - rewrite IH. repeat case_decide; try lia; try done.
    + by replace (j - i)%nat with (S (j - S i)) by lia.
    + by replace (j - i)%nat with 0%nat by lia.
Qed.

Lemma frag_map_lookup_0 fs j : frag_map 0 fs !! j = mjoin (fs !! j).
Proof. rewrite frag_map_lookup, decide_True by lia. by rewrite Nat.sub_0_r. Qed.

Lemma frag_map_size i fs : size (frag_map i fs) = count_some fs.
Proof.
  unfold count_some. revert i; induction fs as [|[p|] fs IH]; intros i; cbn; [done| |done].
  rewrite map_size_insert_None; [by rewrite IH|].
  rewrite frag_map_lookup, decide_False by lia. done.
Qed.

Lemma frag_map_insert fs j p :
  (j < length fs)%nat -> frag_map 0 (<[j := Some p]> fs) = <[j := p]> (frag_map 0 fs).
Proof.
  intros Hj. apply map_eq. intros k. rewrite frag_map_lookup_0.
  destruct (decide (j = k)) as [->|Hne].
  - by rewrite list_lookup_insert_eq, lookup_insert_eq by done.
  - by rewrite list_lookup_insert_ne, lookup_insert_ne, frag_map_lookup_0 by done.
Qed.

Lemma frag_map_replicate n i : frag_map i (replicate n None) = ∅.
Proof. revert i; induction n as [|n IH]; intros i; cbn; auto. Qed.

Lemma count_some_le fs : (count_some fs <= length fs)%nat.
Proof. unfold count_some. induction fs as [|[p|] fs IH]; cbn in *; lia. Qed.

(** An array with as many fragments as slots has no empty slot. *)
Lemma concat_fragments_full fs acc :
  count_some fs = length fs ->
  concat_fragments fs acc = Done (acc ++ concat (omap id fs)).
Proof.
  revert acc. induction fs as [|[p|] fs IH]; intros acc Hc; cbn in *.
  - by rewrite app_nil_r.
  - rewrite IH by (unfold count_some in *; cbn in *; lia). by rewrite app_assoc.
  - pose proof (count_some_le fs). unfold count_some in *; cbn in *; lia.
Qed.

Lemma spec_message_frag_map fs : spec_message (length fs) (frag_map 0 fs) = concat (omap id fs).
Proof.
  unfold spec_message. f_equal. apply omap_seq_options.
  intros j _. apply frag_map_lookup_0.
Qed.

(** ** Refinement *)

Lemma wf_fresh t : 0 < t <= u16_MAX ->
  length (pm_fragments (fresh_partial t)) = Z.to_nat t /\
  count_some (pm_fragments (fresh_partial t)) = 0%nat.
Proof.
  intros Ht. cbn. rewrite length_replicate. split; [done|].
  rewrite <- (frag_map_size 0), frag_map_replicate. apply map_size_empty.
Qed.

(** Storing a fragment: the array keeps its length, the counter stays the
    number of filled slots, and the map gains the index if it was free. *)
Lemma store_fragment_spec e c :
  wf_cell c -> pm_seq_total e = c_seq_total c ->
  length (pm_fragments e) = Z.to_nat (c_seq_total c) ->
  pm_received e = Z.of_nat (count_some (pm_fragments e)) ->
  let i := Z.to_nat (c_seq_index c) in
  let m := frag_map 0 (pm_fragments e) in
  exists e', store_fragment e i c = Done e' /\
    pm_seq_total e' = c_seq_total c /\
    length (pm_fragments e') = Z.to_nat (c_seq_total c) /\
    pm_received e' = Z.of_nat (count_some (pm_fragments e')) /\
    0 < pm_received e' /\
    frag_map 0 (pm_fragments e') =
      match m !! i with Some _ => m | None => <[i := payload_bytes c]> m end.
Proof.
  intros Hc Ht Hl Hr i m. pose proof (wf_seq_index c Hc) as Hi.
  assert (i < length (pm_fragments e))%nat as Hlt by lia.
  unfold store_fragment. subst m. rewrite frag_map_lookup_0.
  destruct (pm_fragments e !! i) as [[p|]|] eqn:E; cbn.
  - exists e. split_and!; try done.
    assert (frag_map 0 (pm_fragments e) !! i = Some p) as Hp
      by by rewrite frag_map_lookup_0, E.
    rewrite Hr, <- (frag_map_size 0).
    destruct (size (frag_map 0 (pm_fragments e))) eqn:Hs; [|lia].
    apply map_size_empty_inv in Hs. by rewrite Hs in Hp.
  - rewrite payload_ok by done. eexists; split; [done|]. cbn.
    assert (count_some (<[i:=Some (payload_bytes c)]> (pm_fragments e)) =
              S (count_some (pm_fragments e))) as Hcount.
    { rewrite <- !(frag_map_size 0), frag_map_insert by done.
      rewrite map_size_insert_None; [done|]. by rewrite frag_map_lookup_0, E. }
    rewrite length_insert, Hcount, frag_map_insert by done. split_and!; try done; lia.
  - apply lookup_ge_None in E. lia.
Qed.

(** The entry [insert] works on, with the facts shared by all branches. *)
Lemma entry_spec r c :
  wf_reassembler r -> wf_cell c ->
  let e := default (fresh_partial (c_seq_total c)) (in_flight r !! c_message_id c) in
  0 < pm_seq_total e <= u16_MAX /\
  length (pm_fragments e) = Z.to_nat (pm_seq_total e) /\
  pm_received e = Z.of_nat (count_some (pm_fragments e)) /\
  default (c_seq_total c, ∅) (abs r !! c_message_id c) = abs_partial e.
Proof.
  intros Hr Hc e. unfold abs. rewrite lookup_fmap. subst e.
  destruct (in_flight r !! c_message_id c) as [p|] eqn:E; cbn.
  - destruct (Hr _ _ E) as [_ [[? ?] ? ? ?]]. by split_and!.
  - pose proof (wf_seq_index c Hc). pose proof (wf_seq_total c Hc).
    destruct (wf_fresh (c_seq_total c) ltac:(lia)) as [Hl Hn]. cbn in Hl, Hn.
    rewrite Hn. split_and!; try done; try lia.
    unfold abs_partial; cbn. by rewrite frag_map_replicate.
Qed.

Lemma abs_insert r id p :
  abs {| in_flight := <[id := p]> (in_flight r) |} = <[id := abs_partial p]> (abs r).
Proof. unfold abs; cbn. apply fmap_insert. Qed.

Lemma abs_delete r id : abs {| in_flight := delete id (in_flight r) |} = delete id (abs r).
Proof. unfold abs; cbn. apply fmap_delete. Qed.

(** One insertion never panics, preserves the invariant, and does what the
    specification says. *)
Lemma insert_refines r c :
  wf_reassembler r -> wf_cell c ->
  exists res r', insert r c = Done (res, r') /\ wf_reassembler r' /\
    spec_insert (abs r) c = (res, abs r').
Proof.
  intros Hr Hc. pose proof (entry_spec r c Hr Hc) as He. cbv zeta in He.
  unfold insert, message_id, seq_total, seq_index, spec_insert.
  set (id := c_message_id c) in *.
  set (e := default (fresh_partial (c_seq_total c)) (in_flight r !! id)) in *.
  destruct He as (Ht & Hl & Hn & Habs). rewrite Habs. unfold abs_partial at 1.
  case_decide as Hmis.
  { (* mismatch: the entry was in the map already *)
    destruct (in_flight r !! id) as [p|] eqn:E; subst e; cbn in *; [|done].
    rewrite insert_id by done. eexists _, r. destruct r. by split_and!. }
  rewrite Hmis in Hl.
  destruct (store_fragment_spec e c Hc Hmis Hl Hn) as (e' & -> & Ht' & Hl' & Hn' & Hpos & Hm).
  rewrite <- Hm, frag_map_size, <- Hn', Ht', <- Hmis. clear Hm.
  case_decide as Hfull.
  - rewrite lookup_insert_eq, delete_insert_eq, delete_insert_eq.
    rewrite concat_fragments_full by lia. eexists _, _; split; [done|]. split.
    + unfold wf_reassembler; cbn. by apply map_Forall_delete.
    + rewrite abs_delete. do 3 f_equal. cbn.
      rewrite Hmis, <- Hl'. by rewrite spec_message_frag_map.
  - eexists _, _; split; [done|]. split.
    + unfold wf_reassembler; cbn. rewrite insert_insert_eq. apply map_Forall_insert_2; [|done].
      split; [apply wf_id, Hc|]. pose proof (count_some_le (pm_fragments e')).
      constructor; try done; rewrite ?Ht'; try lia.
    + rewrite insert_insert_eq, abs_insert. do 3 f_equal. unfold abs_partial.
      by rewrite Ht', Hmis.
Qed.

Lemma insert_all_refines r cs :
  wf_reassembler r -> Forall wf_cell cs ->
  exists outs r', insert_all r cs = Done (outs, r') /\ wf_reassembler r' /\
    spec_insert_all (abs r) cs = (outs, abs r').
Proof.
  intros Hr Hcs. revert r Hr. induction Hcs as [|c cs Hc _ IH]; intros r Hr; cbn.
  - by eexists _, _.
  - destruct (insert_refines r c Hr Hc) as (res & r' & -> & Hr' & ->).
    destruct (IH r' Hr') as (outs & r'' & -> & Hr'' & ->). by eexists _, _.
Qed.

Lemma spec_insert_all_app s cs1 cs2 :
  spec_insert_all s (cs1 ++ cs2) =
    ((spec_insert_all s cs1).1 ++ (spec_insert_all (spec_insert_all s cs1).2 cs2).1,
     (spec_insert_all (spec_insert_all s cs1).2 cs2).2).
Proof.
  revert s. induction cs1 as [|c cs1 IH]; intros s; cbn; [by destruct (spec_insert_all s cs2)|].
  destruct (spec_insert s c) as [res s']. rewrite (IH s').
  destruct (spec_insert_all s' cs1) as [o1 s1]. cbn. by destruct (spec_insert_all s1 cs2).
Qed.

(** ** One message in a stream of cells

    [seen] is the stream of cells processed so far; the cells of the message
    under [id] are [cells], and nobody else uses [id]. *)
Section one_message.
Context (id : MessageId) (message : bytes) (cells : list Cell).
Hypothesis Hfr : fragments_of id message cells.

Let n : nat := length cells.

Definition honest (seen : list Cell) : Prop :=
  forall x, x ∈ seen -> c_message_id x = id -> x ∈ cells.

(** [m] holds exactly the payloads of the cells of [id] in [seen]. *)
Definition records (seen : list Cell) (m : gmap nat bytes) : Prop :=
  forall i p, m !! i = Some p <->
    exists x, x ∈ seen /\ c_message_id x = id /\
      Z.to_nat (c_seq_index x) = i /\ payload_bytes x = p.

Definition tracks (seen : list Cell) (s : spec_state) : Prop :=
  exists m, default (len cells, ∅) (s !! id) = (len cells, m) /\ records seen m.

Lemma cell_index x : x ∈ cells -> cells !! Z.to_nat (c_seq_index x) = Some x.
Proof.
  intros [i Hi]%list_elem_of_lookup. rewrite (fr_index _ _ _ Hfr i x Hi).
  by rewrite Nat2Z.id.
Qed.

Lemma cell_index_inj x y :
  x ∈ cells -> y ∈ cells ->
  Z.to_nat (c_seq_index x) = Z.to_nat (c_seq_index y) -> x = y.
Proof.
  intros Hx%cell_index Hy%cell_index E. rewrite E, Hy in Hx. by simplify_eq.
Qed.

Lemma cell_total x : x ∈ cells -> c_seq_total x = len cells.
Proof. intros Hx. by eapply (proj1 (Forall_forall _ _) (fr_total _ _ _ Hfr)). Qed.

Lemma cell_id x : x ∈ cells -> c_message_id x = id.
Proof. intros Hx. by eapply (proj1 (Forall_forall _ _) (fr_id _ _ _ Hfr)). Qed.

(** A cell of another message leaves the entry of [id] alone. *)
Lemma spec_insert_other s c :
  c_message_id c <> id -> (spec_insert s c).2 !! id = s !! id.
Proof.
  intros Hne. unfold spec_insert.
  destruct (default _ _) as [t m]. repeat case_decide; cbn; try done.
  - by rewrite lookup_delete_ne.
  - by rewrite lookup_insert_ne.
Qed.

Lemma honest_snoc seen c : honest seen -> c ∈ cells -> honest (seen ++ [c]).
Proof. intros Hh Hc x [Hx| ->%list_elem_of_singleton]%elem_of_app; auto. Qed.

Lemma records_snoc seen m c :
  honest seen -> records seen m -> c ∈ cells ->
  let i := Z.to_nat (c_seq_index c) in
  records (seen ++ [c])
    (match m !! i with Some _ => m | None => <[i := payload_bytes c]> m end).
Proof.
  intros Hh Hm Hc i j p. pose proof (cell_id c Hc) as Hid.
  destruct (m !! i) as [q|] eqn:E.
  - rewrite (Hm j p). split; intros (x & Hx & Hrest).
    + exists x. rewrite elem_of_app. auto.
    + apply elem_of_app in Hx as [Hx| ->%list_elem_of_singleton]; [by exists x|].
      apply Hm in E as (y & Hy & Hy1 & Hy2 & _). subst i.
      assert (y = c) as -> by (apply cell_index_inj; auto). by exists c.
  - destruct (decide (i = j)) as [<-|Hne].
    + rewrite lookup_insert_eq. split.
      * intros [= <-]. exists c. rewrite elem_of_app, list_elem_of_singleton. auto.
      * intros (x & Hx & Hx1 & Hx2 & Hx3).
        apply elem_of_app in Hx as [Hx| ->%list_elem_of_singleton]; [|by rewrite Hx3].
        rewrite (proj2 (Hm i p)) in E; [done|]. by exists x.
    + rewrite lookup_insert_ne, (Hm j p) by done. split; intros (x & Hx & Hx1 & Hx2 & Hx3).
      * exists x. rewrite elem_of_app. auto.
      * apply elem_of_app in Hx as [Hx| ->%list_elem_of_singleton]; [by exists x|done].
Qed.

(** What one cell of the message does to the tracked entry: completion is a
    question of the number of fragments recorded. *)
Lemma spec_insert_own seen s c :
  honest seen -> tracks seen s -> c ∈ cells ->
  exists m', records (seen ++ [c]) m' /\
    spec_insert s c =
      if decide (Z.of_nat (size m') = len cells)
      then (Ok (Some (spec_message n m')), delete id s)
      else (Ok None, <[id := (len cells, m')]> s).
Proof.
  intros Hh (m & Hm & Hrec) Hc.
  unfold spec_insert. rewrite (cell_id c Hc), (cell_total c Hc), Hm.
  rewrite decide_False by tauto.
  assert (Z.to_nat (len cells) = n) as -> by (subst n; unfold len; lia).
  eexists; split; [|done]. by apply records_snoc.
Qed.

(** The indices received are those of the message. *)
Lemma tracked_dom seen (m : gmap nat bytes) :
  honest seen -> records seen m ->
  dom m ⊆ set_seq 0 n /\
  (forall x, x ∈ cells -> Z.to_nat (c_seq_index x) ∈ dom m <-> x ∈ seen).
Proof.
  intros Hh Hdom. split.
  - intros i [p (x & Hx & Hid & <- & _)%Hdom]%elem_of_dom.
    apply elem_of_set_seq. split; [lia|]. cbn.
    apply lookup_lt_is_Some. eexists. by apply cell_index, Hh.
  - intros x Hx. rewrite elem_of_dom. split.
    + intros [p (y & Hy & Hid & E & _)%Hdom]. by rewrite <- (cell_index_inj y x) by auto.
    + intros Hs. exists (payload_bytes x). apply Hdom. exists x. by rewrite cell_id.
Qed.

Lemma incomplete_size seen (m : gmap nat bytes) y :
  honest seen -> records seen m ->
  y ∈ cells -> y ∉ seen -> Z.of_nat (size m) <> len cells.
Proof.
  intros Hh Hdom Hy Hn. destruct (tracked_dom seen m Hh Hdom) as [Hsub Hin].
  assert (dom m ⊂ set_seq (C := gset nat) 0 n) as Hlt.
  { split; [done|]. intros Hsup. apply Hn, Hin; [done|]. apply Hsup.
    apply elem_of_set_seq. split; [lia|]. cbn. apply lookup_lt_is_Some.
    eexists. by apply cell_index. }
  apply subset_size in Hlt. rewrite size_set_seq, size_dom in Hlt. unfold len. lia.
Qed.

Lemma complete_message seen (m : gmap nat bytes) :
  honest seen -> records seen m ->
  (forall x, x ∈ cells -> x ∈ seen) ->
  Z.of_nat (size m) = len cells /\ spec_message n m = message.
Proof.
  intros Hh Hdom Hall. destruct (tracked_dom seen m Hh Hdom) as [Hsub Hin]. split.
  - assert (dom m ≡@{gset nat} set_seq 0 n) as E.
    { intros i. split; [apply Hsub|]. intros Hi%elem_of_set_seq. cbn in Hi.
      destruct (lookup_lt_is_Some_2 cells i) as [x Hx]; [lia|].
      rewrite <- (Nat2Z.id i), <- (fr_index _ _ _ Hfr i x Hx).
      assert (x ∈ cells) by by eapply list_elem_of_lookup_2. apply Hin; auto. }
    rewrite <- size_dom, E, size_set_seq. done.
  - unfold spec_message. subst n. rewrite <- (length_map payload_bytes cells), omap_seq.
    + rewrite (fr_payload _ _ _ Hfr). apply chunks_concat, capacity_pos.
    + intros j Hj. rewrite length_map in Hj.
      destruct (lookup_lt_is_Some_2 cells j Hj) as [x Hx].
      rewrite list_lookup_fmap, Hx. apply Hdom. exists x.
      assert (x ∈ cells) by by eapply list_elem_of_lookup_2.
      rewrite (fr_index _ _ _ Hfr j x Hx), Nat2Z.id, cell_id by done. auto.
Qed.

Lemma records_other seen m c :
  c_message_id c <> id -> records seen m -> records (seen ++ [c]) m.
Proof.
  intros Hne Hm j p. rewrite (Hm j p). split; intros (x & Hx & Hx1 & Hrest).
  - exists x. rewrite elem_of_app. auto.
  - apply elem_of_app in Hx as [Hx| ->%list_elem_of_singleton]; [by exists x|done].
Qed.

Lemma tracks_nil s : s !! id = None -> tracks [] s.
Proof.
  intros Hs. exists ∅. rewrite Hs. split; [done|]. intros i p. rewrite lookup_empty.
  split; [done|]. intros (x & Hx & _). by apply not_elem_of_nil in Hx.
Qed.

(** As long as a cell of the message is missing, the cells of [id] are
    recorded and nothing is delivered for it. *)
Lemma run_incomplete s seen y :
  s !! id = None -> honest seen -> y ∈ cells -> y ∉ seen ->
  tracks seen (spec_insert_all s seen).2 /\
  length (spec_insert_all s seen).1 = length seen /\
  forall k x, seen !! k = Some x -> c_message_id x = id ->
    (spec_insert_all s seen).1 !! k = Some (Ok None).
Proof.
  intros Hs Hh Hy Hn. induction seen as [|c seen IH] using rev_ind.
  { split_and!; [by apply tracks_nil|done|done]. }
  assert (honest seen) as Hh' by (intros x Hx; apply Hh, elem_of_app; auto).
  rewrite elem_of_app, list_elem_of_singleton in Hn.
  destruct IH as (Ht & Hlen & Hout); [done|tauto|].
  rewrite spec_insert_all_app. cbn [fst snd].
  destruct (spec_insert_all s seen) as [outs s1] eqn:E1. cbn [fst snd] in *.
  cbn [spec_insert_all]. destruct (spec_insert s1 c) as [res s2] eqn:E2. cbn [fst snd].
  assert (tracks (seen ++ [c]) s2 /\ (c_message_id c = id -> res = Ok None)) as [Hs2 Hres].
  { destruct (decide (c_message_id c = id)) as [Hid|Hid].
    - assert (c ∈ cells) as Hc by (apply Hh; [apply elem_of_app; right; by constructor|done]).
      destruct (spec_insert_own seen s1 c Hh' Ht Hc) as (m' & Hm' & E). rewrite E2 in E.
      rewrite decide_False in E.
      + injection E as -> ->. split; [|done]. exists m'. by rewrite lookup_insert_eq.
      + apply (incomplete_size (seen ++ [c]) m' y); auto using honest_snoc.
        rewrite elem_of_app, list_elem_of_singleton. tauto.
    - split; [|done]. destruct Ht as (m & Hm & Hrec). exists m.
      pose proof (spec_insert_other s1 c Hid) as Ho. rewrite E2 in Ho. cbn in Ho.
      rewrite Ho. auto using records_other. }
  split_and!; [done|rewrite !length_app, Hlen; done|].
  intros k x Hk Hx. apply lookup_app_Some in Hk as [Hk|[Hge Hk]].
  - rewrite lookup_app_l; [eauto|]. rewrite Hlen. by eapply lookup_lt_Some.
  - apply list_lookup_singleton_Some in Hk as [Hk <-].
    rewrite lookup_app_r by lia. rewrite Hlen, Hk, (Hres Hx). done.
Qed.

(** The cell that brings the last missing fragment delivers the message and
    clears the entry. *)
Lemma run_complete s seen c :
  s !! id = None -> honest seen -> c ∈ cells -> c ∉ seen ->
  (forall x, x ∈ cells -> x ∈ seen ++ [c]) ->
  exists s', spec_insert (spec_insert_all s seen).2 c = (Ok (Some message), s') /\
    s' !! id = None.
Proof.
  intros Hs Hh Hc Hn Hall.
  destruct (run_incomplete s seen c Hs Hh Hc Hn) as (Ht & _ & _).
  destruct (spec_insert_own seen _ c Hh Ht Hc) as (m' & Hm' & ->).
  destruct (complete_message (seen ++ [c]) m') as [Hsz ->]; auto using honest_snoc.
  rewrite decide_True by done. eexists; split; [done|]. apply lookup_delete_eq.
Qed.
Lemma cells_NoDup : NoDup cells.
Proof.
  apply NoDup_alt. intros i j x Hi Hj.
  pose proof (fr_index _ _ _ Hfr i x Hi). pose proof (fr_index _ _ _ Hfr j x Hj). lia.
Qed.

Lemma run_other s seen :
  Forall (fun c => c_message_id c <> id) seen -> (spec_insert_all s seen).2 !! id = s !! id.
Proof.
  intros Hs. revert s. induction Hs as [|c seen Hc _ IH]; intros s; cbn; [done|].
  pose proof (spec_insert_other s c Hc) as Ho. destruct (spec_insert s c) as [res s'].
  specialize (IH s'). destruct (spec_insert_all s' seen). cbn in *. congruence.
Qed.

(** A stream in which the cells of [id] are those of the message, each once:
    the message is delivered and leaves nothing behind. *)
Lemma run_whole s stream :
  s !! id = None -> filter (fun c => c_message_id c = id) stream ≡ₚ cells ->
  Ok (Some message) ∈ (spec_insert_all s stream).1 /\
  (spec_insert_all s stream).2 !! id = None.
Proof.
  intros Hs Hp.
  assert (forall x, x ∈ cells <-> x ∈ stream /\ c_message_id x = id) as Hin
    by (intros x; rewrite <- Hp, list_elem_of_filter; tauto).
  assert (Exists (fun c => c_message_id c = id) stream) as He.
  { pose proof (fr_nonempty _ _ _ Hfr) as Hne. destruct cells as [|c cs]; [done|].
    apply Exists_exists. exists c. apply Hin. by constructor. }
  apply split_at_last in He as (seen & c & rest & -> & Hc & Hrest); [|apply _].
  assert (c ∉ seen) as Hns.
  { pose proof cells_NoDup as Hnd. rewrite <- Hp, filter_app, filter_cons_True in Hnd by done.
    apply NoDup_app in Hnd as (_ & Hd & _). intros Hx. apply (Hd c); [|by left].
    by apply list_elem_of_filter. }
  assert (c ∈ cells) as Hcc by (apply Hin; rewrite elem_of_app; split; [right; by left|done]).
  destruct (run_complete s seen c Hs) as (s' & E & Hs'); try done.
  - intros x Hx Hid. apply Hin. split; [|done]. apply elem_of_app. by left.
  - intros x Hx. apply Hin in Hx as [Hx Hid]. rewrite (cons_middle c), !elem_of_app in Hx.
    apply elem_of_app. destruct Hx as [?|[?|Hx]]; [by left|by right|].
    by destruct (proj1 (Forall_forall _ _) Hrest x Hx).
  - rewrite spec_insert_all_app. cbn [fst snd spec_insert_all]. rewrite E.
    pose proof (run_other s' rest Hrest) as Hr.
    destruct (spec_insert_all s' rest) as [os s'']. cbn in *. split; [|congruence].
    apply elem_of_app. right. by left.
Qed.
End one_message.

(** ** Properties *)

(** C14: refinement. Fed any well-formed cells, the reassembler never panics
    (no index out of range, no failed [expect]), keeps its invariant, and its
    results and its state are those of the specification over finite maps;
    evicting an id removes it from the specification's state, and the
    pending count is the number of its incomplete messages. *)
Theorem reassembler_refines r cells id :
  wf_reassembler r -> Forall wf_cell cells ->
  exists outs r', insert_all r cells = Done (outs, r') /\ wf_reassembler r' /\
    spec_insert_all (abs r) cells = (outs, abs r') /\
    wf_reassembler (evict r' id) /\ abs (evict r' id) = delete id (abs r') /\
    pending_count r' = Z.of_nat (size (abs r')).
Proof.
  intros Hr Hcs. destruct (insert_all_refines r cells Hr Hcs) as (outs & r' & E & Hr' & Hs).
  exists outs, r'. split_and!; try done.
  - by apply map_Forall_delete.
  - apply abs_delete.
  - unfold pending_count, abs. by rewrite map_size_fmap.
Qed.

(** C13: reassembly recovers the message whatever the arrival order. Take the
    fragments of a message and any stream of well-formed cells, duplicates
    and cells of other messages included, in which only those fragments use
    the message's id and whose last cell brings the last missing fragment.
    Every earlier cell of the message returns [Ok(None)], the last one
    returns [Ok(Some(message))], and the message is no longer in flight. *)
Theorem reassemble_any_order id message cells r seen c :
  wf_reassembler r -> in_flight r !! id = None ->
  fragments_of id message cells -> Forall wf_cell seen ->
  (forall x, x ∈ seen -> message_id x = id -> x ∈ cells) ->
  c ∈ cells -> c ∉ seen -> (forall x, x ∈ cells -> x ∈ seen ++ [c]) ->
  exists outs r', insert_all r (seen ++ [c]) = Done (outs ++ [Ok (Some message)], r') /\
    length outs = length seen /\
    (forall k x, seen !! k = Some x -> message_id x = id -> outs !! k = Some (Ok None)) /\
    in_flight r' !! id = None.
Proof.
  intros Hr Hid Hfr Hwf Hh Hc Hn Hall.
  assert (wf_cell c) as Hcwf by (by eapply (proj1 (Forall_forall _ _) (fr_wf _ _ _ Hfr))).
  destruct (insert_all_refines r (seen ++ [c]) Hr) as (os & r' & -> & _ & Hs).
  { by apply Forall_app_2; [|constructor]. }
  assert (abs r !! id = None) as Ha by (unfold abs; by rewrite lookup_fmap, Hid).
  destruct (run_incomplete id message cells Hfr _ _ c Ha Hh Hc Hn) as (_ & Hlen & Hout).
  destruct (run_complete id message cells Hfr _ _ c Ha Hh Hc Hn Hall) as (s' & E & Hs').
  rewrite spec_insert_all_app in Hs. cbn [spec_insert_all] in Hs. rewrite E in Hs.
  cbn [fst snd] in Hs. injection Hs as <- ->. eexists _, _. split_and!; try done.
  unfold abs in Hs'. rewrite lookup_fmap in Hs'. by destruct (in_flight r' !! id).
Qed.

(** A cell that is a whole message completes at once, whatever its type,
    and leaves no trace: a replayed cell is delivered again, and so is a
    dummy cell that reaches the reassembler. *)
Theorem single_cell_always_delivers r c :
  wf_cell c -> seq_total c = 1 ->
  in_flight r !! message_id c = None ->
  insert r c = Done (Ok (Some (payload_bytes c)), r).
Proof.
  intros Hc Ht Hid. unfold seq_total, message_id in *.
  pose proof (wf_seq_index c Hc) as Hi. assert (c_seq_index c = 0) as H0 by lia.
  unfold insert, message_id, seq_total, seq_index. rewrite Hid. cbn [default from_option].
  rewrite Ht, H0, decide_False by (cbn; tauto).
  unfold store_fragment. cbn. rewrite payload_ok by done. cbn.
  change (Z.to_nat 1) with 1%nat. change (Z.to_nat 0) with 0%nat. cbn.
  rewrite lookup_insert_eq, insert_insert_eq, delete_insert_id by done. cbn. by destruct r.
Qed.
