(* ===== verification/Encryption.v ===== *)
(** * Per-cell encryption: [veil-core/src/crypto/encryption.rs]

    [encrypt_cell] and [decrypt_cell] over the AEAD interface, with the
    length checks of [copy_from_slice]. The theorems give the round trip, the
    fixed wire size, the absence of panics, and that only genuine encryptions
    of well-formed cells are accepted. *)
From S2P Require Import Prelude.
From S2P Require Import Interfaces.
From S2P Require Import Cell.

Definition NONCE_SIZE : nat := 12.
Definition TAG_SIZE : nat := 16.
Definition ENCRYPTED_CELL_SIZE : nat := NONCE_SIZE + CELL_SIZE + TAG_SIZE.

Section encryption.
Context {R : Type} `{Rng R} `{Crypto}.

Definition encrypt_cell (key : bytes) (cell : Cell) (rng : R) :
    outcome (VeilResult bytes) * R :=
  let '(nonce_bytes, rng) := fill_bytes NONCE_SIZE rng in
  let plaintext := to_bytes cell in
  (let!? ciphertext := Done (ok_or (aead_encrypt key nonce_bytes plaintext) EncryptionFailed) in
   let out := zeros ENCRYPTED_CELL_SIZE in
   let out := blit 0 nonce_bytes out in
   let! out := copy_from_slice NONCE_SIZE ENCRYPTED_CELL_SIZE ciphertext out in
   Done (Ok out), rng).

Definition decrypt_cell (key data : bytes) : outcome (VeilResult Cell) :=
  let nonce := take NONCE_SIZE data in
  let ciphertext := drop NONCE_SIZE data in
  let!? plaintext := Done (ok_or (aead_decrypt key nonce ciphertext) DecryptionFailed) in
  let buf := zeros CELL_SIZE in
  let! buf := copy_from_slice 0 CELL_SIZE plaintext buf in
  Done (from_bytes buf).
End encryption.

#[global] Arguments encrypt_cell : simpl never.
#[global] Arguments decrypt_cell : simpl never.

(** ** Lemmas *)

Section lemmas.
Context {R : Type} `{RngLaws R} `{CryptoLaws}.

Lemma aead_decrypt_length k n m c :
  aead_decrypt k n c = Some m -> length c = (length m + TAG_SIZE)%nat.
Proof. intros E%aead_decrypt_sound. by apply aead_encrypt_length in E. Qed.

(** Encryption of a well-formed cell, without its intermediate buffers. *)
Lemma encrypt_cell_eq key c rng :
  wf_cell c ->
  exists ct, aead_encrypt key (fill_bytes NONCE_SIZE rng).1 (to_bytes c) = Some ct /\
    encrypt_cell key c rng =
      (Done (Ok ((fill_bytes NONCE_SIZE rng).1 ++ ct)), (fill_bytes NONCE_SIZE rng).2) /\
    length ct = (CELL_SIZE + TAG_SIZE)%nat.
Proof.
  intros Hc. unfold encrypt_cell.
  pose proof (fill_bytes_length NONCE_SIZE rng) as Hn.
  destruct (fill_bytes NONCE_SIZE rng) as [n r'] eqn:E. cbn [fst snd] in *.
  destruct (aead_encrypt_total key n (to_bytes c)) as [ct Hct].
  { unfold len. rewrite length_to_bytes by done. done. }
  pose proof (aead_encrypt_length _ _ _ _ Hct) as Hl. rewrite length_to_bytes in Hl by done.
  exists ct. split_and!; [done| |done]. rewrite Hct. cbn [ok_or]. f_equal.
  change (zeros ENCRYPTED_CELL_SIZE) with ([] ++ zeros ENCRYPTED_CELL_SIZE).
  rewrite blit_zeros by (done || (rewrite Hn; unfold ENCRYPTED_CELL_SIZE; lia)).
  cbn [app]. unfold copy_from_slice.
  rewrite decide_True by (rewrite length_app, length_zeros, Hl, Hn;
    unfold ENCRYPTED_CELL_SIZE, TAG_SIZE; lia).
  rewrite blit_zeros by (rewrite ?Hl, ?Hn; unfold ENCRYPTED_CELL_SIZE, TAG_SIZE; lia).
  rewrite Hl, Hn. change (zeros _) with (@nil byte). by rewrite app_nil_r.
Qed.

Lemma decrypt_cell_eq key data :
  decrypt_cell key data =
    match aead_decrypt key (take NONCE_SIZE data) (drop NONCE_SIZE data) with
    | None => Done (Err DecryptionFailed)
    | Some m => if decide (length m = CELL_SIZE) then Done (from_bytes m) else Panic
    end.
Proof.
  unfold decrypt_cell.
  destruct (aead_decrypt key _ _) as [m|]; cbn [ok_or]; [|done].
  destruct (decide (length m = CELL_SIZE)) as [Hm|Hm].
  - pose proof (copy_from_slice_all m (zeros CELL_SIZE)) as E.
    rewrite length_zeros in E. by rewrite E.
  - unfold copy_from_slice. rewrite decide_False; [done|]. rewrite length_zeros. lia.
Qed.

Lemma decrypt_encrypt key c rng :
  wf_cell c ->
  exists data, encrypt_cell key c rng = (Done (Ok data), (fill_bytes NONCE_SIZE rng).2) /\
    length data = ENCRYPTED_CELL_SIZE /\ decrypt_cell key data = Done (Ok c).
Proof.
  intros Hc. destruct (encrypt_cell_eq key c rng Hc) as (ct & Hct & -> & Hl).
  pose proof (fill_bytes_length NONCE_SIZE rng) as Hn.
  eexists; split_and!; [done| |].
  - rewrite length_app, Hn, Hl. done.
  - rewrite decrypt_cell_eq, take_app_length', drop_app_length' by done.
    rewrite (aead_decrypt_encrypt _ _ _ _ Hct).
    rewrite decide_True by auto using length_to_bytes. by rewrite parse_serialized.
Qed.

(** Decryption of a buffer of the wire size never panics. *)
Lemma decrypt_cell_cases key data :
  length data = ENCRYPTED_CELL_SIZE ->
  let n := take NONCE_SIZE data in
  let ct := drop NONCE_SIZE data in
  (aead_decrypt key n ct = None /\ decrypt_cell key data = Done (Err DecryptionFailed)) \/
  exists m, aead_decrypt key n ct = Some m /\ length m = CELL_SIZE /\
    decrypt_cell key data = Done (from_bytes m).
Proof.
  intros Hd n ct. rewrite decrypt_cell_eq. fold n ct.
  destruct (aead_decrypt key n ct) as [m|] eqn:E; [right|by left].
  apply aead_decrypt_length in E as Hm. subst ct. rewrite length_drop, Hd in Hm.
  assert (length m = CELL_SIZE) by (unfold ENCRYPTED_CELL_SIZE in Hm; lia).
  exists m. by rewrite decide_True.
Qed.
End lemmas.

(** ** Properties *)

Section properties.
Context {R : Type} `{RngLaws R} `{CryptoLaws}.

(** C27: end-to-end round trip. Encrypting a well-formed cell succeeds without
    panicking, yields exactly 540 bytes whether the cell is data or cover
    traffic, and decrypting them under the same key gives the cell back. *)
Theorem cell_encryption_roundtrip key c rng :
  wf_cell c ->
  exists data, (encrypt_cell key c rng).1 = Done (Ok data) /\
    length data = 540%nat /\ decrypt_cell key data = Done (Ok c).
Proof.
  intros Hc. destruct (decrypt_encrypt key c rng Hc) as (data & -> & ? & ?). by exists data.
Qed.

(** C28: only genuine cells are accepted. Decrypting any 540 bytes never
    panics; when it returns a cell, the bytes are a nonce followed by the
    AEAD encryption under this key and nonce of that cell's serialization,
    and the cell is well formed; and every AEAD failure, whatever its cause,
    is the one error [DecryptionFailed]. *)
Theorem decrypt_cell_genuine key data :
  length data = 540%nat ->
  exists res, decrypt_cell key data = Done res /\
  match res with
  | Ok c => wf_cell c /\ exists ct,
      aead_encrypt key (take NONCE_SIZE data) (to_bytes c) = Some ct /\
      data = take NONCE_SIZE data ++ ct
  | Err e => e = DecryptionFailed \/
      exists m, aead_decrypt key (take NONCE_SIZE data) (drop NONCE_SIZE data) = Some m /\
        from_bytes m = Err e
  end /\
  (aead_decrypt key (take NONCE_SIZE data) (drop NONCE_SIZE data) = None ->
     res = Err DecryptionFailed).
Proof.
  intros Hd. destruct (decrypt_cell_cases key data Hd) as [[E ->]|(m & E & Hm & ->)].
  - eexists; split; [done|]. auto.
  - exists (from_bytes m). split; [done|]. rewrite E. split; [|done].
    destruct (from_bytes m) as [c|e] eqn:Ec; [|eauto].
    destruct (parsed_layout m c Hm Ec) as [Hc Hl]. split; [done|].
    exists (drop NONCE_SIZE data). rewrite take_drop, to_bytes_layout, Hl by done.
    split; [|done]. by apply aead_decrypt_sound.
Qed.
End properties.
