(* ===== verification/Keys.v ===== *)
(** * Keys: [veil-core/src/crypto/keys.rs]

    Key pairs, Diffie-Hellman, key derivation and the hexadecimal
    persistence of a relay's identity. The theorems show that both ends of an
    exchange derive the same key and that a persisted identity is restored
    exactly. *)
From S2P Require Import Prelude.
From S2P Require Import RustStd.
From S2P Require Import Interfaces.
From S2P Require Import Cell.

Open Scope Z_scope.

(** The loop that overwrites every byte of a buffer with zero. *)
Fixpoint zeroize_bytes (buf : bytes) : bytes :=
  match buf with
  | [] => []
  | _ :: buf' => x00 :: zeroize_bytes buf'
  end.

Record KeyPair : Type := mkKeyPair { kp_secret : bytes; kp_public : bytes }.

(** The tuple struct [SharedSecret([u8; 32])]. *)
Record SharedSecret : Type := mkSharedSecret { shared_bytes : bytes }.

#[export] Instance KeyPair_eq_dec : EqDecision KeyPair.
Proof. solve_decision. Defined.

Section keys.
Context {R : Type} `{Rng R} `{Crypto} `{Hex}.

Definition generate (rng : R) : KeyPair * R :=
  let '(secret, rng) := random_secret rng in
  let public := x25519_public secret in
  ({| kp_secret := secret; kp_public := public |}, rng).

Definition public_key (self : KeyPair) : bytes := kp_public self.

Definition diffie_hellman (self : KeyPair) (peer_public : bytes) : SharedSecret :=
  {| shared_bytes := x25519 (kp_secret self) peer_public |}.

Definition to_hex (self : KeyPair) : bytes := hex_encode (kp_secret self).

Definition from_hex (hex_str : bytes) : VeilResult KeyPair :=
  let? bs := ok_or (hex_decode (trim hex_str)) (InvalidKey "secret key is not valid hex") in
  let? array :=
    if decide (length bs = 32%nat) then Ok bs
    else Err (InvalidKey "secret key must decode to exactly 32 bytes") in
  let secret := array in
  let public := x25519_public secret in
  Ok {| kp_secret := secret; kp_public := public |}.

Definition derive_key (self : SharedSecret) (context : bytes) : VeilResult bytes :=
  ok_or (hkdf_sha256 (shared_bytes self) context 32)
    (InvalidKey "HKDF expand failed: invalid output length").

(** [Drop for SharedSecret] *)
Definition drop_shared_secret (self : SharedSecret) : SharedSecret :=
  {| shared_bytes := zeroize_bytes (shared_bytes self) |}.

(** [PublicKey::from(bytes)]: a public key is its 32 bytes. *)
Definition public_key_from_bytes (bs : bytes) : bytes := bs.

Definition public_key_to_hex (public : bytes) : bytes := hex_encode public.

(** The invariant of every key pair the API builds. *)
Definition wf_keypair (kp : KeyPair) : Prop :=
  length (kp_secret kp) = 32%nat /\ kp_public kp = x25519_public (kp_secret kp).
End keys.

(** ** Lemmas *)

Section lemmas.
Context {R : Type} `{RngLaws R} `{CryptoLaws} `{HexLaws}.

Lemma generate_wf rng : wf_keypair (generate rng).1.
Proof.
  unfold generate. pose proof (random_secret_length rng).
  by destruct (random_secret rng).
Qed.

Lemma wf_public_length kp : wf_keypair kp -> length (public_key kp) = 32%nat.
Proof. intros [Hs Hp]. unfold public_key. rewrite Hp. by apply x25519_public_length. Qed.

Lemma derive_key_ok s context :
  exists key, derive_key s context = Ok key /\ length key = 32%nat.
Proof.
  destruct (hkdf_sha256_ok (shared_bytes s) context 32) as (okm & E & Hl); [cbn; lia|].
  exists okm. unfold derive_key. by rewrite E.
Qed.

Lemma diffie_hellman_comm a b :
  wf_keypair a -> wf_keypair b ->
  diffie_hellman a (public_key b) = diffie_hellman b (public_key a).
Proof.
  intros [Ha Hpa] [Hb Hpb]. unfold diffie_hellman, public_key. rewrite Hpa, Hpb.
  by rewrite x25519_comm.
Qed.

Lemma hex_digit_graphic b : is_hex_digit b -> graphic b.
Proof. unfold is_hex_digit, graphic. lia. Qed.

Lemma hex_graphic b : Forall graphic (hex_encode b).
Proof. eapply Forall_impl; [apply hex_encode_digits|apply hex_digit_graphic]. Qed.

Lemma from_hex_to_hex kp w1 w2 :
  wf_keypair kp -> Forall ascii_ws w1 -> Forall ascii_ws w2 ->
  from_hex (w1 ++ to_hex kp ++ w2) = Ok kp.
Proof.
  intros [Hs Hp] Hw1 Hw2. unfold from_hex, to_hex.
  rewrite trim_graphic; [|done|done|apply hex_graphic|].
  - rewrite hex_decode_encode. cbn [ok_or]. rewrite decide_True by done.
    rewrite <- Hp. by destruct kp.
  - intros E%(f_equal length). rewrite hex_encode_length, Hs in E. done.
Qed.

Lemma from_hex_wf s kp : from_hex s = Ok kp -> wf_keypair kp.
Proof.
  unfold from_hex. destruct (hex_decode (trim s)) as [bs|]; [|done]. cbn [ok_or].
  destruct (decide (length bs = 32%nat)); [|done]. by intros [= <-].
Qed.
End lemmas.

#[export] Hint Resolve generate_wf wf_public_length : veil.

(** ** Properties *)

Section properties.
Context {R : Type} `{RngLaws R} `{CryptoLaws} `{HexLaws}.

(** Key agreement. For any two key pairs and any context string, both
    ends derive the same 32-byte key, and the derivation cannot fail. *)
Theorem both_ends_derive_same_key a b context :
  wf_keypair a -> wf_keypair b ->
  exists key, length key = 32%nat /\
    derive_key (diffie_hellman a (public_key b)) context = Ok key /\
    derive_key (diffie_hellman b (public_key a)) context = Ok key.
Proof.
  intros Ha Hb. destruct (derive_key_ok (diffie_hellman a (public_key b)) context) as (k & E & Hl).
  exists k. rewrite <- (diffie_hellman_comm a b) by done. done.
Qed.

(** C36: a persisted identity is restored exactly: a generated key pair
    written as hex, with any surrounding whitespace, parses back to the same
    secret and public key; and what parses has a 32-byte secret, its own
    public key, and 64 characters once trimmed. *)
Theorem keypair_hex_roundtrip rng w1 w2 s kp :
  Forall ascii_ws w1 -> Forall ascii_ws w2 ->
  from_hex (w1 ++ to_hex (generate rng).1 ++ w2) = Ok (generate rng).1 /\
  (from_hex s = Ok kp -> wf_keypair kp /\ length (trim s) = 64%nat /\ from_hex (to_hex kp) = Ok kp).
Proof.
  intros Hw1 Hw2. split; [by apply from_hex_to_hex; [apply generate_wf|..]|].
  intros E. assert (wf_keypair kp /\ length (trim s) = 64%nat) as [Hw Hl].
  { unfold from_hex in E. destruct (hex_decode (trim s)) as [bs|] eqn:Eb; [|done].
    cbn [ok_or] in E. destruct (decide (length bs = 32%nat)) as [Hb|]; [|done].
    injection E as <-. split; [done|]. apply hex_decode_length in Eb. lia. }
  split_and!; [done..|].
  pose proof (from_hex_to_hex kp [] [] Hw) as Er. cbn in Er. rewrite app_nil_r in Er. auto.
Qed.
End properties.
