(* ===== verification/CoreTests.v ===== *)
(** * The unit tests of [veil-core]

    The [#[cfg(test)]] modules of cell.rs, fragmentation.rs, reassembly.rs,
    encryption.rs and keys.rs, translated like the code they test: a test is
    code that panics when it fails. The tests run the code once, on random
    keys and identifiers; the theorem is that they pass for every state of the
    generator and every implementation of the ciphers that meets its laws.
    That two encryptions differ takes two nonces that differ ([fresh_nonces]).
    Left out are the tests that a key or context matters (a wrong key or a
    tampered ciphertext is refused, two contexts give different keys), which
    hold with overwhelming probability only. *)
From S2P Require Import Prelude.
From S2P Require Import RustStd.
From S2P Require Import Interfaces.
From S2P Require Import Cell.
From S2P Require Import Fragmentation.
From S2P Require Import Reassembly.
From S2P Require Import Encryption.
From S2P Require Import Keys.

Open Scope Z_scope.

(** ** Tests *)

(** [assert!], [assert_eq!], [unwrap] of a [Result] and of an [Option], and
    [b"..."]. *)
Definition assert (b : bool) : outcome unit := if b then Done tt else Panic.
Definition assert_eq {A : Type} `{EqDecision A} (a b : A) : outcome unit := assert (bool_decide (a = b)).
Definition unwrap_ok {E A : Type} (r : result E A) : outcome A :=
  match r with Ok a => Done a | Err _ => Panic end.
Definition unwrap_some {A : Type} (o : option A) : outcome A :=
  match o with Some a => Done a | None => Panic end.
Definition is_none {A : Type} (o : option A) : bool := match o with Some _ => false | None => true end.
Definition is_err {E A : Type} (r : result E A) : bool := match r with Ok _ => false | Err _ => true end.
Definition b_ (s : string) : bytes := String.list_byte_of_string s.

Definition passes (test : outcome unit) : Prop := test = Done tt.

Lemma assert_eq_refl {A : Type} `{EqDecision A} (a : A) : assert_eq a a = Done tt.
Proof. unfold assert_eq. by rewrite bool_decide_true. Qed.

Lemma assert_eq_eq {A : Type} `{EqDecision A} (a b : A) : a = b -> assert_eq a b = Done tt.
Proof. intros ->. apply assert_eq_refl. Qed.

(** ** [cell.rs] *)

Definition data_cell_roundtrip_preserves_payload : outcome unit :=
  let id := replicate 16 x01 in
  let! cell := unwrap_ok (new_data id 0 1 (b_ "hello")) in
  let bytes := to_bytes cell in
  let! parsed := unwrap_ok (from_bytes bytes) in
  let! payload := payload parsed in
  let! _ := assert_eq payload (b_ "hello") in
  assert_eq (message_id parsed) id.

Definition oversized_payload_is_rejected : outcome unit :=
  let data := replicate (PAYLOAD_CAPACITY + 1) x00 in
  let result := new_data (replicate 16 x00) 0 1 data in
  assert (match result with Err (PayloadTooLarge _ _) => true | _ => false end).

Definition invalid_sequence_is_rejected : outcome unit :=
  let result := new_data (replicate 16 x00) 5 3 (b_ "x") in
  assert (match result with Err (InvalidSequence _ _) => true | _ => false end).

Section cell_tests.
Context {R : Type} `{Rng R}.

Definition every_cell_serializes_to_exactly_cell_size (rng : R) : outcome unit :=
  let! data_cell := unwrap_ok (new_data (replicate 16 x00) 0 1 (b_ "short")) in
  let '(dummy_cell, rng) := new_dummy rng in
  let! _ := assert_eq (length (to_bytes data_cell)) CELL_SIZE in
  assert_eq (length (to_bytes dummy_cell)) CELL_SIZE.

Definition cell_tests (rng : R) : list (outcome unit) :=
  [data_cell_roundtrip_preserves_payload; oversized_payload_is_rejected;
   invalid_sequence_is_rejected; every_cell_serializes_to_exactly_cell_size rng].
End cell_tests.

Lemma cell_tests_pass {R} `{RngLaws R} (rng : R) : Forall passes (cell_tests rng).
Proof.
  repeat apply Forall_cons_2; [by vm_compute..| |constructor].
  unfold passes, every_cell_serializes_to_exactly_cell_size.
  pose proof (new_dummy_wf rng) as [Hd _]. destruct (new_dummy rng) as [d rng']. cbn [fst] in Hd.
  rewrite (assert_eq_eq (length (to_bytes d)) CELL_SIZE) by by apply length_to_bytes. by vm_compute.
Qed.

(** ** [fragmentation.rs] *)

Section fragmentation_tests.
Context {R : Type} `{Rng R}.

Definition single_cell_for_small_message (rng : R) : outcome unit :=
  let '(cells, rng) := fragment_message (b_ "tiny") rng in
  let! cells := unwrap_ok cells in
  assert_eq (len cells) 1.

Definition multi_cell_for_large_message (rng : R) : outcome unit :=
  let message := replicate (PAYLOAD_CAPACITY * 3 + 10) x07 in
  let '(cells, rng) := fragment_message message rng in
  let! cells := unwrap_ok cells in
  let! _ := assert_eq (len cells) 4 in
  let! first := unwrap_some (cells !! 0%nat) in
  let id := message_id first in
  assert (forallb (fun c => bool_decide (message_id c = id)) cells).

Definition empty_message_rejected (rng : R) : outcome unit :=
  assert (is_err (fragment_message [] rng).1).

Definition exact_multiple_of_capacity_does_not_produce_empty_trailing_cell (rng : R) : outcome unit :=
  let message := replicate (PAYLOAD_CAPACITY * 2) x01 in
  let '(cells, rng) := fragment_message message rng in
  let! cells := unwrap_ok cells in
  assert_eq (len cells) 2.

Definition fragmentation_tests (rng : R) : list (outcome unit) :=
  [single_cell_for_small_message rng; multi_cell_for_large_message rng; empty_message_rejected rng;
   exact_multiple_of_capacity_does_not_produce_empty_trailing_cell rng].
End fragmentation_tests.

Lemma fragmentation_tests_pass {R} `{RngLaws R} (rng : R) : Forall passes (fragmentation_tests rng).
Proof.
  repeat apply Forall_cons_2; [| | | |constructor]; unfold passes.
  - unfold single_cell_for_small_message.
    destruct (fragment_message_ok (b_ "tiny") rng) as (cells & -> & _ & Hl); [done|by vm_compute|].
    by apply assert_eq_eq.
  - unfold multi_cell_for_large_message.
    destruct (fragment_message_ok (replicate (PAYLOAD_CAPACITY * 3 + 10) x07) rng)
      as (cells & -> & Hf & Hl); [done|by vm_compute|].
    cbn [unwrap_ok]. rewrite (assert_eq_eq (len cells) 4) by done.
    destruct cells as [|c cells]; [by destruct (fr_nonempty _ _ _ Hf)|]. cbn [unwrap_some lookup list_lookup].
    unfold assert. rewrite (proj2 (forallb_forall _ _)); [done|]. intros x Hx. apply bool_decide_eq_true.
    pose proof (proj1 (Forall_forall _ _) (fr_id _ _ _ Hf)) as Hid. unfold message_id.
    rewrite (Hid x) by by apply list_elem_of_In. by rewrite (Hid c) by by left.
  - done.
  - unfold exact_multiple_of_capacity_does_not_produce_empty_trailing_cell.
    destruct (fragment_message_ok (replicate (PAYLOAD_CAPACITY * 2) x01) rng)
      as (cells & -> & _ & Hl); [done|by vm_compute|].
    by apply assert_eq_eq.
Qed.

(** ** [reassembly.rs] *)

Definition completes_after_all_fragments_received : outcome unit :=
  let id := replicate 16 x03 in
  let reassembler := new in
  let! c0 := unwrap_ok (new_data id 0 2 (b_ "hel")) in
  let! c1 := unwrap_ok (new_data id 1 2 (b_ "lo")) in
  let! (result, reassembler) := insert reassembler c0 in
  let! result := unwrap_ok result in
  let! _ := assert (is_none result) in
  let! (result, reassembler) := insert reassembler c1 in
  let! result := unwrap_ok result in
  let! message := unwrap_some result in
  assert_eq message (b_ "hello").

Definition duplicate_cell_does_not_corrupt_state : outcome unit :=
  let id := replicate 16 x04 in
  let reassembler := new in
  let! c0 := unwrap_ok (new_data id 0 2 (b_ "a")) in
  let! c0_dup := unwrap_ok (new_data id 0 2 (b_ "a")) in
  let! c1 := unwrap_ok (new_data id 1 2 (b_ "b")) in
  let! (result, reassembler) := insert reassembler c0 in
  let! _ := unwrap_ok result in
  let! (result, reassembler) := insert reassembler c0_dup in
  let! _ := unwrap_ok result in
  let! (result, reassembler) := insert reassembler c1 in
  let! result := unwrap_ok result in
  let! message := unwrap_some result in
  assert_eq message (b_ "ab").

Definition mismatched_seq_total_is_rejected : outcome unit :=
  let id := replicate 16 x05 in
  let reassembler := new in
  let! c0 := unwrap_ok (new_data id 0 2 (b_ "a")) in
  let! c1 := unwrap_ok (new_data id 0 3 (b_ "a")) in
  let! (result, reassembler) := insert reassembler c0 in
  let! _ := unwrap_ok result in
  let! (result, reassembler) := insert reassembler c1 in
  assert (match result with Err MismatchedMessageId => true | _ => false end).

Definition evict_removes_pending_message : outcome unit :=
  let id := replicate 16 x06 in
  let reassembler := new in
  let! cell := unwrap_ok (new_data id 0 2 (b_ "a")) in
  let! (result, reassembler) := insert reassembler cell in
  let! _ := unwrap_ok result in
  let! _ := assert_eq (pending_count reassembler) 1 in
  let reassembler := evict reassembler id in
  assert_eq (pending_count reassembler) 0.

Definition reassembly_tests : list (outcome unit) :=
  [completes_after_all_fragments_received; duplicate_cell_does_not_corrupt_state;
   mismatched_seq_total_is_rejected; evict_removes_pending_message].

Lemma reassembly_tests_pass : Forall passes reassembly_tests.
Proof. repeat apply Forall_cons_2; by vm_compute. Qed.

(** ** [crypto/encryption.rs] and [crypto/keys.rs] *)

Section crypto_tests.
Context {R : Type} `{Rng R} `{Crypto} `{Hex}.

Definition encrypt_then_decrypt_recovers_original_cell (rng : R) : outcome unit :=
  let key := replicate 32 x2a in
  let! cell := unwrap_ok (new_data (replicate 16 x01) 0 1 (b_ "veil payload")) in
  let '(encrypted, rng) := encrypt_cell key cell rng in
  let! encrypted := encrypted in
  let! encrypted := unwrap_ok encrypted in
  let! decrypted := decrypt_cell key encrypted in
  let! decrypted := unwrap_ok decrypted in
  let! payload := payload decrypted in
  assert_eq payload (b_ "veil payload").

Definition repeated_encryption_of_same_cell_produces_different_ciphertext (rng : R) : outcome unit :=
  let key := replicate 32 x05 in
  let! cell := unwrap_ok (new_data (replicate 16 x00) 0 1 (b_ "same content")) in
  let '(first, rng) := encrypt_cell key cell rng in
  let! first := first in
  let! first := unwrap_ok first in
  let '(second, rng) := encrypt_cell key cell rng in
  let! second := second in
  let! second := unwrap_ok second in
  assert (negb (bool_decide (first = second))).

Definition both_sides_derive_identical_shared_key (rng : R) : outcome unit :=
  let '(alice, rng) := generate rng in
  let '(bob, rng) := generate rng in
  let shared_alice := diffie_hellman alice (public_key bob) in
  let shared_bob := diffie_hellman bob (public_key alice) in
  let! key_alice := unwrap_ok (derive_key shared_alice (b_ "test-context")) in
  let! key_bob := unwrap_ok (derive_key shared_bob (b_ "test-context")) in
  assert_eq key_alice key_bob.

Definition hex_roundtrip_preserves_the_same_identity (rng : R) : outcome unit :=
  let '(original, rng) := generate rng in
  let hex := to_hex original in
  let! restored := unwrap_ok (from_hex hex) in
  assert_eq (public_key original) (public_key restored).

Definition restored_keypair_derives_identical_shared_secrets (rng : R) : outcome unit :=
  let '(original, rng) := generate rng in
  let '(peer, rng) := generate rng in
  let hex := to_hex original in
  let! restored := unwrap_ok (from_hex hex) in
  let! key_original := unwrap_ok (derive_key (diffie_hellman original (public_key peer)) (b_ "ctx")) in
  let! key_restored := unwrap_ok (derive_key (diffie_hellman restored (public_key peer)) (b_ "ctx")) in
  assert_eq key_original key_restored.

Definition invalid_hex_is_rejected : outcome unit := assert (is_err (from_hex (b_ "this is not hex"))).

Definition wrong_length_hex_is_rejected : outcome unit := assert (is_err (from_hex (b_ "aabbcc"))).

Definition crypto_tests (rng : R) : list (outcome unit) :=
  [encrypt_then_decrypt_recovers_original_cell rng; both_sides_derive_identical_shared_key rng;
   hex_roundtrip_preserves_the_same_identity rng; restored_keypair_derives_identical_shared_secrets rng;
   invalid_hex_is_rejected; wrong_length_hex_is_rejected].
End crypto_tests.

Section crypto_pass.
Context {R : Type} `{RngLaws R} `{CryptoLaws} `{HexLaws}.

Lemma generated (rng : R) : exists kp rng', generate rng = (kp, rng') /\ wf_keypair kp.
Proof. pose proof (generate_wf rng). destruct (generate rng) as [kp rng']. by exists kp, rng'. Qed.

(** The generator gives two different nonces. *)
Definition fresh_nonces (rng : R) : Prop :=
  (fill_bytes NONCE_SIZE rng).1 <> (fill_bytes NONCE_SIZE (fill_bytes NONCE_SIZE rng).2).1.

Lemma repeated_encryption_passes (rng : R) :
  fresh_nonces rng -> passes (repeated_encryption_of_same_cell_produces_different_ciphertext rng).
Proof.
  intros Hn. unfold passes, repeated_encryption_of_same_cell_produces_different_ciphertext.
  destruct (new_data (replicate 16 x00) 0 1 (b_ "same content")) as [cell|] eqn:Ec; [|by vm_compute in Ec].
  cbn [unwrap_ok]. assert (length (replicate 16 x00) = 16%nat) as Hid by done. assert (1 <= u16_MAX) as Ht by by vm_compute.
  destruct (new_data_ok _ _ _ _ _ Hid (Z.le_refl 0) Ht Ec) as (Hwf & _).
  destruct (encrypt_cell_eq (replicate 32 x05) cell rng Hwf) as (ct1 & _ & -> & _). cbn [unwrap_ok].
  destruct (encrypt_cell_eq (replicate 32 x05) cell (fill_bytes NONCE_SIZE rng).2 Hwf) as (ct2 & _ & -> & _).
  cbn [unwrap_ok]. rewrite bool_decide_false; [done|]. intros [Heq _]%app_inj_1; [done|].
  by rewrite !fill_bytes_length.
Qed.

(** Text of the wrong length is no key. *)
Lemma from_hex_length s : length (trim s) <> 64%nat -> is_err (from_hex s) = true.
Proof.
  intros Hl. unfold from_hex. destruct (hex_decode (trim s)) as [k|] eqn:E; cbn [ok_or]; [|done].
  apply hex_decode_length in E. by rewrite decide_False by lia.
Qed.

Lemma from_hex_to_hex_exact kp : wf_keypair kp -> from_hex (to_hex kp) = Ok kp.
Proof. intros Hkp. pose proof (from_hex_to_hex kp [] [] Hkp) as Hr. rewrite app_nil_r in Hr. by apply Hr. Qed.

Lemma crypto_tests_pass (rng : R) : Forall passes (crypto_tests rng).
Proof.
  repeat apply Forall_cons_2; [| | | | | |constructor]; unfold passes.
  - unfold encrypt_then_decrypt_recovers_original_cell.
    destruct (new_data (replicate 16 x01) 0 1 (b_ "veil payload")) as [cell|] eqn:Ec; [|by vm_compute in Ec].
    cbn [unwrap_ok]. assert (length (replicate 16 x01) = 16%nat) as Hid by done. assert (1 <= u16_MAX) as Ht by by vm_compute.
    destruct (new_data_ok _ _ _ _ _ Hid (Z.le_refl 0) Ht Ec) as (Hwf & Hp & _).
    destruct (decrypt_encrypt (replicate 32 x2a) cell rng Hwf) as (enc & -> & _ & Hd).
    cbv beta iota zeta. cbn [unwrap_ok]. rewrite Hd. cbn [unwrap_ok]. rewrite payload_ok, Hp by done. apply assert_eq_refl.
  - unfold both_sides_derive_identical_shared_key.
    destruct (generated rng) as (alice & rng1 & -> & Ha), (generated rng1) as (bob & rng2 & -> & Hb).
    cbv zeta. rewrite (diffie_hellman_comm alice bob) by done.
    destruct (derive_key_ok (diffie_hellman bob (public_key alice)) (b_ "test-context")) as (key & -> & _).
    apply assert_eq_refl.
  - unfold hex_roundtrip_preserves_the_same_identity. destruct (generated rng) as (kp & rng1 & -> & Hkp).
    cbv zeta. rewrite from_hex_to_hex_exact by done. apply assert_eq_refl.
  - unfold restored_keypair_derives_identical_shared_secrets.
    destruct (generated rng) as (kp & rng1 & -> & Hkp), (generated rng1) as (peer & rng2 & -> & _).
    cbv zeta. rewrite from_hex_to_hex_exact by done. cbn [unwrap_ok].
    destruct (derive_key_ok (diffie_hellman kp (public_key peer)) (b_ "ctx")) as (key & -> & _).
    apply assert_eq_refl.
  - unfold invalid_hex_is_rejected. by rewrite from_hex_length by by vm_compute.
  - unfold wrong_length_hex_is_rejected. by rewrite from_hex_length by by vm_compute.
Qed.
End crypto_pass.

(** ** All of them *)

(** The unit tests of [veil-core] pass in the model, whatever the random
    generator does and for every implementation of the ciphers and of hex that
    meets its laws. *)
Lemma core_tests_pass {R : Type} `{RngLaws R} `{CryptoLaws} `{HexLaws} (rng : R) :
  Forall passes (cell_tests rng) /\ Forall passes (fragmentation_tests rng) /\
  Forall passes reassembly_tests /\ Forall passes (crypto_tests rng).
Proof.
  split_and!; [apply cell_tests_pass|apply fragmentation_tests_pass|apply reassembly_tests_pass|apply crypto_tests_pass].
Qed.
