(* ===== verification/Forwarding.v ===== *)
(** * Onion layers and framing: [veil-relay/src/forwarding.rs]

    The onion payload codec, building and peeling one layer, and the
    length-prefixed frames. The theorems show that the codec is a bijection
    between well-formed payloads and the byte strings it accepts, that the
    addressed relay recovers exactly the payload the sender wrapped, that
    whatever peels was built for that relay's key, the exact size of a layer,
    and the framing round trip. *)
From S2P Require Import Prelude.
From S2P Require Import RustStd.
From S2P Require Import Interfaces.
From S2P Require Import Cell.
From S2P Require Import Keys.

Open Scope Z_scope.

Definition EPHEMERAL_KEY_SIZE : nat := 32.
Definition NONCE_SIZE : nat := 12.
Definition TAG_SIZE : nat := 16.
Definition ONION_KEY_CONTEXT : bytes := String.list_byte_of_string "veil-onion-layer-v1".

Inductive OnionError : Type :=
  | FrameTooShort
  | OnionDecryptionFailed
  | Malformed
  | KeyDerivation.

(** A [String] is its UTF-8 bytes. *)
Inductive OnionPayload : Type :=
  | Forward (next_hop body : bytes)
  | Deliver (body : bytes).

#[export] Instance OnionError_eq_dec : EqDecision OnionError.
Proof. solve_decision. Defined.
#[export] Instance OnionPayload_eq_dec : EqDecision OnionPayload.
Proof. solve_decision. Defined.

Definition encode_payload (payload : OnionPayload) : bytes :=
  match payload with
  | Forward next_hop body =>
      let hop_bytes := next_hop in
      [x00] ++ to_be_bytes 2 (as_u16 (len hop_bytes)) ++ hop_bytes ++ body
  | Deliver body => [x01] ++ body
  end.

Definition decode_payload (bs : bytes) : result OnionError OnionPayload :=
  match bs with
  | [] => Err Malformed
  | flag :: rest =>
      if decide (byte_to_Z flag = 0) then
        if decide (length rest < 2)%nat then Err Malformed
        else
          let hop_len := Z.to_nat (from_be_bytes [rest !!! 0%nat; rest !!! 1%nat]) in
          let rest := drop 2 rest in
          if decide (length rest < hop_len)%nat then Err Malformed
          else
            let? next_hop := ok_or (from_utf8 (take hop_len rest)) Malformed in
            let body := drop hop_len rest in
            Ok (Forward next_hop body)
      else if decide (byte_to_Z flag = 1) then Ok (Deliver rest)
      else Err Malformed
  end.

Section layers.
Context {R : Type} `{Rng R} `{Crypto}.

Definition derive_key_from_bytes (shared_secret : bytes) : result OnionError bytes :=
  ok_or (hkdf_sha256 shared_secret ONION_KEY_CONTEXT 32) KeyDerivation.

Definition build_onion_layer (relay_public : bytes) (payload : OnionPayload) (rng : R) :
    result OnionError bytes * R :=
  let '(ephemeral, rng) := random_secret rng in
  let ephemeral_public := x25519_public ephemeral in
  let shared := x25519 ephemeral relay_public in
  match derive_key_from_bytes shared with
  | Err e => (Err e, rng)
  | Ok key =>
      let plaintext := encode_payload payload in
      let '(nonce_bytes, rng) := fill_bytes NONCE_SIZE rng in
      (let? ciphertext := ok_or (aead_encrypt key nonce_bytes plaintext) KeyDerivation in
       Ok (ephemeral_public ++ nonce_bytes ++ ciphertext), rng)
  end.

Definition peel_onion_layer (keypair : KeyPair) (frame : bytes) :
    result OnionError OnionPayload :=
  if decide (length frame < EPHEMERAL_KEY_SIZE + NONCE_SIZE + TAG_SIZE)%nat
  then Err FrameTooShort
  else
    let ephemeral_public := take EPHEMERAL_KEY_SIZE frame in
    let shared := diffie_hellman keypair ephemeral_public in
    let? key := map_err (fun _ => KeyDerivation) (derive_key shared ONION_KEY_CONTEXT) in
    let nonce := take NONCE_SIZE (drop EPHEMERAL_KEY_SIZE frame) in
    let ciphertext := drop (EPHEMERAL_KEY_SIZE + NONCE_SIZE) frame in
    let? plaintext := ok_or (aead_decrypt key nonce ciphertext) OnionDecryptionFailed in
    decode_payload plaintext.
End layers.

Section framing.
Context {W Conn : Type} `{Net W Conn}.

Definition write_frame (writer : Conn) (body : bytes) : io W unit :=
  _ <-- write_all writer (to_be_bytes 4 (as_u32 (len body))) ;;
  write_all writer body.

Definition read_frame (reader : Conn) : io W bytes :=
  len_buf <-- read_exact reader 4 ;;
  let len := Z.to_nat (from_be_bytes len_buf) in
  read_exact reader len.
End framing.

#[global] Arguments encode_payload : simpl never.
#[global] Arguments decode_payload : simpl never.
#[global] Arguments build_onion_layer : simpl never.
#[global] Arguments peel_onion_layer : simpl never.

(** The bytes of one frame. *)
Definition frame_bytes (body : bytes) : bytes := to_be_bytes 4 (as_u32 (len body)) ++ body.
#[global] Arguments frame_bytes : simpl never.

(** What the codec can carry: the address is UTF-8 and its length fits the
    two-byte prefix. *)
Definition wf_payload (p : OnionPayload) : Prop :=
  match p with
  | Forward next_hop _ => utf8_valid next_hop = true /\ len next_hop <= u16_MAX
  | Deliver _ => True
  end.

(** ** The codec *)

Lemma decode_encode p : wf_payload p -> decode_payload (encode_payload p) = Ok p.
Proof.
  destruct p as [hop body|body]; unfold decode_payload, encode_payload; cbn [app]; [|done].
  intros [Hu Hl]. rewrite decide_True by done.
  unfold u16_MAX, as_u16 in *. rewrite Z.mod_small by (pose proof (len_nonneg hop); lia).
  rewrite to_be_bytes_2. cbn [app length]. rewrite decide_False by lia.
  cbn [lookup_total list_lookup_total drop].
  rewrite <- to_be_bytes_2, from_to_be_bytes_small by (pose proof (len_nonneg hop); lia).
  unfold len. rewrite !Nat2Z.id, !drop_0, length_app, decide_False by lia.
  rewrite take_app_length, drop_app_length.
  unfold from_utf8. by rewrite Hu.
Qed.

Lemma encode_decode bs p :
  decode_payload bs = Ok p -> wf_payload p /\ encode_payload p = bs.
Proof.
  unfold decode_payload. destruct bs as [|flag rest]; [done|].
  case_decide as Hf; [|case_decide as Hf1; [|done]].
  - destruct rest as [|a [|b rest]]; [done..|].
    cbn [lookup_total list_lookup_total] in *.
    pose proof (from_be_bytes_range [a; b]) as Hr. unfold len in Hr. cbn in Hr.
    set (n := from_be_bytes [a; b]) in *.
    cbn [length drop]. rewrite drop_0, decide_False by lia.
    case_decide; [done|].
    destruct (from_utf8 _) as [hop|] eqn:E; cbn [ok_or]; [|done]. intros [= <-].
    apply from_utf8_Some in E as [Hu <-].
    assert (len (take (Z.to_nat n) rest) = n) as Hl
      by (unfold len; rewrite length_take; lia).
    unfold wf_payload, encode_payload. rewrite Hl. split; [unfold u16_MAX; split; [done|lia]|].
    unfold as_u16. rewrite Z.mod_small by lia. subst n.
    rewrite (to_from_be_bytes_n 2 [a; b]) by done. rewrite take_drop.
    rewrite (byte_to_Z_inj flag x00) by done. done.
  - intros [= <-]. split; [done|]. unfold encode_payload.
    by rewrite (byte_to_Z_inj flag x01).
Qed.

(** ** Layers *)

Section layer_lemmas.
Context {R : Type} `{RngLaws R} `{CryptoLaws}.

(** The key a layer is sealed with, from the sender's side. *)
Definition layer_key (ephemeral relay_public : bytes) : option bytes :=
  hkdf_sha256 (x25519 ephemeral relay_public) ONION_KEY_CONTEXT 32.

(** The two random draws of [build_onion_layer]. *)
Definition layer_ephemeral (rng : R) : bytes := (random_secret rng).1.
Definition layer_nonce (rng : R) : bytes := (fill_bytes NONCE_SIZE (random_secret rng).2).1.
Definition layer_rng (rng : R) : R := (fill_bytes NONCE_SIZE (random_secret rng).2).2.

Lemma build_onion_layer_eq relay_public p rng :
  len (encode_payload p) < 2 ^ 32 ->
  exists key ct,
    layer_key (layer_ephemeral rng) relay_public = Some key /\
    aead_encrypt key (layer_nonce rng) (encode_payload p) = Some ct /\
    length ct = (length (encode_payload p) + 16)%nat /\
    build_onion_layer relay_public p rng =
      (Ok (x25519_public (layer_ephemeral rng) ++ layer_nonce rng ++ ct), layer_rng rng).
Proof.
  intros Hp. unfold build_onion_layer, layer_key, layer_ephemeral, layer_nonce, layer_rng.
  destruct (random_secret rng) as [eph rng1] eqn:E1. cbn [fst snd].
  unfold derive_key_from_bytes.
  destruct (hkdf_sha256_ok (x25519 eph relay_public) ONION_KEY_CONTEXT 32)
    as (key & Hk & _); [cbn; lia|].
  rewrite Hk. cbn [ok_or].
  destruct (fill_bytes NONCE_SIZE rng1) as [nonce rng2] eqn:E2. cbn [fst snd].
  destruct (aead_encrypt_total key nonce (encode_payload p) Hp) as [ct Hct].
  exists key, ct. rewrite Hct. split_and!; try done. by apply aead_encrypt_length in Hct.
Qed.

Lemma layer_ephemeral_length rng : length (layer_ephemeral rng) = 32%nat.
Proof. apply random_secret_length. Qed.

Lemma layer_nonce_length rng : length (layer_nonce rng) = NONCE_SIZE.
Proof. apply fill_bytes_length. Qed.

(** Peeling a frame cut at its fixed offsets. *)
Lemma peel_app kp eph nonce ct :
  length eph = EPHEMERAL_KEY_SIZE -> length nonce = NONCE_SIZE -> (TAG_SIZE <= length ct)%nat ->
  peel_onion_layer kp (eph ++ nonce ++ ct) =
    match hkdf_sha256 (x25519 (kp_secret kp) eph) ONION_KEY_CONTEXT 32 with
    | None => Err KeyDerivation
    | Some key =>
        match aead_decrypt key nonce ct with
        | None => Err OnionDecryptionFailed
        | Some m => decode_payload m
        end
    end.
Proof.
  intros He Hn Ht. unfold peel_onion_layer, derive_key, diffie_hellman. cbn [shared_bytes].
  rewrite decide_False by (rewrite !length_app; lia).
  rewrite take_app_length' by done.
  destruct (hkdf_sha256 _ _ _) as [key|]; cbn [ok_or map_err]; [|done].
  rewrite <- drop_drop, drop_app_length', take_app_length', drop_app_length' by done.
  by destruct (aead_decrypt key nonce ct).
Qed.

Lemma peel_build kp p rng :
  wf_keypair kp -> wf_payload p -> len (encode_payload p) < 2 ^ 32 ->
  exists frame, build_onion_layer (public_key kp) p rng = (Ok frame, layer_rng rng) /\
    peel_onion_layer kp frame = Ok p /\
    length frame = (60 + length (encode_payload p))%nat.
Proof.
  intros [Hs Hpub] Hwf Hp.
  destruct (build_onion_layer_eq (public_key kp) p rng Hp) as (key & ct & Hk & Hct & Hl & E).
  pose proof (layer_ephemeral_length rng) as He. pose proof (layer_nonce_length rng) as Hn.
  pose proof (x25519_public_length _ He) as Hep.
  eexists; split_and!; [done| |].
  - rewrite peel_app by (done || (unfold TAG_SIZE; lia)).
    unfold layer_key, public_key in Hk. rewrite Hpub, x25519_comm in Hk by done.
    rewrite Hk, (aead_decrypt_encrypt _ _ _ _ Hct). by apply decode_encode.
  - rewrite !length_app, Hep, Hn, Hl. unfold NONCE_SIZE. lia.
Qed.

(** Every frame, cut at the fixed offsets, or the too-short error. *)
Lemma frame_cut (frame : bytes) :
  (60 <= length frame)%nat ->
  exists eph nonce ct, frame = eph ++ nonce ++ ct /\
    length eph = EPHEMERAL_KEY_SIZE /\ length nonce = NONCE_SIZE /\ (TAG_SIZE <= length ct)%nat.
Proof.
  intros Hl. exists (take 32 frame), (take 12 (drop 32 frame)), (drop 12 (drop 32 frame)).
  rewrite !take_drop, !length_take, !length_drop.
  unfold EPHEMERAL_KEY_SIZE, NONCE_SIZE, TAG_SIZE. split_and!; try done; lia.
Qed.

Lemma peel_sound kp frame p :
  peel_onion_layer kp frame = Ok p ->
  wf_payload p /\ exists eph nonce key ct,
    frame = eph ++ nonce ++ ct /\ length eph = 32%nat /\ length nonce = 12%nat /\
    layer_key (kp_secret kp) eph = Some key /\
    aead_encrypt key nonce (encode_payload p) = Some ct.
Proof.
  intros E. destruct (decide (length frame < 60)%nat) as [Hs|Hs].
  { unfold peel_onion_layer in E. by rewrite decide_True in E. }
  destruct (frame_cut frame ltac:(lia)) as (eph & nonce & ct & -> & He & Hn & Ht).
  rewrite peel_app in E by done.
  destruct (hkdf_sha256 _ _ _) as [key|] eqn:Hk; [|done].
  destruct (aead_decrypt key nonce ct) as [m|] eqn:Hm; [|done].
  apply encode_decode in E as [Hwf <-]. split; [done|].
  exists eph, nonce, key, ct. split_and!; try done. by apply aead_decrypt_sound.
Qed.
End layer_lemmas.

#[global] Arguments layer_rng : simpl never.

(** ** Frames *)

Section frame_lemmas.
Context {W Conn : Type} `{NetLaws W Conn}.

Lemma read_frame_ok c w body rest :
  len body < 2 ^ 32 -> inbox w c = frame_bytes body ++ rest ->
  exists w', read_frame c w = (Ok body, w') /\ inbox w' c = rest.
Proof.
  intros Hl Hin. unfold read_frame, io_bind, frame_bytes in *.
  assert (as_u32 (len body) = len body) as Hu
    by (apply Z.mod_small; pose proof (len_nonneg body); lia).
  rewrite Hu in Hin. rewrite <- app_assoc in Hin.
  destruct (read_exact_ok c 4 w) as (w1 & -> & Hin1).
  { rewrite Hin, length_app, length_to_be_bytes. lia. }
  rewrite Hin, drop_app_length' in Hin1 by by rewrite length_to_be_bytes.
  rewrite Hin, take_app_length' by by rewrite length_to_be_bytes.
  rewrite from_to_be_bytes_small by (pose proof (len_nonneg body); lia).
  unfold len. rewrite Nat2Z.id.
  destruct (read_exact_ok c (length body) w1) as (w2 & -> & Hin2).
  { rewrite Hin1, length_app. lia. }
  exists w2. rewrite Hin1, take_app_length in *. by rewrite Hin2, drop_app_length.
Qed.

(** A stream that ends inside a frame is an error, never a short body. *)
Lemma read_frame_eof c w body n :
  len body < 2 ^ 32 -> (n < length (frame_bytes body))%nat ->
  inbox w c = take n (frame_bytes body) ->
  exists e w', read_frame c w = (Err e, w').
Proof.
  intros Hl Hn Hin. unfold read_frame, io_bind, frame_bytes in *.
  assert (as_u32 (len body) = len body) as Hu
    by (apply Z.mod_small; pose proof (len_nonneg body); lia).
  rewrite Hu in *. rewrite length_app, length_to_be_bytes in Hn.
  destruct (decide (n < 4)%nat) as [Hs|Hs].
  { destruct (read_exact_eof c 4 w) as (e & w1 & ->); [|by eexists _, _].
    rewrite Hin, length_take. lia. }
  rewrite take_app_ge in Hin by (rewrite length_to_be_bytes; lia).
  rewrite length_to_be_bytes in Hin.
  destruct (read_exact_ok c 4 w) as (w1 & -> & Hin1).
  { rewrite Hin, length_app, length_to_be_bytes. lia. }
  rewrite Hin, drop_app_length' in Hin1 by by rewrite length_to_be_bytes.
  rewrite Hin, take_app_length' by by rewrite length_to_be_bytes.
  rewrite from_to_be_bytes_small by (pose proof (len_nonneg body); lia).
  unfold len. rewrite Nat2Z.id.
  destruct (read_exact_eof c (length body) w1) as (e & w2 & ->); [|by eexists _, _].
  rewrite Hin1, length_take. lia.
Qed.

Lemma write_frame_ok c body w w' :
  write_frame c body w = (Ok tt, w') -> outbox w' c = outbox w c ++ frame_bytes body.
Proof.
  unfold write_frame, io_bind, frame_bytes.
  destruct (write_all c (to_be_bytes 4 (as_u32 (len body))) w) as [[[]|e] w1] eqn:E1; [|done].
  intros E2. apply write_all_ok in E1, E2. by rewrite E2, E1, app_assoc.
Qed.
(** A stream is still open and what is to be read from it unchanged. *)
Definition untouched (s : Conn) w w' : Prop :=
  live w s -> live w' s /\ inbox w' s = inbox w s.

Lemma untouched_trans s w1 w2 w3 : untouched s w1 w2 -> untouched s w2 w3 -> untouched s w1 w3.
Proof. intros Ha Hb Hl. destruct (Ha Hl) as [Hl2 <-]. by apply Hb. Qed.

Lemma write_frame_untouched c b w r w' s :
  write_frame c b w = (r, w') -> untouched s w w'.
Proof.
  unfold write_frame, io_bind. intros E Hl.
  destruct (write_all c _ w) as [[[]|e] w1] eqn:E1.
  - pose proof (write_all_frame _ _ _ _ _ s E1) as (Hi & _ & Hv).
    pose proof (write_all_frame _ _ _ _ _ s E) as (Hi' & _ & Hv').
    split; [auto|congruence].
  - injection E as <- <-. pose proof (write_all_frame _ _ _ _ _ s E1) as (Hi & _ & Hv). auto.
Qed.

Lemma write_frame_outbox_ne c b w r w' s :
  write_frame c b w = (r, w') -> s <> c -> outbox w' s = outbox w s.
Proof.
  unfold write_frame, io_bind. intros E Hs.
  destruct (write_all c _ w) as [[[]|e] w1] eqn:E1.
  - pose proof (write_all_frame _ _ _ _ _ s E1) as (_ & Ho & _).
    pose proof (write_all_frame _ _ _ _ _ s E) as (_ & Ho' & _).
    rewrite Ho', Ho; done.
  - injection E as <- <-. pose proof (write_all_frame _ _ _ _ _ s E1) as (_ & Ho & _). auto.
Qed.

End frame_lemmas.

(** ** Properties *)

(** C26: the payload codec is a bijection. Decoding accepts exactly the
    encodings of the well-formed payloads (a UTF-8 address of at most 65,535
    bytes) and returns the payload that was encoded; every other byte string
    is rejected as malformed. *)
Theorem decode_payload_iff bs p :
  (decode_payload bs = Ok p <-> wf_payload p /\ encode_payload p = bs) /\
  (forall e, decode_payload bs = Err e ->
     e = Malformed /\ forall q, wf_payload q -> encode_payload q <> bs).
Proof.
  split; [split|].
  - apply encode_decode.
  - intros [Hw <-]. by apply decode_encode.
  - intros e E. split.
    + unfold decode_payload in E. destruct bs as [|f r]; [by injection E|].
      destruct (decide (byte_to_Z f = 0)).
      * case_decide; [by injection E|]. case_decide; [by injection E|].
        destruct (from_utf8 _); [done|by injection E].
      * case_decide; [done|by injection E].
    + intros q Hq Hb. rewrite <- Hb, decode_encode in E by done. done.
Qed.


Section layer_properties.
Context {R : Type} `{RngLaws R} `{CryptoLaws}.

(** One layer, end to end. For a relay's key pair and any payload the
    codec can carry (up to 4 GiB encoded), building a layer for its public
    key succeeds, the frame is exactly 60 bytes longer than the encoded
    payload, and the relay peels exactly that payload off it. *)
Theorem onion_layer_roundtrip kp p rng :
  wf_keypair kp -> wf_payload p -> len (encode_payload p) < 2 ^ 32 ->
  exists frame, (build_onion_layer (public_key kp) p rng).1 = Ok frame /\
    length frame = (60 + length (encode_payload p))%nat /\
    peel_onion_layer kp frame = Ok p.
Proof.
  intros Hk Hw Hl. destruct (peel_build kp p rng Hk Hw Hl) as (f & -> & ? & ?). by exists f.
Qed.

(** C25: peeling accepts nothing forged. When a relay peels a payload off a
    frame, the frame is an ephemeral public key, a nonce and the AEAD
    encryption of exactly that payload's encoding under the key shared with
    this relay, and the payload is well formed; frames shorter than a key, a
    nonce and a tag are refused before any cryptography. *)
Theorem peel_accepts_only_genuine kp frame :
  ((length frame < 60)%nat -> peel_onion_layer kp frame = Err FrameTooShort) /\
  forall p, peel_onion_layer kp frame = Ok p ->
    wf_payload p /\ exists eph nonce key ct,
      frame = eph ++ nonce ++ ct /\ length eph = 32%nat /\ length nonce = 12%nat /\
      derive_key (diffie_hellman kp eph) ONION_KEY_CONTEXT = Ok key /\
      aead_encrypt key nonce (encode_payload p) = Some ct.
Proof.
  split.
  - intros Hs. unfold peel_onion_layer. by rewrite decide_True.
  - intros p E. destruct (peel_sound kp frame p E) as (Hw & eph & n & key & ct & Hf & ? & ? & Hk & ?).
    split; [done|]. exists eph, n, key, ct. split_and!; try done.
    unfold derive_key, diffie_hellman, layer_key in *. cbn [shared_bytes]. by rewrite Hk.
Qed.
End layer_properties.

Section frame_properties.
Context {W Conn : Type} `{NetLaws W Conn}.

(** Framing round trip. If a frame was written successfully and the
    reader's stream starts with what the writer transmitted, the reader gets
    exactly the body and its stream continues after the frame; if its stream
    ends anywhere inside the frame it gets an error, never a short body. *)
Theorem framing_roundtrip c body w w' c' r rest n :
  write_frame c body w = (Ok tt, w') -> len body < 2 ^ 32 ->
  exists sent, outbox w' c = outbox w c ++ sent /\
    (inbox r c' = sent ++ rest ->
       exists r', read_frame c' r = (Ok body, r') /\ inbox r' c' = rest) /\
    ((n < length sent)%nat -> inbox r c' = take n sent ->
       exists e r', read_frame c' r = (Err e, r')).
Proof.
  intros Hw Hl. exists (frame_bytes body). split_and!.
  - by apply write_frame_ok.
  - by apply read_frame_ok.
  - by apply read_frame_eof.
Qed.
End frame_properties.
