(* ===== verification/Mailbox.v ===== *)
(** * Mailbox and metrics: [veil-relay/src/mailbox.rs], [metrics.rs]

    The delivery queue of a relay and its counters. Every clone of a
    [Mailbox] shares one queue behind a mutex held for the whole of each
    operation, so a run of any number of tasks is a sequence of operations on
    that queue. *)
From S2P Require Import Prelude.

Open Scope Z_scope.

(** ** [mailbox.rs]

    The contents of [Arc<Mutex<VecDeque<Vec<u8>>>>]. *)
Record Mailbox : Type := mkMailbox { queue : list bytes }.

Definition mailbox_new : Mailbox := {| queue := [] |}.

Definition push (self : Mailbox) (cell : bytes) : Mailbox :=
  {| queue := queue self ++ [cell] |}.

Definition drain (self : Mailbox) : list bytes * Mailbox :=
  (queue self, {| queue := [] |}).

Definition mailbox_len (self : Mailbox) : Z := len (queue self).

Definition mailbox_is_empty (self : Mailbox) : bool :=
  match queue self with [] => true | _ => false end.

(** Operations by any holder of a clone, in the order they take the lock. *)
Inductive mailbox_op : Type := OpPush (cell : bytes) | OpDrain.

(** The batches the drains return, and the queue afterwards. *)
Fixpoint mailbox_run (ops : list mailbox_op) (m : Mailbox) : list (list bytes) * Mailbox :=
  match ops with
  | [] => ([], m)
  | OpPush cell :: ops' => mailbox_run ops' (push m cell)
  | OpDrain :: ops' =>
      let '(cells, m) := drain m in
      let '(batches, m) := mailbox_run ops' m in
      (cells :: batches, m)
  end.

Definition pushed (ops : list mailbox_op) : list bytes :=
  omap (fun op => match op with OpPush c => Some c | OpDrain => None end) ops.

(** ** [metrics.rs] *)

(** The atomic counters; [fetch_add] wraps around. *)
Record Metrics : Type := mkMetrics {
  cells_forwarded : Z;
  cells_delivered : Z;
  decrypt_failures : Z;
  connections_rejected : Z
}.

Definition metrics_default : Metrics :=
  {| cells_forwarded := 0; cells_delivered := 0; decrypt_failures := 0;
     connections_rejected := 0 |}.

Definition fetch_add (c n : Z) : Z := as_u64 (c + n).

Definition inc_forwarded (m : Metrics) : Metrics :=
  {| cells_forwarded := fetch_add (cells_forwarded m) 1;
     cells_delivered := cells_delivered m; decrypt_failures := decrypt_failures m;
     connections_rejected := connections_rejected m |}.
Definition inc_delivered (m : Metrics) : Metrics :=
  {| cells_forwarded := cells_forwarded m;
     cells_delivered := fetch_add (cells_delivered m) 1;
     decrypt_failures := decrypt_failures m;
     connections_rejected := connections_rejected m |}.
Definition inc_failures (m : Metrics) : Metrics :=
  {| cells_forwarded := cells_forwarded m; cells_delivered := cells_delivered m;
     decrypt_failures := fetch_add (decrypt_failures m) 1;
     connections_rejected := connections_rejected m |}.
Definition inc_rejected (m : Metrics) : Metrics :=
  {| cells_forwarded := cells_forwarded m; cells_delivered := cells_delivered m;
     decrypt_failures := decrypt_failures m;
     connections_rejected := fetch_add (connections_rejected m) 1 |}.

(** The plain copy [snapshot] returns. *)
Record MetricsSnapshot : Type := mkSnapshot {
  s_cells_forwarded : Z;
  s_cells_delivered : Z;
  s_decrypt_failures : Z;
  s_connections_rejected : Z
}.

Definition snapshot (self : Metrics) : MetricsSnapshot :=
  {| s_cells_forwarded := cells_forwarded self;
     s_cells_delivered := cells_delivered self;
     s_decrypt_failures := decrypt_failures self;
     s_connections_rejected := connections_rejected self |}.

(** ** Properties *)

Lemma mailbox_run_conserves ops m :
  concat (mailbox_run ops m).1 ++ queue (mailbox_run ops m).2 = queue m ++ pushed ops.
Proof.
  revert m. induction ops as [|[cell|] ops IH]; intros m; cbn.
  - by rewrite app_nil_r.
  - rewrite IH. cbn. by rewrite <- app_assoc.
  - specialize (IH {| queue := [] |}). destruct (mailbox_run ops _) as [bs m'].
    cbn in *. by rewrite <- app_assoc, IH.
Qed.

Lemma mailbox_run_app ops1 ops2 m :
  mailbox_run (ops1 ++ ops2) m =
    ((mailbox_run ops1 m).1 ++ (mailbox_run ops2 (mailbox_run ops1 m).2).1,
     (mailbox_run ops2 (mailbox_run ops1 m).2).2).
Proof.
  revert m. induction ops1 as [|[cell|] ops1 IH]; intros m; cbn.
  - by destruct (mailbox_run ops2 m).
  - apply IH.
  - rewrite IH. by destruct (mailbox_run ops1 _).
Qed.

(** The mailbox delivers exactly once and in order. Whatever the
    interleaving of pushes and drains by all the holders of a mailbox, the
    drained batches one after the other, followed by what is still queued,
    are the cells queued at first followed by all the cells pushed: none
    lost, duplicated or reordered; and once a drain comes last everything
    pushed has been handed out and the queue is empty. *)
Theorem mailbox_exactly_once ops m :
  concat (mailbox_run ops m).1 ++ queue (mailbox_run ops m).2 = queue m ++ pushed ops /\
  concat (mailbox_run (ops ++ [OpDrain]) m).1 = queue m ++ pushed ops /\
  mailbox_is_empty (mailbox_run (ops ++ [OpDrain]) m).2 = true.
Proof.
  split; [apply mailbox_run_conserves|]. rewrite mailbox_run_app. cbn.
  rewrite concat_app. cbn. rewrite app_nil_r. split; [apply mailbox_run_conserves|done].
Qed.
