(* ===== verification/PullListener.v ===== *)
(** * The mailbox port: [veil-relay/src/pull_listener.rs]

    The PULL and DESCRIBE requests, server side ([handle_request]) and client
    side ([pull], [describe]), over the stream interface. The theorems show
    that a PULL transfers exactly the queued cells and empties the mailbox,
    that a DESCRIBE returns the relay's identity, and what happens to the
    mailbox when a response cannot be sent. *)
From S2P Require Import Prelude.
From S2P Require Import RustStd.
From S2P Require Import Interfaces.
From S2P Require Import Cell.
From S2P Require Import Forwarding.
From S2P Require Import Mailbox.

Open Scope Z_scope.

Definition PULL_REQUEST_BYTE : byte := x01.
Definition DESCRIBE_REQUEST_BYTE : byte := x02.

Record RelayIdentity : Type := mkIdentity {
  ri_id : bytes;
  ri_public_key : bytes;
  ri_main_addr : bytes
}.

#[export] Instance RelayIdentity_eq_dec : EqDecision RelayIdentity.
Proof. solve_decision. Defined.

Section pull_listener.
Context {W Conn : Type} `{Net W Conn}.

Definition write_len_prefixed (stream : Conn) (bs : bytes) : io W unit :=
  _ <-- write_all stream (to_be_bytes 2 (as_u16 (len bs))) ;;
  write_all stream bs.

Definition read_len_prefixed_string (stream : Conn) : io W bytes :=
  len_buf <-- read_exact stream 2 ;;
  let len := Z.to_nat (from_be_bytes len_buf) in
  buf <-- read_exact stream len ;;
  match from_utf8 buf with
  | Some s => io_ret s
  | None => io_err InvalidData
  end.

(** [for cell in cells { write_frame(&mut stream, &cell).await?; }] *)
Fixpoint write_frames (stream : Conn) (cells : list bytes) : io W unit :=
  match cells with
  | [] => io_ret tt
  | cell :: cells' => _ <-- write_frame stream cell ;; write_frames stream cells'
  end.

(** The request handler: what it does to the world, and the mailbox it
    leaves. The drain comes before the response is written. *)
Definition handle_request (stream : Conn) (mailbox : Mailbox) (identity : RelayIdentity)
    (w : W) : io_result unit * W * Mailbox :=
  match read_exact stream 1 w with
  | (Err e, w) => (Err e, w, mailbox)
  | (Ok request, w) =>
      if decide (request !!! 0%nat = PULL_REQUEST_BYTE) then
        let '(cells, mailbox) := drain mailbox in
        ((_ <-- write_all stream (to_be_bytes 4 (as_u32 (len cells))) ;;
          write_frames stream cells) w, mailbox)
      else if decide (request !!! 0%nat = DESCRIBE_REQUEST_BYTE) then
        ((_ <-- write_len_prefixed stream (ri_id identity) ;;
          _ <-- write_all stream (ri_public_key identity) ;;
          write_len_prefixed stream (ri_main_addr identity)) w, mailbox)
      else (Ok tt, w, mailbox)
  end.

(** [for _ in 0..count { cells.push(read_frame(&mut stream).await?); }] *)
Fixpoint read_frames (stream : Conn) (count : nat) (cells : list bytes) : io W (list bytes) :=
  match count with
  | O => io_ret cells
  | S count' => cell <-- read_frame stream ;; read_frames stream count' (cells ++ [cell])
  end.

Definition pull (addr : bytes) : io W (list bytes) :=
  stream <-- connect addr ;;
  _ <-- write_all stream [PULL_REQUEST_BYTE] ;;
  count_buf <-- read_exact stream 4 ;;
  let count := Z.to_nat (from_be_bytes count_buf) in
  read_frames stream count [].

Definition describe (addr : bytes) : io W RelayIdentity :=
  stream <-- connect addr ;;
  _ <-- write_all stream [DESCRIBE_REQUEST_BYTE] ;;
  id <-- read_len_prefixed_string stream ;;
  pub_bytes <-- read_exact stream 32 ;;
  let public_key := pub_bytes in
  main_addr <-- read_len_prefixed_string stream ;;
  io_ret {| ri_id := id; ri_public_key := public_key; ri_main_addr := main_addr |}.
End pull_listener.

(** The responses on the wire. *)
Definition pull_response (cells : list bytes) : bytes :=
  to_be_bytes 4 (as_u32 (len cells)) ++ concat (map frame_bytes cells).

Definition len_prefixed (bs : bytes) : bytes := to_be_bytes 2 (as_u16 (len bs)) ++ bs.

Definition describe_response (identity : RelayIdentity) : bytes :=
  len_prefixed (ri_id identity) ++ ri_public_key identity ++ len_prefixed (ri_main_addr identity).

#[global] Arguments describe_response : simpl never.

(** An identity whose strings are [String]s short enough for their prefix. *)
Definition wf_identity (i : RelayIdentity) : Prop :=
  utf8_valid (ri_id i) = true /\ len (ri_id i) <= u16_MAX /\
  length (ri_public_key i) = 32%nat /\
  utf8_valid (ri_main_addr i) = true /\ len (ri_main_addr i) <= u16_MAX.

#[global] Arguments pull_response : simpl never.
#[global] Arguments len_prefixed : simpl never.

(** A batch of cells whose count and lengths fit their prefixes. *)
Definition wf_batch (cells : list bytes) : Prop :=
  len cells < 2 ^ 32 /\ Forall (fun c : bytes => len c < 2 ^ 32) cells.

Section lemmas.
Context {W Conn : Type} `{NetLaws W Conn}.

Lemma read_exact_app c w n a b :
  inbox w c = a ++ b -> length a = n ->
  exists w', read_exact c n w = (Ok a, w') /\ inbox w' c = b.
Proof.
  intros Hin <-. destruct (read_exact_ok c (length a) w) as (w' & -> & Hin').
  { rewrite Hin, length_app. lia. }
  exists w'. by rewrite Hin', Hin, take_app_length, drop_app_length.
Qed.

Lemma read_frames_ok c w cells acc rest :
  Forall (fun b : bytes => len b < 2 ^ 32) cells ->
  inbox w c = concat (map frame_bytes cells) ++ rest ->
  exists w', read_frames c (length cells) acc w = (Ok (acc ++ cells), w') /\
    inbox w' c = rest.
Proof.
  intros Hc. revert w acc. induction Hc as [|b cells Hb _ IH]; intros w acc Hin; cbn in *.
  - exists w. by rewrite app_nil_r.
  - rewrite <- app_assoc in Hin. unfold io_bind.
    destruct (read_frame_ok c w b _ Hb Hin) as (w1 & -> & Hin1).
    destruct (IH w1 (acc ++ [b]) Hin1) as (w2 & -> & Hin2).
    exists w2. by rewrite <- app_assoc.
Qed.

Lemma write_frames_ok c cells w w' :
  write_frames c cells w = (Ok tt, w') ->
  outbox w' c = outbox w c ++ concat (map frame_bytes cells).
Proof.
  revert w. induction cells as [|b cells IH]; intros w; cbn.
  - intros [= <-]. by rewrite app_nil_r.
  - unfold io_bind. destruct (write_frame c b w) as [[[]|e] w1] eqn:E; [|done].
    intros Hw. apply write_frame_ok in E. rewrite (IH w1 Hw), E. by rewrite app_assoc.
Qed.

Lemma read_string_ok c w s rest :
  utf8_valid s = true -> len s <= u16_MAX -> inbox w c = len_prefixed s ++ rest ->
  exists w', read_len_prefixed_string c w = (Ok s, w') /\ inbox w' c = rest.
Proof.
  intros Hu Hl Hin. unfold read_len_prefixed_string, io_bind.
  unfold len_prefixed in Hin. unfold u16_MAX in Hl.
  pose proof (len_nonneg s). rewrite <- app_assoc in Hin.
  destruct (read_exact_app c w 2 _ _ Hin) as (w1 & -> & Hin1); [by rewrite length_to_be_bytes|].
  unfold as_u16. rewrite Z.mod_small by lia.
  rewrite from_to_be_bytes_small by lia. unfold len. rewrite Nat2Z.id.
  destruct (read_exact_app c w1 (length s) _ _ Hin1) as (w2 & -> & Hin2); [done|].
  exists w2. unfold from_utf8. by rewrite Hu.
Qed.

Lemma write_len_prefixed_ok c s w w' :
  write_len_prefixed c s w = (Ok tt, w') -> outbox w' c = outbox w c ++ len_prefixed s.
Proof.
  unfold write_len_prefixed, io_bind, len_prefixed.
  destruct (write_all c (to_be_bytes 2 (as_u16 (len s))) w) as [[[]|e] w1] eqn:E1; [|done].
  intros E2. apply write_all_ok in E1, E2. by rewrite E2, E1, app_assoc.
Qed.

Lemma handle_pull s mb ident w x w' mb' r :
  inbox w s = PULL_REQUEST_BYTE :: x ->
  handle_request s mb ident w = (r, w', mb') ->
  queue mb' = [] /\
  (r = Ok tt -> outbox w' s = outbox w s ++ pull_response (queue mb)).
Proof.
  intros Hin. unfold handle_request.
  destruct (read_exact_app s w 1 [PULL_REQUEST_BYTE] x Hin eq_refl) as (w1 & E1 & _).
  rewrite E1. cbn [drain]. rewrite decide_True by done. unfold drain, io_bind.
  pose proof (read_exact_frame s 1 w _ w1 s E1) as (Ho & _).
  destruct (write_all s _ w1) as [[[]|e] w2] eqn:E2.
  - intros [= E3 <-]. split; [done|]. intros ->.
    apply write_frames_ok in E3. apply write_all_ok in E2.
    unfold pull_response. by rewrite E3, E2, Ho, app_assoc.
  - intros [= <- <- <-]. by split.
Qed.

Lemma pull_ok addr w c w1 w2 cells :
  connect addr w = (Ok c, w1) -> write_all c [PULL_REQUEST_BYTE] w1 = (Ok tt, w2) ->
  wf_batch cells -> inbox w2 c = pull_response cells ->
  exists w3, pull addr w = (Ok cells, w3) /\ inbox w3 c = [].
Proof.
  intros Hc Hw [Hn Hcells] Hin. unfold pull, io_bind. rewrite Hc, Hw.
  unfold pull_response in Hin.
  destruct (read_exact_app c w2 4 _ _ Hin) as (w3 & -> & Hin3); [by rewrite length_to_be_bytes|].
  unfold as_u32. rewrite Z.mod_small by (pose proof (len_nonneg cells); lia).
  rewrite from_to_be_bytes_small by (pose proof (len_nonneg cells); lia).
  unfold len. rewrite Nat2Z.id. rewrite <- (app_nil_r (concat _)) in Hin3.
  destruct (read_frames_ok c w3 cells [] [] Hcells Hin3) as (w4 & E4 & Hin4).
  exists w4. by rewrite E4.
Qed.

(** A request other than PULL leaves the mailbox alone. *)
Lemma handle_other s req x mb ident w r w' mb' :
  inbox w s = req :: x -> req <> PULL_REQUEST_BYTE -> handle_request s mb ident w = (r, w', mb') ->
  mb' = mb /\
  (req <> DESCRIBE_REQUEST_BYTE -> r = Ok tt /\ outbox w' s = outbox w s) /\
  (req = DESCRIBE_REQUEST_BYTE -> r = Ok tt -> outbox w' s = outbox w s ++ describe_response ident).
Proof.
  intros Hin Hreq. unfold handle_request.
  destruct (read_exact_app s w 1 [req] x Hin eq_refl) as (w1 & E1 & _).
  pose proof (read_exact_frame s 1 w _ w1 s E1) as (Ho1 & _).
  rewrite E1. cbn [lookup_total list_lookup_total]. rewrite decide_False by done.
  destruct (decide (req = DESCRIBE_REQUEST_BYTE)) as [->|Hd].
  2: { intros [= <- <- <-]. by split_and!. }
  intros [= Ew <-]. split_and!; [done|done|]. intros _ ->. revert Ew. unfold io_bind.
  destruct (write_len_prefixed s (ri_id ident) w1) as [[[]|] w2] eqn:E2; [|done].
  destruct (write_all s (ri_public_key ident) w2) as [[[]|] w3] eqn:E3; [|done].
  intros E4. apply write_len_prefixed_ok in E2, E4. apply write_all_ok in E3.
  unfold describe_response. by rewrite E4, E3, E2, Ho1, <- !app_assoc.
Qed.

Lemma describe_ok addr w c w1 w2 ident :
  connect addr w = (Ok c, w1) -> write_all c [DESCRIBE_REQUEST_BYTE] w1 = (Ok tt, w2) ->
  wf_identity ident -> inbox w2 c = describe_response ident ->
  exists w3, describe addr w = (Ok ident, w3).
Proof.
  intros Hc Hw (Hu1 & Hl1 & Hk & Hu2 & Hl2) Hin. unfold describe, io_bind. rewrite Hc, Hw.
  unfold describe_response in Hin.
  destruct (read_string_ok c w2 _ _ Hu1 Hl1 Hin) as (w3 & -> & Hin3).
  destruct (read_exact_app c w3 32 _ _ Hin3 Hk) as (w4 & -> & Hin4).
  rewrite <- (app_nil_r (len_prefixed _)) in Hin4.
  destruct (read_string_ok c w4 _ _ Hu2 Hl2 Hin4) as (w5 & -> & _).
  exists w5. by destruct ident.
Qed.
End lemmas.

(** ** Properties *)

Section properties.
Context {W Conn : Type} `{NetLaws W Conn}.

(** A PULL transfers exactly the mailbox. When the relay serves a PULL
    request to the end, the mailbox is empty afterwards and the client, whose
    stream carries what the relay sent, receives every queued cell, whole and
    oldest first. A PULL whose response fails at any point has emptied the
    mailbox all the same: delivery is at most once. *)
Theorem pull_transfers_mailbox ws s x mb ident r ws' mb' addr w c w1 w2 :
  inbox ws s = PULL_REQUEST_BYTE :: x ->
  handle_request s mb ident ws = (r, ws', mb') ->
  mailbox_is_empty mb' = true /\
  (r = Ok tt -> wf_batch (queue mb) ->
   connect addr w = (Ok c, w1) -> write_all c [PULL_REQUEST_BYTE] w1 = (Ok tt, w2) ->
   outbox ws' s = outbox ws s ++ inbox w2 c ->
   exists w3, pull addr w = (Ok (queue mb), w3)).
Proof.
  intros Hin Hr. destruct (handle_pull s mb ident ws x ws' mb' r Hin Hr) as [Hq Ho].
  split; [unfold mailbox_is_empty; by rewrite Hq|].
  intros -> Hb Hc Hw Hio. rewrite (Ho eq_refl) in Hio. apply app_inv_head in Hio.
  destruct (pull_ok addr w c w1 w2 (queue mb)) as (w3 & -> & _); eauto.
Qed.

End properties.
