(* ===== verification/PullServer.v ===== *)
(** * The accept loop of the mailbox port: [veil-relay/src/pull_listener.rs]

    [serve] spawns one task per connection, all of them sharing the mailbox.
    [PullListener.handle_request] is such a task run without interruption;
    here it is the same task cut at its [await] points, so that the tasks of
    several connections and the pushes of the relay can be interleaved. The
    theorems say that every task ends, that the client side of the protocol
    ([PullListener.pull], [PullListener.describe]) reads from its answer what the
    relay holds, and that the task agrees with the handler. *)
From S2P Require Import Prelude.
From S2P Require Import RustStd.
From S2P Require Import Interfaces.
From S2P Require Import Forwarding.
From S2P Require Import Mailbox.
From S2P Require Import PullListener.

Open Scope Z_scope.

(** Where the task of a request is: about to read the request byte, about to
    drain the mailbox, or with these buffers still to be written. *)
Inductive request_task : Type :=
  | AwaitRequest
  | Draining
  | Responding (pending : list bytes).

#[export] Instance request_task_eq_dec : EqDecision request_task.
Proof. solve_decision. Defined.

(** The buffers [write_frame] and [write_len_prefixed] pass to [write_all]. *)
Definition frame_writes (body : bytes) : list bytes := [to_be_bytes 4 (as_u32 (len body)); body].

Definition prefixed_writes (bs : bytes) : list bytes := [to_be_bytes 2 (as_u16 (len bs)); bs].

(** The buffers of the two responses, in order. *)
Definition pull_writes (cells : list bytes) : list bytes :=
  to_be_bytes 4 (as_u32 (len cells)) :: concat (map frame_writes cells).

Definition describe_writes (identity : RelayIdentity) : list bytes :=
  prefixed_writes (ri_id identity) ++ ri_public_key identity :: prefixed_writes (ri_main_addr identity).

(** What a turn of a task does: it goes on, or ends with a result. *)
Inductive task_flow : Type :=
  | Goes (t : request_task)
  | Ends (r : io_result unit).

Section tasks.
Context {W Conn : Type} `{Net W Conn}.

(** The task up to its next [await] point. *)
Definition task_step (stream : Conn) (t : request_task) (mailbox : Mailbox)
    (identity : RelayIdentity) (w : W) : task_flow * Mailbox * W :=
  match t with
  | AwaitRequest =>
      match read_exact stream 1 w with
      | (Err e, w) => (Ends (Err e), mailbox, w)
      | (Ok request, w) =>
          if decide (request !!! 0%nat = PULL_REQUEST_BYTE) then (Goes Draining, mailbox, w)
          else if decide (request !!! 0%nat = DESCRIBE_REQUEST_BYTE) then
            (Goes (Responding (describe_writes identity)), mailbox, w)
          else (Ends (Ok tt), mailbox, w)
      end
  | Draining =>
      let '(cells, mailbox) := drain mailbox in
      (Goes (Responding (pull_writes cells)), mailbox, w)
  | Responding [] => (Ends (Ok tt), mailbox, w)
  | Responding (buf :: pending) =>
      match write_all stream buf w with
      | (Err e, w) => (Ends (Err e), mailbox, w)
      | (Ok _, w) => (Goes (Responding pending), mailbox, w)
      end
  end.

(** The task with nobody interfering; [None] when the fuel runs out. *)
Fixpoint task_run (fuel : nat) (stream : Conn) (t : request_task) (mailbox : Mailbox)
    (identity : RelayIdentity) (w : W) : option (io_result unit) * Mailbox * W :=
  match fuel with
  | O => (None, mailbox, w)
  | S fuel' =>
      match task_step stream t mailbox identity w with
      | (Ends r, mailbox, w) => (Some r, mailbox, w)
      | (Goes t, mailbox, w) => task_run fuel' stream t mailbox identity w
      end
  end.

(** Writing a list of buffers one after the other. *)
Fixpoint write_each (stream : Conn) (bufs : list bytes) : io W unit :=
  match bufs with
  | [] => io_ret tt
  | buf :: bufs' => _ <-- write_all stream buf ;; write_each stream bufs'
  end.
End tasks.

(** Turns a task needs at most, with this much in the mailbox. *)
Definition task_turns (t : request_task) (mailbox : Mailbox) : nat :=
  match t with
  | AwaitRequest => 9 + 2 * length (queue mailbox)
  | Draining => 3 + 2 * length (queue mailbox)
  | Responding pending => 1 + length pending
  end.

(** ** Lemmas *)

Lemma length_pull_writes cells : length (pull_writes cells) = (1 + 2 * length cells)%nat.
Proof. unfold pull_writes. cbn [length]. f_equal. induction cells as [|c cells IH]; cbn [map concat frame_writes app length] in *; lia. Qed.

Lemma concat_pull_writes cells : concat (pull_writes cells) = pull_response cells.
Proof.
  unfold pull_writes, pull_response. cbn [concat]. f_equal.
  induction cells as [|c cells IH]; [done|]. cbn [map concat frame_writes app].
  rewrite IH. unfold frame_bytes. by rewrite <- app_assoc.
Qed.

Lemma concat_describe_writes i : concat (describe_writes i) = describe_response i.
Proof.
  unfold describe_writes, describe_response, prefixed_writes, len_prefixed. cbn [concat app].
  by rewrite app_nil_r, <- app_assoc.
Qed.

Section lemmas.
Context {W Conn : Type} `{Net W Conn}.

Lemma write_each_app (c : Conn) a b w :
  write_each c (a ++ b) w = (_ <-- write_each c a ;; write_each c b) w.
Proof.
  revert w. induction a as [|buf a IH]; intros w; cbn; [done|].
  unfold io_bind. destruct (write_all c buf w) as [[[]|e] w1]; [|done]. by rewrite IH.
Qed.

Lemma write_frames_each (c : Conn) cells w :
  write_frames c cells w = write_each c (concat (map frame_writes cells)) w.
Proof.
  revert w. induction cells as [|b cells IH]; intros w; cbn; [done|].
  unfold write_frame, io_bind.
  destruct (write_all c _ w) as [[[]|e] w1]; [|done].
  destruct (write_all c b w1) as [[[]|e] w2]; [|done]. by rewrite IH.
Qed.

Lemma write_each_describe (c : Conn) i w :
  (_ <-- write_len_prefixed c (ri_id i) ;;
   _ <-- write_all c (ri_public_key i) ;;
   write_len_prefixed c (ri_main_addr i)) w = write_each c (describe_writes i) w.
Proof.
  cbn. unfold write_len_prefixed, io_bind.
  destruct (write_all c _ w) as [[[]|e] w1]; [|done].
  destruct (write_all c _ w1) as [[[]|e] w2]; [|done].
  destruct (write_all c _ w2) as [[[]|e] w3]; [|done].
  destruct (write_all c _ w3) as [[[]|e] w4]; [|done].
  by destruct (write_all c _ w4) as [[[]|e] w5].
Qed.

(** The responding phase writes its buffers. *)
Lemma task_run_responding fuel (c : Conn) pending mb ident w :
  (length pending < fuel)%nat ->
  task_run fuel c (Responding pending) mb ident w =
    let '(r, w') := write_each c pending w in (Some r, mb, w').
Proof.
  revert fuel w. induction pending as [|buf pending IH]; intros [|fuel] w Hf; cbn in *; try lia; [done|].
  unfold io_bind. destruct (write_all c buf w) as [[[]|e] w1]; [|done]. apply IH. lia.
Qed.

Lemma task_run_eq fuel (c : Conn) mb ident w :
  (task_turns AwaitRequest mb <= fuel)%nat ->
  task_run fuel c AwaitRequest mb ident w =
    let '(r, w', mb') := handle_request c mb ident w in (Some r, mb', w').
Proof.
  unfold task_turns, handle_request. intros Hf.
  destruct fuel as [|fuel]; [lia|]. cbn [task_run task_step].
  destruct (read_exact c 1 w) as [[request|e] w1]; [|done].
  destruct (decide (request !!! 0%nat = PULL_REQUEST_BYTE)) as [Hp|Hp].
  - destruct fuel as [|fuel]; [lia|]. cbn [task_run task_step drain].
    rewrite task_run_responding by (rewrite length_pull_writes; lia).
    unfold pull_writes. cbn [write_each]. unfold io_bind.
    destruct (write_all c _ w1) as [[[]|e] w2]; [|done]. rewrite write_frames_each.
    by destruct (write_each c _ w2).
  - destruct (decide (request !!! 0%nat = DESCRIBE_REQUEST_BYTE)) as [Hd|Hd].
    + rewrite task_run_responding by (unfold describe_writes; cbn [length app prefixed_writes]; lia).
      rewrite <- write_each_describe. by destruct (io_bind _ _ w1).
    + done.
Qed.
End lemmas.

(** A task makes a bounded number of turns, whatever the others do: a turn
    that goes on lowers the bound, unless it is taken before the drain, when
    pushes may still raise it. *)
Lemma task_step_turns {W Conn : Type} `{Net W Conn} (c : Conn) t mb ident w t' mb' w' :
  task_step c t mb ident w = (Goes t', mb', w') ->
  (task_turns t' mb' < task_turns t mb)%nat.
Proof.
  destruct t as [| |[|buf pending]]; cbn [task_step drain].
  - destruct (read_exact c 1 w) as [[request|e] w1]; [|done].
    case_decide; [|case_decide]; intros [= <- <- <-]; unfold task_turns; cbn [length describe_writes prefixed_writes app]; lia.
  - intros [= <- <- <-]. unfold task_turns. rewrite length_pull_writes. lia.
  - done.
  - destruct (write_all c buf w) as [[[]|e] w1]; intros [= <- <- <-]. unfold task_turns. cbn. lia.
Qed.

(** The buffers a task writes in answer to a request, and the mailbox it leaves. *)
Definition answer_writes (request : byte) (mb : Mailbox) (ident : RelayIdentity) : list bytes * Mailbox :=
  if decide (request = PULL_REQUEST_BYTE) then (pull_writes (queue mb), mailbox_new)
  else if decide (request = DESCRIBE_REQUEST_BYTE) then (describe_writes ident, mb)
  else ([], mb).

Section answering.
Context {W Conn : Type} `{NetLaws W Conn}.

(** Writing buffers one after the other writes all of them, or stops with an
    error somewhere before the end. *)
Lemma write_each_all (c : Conn) bufs w w' :
  write_each c bufs w = (Ok tt, w') -> outbox w' c = outbox w c ++ concat bufs.
Proof.
  revert w. induction bufs as [|b bufs IH]; intros w; cbn; [intros [= <-]; by rewrite app_nil_r|].
  unfold io_bind. destruct (write_all c b w) as [[[]|e] w1] eqn:E; [|done].
  intros Hw. rewrite (IH _ Hw), (write_all_ok _ _ _ _ E). by rewrite app_assoc.
Qed.

Lemma write_each_part `{!StreamBreak W Conn} `{!StreamBreakLaws W Conn} (c : Conn) bufs w e w' :
  write_each c bufs w = (Err e, w') ->
  exists part rest, outbox w' c = outbox w c ++ part /\ concat bufs = part ++ rest /\ rest <> [].
Proof.
  revert w. induction bufs as [|b bufs IH]; intros w; cbn; [done|].
  unfold io_bind. destruct (write_all c b w) as [[[]|e1] w1] eqn:E.
  - intros Hw. destruct (IH _ Hw) as (part & rest & -> & Hc & Hr). rewrite (write_all_ok _ _ _ _ E), Hc.
    exists (b ++ part), rest. by rewrite !app_assoc.
  - intros [= <- <-]. destruct (write_all_err _ _ _ _ _ E) as (_ & k & Hk & ->).
    exists (take k b), (drop k b ++ concat bufs). split_and!; [done|by rewrite app_assoc, take_drop|].
    intros Hn. apply (f_equal length) in Hn. rewrite length_app, length_drop in Hn. cbn in Hn. lia.
Qed.

Lemma task_run_answers fuel (c : Conn) req x mb ident w :
  inbox w c = req :: x -> (task_turns AwaitRequest mb <= fuel)%nat ->
  exists w1, outbox w1 c = outbox w c /\
    task_run fuel c AwaitRequest mb ident w =
      let '(r, w') := write_each c (answer_writes req mb ident).1 w1 in (Some r, (answer_writes req mb ident).2, w').
Proof.
  intros Hin Hf. destruct (read_exact_app c w 1 [req] x Hin eq_refl) as (w1 & E & _).
  exists w1. split; [apply (read_exact_frame _ _ _ _ _ c E)|]. unfold task_turns in Hf.
  destruct fuel as [|fuel]; [lia|]. cbn [task_run task_step]. rewrite E. unfold answer_writes.
  cbn [lookup_total list_lookup_total].
  destruct (decide (req = PULL_REQUEST_BYTE)) as [->|Hp].
  - destruct fuel as [|fuel]; [lia|]. cbn [task_run task_step drain fst snd].
    by rewrite task_run_responding by (rewrite length_pull_writes; lia).
  - destruct (decide (req = DESCRIBE_REQUEST_BYTE)) as [->|Hd]; [|done].
    by rewrite task_run_responding by (unfold describe_writes; cbn [length app prefixed_writes]; lia).
Qed.
End answering.

(** ** Properties *)

Section properties.
Context {W Conn : Type} `{Net W Conn}.

(** Cutting a request at its [await] points changes nothing when nobody
    interferes: for every request, mailbox, world
    and identity, the task run from the start returns what [handle_request]
    returns and leaves the same mailbox and world. Even under interference a task
    never makes more turns after its drain than its response has buffers. *)
Theorem request_task_agrees (stream : Conn) mb ident (w : W) fuel :
  (9 + 2 * length (queue mb) <= fuel)%nat ->
  task_run fuel stream AwaitRequest mb ident w =
    (let '(r, w', mb') := handle_request stream mb ident w in (Some r, mb', w')) /\
  forall pending mb1 w1 t mb2 w2,
    task_step stream (Responding pending) mb1 ident w1 = (Goes t, mb2, w2) ->
    mb2 = mb1 /\ exists pending', t = Responding pending' /\ length pending = S (length pending').
Proof.
  intros Hf. split; [by apply task_run_eq|].
  intros [|buf pending] mb1 w1 t mb2 w2; cbn; [done|].
  destruct (write_all stream buf w1) as [[[]|e] w3]; intros [= <- <- <-]. split; [done|]. by exists pending.
Qed.
End properties.

Section serving.
Context {W Conn : Type} `{NetLaws W Conn} `{!StreamBreak W Conn} `{!StreamBreakLaws W Conn}.

(** C22: a request is served. Within nine turns and two more per queued cell the
    task of a request ends. A PULL empties the mailbox; when it ends without an
    error, a client whose stream carries what the task wrote gets every queued
    cell from [pull], whole and oldest first. A DESCRIBE leaves the mailbox alone,
    and such a client gets the identity of the relay from [describe]. When the
    task ends with an error it has written a part of its answer, never all of it;
    any other request byte is answered with nothing, and a stream that closes
    without a request changes nothing. *)
Theorem request_task_serves (stream : Conn) mb ident (w : W) fuel addr v c v1 v2 req x :
  (9 + 2 * length (queue mb) <= fuel)%nat ->
  connect addr v = (Ok c, v1) -> write_all c [req] v1 = (Ok tt, v2) ->
  (inbox w stream = [] -> exists e w', task_run fuel stream AwaitRequest mb ident w = (Some (Err e), mb, w')) /\
  (inbox w stream = req :: x ->
   exists r mb' w', task_run fuel stream AwaitRequest mb ident w = (Some r, mb', w') /\
    (req = PULL_REQUEST_BYTE -> queue mb' = [] /\
       (r = Ok tt -> wf_batch (queue mb) -> outbox w' stream = outbox w stream ++ inbox v2 c ->
        (pull addr v).1 = Ok (queue mb))) /\
    (req <> PULL_REQUEST_BYTE -> mb' = mb) /\
    (req = DESCRIBE_REQUEST_BYTE -> r = Ok tt -> wf_identity ident ->
       outbox w' stream = outbox w stream ++ inbox v2 c -> (describe addr v).1 = Ok ident) /\
    (req <> PULL_REQUEST_BYTE -> req <> DESCRIBE_REQUEST_BYTE -> r = Ok tt /\ outbox w' stream = outbox w stream) /\
    (forall e, r = Err e -> exists part rest, outbox w' stream = outbox w stream ++ part /\ rest <> [] /\
       part ++ rest = if decide (req = PULL_REQUEST_BYTE) then pull_response (queue mb) else describe_response ident)).
Proof.
  intros Hf Hc Hw. split.
  { intros Hin. destruct fuel as [|fuel]; [lia|]. cbn [task_run task_step].
    destruct (read_exact_eof stream 1 w) as (e & w' & ->); [rewrite Hin; cbn; lia|]. by exists e, w'. }
  intros Hin. destruct (task_run_answers fuel stream req x mb ident w Hin Hf) as (w1 & Ho & ->).
  destruct (write_each stream (answer_writes req mb ident).1 w1) as [r w'] eqn:Ew.
  exists r, (answer_writes req mb ident).2, w'. split; [done|]. rewrite <- Ho.
  assert (forall e, r = Err e -> exists part rest, outbox w' stream = outbox w1 stream ++ part /\ rest <> [] /\
            part ++ rest = concat (answer_writes req mb ident).1) as Herr.
  { intros e ->. destruct (write_each_part _ _ _ _ _ Ew) as (part & rest & ? & ? & ?). by exists part, rest. }
  pose proof (write_each_all stream (answer_writes req mb ident).1 w1 w') as Hall. rewrite Ew in Hall.
  unfold answer_writes in *. destruct (decide (req = PULL_REQUEST_BYTE)) as [->|Hp]; cbn [fst snd] in *.
  - rewrite concat_pull_writes in *. split_and!; try done.
    intros _. split; [done|]. intros -> Hb Hio. rewrite Hall in Hio by done. apply app_inv_head in Hio.
    by destruct (pull_ok addr v c v1 v2 (queue mb)) as (v3 & -> & _).
  - destruct (decide (req = DESCRIBE_REQUEST_BYTE)) as [->|Hd]; cbn [fst snd] in *.
    + rewrite concat_describe_writes in *. split_and!; try done.
      intros _ -> Hwf Hio. rewrite Hall in Hio by done. apply app_inv_head in Hio.
      by destruct (describe_ok addr v c v1 v2 ident) as (v3 & ->).
    + cbn in Ew. injection Ew as <- <-. by split_and!.
Qed.
End serving.
