(* ===== verification/Node.v ===== *)
(** * The relay node: [veil-relay/src/node.rs], [config.rs]

    The state of a relay, its outbound connection pool, forwarding with one
    redial of a stale connection, the per-connection frame loop, and the
    accept loop with its connection limit. A frame is the unit of
    interleaving: [relay_step] lets any active connection process its next
    frame, and [run_connection] runs one connection to its end. *)
From S2P Require Import Prelude.
From S2P Require Import RustStd.
From S2P Require Import Interfaces.
From S2P Require Import Keys.
From S2P Require Import Forwarding.
From S2P Require Import Mailbox.

Open Scope Z_scope.

Inductive RelayError : Type :=
  | Config (msg : bytes)
  | Io (e : io_error)
  | Onion (e : OnionError).

Record RelayConfig : Type := mkRelayConfig {
  listen_addr : SocketAddr;
  relay_id : bytes;
  static_secret_hex : option bytes;
  max_connections : nat
}.

Definition default_max_connections : nat := 256.

(** [Arc]s are shared references to the one node; its mutable parts are the
    metrics, the pool behind its mutex, the sending half of the delivery
    channel and the semaphore. *)
Record RelayNode (Conn Ch Sem : Type) : Type := mkRelayNode {
  config : RelayConfig;
  keypair : KeyPair;
  metrics : Metrics;
  outbound : gmap bytes Conn;
  delivery_tx : Ch;
  connection_limiter : Sem
}.
Arguments mkRelayNode {Conn Ch Sem}.
Arguments config {Conn Ch Sem}.
Arguments keypair {Conn Ch Sem}.
Arguments metrics {Conn Ch Sem}.
Arguments outbound {Conn Ch Sem}.
Arguments delivery_tx {Conn Ch Sem}.
Arguments connection_limiter {Conn Ch Sem}.

Section node.
Context {W Conn Ch Sem : Type} `{Net W Conn} `{Crypto} `{Channel Ch} `{Semaphore Sem}.
Abbreviation node := (RelayNode Conn Ch Sem).

Definition RelayNode_new (config : RelayConfig) (keypair : KeyPair) : outcome node :=
  let delivery_tx := ch_new in
  let! connection_limiter := Semaphore_new (max_connections config) in
  Done {| config := config; keypair := keypair; metrics := metrics_default; outbound := ∅;
          delivery_tx := delivery_tx; connection_limiter := connection_limiter |}.

(** The node it returns, when it does not panic. *)
Definition fresh_node (config : RelayConfig) (keypair : KeyPair) : node :=
  {| config := config; keypair := keypair; metrics := metrics_default; outbound := ∅;
     delivery_tx := ch_new; connection_limiter := sem_new (max_connections config) |}.

Lemma RelayNode_new_eq (config : RelayConfig) (keypair : KeyPair) :
  RelayNode_new config keypair =
    if decide (Z.of_nat (max_connections config) <= MAX_PERMITS) then Done (fresh_node config keypair) else Panic.
Proof. unfold RelayNode_new, Semaphore_new. by case_decide. Qed.

Definition set_metrics (f : Metrics -> Metrics) (n : node) : node :=
  mkRelayNode (config n) (keypair n) (f (metrics n)) (outbound n) (delivery_tx n)
    (connection_limiter n).
Definition set_outbound (f : gmap bytes Conn -> gmap bytes Conn) (n : node) : node :=
  mkRelayNode (config n) (keypair n) (metrics n) (f (outbound n)) (delivery_tx n)
    (connection_limiter n).
Definition set_delivery_tx (f : Ch -> Ch) (n : node) : node :=
  mkRelayNode (config n) (keypair n) (metrics n) (outbound n) (f (delivery_tx n))
    (connection_limiter n).
Definition set_limiter (s : Sem) (n : node) : node :=
  mkRelayNode (config n) (keypair n) (metrics n) (outbound n) (delivery_tx n) s.

Definition get_or_connect (addr : bytes) (self : node) (w : W) :
    result RelayError Conn * node * W :=
  match outbound self !! addr with
  | Some conn => (Ok conn, self, w)
  | None =>
      match connect addr w with
      | (Err e, w) => (Err (Io e), self, w)
      | (Ok stream, w) => (Ok stream, set_outbound <[addr := stream]> self, w)
      end
  end.

Definition forward (next_hop body : bytes) (self : node) (w : W) :
    result RelayError unit * node * W :=
  match get_or_connect next_hop self w with
  | (Err e, self, w) => (Err e, self, w)
  | (Ok conn, self, w) =>
      match write_frame conn body w with
      | (Ok tt, w) => (Ok tt, self, w)
      | (Err _, w) =>
          let self := set_outbound (delete next_hop) self in
          match get_or_connect next_hop self w with
          | (Err e, self, w) => (Err e, self, w)
          | (Ok conn, self, w) =>
              match write_frame conn body w with
              | (Err e, w) => (Err (Io e), self, w)
              | (Ok tt, w) => (Ok tt, self, w)
              end
          end
      end
  end.

(** What one turn of the loop of [handle_connection] does: go on, or return
    from the function. *)
Inductive flow : Type := Continue | Return (r : result RelayError unit).

(** The body of the loop in [handle_connection], from the [peel] on. *)
Definition process_frame (frame : bytes) (self : node) (w : W) : flow * node * W :=
  match peel_onion_layer (keypair self) frame with
  | Err _ => (Continue, set_metrics inc_failures self, w)
  | Ok (Forward next_hop body) =>
      match forward next_hop body self w with
      | (Err e, self, w) => (Return (Err e), self, w)
      | (Ok tt, self, w) => (Continue, set_metrics inc_forwarded self, w)
      end
  | Ok (Deliver body) =>
      (Continue, set_metrics inc_delivered (set_delivery_tx (ch_send body) self), w)
  end.

(** The whole body of that loop. *)
Definition handle_frame (stream : Conn) (self : node) (w : W) : flow * node * W :=
  match read_exact stream 4 w with
  | (Err _, w) => (Return (Ok tt), self, w)
  | (Ok len_buf, w) =>
      let len := Z.to_nat (from_be_bytes len_buf) in
      match read_exact stream len w with
      | (Err e, w) => (Return (Err (Io e)), self, w)
      | (Ok frame, w) => process_frame frame self w
      end
  end.

(** The loop itself; [None] when the fuel runs out. *)
Fixpoint handle_connection (fuel : nat) (stream : Conn) (self : node) (w : W) :
    option (result RelayError unit) * node * W :=
  match fuel with
  | O => (None, self, w)
  | S fuel' =>
      match handle_frame stream self w with
      | (Continue, self, w) => handle_connection fuel' stream self w
      | (Return r, self, w) => (Some r, self, w)
      end
  end.

(** One turn of the accept loop of [run], and the connections that hold a
    permit: a refused stream is dropped. *)
Definition accept_connection (stream : Conn) (self : node) (active : list Conn) :
    node * list Conn :=
  match try_acquire (connection_limiter self) with
  | Some limiter => (set_limiter limiter self, active ++ [stream])
  | None => (set_metrics inc_rejected self, active)
  end.

(** The end of a connection's task drops its permit. *)
Definition drop_permit (self : node) : node :=
  set_limiter (release (connection_limiter self)) self.

(** A running relay: its node, the connections being served, and the world. *)
Definition running : Type := node * list Conn * W.

Inductive relay_step : running -> running -> Prop :=
  (** The environment acts: streams receive bytes, peers go away. *)
  | step_world self active w w' :
      relay_step (self, active, w) (self, active, w')
  | step_accept stream self active self' active' w :
      accept_connection stream self active = (self', active') ->
      relay_step (self, active, w) (self', active', w)
  | step_frame stream self self' active w w' :
      stream ∈ active -> handle_frame stream self w = (Continue, self', w') ->
      relay_step (self, active, w) (self', active, w')
  | step_close stream r self self' active l1 l2 w w' :
      active = l1 ++ stream :: l2 ->
      handle_frame stream self w = (Return r, self', w') ->
      relay_step (self, active, w) (drop_permit self', l1 ++ l2, w').
End node.

(** ** What a stream of bytes means to a relay

    The complete frames a byte stream starts with, and the rest. *)
Fixpoint split_frames_fuel (fuel : nat) (bs : bytes) : list bytes * bytes :=
  match fuel with
  | O => ([], bs)
  | S fuel' =>
      let n := Z.to_nat (from_be_bytes (take 4 bs)) in
      if decide (length bs < 4 + n \/ length bs < 4)%nat then ([], bs)
      else let '(frames, tail) := split_frames_fuel fuel' (drop (4 + n) bs) in
           (take n (drop 4 bs) :: frames, tail)
  end.

(** Every frame takes at least its four length bytes. *)
Definition split_frames (bs : bytes) : list bytes * bytes :=
  split_frames_fuel (S (length bs)) bs.

Section spec.
Context `{Crypto}.

(** The bodies addressed to this relay as the exit. *)
Definition deliveries (kp : KeyPair) (frames : list bytes) : list bytes :=
  omap (fun f => match peel_onion_layer kp f with Ok (Deliver b) => Some b | _ => None end) frames.

Definition count_frame (kp : KeyPair) (m : Metrics) (frame : bytes) : Metrics :=
  match peel_onion_layer kp frame with
  | Err _ => inc_failures m
  | Ok (Forward _ _) => inc_forwarded m
  | Ok (Deliver _) => inc_delivered m
  end.
End spec.

#[global] Arguments handle_frame : simpl never.
#[global] Arguments process_frame : simpl never.
#[global] Arguments forward : simpl never.
#[global] Arguments split_frames : simpl never.

Lemma split_frames_enough f bs :
  (length bs < f)%nat -> split_frames_fuel f bs = split_frames bs.
Proof.
  unfold split_frames.
  enough (forall k f g bs, (length bs < k)%nat -> (length bs < f)%nat -> (length bs < g)%nat ->
            split_frames_fuel f bs = split_frames_fuel g bs) as Hk
    by (intros; eapply Hk; [done|done|lia]).
  clear. induction k as [|k IH]; intros f g bs Hk Hf Hg; [lia|].
  destruct f as [|f], g as [|g]; try lia. cbn [split_frames_fuel].
  case_decide as Hd; [done|].
  by rewrite (IH f g) by (rewrite length_drop; lia).
Qed.

Lemma split_frames_eq bs :
  split_frames bs =
    let n := Z.to_nat (from_be_bytes (take 4 bs)) in
    if decide (length bs < 4 + n \/ length bs < 4)%nat then ([], bs)
    else ((take n (drop 4 bs)) :: (split_frames (drop (4 + n) bs)).1,
          (split_frames (drop (4 + n) bs)).2).
Proof.
  unfold split_frames at 1. cbn [split_frames_fuel].
  cbn zeta. case_decide as Hd; [done|].
  rewrite split_frames_enough by (rewrite length_drop; lia).
  by destruct (split_frames _).
Qed.

Lemma split_frames_cons f rest :
  len f < 2 ^ 32 ->
  split_frames (frame_bytes f ++ rest) = (f :: (split_frames rest).1, (split_frames rest).2).
Proof.
  intros Hl. unfold frame_bytes. rewrite <- app_assoc.
  assert (from_be_bytes (to_be_bytes 4 (as_u32 (len f))) = len f) as Hn.
  { unfold as_u32. pose proof (len_nonneg f). by rewrite Z.mod_small, from_to_be_bytes_small by lia. }
  pose proof (length_to_be_bytes 4 (as_u32 (len f))) as H4.
  set (hd := to_be_bytes 4 (as_u32 (len f))) in *.
  rewrite split_frames_eq. cbn zeta. rewrite (take_app_length' hd) by done.
  rewrite Hn. unfold len. rewrite Nat2Z.id, !length_app, H4, decide_False by lia.
  rewrite <- drop_drop. rewrite (drop_app_length' hd) by done.
  by rewrite take_app_length, drop_app_length.
Qed.

Lemma split_frames_length bs : (length (split_frames bs).1 <= length bs)%nat.
Proof.
  remember (length bs) as k eqn:Hk. revert bs Hk.
  induction k as [k IH] using lt_wf_ind. intros bs ->. rewrite split_frames_eq. cbn zeta.
  case_decide; cbn [fst length]; [lia|].
  set (m := (4 + Z.to_nat (from_be_bytes (take 4 bs)))%nat) in *.
  pose proof (length_drop bs m) as Hd. pose proof (IH (length (drop m bs)) ltac:(lia) _ eq_refl). lia.
Qed.

(** Frames on the wire are split back into the frames. *)
Lemma split_frames_concat frames tail :
  Forall (fun f : bytes => len f < 2 ^ 32) frames -> (length tail < 4)%nat ->
  split_frames (concat (map frame_bytes frames) ++ tail) = (frames, tail).
Proof.
  intros Hf Ht. induction Hf as [|f frames Hl _ IH]; cbn [concat map].
  - rewrite split_frames_eq. cbn zeta. by rewrite decide_True by (cbn; lia).
  - by rewrite <- app_assoc, split_frames_cons, IH.
Qed.

(** ** Lemmas on the node *)

Section lemmas.
Context {W Conn Ch Sem : Type} `{NetLaws W Conn} `{Crypto} `{ChannelLaws Ch} `{SemaphoreLaws Sem}.
Implicit Types (n : RelayNode Conn Ch Sem) (w : W).

(** Only the pool differs. *)
Definition pool_only n n' : Prop := n' = set_outbound (fun _ => outbound n') n.

Lemma pool_only_refl n : pool_only n n.
Proof. by destruct n. Qed.

Lemma pool_only_trans n1 n2 n3 : pool_only n1 n2 -> pool_only n2 n3 -> pool_only n1 n3.
Proof. unfold pool_only. destruct n1, n2, n3. cbn. intros [= -> -> -> -> ->] [= -> -> -> -> ->]. done. Qed.

Lemma pool_only_set n f : pool_only n (set_outbound f n).
Proof. by destruct n. Qed.

(** The connection the pool holds, or a fresh one that it holds from then
    on; an error is the failed dial. *)
Lemma get_or_connect_spec a n w r n' w' :
  get_or_connect a n w = (r, n', w') ->
  pool_only n n' /\ (forall s, live w s -> live w' s /\ inbox w' s = inbox w s /\ outbox w' s = outbox w s) /\
  match outbound n !! a, r with
  | Some c, Ok c' => c' = c /\ n' = n /\ w' = w
  | None, Ok c => outbound n' = <[a := c]> (outbound n) /\ outbox w' c = [] /\
                  dialled c = a /\ ~ live w c
  | None, Err e => n' = n /\ exists e', e = Io e'
  | Some _, Err _ => False
  end.
Proof.
  unfold get_or_connect. destruct (outbound n !! a) as [c|] eqn:Ec.
  { intros [= <- <- <-]. split_and!; [apply pool_only_refl|done..]. }
  destruct (connect a w) as [[c|e] w1] eqn:E; intros [= <- <- <-].
  - destruct (connect_ok _ _ _ _ E) as (_ & Ho & Hd).
    split_and!; [apply pool_only_set| |done|done|done|].
    + intros s Hs. destruct (connect_fresh _ _ _ _ s E Hs) as (? & ? & ? & _). done.
    + intros Hs. by destruct (connect_fresh _ _ _ _ c E Hs) as (_ & _ & _ & []).
  - split_and!; [apply pool_only_refl| |done|by eexists].
    intros s Hs. by destruct (connect_fresh _ _ _ _ s E Hs) as (? & ? & ? & _).
Qed.
Lemma forward_untouched hop body n w r n' w' :
  forward hop body n w = (r, n', w') ->
  pool_only n n' /\ (forall s, untouched s w w') /\ (forall e, r = Err e -> exists e', e = Io e').
Proof.
  unfold forward. intros E.
  destruct (get_or_connect hop n w) as [[[c|e] n1] w1] eqn:E1;
    apply get_or_connect_spec in E1 as (Hp1 & Hs1 & Hr1).
  2: { injection E as <- <- <-. split_and!; [done|intros s Hl; by destruct (Hs1 s Hl) as (? & ? & _)|]. intros ? [= <-].
       destruct (outbound n !! hop); [done|]. apply Hr1. }
  assert (forall s, untouched s w w1) as Hu1
    by (intros s Hl; by destruct (Hs1 s Hl) as (? & ? & _)).
  clear Hs1 Hr1.
  destruct (write_frame c body w1) as [[[]|e] w2] eqn:E2.
  { injection E as <- <- <-. split_and!; [done| |done].
    intros s. eapply untouched_trans; [apply Hu1|]. by eapply write_frame_untouched. }
  assert (forall s, untouched s w w2) as Hu2
    by (intros s; eapply untouched_trans; [apply Hu1|by eapply write_frame_untouched]).
  assert (pool_only n (set_outbound (delete hop) n1)) as Hp2
    by (eapply pool_only_trans; [done|apply pool_only_set]).
  destruct (get_or_connect hop (set_outbound (delete hop) n1) w2) as [[[c'|e'] n3] w3] eqn:E3;
    apply get_or_connect_spec in E3 as (Hp3 & Hs3 & Hr3);
    pose proof (pool_only_trans _ _ _ Hp2 Hp3) as Hp;
    assert (forall s, untouched s w w3) as Hu3
      by (intros s; eapply untouched_trans; [apply Hu2|]; intros Hl; by destruct (Hs3 s Hl) as (? & ? & _)).
  2: { injection E as <- <- <-. split_and!; [done..|]. intros ? [= <-].
       destruct (outbound _ !! hop); [done|]. apply Hr3. }
  destruct (write_frame c' body w3) as [[[]|e'] w4] eqn:E4; injection E as <- <- <-;
    (split_and!; [done| |]); try done.
  - intros s. eapply untouched_trans; [apply Hu3|]. by eapply write_frame_untouched.
  - intros s. eapply untouched_trans; [apply Hu3|]. by eapply write_frame_untouched.
  - intros ? [= <-]. by eexists.
Qed.

(** Every pooled connection leads to the address it is filed under. *)
Definition pool_ok n : Prop := map_Forall (fun a c => dialled c = a) (outbound n).

Lemma get_or_connect_pool_ok a n w r n' w' :
  pool_ok n -> get_or_connect a n w = (r, n', w') -> pool_ok n'.
Proof.
  intros Hn E. apply get_or_connect_spec in E as (_ & _ & Hr).
  destruct (outbound n !! a) as [c0|]; destruct r as [c|e]; try done.
  - by destruct Hr as (_ & -> & _).
  - destruct Hr as (Ho & _ & Hd & _). unfold pool_ok. rewrite Ho. by apply map_Forall_insert_2.
  - by destruct Hr as [-> _].
Qed.

Lemma forward_pool_ok hop body n w r n' w' :
  pool_ok n -> forward hop body n w = (r, n', w') -> pool_ok n'.
Proof.
  unfold forward. intros Hn. destruct (get_or_connect hop n w) as [[[c|e] n1] w1] eqn:E1;
    apply get_or_connect_pool_ok in E1 as Hn1; try done; [|by intros [= <- <- <-]].
  destruct (write_frame c body w1) as [[[]|e] w2]; [by intros [= <- <- <-]|].
  assert (pool_ok (set_outbound (delete hop) n1)) as Hn2 by by apply map_Forall_delete.
  destruct (get_or_connect hop _ w2) as [[[c'|e'] n3] w3] eqn:E3;
    apply get_or_connect_pool_ok in E3 as Hn3; try done; [|by intros [= <- <- <-]].
  destruct (write_frame c' body w3) as [[[]|e'] w4]; by intros [= <- <- <-].
Qed.

(** Dialling a hop that is not in the pool and writing one frame. *)
Lemma redial_spec hop body n w r n' w' :
  outbound n !! hop = None ->
  match get_or_connect hop n w with
  | (Err e, n1, w1) => (Err e, n1, w1)
  | (Ok conn, n1, w1) =>
      match write_frame conn body w1 with
      | (Err e, w2) => (Err (Io e), n1, w2)
      | (Ok tt, w2) => (Ok tt, n1, w2)
      end
  end = (r, n', w') ->
  (forall a, a <> hop -> outbound n' !! a = outbound n !! a) /\
  (forall s, live w s -> outbox w' s = outbox w s) /\
  (r = Ok tt -> exists c, outbound n' !! hop = Some c /\ outbox w' c = frame_bytes body).
Proof.
  intros Hnone. destruct (get_or_connect hop n w) as [[[c|e] n1] w1] eqn:E1;
    apply get_or_connect_spec in E1 as (_ & Hs1 & Hr1); rewrite Hnone in Hr1.
  2: { destruct Hr1 as [-> _]. intros [= <- <- <-]. split_and!; [done| |done].
       intros s Hs. by apply Hs1. }
  destruct Hr1 as (Hn1 & Hc1 & _ & Hfresh).
  destruct (write_frame c body w1) as [[[]|e] w2] eqn:E2; intros [= <- <- <-]; rewrite Hn1;
    (split_and!; [intros a Ha; by rewrite lookup_insert_ne| |]); try done;
    try (intros s Hs; rewrite (write_frame_outbox_ne _ _ _ _ _ s E2) by congruence; by apply Hs1).
  intros _. exists c. rewrite lookup_insert_eq. split; [done|].
  by rewrite (write_frame_ok _ _ _ _ E2), Hc1.
Qed.

Lemma forward_pool hop body n w r n' w' :
  forward hop body n w = (r, n', w') ->
  (forall a, a <> hop -> outbound n' !! a = outbound n !! a) /\
  (forall s, live w s -> outbound n !! hop <> Some s -> outbox w' s = outbox w s) /\
  (r = Ok tt -> exists c, outbound n' !! hop = Some c /\
     ((outbound n !! hop = Some c /\ outbox w' c = outbox w c ++ frame_bytes body) \/
      (outbox w' c = frame_bytes body /\
       forall c0 w1, outbound n !! hop = Some c0 -> write_frame c0 body w <> (Ok tt, w1)))).
Proof.
  unfold forward. destruct (get_or_connect hop n w) as [[[c|e] n1] w1] eqn:E1;
    apply get_or_connect_spec in E1 as (_ & Hs1 & Hr1).
  2: { intros [= <- <- <-]. destruct (outbound n !! hop) eqn:Ec; [done|].
       destruct Hr1 as [-> _]. split_and!; [done| |done]. intros s Hs _. by apply Hs1. }
  assert (Ha1 : forall a, a <> hop -> outbound n1 !! a = outbound n !! a).
  { intros a Ha. destruct (outbound n !! hop); [by destruct Hr1 as (_ & -> & _)|].
    destruct Hr1 as [-> _]. by rewrite lookup_insert_ne. }
  assert (Hne : forall s, live w s -> outbound n !! hop <> Some s -> s <> c).
  { intros s Hs Hne ->. destruct (outbound n !! hop); [by destruct Hr1 as (-> & _)|].
    by destruct Hr1 as (_ & _ & _ & []). }
  destruct (write_frame c body w1) as [[[]|e] w2] eqn:E2.
  - intros [= <- <- <-]. split_and!; [done| |].
    + intros s Hs Hn. rewrite (write_frame_outbox_ne _ _ _ _ _ s E2) by auto. by apply Hs1.
    + intros _. exists c. pose proof (write_frame_ok _ _ _ _ E2) as Hw.
      destruct (outbound n !! hop) as [c0|] eqn:Ec.
      * destruct Hr1 as (-> & -> & ->). split; [done|]. by left.
      * destruct Hr1 as (-> & Hc & _). rewrite lookup_insert_eq. split; [done|].
        right. by rewrite Hw, Hc.
  - intros E. apply redial_spec in E as (Ha & Ho & Hr); [|by cbn; rewrite lookup_delete_eq].
    split_and!.
    + intros a Hne'. rewrite Ha by done. cbn. rewrite lookup_delete_ne by done. by apply Ha1.
    + intros s Hs Hn. rewrite Ho by (eapply write_frame_untouched; [done|by apply Hs1]).
      rewrite (write_frame_outbox_ne _ _ _ _ _ s E2) by auto. by apply Hs1.
    + intros Hok. destruct (Hr Hok) as (c' & Hc' & Hw). exists c'. split; [done|]. right.
      split; [done|]. intros c0 w3 Hc0. rewrite Hc0 in Hr1.
      destruct Hr1 as (-> & _ & ->). by rewrite E2.
Qed.

(** What one frame does to the node, on every branch. *)
Lemma process_frame_spec f n w fl n' w' :
  process_frame f n w = (fl, n', w') ->
  (forall s, untouched s w w') /\
  config n' = config n /\ keypair n' = keypair n /\
  connection_limiter n' = connection_limiter n /\
  match fl with
  | Continue =>
      metrics n' = count_frame (keypair n) (metrics n) f /\
      ch_open (delivery_tx n') = ch_open (delivery_tx n) /\
      (ch_open (delivery_tx n) = true ->
       ch_sent (delivery_tx n') = ch_sent (delivery_tx n) ++ deliveries (keypair n) [f])
  | Return r =>
      metrics n' = metrics n /\ delivery_tx n' = delivery_tx n /\
      exists hop body e, peel_onion_layer (keypair n) f = Ok (Forward hop body) /\ r = Err (Io e)
  end.
Proof.
  unfold process_frame, count_frame, deliveries. intros E. cbn [omap list_omap].
  destruct (peel_onion_layer (keypair n) f) as [[hop body|body]|e] eqn:Hp.
  - destruct (forward hop body n w) as [[[[]|e] n1] w1] eqn:Hf;
      pose proof (forward_untouched _ _ _ _ _ _ _ Hf) as (Hn & Hu & He); injection E as <- <- <-;
      rewrite Hn; cbn; (split_and!; try done).
    + intros _. by rewrite app_nil_r.
    + destruct (He e eq_refl) as [e' ->]. by exists hop, body, e'.
  - injection E as <- <- <-. cbn. split_and!; try done.
    + apply ch_send_open.
    + intros Ho. by rewrite ch_sent_send, Ho.
  - injection E as <- <- <-. cbn. split_and!; try done. intros _. by rewrite app_nil_r.
Qed.

(** One turn of the loop reads the next complete frame of the stream, or
    ends. *)
Lemma handle_frame_spec s n w :
  live w s ->
  match split_frames (inbox w s) with
  | ([], tail) =>
      exists r w', handle_frame s n w = (Return r, n, w') /\
        (r = Ok tt <-> (length tail < 4)%nat) /\ (r = Ok tt \/ exists e, r = Err (Io e))
  | (f :: frames, tail) =>
      exists w1, live w1 s /\ split_frames (inbox w1 s) = (frames, tail) /\
        (length (inbox w1 s) < length (inbox w s))%nat /\
        handle_frame s n w = process_frame f n w1
  end.
Proof.
  intros Hs. rewrite split_frames_eq. unfold handle_frame. cbn zeta.
  set (k := Z.to_nat (from_be_bytes (take 4 (inbox w s)))).
  destruct (decide (length (inbox w s) < 4)%nat) as [Hsh|Hsh].
  { rewrite decide_True by tauto. destruct (read_exact_eof s 4 w Hsh) as (e & w1 & ->).
    exists (Ok tt), w1. split_and!; [done| |by left]. by split. }
  destruct (read_exact_ok s 4 w ltac:(lia)) as (w1 & E1 & Hi1). rewrite E1. fold k.
  pose proof (read_exact_frame s 4 w _ w1 s E1) as (_ & _ & Hl1).
  case_decide as Hd.
  - destruct (read_exact_eof s k w1) as (e & w2 & ->); [rewrite Hi1, length_drop; lia|].
    exists (Err (Io e)), w2. split_and!; [done| |right; by eexists]. split; [done|lia].
  - destruct (read_exact_ok s k w1) as (w2 & E2 & Hi2); [rewrite Hi1, length_drop; lia|].
    pose proof (read_exact_frame s k w1 _ w2 s E2) as (_ & _ & Hl2).
    rewrite E2. exists w2. rewrite Hi2, Hi1, drop_drop. split_and!; [auto|..].
    + by destruct (split_frames _).
    + rewrite length_drop. lia.
    + done.
Qed.
(** The loop, by induction on the complete frames of the stream. *)
Lemma handle_connection_run s frames tail fuel n w :
  live w s -> split_frames (inbox w s) = (frames, tail) -> (length frames < fuel)%nat ->
  exists r n' w' k, handle_connection fuel s n w = (Some r, n', w') /\
    (k <= length frames)%nat /\
    keypair n' = keypair n /\
    metrics n' = fold_left (count_frame (keypair n)) (take k frames) (metrics n) /\
    (ch_open (delivery_tx n) = true ->
     ch_sent (delivery_tx n') = ch_sent (delivery_tx n) ++ deliveries (keypair n) (take k frames)) /\
    ((k = length frames /\ (r = Ok tt <-> (length tail < 4)%nat) /\
      (r = Ok tt \/ exists e, r = Err (Io e))) \/
     (exists f hop body e, frames !! k = Some f /\
        peel_onion_layer (keypair n) f = Ok (Forward hop body) /\ r = Err (Io e))).
Proof.
  revert fuel n w. induction frames as [|f frames IH]; intros fuel n w Hs Hsp Hf;
    (destruct fuel as [|fuel]; [cbn in Hf; lia|]); cbn [handle_connection];
    pose proof (handle_frame_spec s n w Hs) as Hsp'; rewrite Hsp in Hsp'.
  - destruct Hsp' as (r & w' & -> & Ht & Hr). exists r, n, w', 0%nat. cbn.
    split_and!; try done; [intros _; by rewrite app_nil_r|by left].
  - destruct Hsp' as (w1 & Hs1 & Hsp1 & _ & ->).
    destruct (process_frame f n w1) as [[fl n2] w2] eqn:Ep.
    apply process_frame_spec in Ep as (Hu & _ & Hk & _ & Hfl).
    destruct (Hu s Hs1) as [Hs2 Hi2]. destruct fl as [|r].
    + destruct Hfl as (Hm & Ho & Hd). rewrite <- Hi2 in Hsp1.
      destruct (IH fuel n2 w2 Hs2 Hsp1 ltac:(cbn in Hf; lia))
        as (r & n' & w' & k & -> & Hle & Hk' & Hm' & Hd' & Hr).
      exists r, n', w', (S k). rewrite Hk, Hm in *. cbn [take fold_left length lookup list_lookup].
      split_and!; try done; [lia| |].
      * intros Hop. rewrite Hd', Hd by congruence. rewrite <- app_assoc. f_equal.
        unfold deliveries. cbn. by destruct (peel_onion_layer _ f) as [[|]|].
      * destruct Hr as [(-> & Ht & He)|Hr]; [by left|by right].
    + destruct Hfl as (Hm & Hd & hop & body & e & Hp & ->).
      exists (Err (Io e)), n2, w2, 0%nat. cbn.
      split_and!; try done; [lia|by intros _; rewrite Hd, app_nil_r|].
      right. by exists f, hop, body, e.
Qed.

(** A connection served to its end is a run of the relay's steps. *)
Lemma handle_connection_steps fuel s n w r n' w' l1 l2 :
  handle_connection fuel s n w = (Some r, n', w') ->
  rtc relay_step (n, l1 ++ s :: l2, w) (drop_permit n', l1 ++ l2, w').
Proof.
  revert n w. induction fuel as [|fuel IH]; intros n w; cbn [handle_connection]; [done|].
  destruct (handle_frame s n w) as [[[|r1] n1] w1] eqn:E.
  - intros Hrun. eapply rtc_l; [|by apply IH]. eapply step_frame; [|done].
    apply elem_of_app. right. by left.
  - intros [= -> <- <-]. eapply rtc_once. by eapply step_close.
Qed.

Lemma accept_connection_spec s n (active : list Conn) n' active' :
  accept_connection s n active = (n', active') ->
  config n' = config n /\
  ((available_permits (connection_limiter n) = 0%nat /\ active' = active /\
    connection_limiter n' = connection_limiter n /\
    metrics n' = inc_rejected (metrics n)) \/
   (available_permits (connection_limiter n) =
      S (available_permits (connection_limiter n')) /\
    active' = active ++ [s] /\ metrics n' = metrics n)).
Proof.
  unfold accept_connection. destruct (try_acquire _) as [l|] eqn:E; intros [= <- <-].
  - split; [done|]. right. by apply available_acquire in E.
  - split; [done|]. left. by apply available_exhausted in E.
Qed.

Lemma handle_frame_keeps s n w fl n' w' :
  handle_frame s n w = (fl, n', w') ->
  config n' = config n /\ connection_limiter n' = connection_limiter n.
Proof.
  unfold handle_frame.
  destruct (read_exact s 4 w) as [[b|e] w1]; [|by intros [= <- <- <-]].
  destruct (read_exact s _ w1) as [[f|e] w2]; [|by intros [= <- <- <-]].
  intros E. by apply process_frame_spec in E as (_ & ? & _ & ? & _).
Qed.

(** The permits out and the permits left are all of them. *)
Definition limiter_inv (st : running (W:=W) (Conn:=Conn) (Ch:=Ch) (Sem:=Sem)) : Prop :=
  let '(n, active, _) := st in
  (available_permits (connection_limiter n) + length active =
     max_connections (config n))%nat.

Lemma limiter_inv_step st st' : relay_step st st' -> limiter_inv st -> limiter_inv st'.
Proof.
  intros Hst. destruct Hst as [n a w w'|s n a n' a' w E|s n n' a w w' _ E|s r n n' a l1 l2 w w' -> E];
    cbn; intros Hinv.
  - done.
  - apply accept_connection_spec in E as (-> & [(Hz & -> & -> & _)|(Hp & -> & _)]); [done|].
    rewrite length_app. cbn. lia.
  - apply handle_frame_keeps in E as [-> ->]. done.
  - apply handle_frame_keeps in E as [-> ->]. rewrite available_release.
    rewrite !length_app in *. cbn in *. lia.
Qed.

Lemma limiter_inv_reachable cfg kp w st :
  rtc relay_step (fresh_node cfg kp, [], w) st ->
  limiter_inv st /\ config st.1.1 = cfg.
Proof.
  intros Hr. remember (fresh_node cfg kp, [], w) as st0 eqn:E0.
  assert (limiter_inv st0 /\ config st0.1.1 = cfg) as Hinv.
  { subst. cbn. by rewrite available_new, Nat.add_0_r. }
  clear E0. induction Hr as [|st1 st2 st3 Hst _ IH]; [done|]. apply IH. destruct Hinv as [Hi Hc].
  split; [by eapply limiter_inv_step|].
  destruct Hst as [n a u u'|s n a n' a' u E|s n n' a u u' _ E|s r n n' a l1 l2 u u' -> E]; cbn in *.
  - done.
  - by apply accept_connection_spec in E as [-> _].
  - by apply handle_frame_keeps in E as [-> _].
  - by apply handle_frame_keeps in E as [-> _].
Qed.
End lemmas.

(** ** Properties *)

Section properties.
Context {W Conn Ch Sem : Type} `{NetLaws W Conn} `{Crypto} `{ChannelLaws Ch} `{SemaphoreLaws Sem}.
Implicit Types (n : RelayNode Conn Ch Sem) (w : W).

(** C17: a relay serves a connection to its end, whatever bytes arrive. With
    fuel for the complete frames the stream carries, the frame loop returns.
    It has then processed a prefix of those frames: each one delivered,
    forwarded or counted as undecryptable, in order, so that exactly the
    bodies addressed to this relay as the exit are handed to the delivery
    channel. The prefix is all the frames unless a forward failed, which
    closes the connection with an I/O error; a stream that ends between
    frames or inside a length prefix closes without an error, one that ends
    inside a frame with an I/O error. The whole service is a run of the relay's
    steps that ends by giving the permit back. *)
Theorem relay_processes_stream s n w fuel :
  live w s -> ch_open (delivery_tx n) = true -> (length (inbox w s) < fuel)%nat ->
  exists frames tail r n' w' k,
    split_frames (inbox w s) = (frames, tail) /\
    handle_connection fuel s n w = (Some r, n', w') /\ (k <= length frames)%nat /\
    ch_sent (delivery_tx n') =
      ch_sent (delivery_tx n) ++ deliveries (keypair n) (take k frames) /\
    metrics n' = fold_left (count_frame (keypair n)) (take k frames) (metrics n) /\
    ((k = length frames /\ (r = Ok tt <-> (length tail < 4)%nat) /\
      (r = Ok tt \/ exists e, r = Err (Io e))) \/
     (exists f hop body e, frames !! k = Some f /\
        peel_onion_layer (keypair n) f = Ok (Forward hop body) /\ r = Err (Io e))) /\
    (forall l1 l2, rtc relay_step (n, l1 ++ s :: l2, w) (drop_permit n', l1 ++ l2, w')).
Proof.
  intros Hs Ho Hf. destruct (split_frames (inbox w s)) as [frames tail] eqn:E.
  pose proof (split_frames_length (inbox w s)) as Hl. rewrite E in Hl. cbn in Hl.
  destruct (handle_connection_run s frames tail fuel n w Hs E ltac:(lia))
    as (r & n' & w' & k & Hrun & Hk & _ & Hm & Hd & Hr).
  exists frames, tail, r, n', w', k. split_and!; auto.
  intros l1 l2. by eapply handle_connection_steps.
Qed.

(** C19: forwarding hands over one whole frame or reports an I/O error. On
    success the pool holds a connection dialled to the next hop whose stream
    ends with exactly the frame: either the pooled one, after what it had
    carried before, or a fresh one that carries nothing else. No other open
    stream sees a byte, no other pool entry and no counter changes. A pooled
    connection that accepts the frame is never redialled, and one that refuses
    it is replaced by a single fresh dial. *)
Theorem forward_hands_over hop body n w r n' w' :
  map_Forall (fun a c => dialled c = a) (outbound n) ->
  forward hop body n w = (r, n', w') ->
  n' = set_outbound (fun _ => outbound n') n /\
  map_Forall (fun a c => dialled c = a) (outbound n') /\
  (forall a, a <> hop -> outbound n' !! a = outbound n !! a) /\
  (forall s, live w s -> outbound n !! hop <> Some s ->
     inbox w' s = inbox w s /\ outbox w' s = outbox w s) /\
  (forall e, r = Err e -> exists e', e = Io e') /\
  (r = Ok tt -> exists c, outbound n' !! hop = Some c /\ dialled c = hop /\
     ((outbound n !! hop = Some c /\ outbox w' c = outbox w c ++ frame_bytes body) \/
      (outbox w' c = frame_bytes body /\
       forall c0 w1, outbound n !! hop = Some c0 -> write_frame c0 body w <> (Ok tt, w1)))).
Proof.
  intros Hok E. pose proof (forward_pool_ok _ _ _ _ _ _ _ Hok E) as Hok'. pose proof (forward_untouched _ _ _ _ _ _ _ E) as (Hp & Hu & He).
  pose proof (forward_pool _ _ _ _ _ _ _ E) as (Ha & Ho & Hr).
  split_and!; [done|done|done| |done|].
  - intros s Hs Hne. split; [by apply Hu|by apply Ho].
  - intros Hr'. destruct (Hr Hr') as (c & Hc & Hw). exists c. split_and!; [done|by apply (Hok' hop c)|done].
Qed.

(** C18: the connection limit holds in every interleaving. [RelayNode::new]
    returns a fresh node, or panics when the limit is more than a semaphore can
    hold. From a fresh node, whatever the order of arrivals, frames and closing connections, the
    permits left and the connections being served add up to
    [max_connections]; so at most that many are served at a time, and an
    arriving connection is refused, and counted as rejected, exactly when
    that many are being served. *)
Theorem connection_limit cfg kp w n (active : list Conn) w' s :
  rtc relay_step (fresh_node cfg kp, [], w) (n, active, w') ->
  RelayNode_new cfg kp =
    (if decide (Z.of_nat (max_connections cfg) <= MAX_PERMITS)
     then Done (fresh_node cfg kp : RelayNode Conn Ch Sem) else Panic) /\
  (available_permits (connection_limiter n) + length active = max_connections cfg)%nat /\
  (length active <= max_connections cfg)%nat /\
  accept_connection s n active =
    if decide (length active = max_connections cfg)
    then (set_metrics inc_rejected n, active)
    else ((accept_connection s n active).1, active ++ [s]).
Proof.
  intros Hr. destruct (limiter_inv_reachable _ _ _ _ Hr) as [Hinv Hc]. cbn in Hinv, Hc.
  rewrite Hc in Hinv. split_and!; [apply RelayNode_new_eq|done|lia|].
  unfold accept_connection. destruct (try_acquire _) as [l|] eqn:E.
  - apply available_acquire in E. rewrite decide_False by lia. done.
  - apply available_exhausted in E. by rewrite decide_True by lia.
Qed.
End properties.
