(* ===== verification/RelayProcess.v ===== *)
(** * A relay process: the tasks of [veil-relay/src/main.rs]

    A running relay is one [RelayNode] with the connections it serves, the
    task that moves deliveries from the node's channel into the mailbox, and
    the pull listener with a task per request. They share the channel, the
    mailbox and the network. [process_step] lets any of them act between two
    [await] points; the theorems hold for every interleaving: no delivery is
    lost, duplicated or reordered on its way to a PULL, and the queueing task
    always gets through its backlog. *)
From S2P Require Import Prelude.
From S2P Require Import RustStd.
From S2P Require Import Interfaces.
From S2P Require Import Keys.
From S2P Require Import Forwarding.
From S2P Require Import Mailbox.
From S2P Require Import PullListener.
From S2P Require Import PullServer.
From S2P Require Import Node.

Open Scope Z_scope.

(** The queueing task has received the first [pr_taken] messages of the
    delivery channel and may hold one that it has not pushed yet;
    [pr_requests] are the tasks of the pull listener, which accepts new ones
    while [pr_serving]. *)
Record Process (Conn Ch Sem : Type) : Type := mkProcess {
  pr_node : RelayNode Conn Ch Sem;
  pr_active : list Conn;
  pr_taken : nat;
  pr_holding : option bytes;
  pr_mailbox : Mailbox;
  pr_identity : RelayIdentity;
  pr_serving : bool;
  pr_requests : list (Conn * request_task)
}.
Arguments mkProcess {Conn Ch Sem}.
Arguments pr_node {Conn Ch Sem}.
Arguments pr_active {Conn Ch Sem}.
Arguments pr_taken {Conn Ch Sem}.
Arguments pr_holding {Conn Ch Sem}.
Arguments pr_mailbox {Conn Ch Sem}.
Arguments pr_identity {Conn Ch Sem}.
Arguments pr_serving {Conn Ch Sem}.
Arguments pr_requests {Conn Ch Sem}.

(** What a run is remembered for: which request drained which cells, and how
    each request ended. *)
Inductive event (Conn : Type) : Type :=
  | Drained (stream : Conn) (cells : list bytes)
  | Finished (stream : Conn) (r : io_result unit).
Arguments Drained {Conn}.
Arguments Finished {Conn}.

Section process.
Context {W Conn Ch Sem : Type} `{Net W Conn} `{Crypto} `{Channel Ch} `{Semaphore Sem}.
Abbreviation process := (Process Conn Ch Sem).
Implicit Types (p : process) (w : W).

(** The process when its tasks are spawned. *)
Definition process_new (node : RelayNode Conn Ch Sem) (identity : RelayIdentity) (serving : bool) :
    process :=
  {| pr_node := node; pr_active := []; pr_taken := 0; pr_holding := None;
     pr_mailbox := mailbox_new; pr_identity := identity; pr_serving := serving;
     pr_requests := [] |}.

Definition with_node (n : RelayNode Conn Ch Sem) (active : list Conn) p : process :=
  mkProcess n active (pr_taken p) (pr_holding p) (pr_mailbox p) (pr_identity p) (pr_serving p)
    (pr_requests p).
Definition with_queue (taken : nat) (holding : option bytes) (mb : Mailbox) p : process :=
  mkProcess (pr_node p) (pr_active p) taken holding mb (pr_identity p) (pr_serving p)
    (pr_requests p).
Definition with_requests (serving : bool) (mb : Mailbox) (rs : list (Conn * request_task)) p : process :=
  mkProcess (pr_node p) (pr_active p) (pr_taken p) (pr_holding p) mb (pr_identity p) serving rs.

(** The network may do anything but send on this process' streams. *)
Definition sends_nothing (w w' : W) : Prop :=
  forall c : Conn, live w c -> live w' c /\ outbox w' c = outbox w c.

(** [listener.accept()] returns a new stream. *)
Definition accepts (w : W) (stream : Conn) (w' : W) : Prop :=
  ~ live w stream /\ live w' stream /\ outbox w' stream = [] /\ sends_nothing w w'.

(** [delivery_rx.recv()] and [mailbox.push(delivered)]. *)
Inductive queue_step : process -> process -> Prop :=
  | queue_recv p cell :
      pr_holding p = None -> ch_sent (delivery_tx (pr_node p)) !! pr_taken p = Some cell ->
      queue_step p (with_queue (S (pr_taken p)) (Some cell) (pr_mailbox p) p)
  | queue_push p cell :
      pr_holding p = Some cell ->
      queue_step p (with_queue (pr_taken p) None (push (pr_mailbox p) cell) p).

(** The tasks of the pull listener. *)
Inductive serve_step : process * W -> list (event Conn) -> process * W -> Prop :=
  | serve_accept p stream w w' :
      pr_serving p = true -> accepts w stream w' ->
      serve_step (p, w) []
        (with_requests true (pr_mailbox p) (pr_requests p ++ [(stream, AwaitRequest)]) p, w')
  (** A failing [accept] ends [serve]; the requests go on. *)
  | serve_stop p w :
      serve_step (p, w) [] (with_requests false (pr_mailbox p) (pr_requests p) p, w)
  | serve_turn p l1 stream t l2 t' mb w w' :
      pr_requests p = l1 ++ (stream, t) :: l2 ->
      task_step stream t (pr_mailbox p) (pr_identity p) w = (Goes t', mb, w') ->
      serve_step (p, w)
        (if decide (t = Draining) then [Drained stream (queue (pr_mailbox p))] else [])
        (with_requests (pr_serving p) mb (l1 ++ (stream, t') :: l2) p, w')
  | serve_end p l1 stream t l2 r mb w w' :
      pr_requests p = l1 ++ (stream, t) :: l2 ->
      task_step stream t (pr_mailbox p) (pr_identity p) w = (Ends r, mb, w') ->
      serve_step (p, w) [Finished stream r]
        (with_requests (pr_serving p) mb (l1 ++ l2) p, w').

(** One turn of any task, or the network acting. *)
Inductive process_step : process * W -> list (event Conn) -> process * W -> Prop :=
  | process_others p w w' :
      sends_nothing w w' -> process_step (p, w) [] (p, w')
  | process_accept p stream n active w w' :
      accepts w stream w' -> accept_connection stream (pr_node p) (pr_active p) = (n, active) ->
      process_step (p, w) [] (with_node n active p, w')
  | process_frame_step p stream n w w' :
      stream ∈ pr_active p -> handle_frame stream (pr_node p) w = (Continue, n, w') ->
      process_step (p, w) [] (with_node n (pr_active p) p, w')
  | process_close p l1 stream l2 r n w w' :
      pr_active p = l1 ++ stream :: l2 -> handle_frame stream (pr_node p) w = (Return r, n, w') ->
      process_step (p, w) [] (with_node (drop_permit n) (l1 ++ l2) p, w')
  | process_queue p p' w :
      queue_step p p' -> process_step (p, w) [] (p', w)
  | process_serve st evs st' :
      serve_step st evs st' -> process_step st evs st'.

(** Runs, with the events in the order they happened. *)
Inductive process_run (st0 : process * W) : list (event Conn) -> process * W -> Prop :=
  | run_start : process_run st0 [] st0
  | run_step evs st new st' :
      process_run st0 evs st -> process_step st new st' -> process_run st0 (evs ++ new) st'.

(** ** Reading a run *)

Definition drained_batches (evs : list (event Conn)) : list (list bytes) :=
  omap (fun e => match e with Drained _ cells => Some cells | _ => None end) evs.

Definition drained_streams (evs : list (event Conn)) : list Conn :=
  omap (fun e => match e with Drained s _ => Some s | _ => None end) evs.

Definition finished_streams (evs : list (event Conn)) : list Conn :=
  omap (fun e => match e with Finished s _ => Some s | _ => None end) evs.

(** The streams of all the requests so far. *)
Definition request_streams (evs : list (event Conn)) p : list Conn :=
  (pr_requests p).*1 ++ finished_streams evs.

(** What the queueing task still has to do. *)
Definition backlog p : nat :=
  2 * (length (ch_sent (delivery_tx (pr_node p))) - pr_taken p) +
  match pr_holding p with Some _ => 1 | None => 0 end.
End process.

#[global] Arguments accept_connection : simpl never.
#[global] Arguments request_streams : simpl never.

(** ** The node keeps off the streams of requests *)

Section apart.
Context {W Conn Ch Sem : Type} `{NetLaws W Conn} `{Crypto} `{ChannelLaws Ch} `{SemaphoreLaws Sem}.
Implicit Types (n : RelayNode Conn Ch Sem) (w : W) (D : list Conn).

(** Nothing was sent on the streams [D] from [w] to [w']. *)
Definition silent D w w' : Prop := forall s, s ∈ D -> outbox w' s = outbox w s.

(** The streams [D] are open, and none of them is in the pool. *)
Definition apart D n w : Prop :=
  Forall (live w) D /\ map_Forall (fun _ c => live w c /\ c ∉ D) (outbound n).

Lemma silent_trans D w1 w2 w3 : silent D w1 w2 -> silent D w2 w3 -> silent D w1 w3.
Proof. intros Ha Hb s Hs. by rewrite (Hb s Hs), (Ha s Hs). Qed.

(** Streams stay open. *)
Definition keeps_live w w' : Prop := forall c : Conn, live w c -> live w' c.

Lemma apart_live D n w w' : apart D n w -> keeps_live w w' -> apart D n w'.
Proof.
  intros [Hd Hp] Hl. split; [by eapply Forall_impl|].
  intros a c Hc. destruct (Hp a c Hc). auto.
Qed.

Lemma sends_nothing_apart D n w w' :
  apart D n w -> sends_nothing w w' -> apart D n w' /\ silent D w w'.
Proof.
  intros Ha Hs. split; [eapply apart_live; [done|]; intros c Hc; by apply Hs|].
  intros s Hs'. apply Hs. destruct Ha as [Hd _]. by eapply (proj1 (Forall_forall _ _) Hd).
Qed.

Lemma write_frame_apart D n c b w r w' :
  apart D n w -> c ∉ D -> write_frame c b w = (r, w') -> apart D n w' /\ silent D w w'.
Proof.
  intros Ha Hc E. split.
  - eapply apart_live; [done|]. intros s Hs. by eapply write_frame_untouched.
  - intros s Hs. eapply write_frame_outbox_ne; [done|]. by intros ->.
Qed.

Lemma get_or_connect_apart D a n w r n' w' :
  apart D n w -> get_or_connect a n w = (r, n', w') ->
  apart D n' w' /\ silent D w w' /\ forall c, r = Ok c -> c ∉ D.
Proof.
  intros Ha. unfold get_or_connect. destruct (outbound n !! a) as [c|] eqn:Ec.
  { intros [= <- <- <-]. split_and!; [done|done|]. intros c' [= <-]. by apply (proj2 Ha a). }
  destruct (connect a w) as [[c|e] w1] eqn:E; intros [= <- <- <-].
  all: assert (sends_nothing w w1) as Hs
    by (intros c' Hc'; by destruct (connect_fresh _ _ _ _ c' E Hc') as (? & _ & ? & _)).
  all: destruct (sends_nothing_apart D n w w1 Ha Hs) as [[Hd Hp] Hsil].
  - assert (c ∉ D) as Hc.
    { intros Hin. destruct Ha as [Hd0 _]. pose proof (proj1 (Forall_forall _ _) Hd0 c Hin) as Hl.
      by destruct (connect_fresh _ _ _ _ c E Hl) as (_ & _ & _ & []). }
    split_and!; [|done|by intros ? [= <-]]. split; [done|].
    apply map_Forall_insert_2; [|done]. split; [|done]. by apply (connect_ok _ _ _ _ E).
  - split_and!; [by split|done|done].
Qed.

Lemma forward_apart D hop body n w r n' w' :
  apart D n w -> forward hop body n w = (r, n', w') -> apart D n' w' /\ silent D w w'.
Proof.
  intros Ha. unfold forward. destruct (get_or_connect hop n w) as [[[c|e] n1] w1] eqn:E1;
    destruct (get_or_connect_apart _ _ _ _ _ _ _ Ha E1) as (Ha1 & Hs1 & Hc1);
    [|by intros [= <- <- <-]].
  destruct (write_frame c body w1) as [[[]|e] w2] eqn:E2;
    destruct (write_frame_apart _ _ _ _ _ _ _ Ha1 (Hc1 c eq_refl) E2) as (Ha2 & Hs2);
    pose proof (silent_trans _ _ _ _ Hs1 Hs2) as Hs12; [by intros [= <- <- <-]|].
  assert (apart D (set_outbound (delete hop) n1) w2) as Ha2'
    by (destruct Ha2 as [Hd Hp]; split; [done|by apply map_Forall_delete]).
  destruct (get_or_connect hop _ w2) as [[[c'|e'] n3] w3] eqn:E3;
    destruct (get_or_connect_apart _ _ _ _ _ _ _ Ha2' E3) as (Ha3 & Hs3 & Hc3);
    pose proof (silent_trans _ _ _ _ Hs12 Hs3) as Hs13; [|by intros [= <- <- <-]].
  destruct (write_frame c' body w3) as [[[]|e'] w4] eqn:E4;
    destruct (write_frame_apart _ _ _ _ _ _ _ Ha3 (Hc3 c' eq_refl) E4) as (Ha4 & Hs4);
    pose proof (silent_trans _ _ _ _ Hs13 Hs4); by intros [= <- <- <-].
Qed.

Lemma process_frame_apart D f n w fl n' w' :
  apart D n w -> process_frame f n w = (fl, n', w') -> apart D n' w' /\ silent D w w'.
Proof.
  intros Ha. unfold process_frame. destruct (peel_onion_layer (keypair n) f) as [[hop body|body]|e].
  - destruct (forward hop body n w) as [[[[]|e] n1] w1] eqn:E; intros [= <- <- <-];
      by apply (forward_apart _ _ _ _ _ _ _ _ Ha) in E.
  - by intros [= <- <- <-].
  - by intros [= <- <- <-].
Qed.

(** A turn of the frame loop: it ends having only read, or it has read one
    frame, which it processes. *)
Lemma handle_frame_cases s n w fl n' w' :
  handle_frame s n w = (fl, n', w') ->
  (n' = n /\ sends_nothing w w' /\ exists r, fl = Return r) \/
  (exists f w1, sends_nothing w w1 /\ process_frame f n w1 = (fl, n', w')).
Proof.
  assert (forall k w1 r w2, read_exact s k w1 = (r, w2) -> sends_nothing w1 w2) as Hrd.
  { intros k w1 r w2 E c Hc. by destruct (read_exact_frame _ _ _ _ _ c E) as (? & _ & ?); auto. }
  assert (forall w1 w2 w3, sends_nothing w1 w2 -> sends_nothing w2 w3 -> sends_nothing w1 w3) as Htr.
  { intros w1 w2 w3 Ha Hb c Hc. destruct (Ha c Hc) as [Hl <-]. by apply Hb. }
  unfold handle_frame. destruct (read_exact s 4 w) as [[b|e] w1] eqn:E1.
  2: { intros [= <- <- <-]. left. split_and!; [done|by eapply Hrd|by eexists]. }
  destruct (read_exact s _ w1) as [[f|e] w2] eqn:E2.
  2: { intros [= <- <- <-]. left. split_and!; [done|eauto|by eexists]. }
  intros E. right. exists f, w2. split; [eauto|done].
Qed.

Lemma handle_frame_apart D s n w fl n' w' :
  apart D n w -> handle_frame s n w = (fl, n', w') -> apart D n' w' /\ silent D w w'.
Proof.
  intros Ha E. apply handle_frame_cases in E as [(-> & Hs & _)|(f & w1 & Hs & E)];
    destruct (sends_nothing_apart _ _ _ _ Ha Hs) as [Ha1 Hs1]; [done|].
  destruct (process_frame_apart _ _ _ _ _ _ _ Ha1 E) as [? Hs2].
  split; [done|by eapply silent_trans].
Qed.

(** What is counted as delivered is what the channel was sent. *)
Definition counted n : Prop :=
  ch_open (delivery_tx n) = true /\
  cells_delivered (metrics n) = as_u64 (len (ch_sent (delivery_tx n))).

(** The channel only grows. *)
Definition extends n n' : Prop :=
  exists more, ch_sent (delivery_tx n') = ch_sent (delivery_tx n) ++ more.

Lemma fetch_add_len {A} (l : list A) x : fetch_add (as_u64 (len l)) 1 = as_u64 (len (l ++ [x])).
Proof. unfold fetch_add, as_u64. rewrite len_app. by rewrite Zplus_mod_idemp_l. Qed.

Lemma handle_frame_counted s n w fl n' w' :
  counted n -> handle_frame s n w = (fl, n', w') -> counted n' /\ extends n n'.
Proof.
  intros [Ho Hc] E. apply handle_frame_cases in E as [(-> & _ & _)|(f & w1 & _ & E)].
  { split; [done|]. exists []. by rewrite app_nil_r. }
  apply process_frame_spec in E as (_ & _ & _ & _ & Hfl). unfold counted, extends. destruct fl as [|r].
  - destruct Hfl as (Hm & Hop & Hd). rewrite (Hd Ho), Hop, Hm. split; [|by eexists].
    split; [done|]. unfold count_frame, deliveries. cbn.
    destruct (peel_onion_layer (keypair n) f) as [[hop body|body]|e]; cbn; rewrite ?app_nil_r, ?Hc; try done.
    apply fetch_add_len.
  - destruct Hfl as (-> & -> & _). split; [done|]. exists []. by rewrite app_nil_r.
Qed.

Lemma accept_connection_keeps s n (active : list Conn) n' active' :
  accept_connection s n active = (n', active') ->
  outbound n' = outbound n /\ delivery_tx n' = delivery_tx n /\
  cells_delivered (metrics n') = cells_delivered (metrics n).
Proof. unfold accept_connection. by destruct (try_acquire _); intros [= <- <-]. Qed.
End apart.

(** ** The invariant of a process *)

Section invariant.
Context {W Conn Ch Sem : Type} `{NetLaws W Conn} `{Crypto} `{ChannelLaws Ch} `{SemaphoreLaws Sem}.
Implicit Types (p : Process Conn Ch Sem) (w : W) (evs : list (event Conn)).

(** The response a request is being sent. *)
Definition answers evs (ident : RelayIdentity) (s : Conn) (resp : bytes) : Prop :=
  ((s ∉ drained_streams evs) /\ resp = describe_response ident) \/
  (exists cells, Drained s cells ∈ evs /\ resp = pull_response cells).

Definition task_ok evs ident w (s : Conn) (t : request_task) : Prop :=
  match t with
  | AwaitRequest | Draining => (s ∉ drained_streams evs) /\ outbox w s = []
  | Responding pending => exists resp, answers evs ident s resp /\ outbox w s ++ concat pending = resp
  end.

Definition finished_ok evs ident w (s : Conn) : Prop :=
  ((s ∉ drained_streams evs) /\ outbox w s = []) \/ answers evs ident s (outbox w s).

Record process_inv evs p w : Prop := {
  pi_account :
    (concat (drained_batches evs) ++ queue (pr_mailbox p) ++ option_list (pr_holding p)) =
    take (pr_taken p) (ch_sent (delivery_tx (pr_node p)));
  pi_taken : (pr_taken p <= length (ch_sent (delivery_tx (pr_node p))))%nat;
  pi_counted : counted (pr_node p);
  pi_limit : limiter_inv (pr_node p, pr_active p, w);
  pi_apart : apart (request_streams evs p) (pr_node p) w;
  pi_nodup : NoDup (request_streams evs p);
  pi_drained : NoDup (drained_streams evs);
  pi_known : drained_streams evs ⊆ request_streams evs p;
  pi_tasks : Forall (fun st => task_ok evs (pr_identity p) w st.1 st.2) (pr_requests p);
  pi_finished s : Finished s (Ok tt) ∈ evs -> finished_ok evs (pr_identity p) w s
}.

Lemma elem_of_drained evs s cells : Drained s cells ∈ evs -> s ∈ drained_streams evs.
Proof. intros Hin. apply list_elem_of_omap. by exists (Drained s cells). Qed.

Lemma elem_of_finished evs s r : Finished s r ∈ evs -> s ∈ finished_streams evs.
Proof. intros Hin. apply list_elem_of_omap. by exists (Finished s r). Qed.

Lemma drained_streams_app (a b : list (event Conn)) : drained_streams (a ++ b) = drained_streams a ++ drained_streams b.
Proof. apply omap_app. Qed.

Lemma finished_streams_app (a b : list (event Conn)) : finished_streams (a ++ b) = finished_streams a ++ finished_streams b.
Proof. apply omap_app. Qed.

(** A request drains at most once, so what it drained is determined. *)
Lemma drained_unique evs s a b :
  NoDup (drained_streams evs) -> Drained s a ∈ evs -> Drained s b ∈ evs -> a = b.
Proof.
  induction evs as [|e evs IH]; [by intros _ ?%elem_of_nil|]. intros Hnd Ha Hb.
  apply elem_of_cons in Ha as [Ea|Ha], Hb as [Eb|Hb].
  - congruence.
  - subst e. apply elem_of_drained in Hb. cbn in Hnd. by apply NoDup_cons in Hnd as [[] _].
  - subst e. apply elem_of_drained in Ha. cbn in Hnd. by apply NoDup_cons in Hnd as [[] _].
  - apply IH; [|done|done]. destruct e; [by apply NoDup_cons in Hnd as [_ ?]|done].
Qed.

(** Events that drain nothing leave the answers alone. *)
Lemma answers_app evs new ident s resp :
  drained_streams new = [] -> answers evs ident s resp -> answers (evs ++ new) ident s resp.
Proof.
  intros Hn. unfold answers. rewrite drained_streams_app, Hn, app_nil_r.
  intros [?|(cells & Hin & ?)]; [by left|right]. exists cells. split; [apply elem_of_app; by left|done].
Qed.

(** A task of another stream is not concerned by a drain. *)
Lemma answers_drain evs s' cells ident s resp :
  s <> s' -> answers evs ident s resp -> answers (evs ++ [Drained s' cells]) ident s resp.
Proof.
  intros Hne. unfold answers. rewrite drained_streams_app. intros [[Hs ->]|(c & Hin & ->)].
  - left. split; [|done]. rewrite elem_of_app. intros [?|?%list_elem_of_singleton]; done.
  - right. exists c. split; [apply elem_of_app; by left|done].
Qed.

(** What a task has sent is judged by the events and by its own stream. *)
Definition same_answers evs evs' (s : Conn) : Prop :=
  ((s ∉ drained_streams evs) -> s ∉ drained_streams evs') /\
  forall ident resp, answers evs ident s resp -> answers evs' ident s resp.

Lemma same_answers_refl evs s : same_answers evs evs s.
Proof. by split. Qed.

Lemma same_answers_app evs new s : drained_streams new = [] -> same_answers evs (evs ++ new) s.
Proof.
  intros Hn. split; [by rewrite drained_streams_app, Hn, app_nil_r|].
  intros. by apply answers_app.
Qed.

Lemma same_answers_drain evs s' cells s : s <> s' -> same_answers evs (evs ++ [Drained s' cells]) s.
Proof.
  intros Hne. split; [|by intros; apply answers_drain].
  rewrite drained_streams_app, elem_of_app. intros Hs [?|?%list_elem_of_singleton]; done.
Qed.

Lemma task_ok_change evs evs' ident w w' s t :
  same_answers evs evs' s -> outbox w' s = outbox w s ->
  task_ok evs ident w s t -> task_ok evs' ident w' s t.
Proof.
  intros [Hd Ha] Ho. unfold task_ok. rewrite Ho. destruct t as [| |pending].
  - intros [? ?]. by auto.
  - intros [? ?]. by auto.
  - intros (resp & ? & ?). exists resp. by auto.
Qed.

Lemma finished_ok_change evs evs' ident w w' s :
  same_answers evs evs' s -> outbox w' s = outbox w s ->
  finished_ok evs ident w s -> finished_ok evs' ident w' s.
Proof.
  intros [Hd Ha] Ho. unfold finished_ok. rewrite Ho.
  intros [[? ?]|?]; [left; by auto|right; by auto].
Qed.

Lemma apart_perm D D' (n : RelayNode Conn Ch Sem) w : D ≡ₚ D' -> apart D n w -> apart D' n w.
Proof.
  intros Hp [Hd Ho]. split; [by rewrite <- Hp|]. intros a c Hc. destruct (Ho a c Hc). by rewrite <- Hp.
Qed.

(** The node acts: nothing is sent on the streams of requests. *)
Lemma process_inv_node evs p w n active w' :
  process_inv evs p w -> counted n -> extends (pr_node p) n ->
  limiter_inv (n, active, w') -> apart (request_streams evs p) n w' ->
  silent (request_streams evs p) w w' -> process_inv evs (with_node n active p) w'.
Proof.
  intros Hi Hc [more He] Hl Ha Hs. destruct Hi as [Hac Ht _ _ _ Hnd Hdr Hk Htk Hf].
  constructor; cbn; try done.
  - rewrite Hac, He, take_app_le by done. done.
  - rewrite He, length_app. lia.
  - apply Forall_forall. intros [s t] Hin. pose proof (proj1 (Forall_forall _ _) Htk _ Hin) as Hok.
    eapply task_ok_change; [apply same_answers_refl| |exact Hok]. apply Hs.
    apply elem_of_app. left. apply list_elem_of_fmap. by exists (s, t).
  - intros s Hin. eapply finished_ok_change; [apply same_answers_refl| |by apply Hf].
    apply Hs. apply elem_of_app. right. by eapply elem_of_finished.
Qed.

Lemma extends_refl (n : RelayNode Conn Ch Sem) : extends n n.
Proof. exists []. by rewrite app_nil_r. Qed.

(** A delivery on its way to the mailbox. *)
Lemma process_inv_queue evs p p' w :
  process_inv evs p w -> queue_step p p' -> process_inv evs p' w.
Proof.
  intros Hi Hq. destruct Hi as [Hac Ht Hc Hl Ha Hnd Hdr Hk Htk Hf].
  destruct Hq as [p cell Hh Hn|p cell Hh]; constructor; cbn; try done; rewrite Hh in Hac; cbn in Hac.
  - erewrite take_S_r by done. rewrite <- Hac, app_nil_r. by rewrite <- !app_assoc.
  - apply lookup_lt_Some in Hn. lia.
  - rewrite app_nil_r. done.
Qed.

(** A turn of a task concerns its own stream only. *)
Lemma task_step_world s t mb ident w fl mb' w' :
  task_step s t mb ident w = (fl, mb', w') ->
  keeps_live w w' /\ forall c, c <> s -> outbox w' c = outbox w c.
Proof.
  destruct t as [| |[|buf pending]]; cbn [task_step drain].
  - destruct (read_exact s 1 w) as [r w1] eqn:E. intros Hw.
    assert (w' = w1) as -> by (destruct r; repeat case_decide; congruence).
    split; [intros c|intros c _]; by apply (read_exact_frame _ _ _ _ _ c) in E as (? & _ & ?).
  - intros E. assert (w' = w) as -> by congruence. split; [by intros c|done].
  - intros E. assert (w' = w) as -> by congruence. split; [by intros c|done].
  - destruct (write_all s buf w) as [r w1] eqn:E. intros Hw.
    assert (w' = w1) as -> by (destruct r; congruence).
    split; intros c; by apply (write_all_frame _ _ _ _ _ c) in E as (_ & ? & ?).
Qed.

(** The other requests when one of them takes a turn. *)
Lemma other_requests evs evs' p w w' l1 s t l2 :
  process_inv evs p w -> pr_requests p = l1 ++ (s, t) :: l2 ->
  (forall s', s' <> s -> same_answers evs evs' s') ->
  (forall c, c <> s -> outbox w' c = outbox w c) ->
  (s ∉ finished_streams evs) /\
  Forall (fun st => task_ok evs' (pr_identity p) w' st.1 st.2) (l1 ++ l2) /\
  (forall s', Finished s' (Ok tt) ∈ evs -> finished_ok evs' (pr_identity p) w' s').
Proof.
  intros Hi Hr Hsame Hout. pose proof (pi_nodup _ _ _ Hi) as Hnd. unfold request_streams in Hnd.
  rewrite Hr, fmap_app, fmap_cons in Hnd. cbn in Hnd.
  rewrite <- Permutation_middle in Hnd. cbn [app] in Hnd. apply NoDup_cons in Hnd as [Hs _].
  rewrite <- app_assoc, !not_elem_of_app in Hs. destruct Hs as (Hs1 & Hs2 & Hs3).
  split_and!; [done| |].
  - pose proof (pi_tasks _ _ _ Hi) as Htk. rewrite Hr in Htk.
    apply Forall_app in Htk as [Ht1 Ht2]. apply Forall_cons in Ht2 as [_ Ht2].
    apply Forall_forall. intros [s' t'] Hin.
    assert (s' <> s) as Hne.
    { intros ->. apply elem_of_app in Hin as [Hin|Hin]; [apply Hs1|apply Hs2];
        apply list_elem_of_fmap; by exists (s, t'). }
    assert (task_ok evs (pr_identity p) w s' t') as Hok.
    { apply elem_of_app in Hin as [Hin|Hin];
        [by apply (proj1 (Forall_forall _ _) Ht1) in Hin|by apply (proj1 (Forall_forall _ _) Ht2) in Hin]. }
    eapply task_ok_change; [by apply Hsame|by apply Hout|done].
  - intros s' Hin. assert (s' <> s) as Hne by (intros ->; by apply elem_of_finished in Hin).
    eapply finished_ok_change; [by apply Hsame|by apply Hout|by apply (pi_finished _ _ _ Hi)].
Qed.

Lemma insert_Forall {A} (P : A -> Prop) l1 x l2 : Forall P (l1 ++ l2) -> P x -> Forall P (l1 ++ x :: l2).
Proof. intros [H1' H2']%Forall_app Hx. apply Forall_app_2; [done|by constructor]. Qed.

(** The state of the task that took a turn, when it goes on. *)
Lemma task_turn_ok evs ident w s t mb t' mb' w' :
  task_ok evs ident w s t -> task_step s t mb ident w = (Goes t', mb', w') ->
  task_ok (evs ++ if decide (t = Draining) then [Drained s (queue mb)] else []) ident w' s t' /\
  mb' = if decide (t = Draining) then mailbox_new else mb.
Proof.
  destruct t as [| |[|buf pending]]; cbn [task_step drain task_ok]; rewrite ?app_nil_r.
  - intros [Hd Ho]. destruct (read_exact s 1 w) as [[request|e] w1] eqn:E; [|done].
    pose proof (read_exact_frame _ _ _ _ _ s E) as (Hw & _).
    rewrite (decide_False (P := AwaitRequest = Draining)) by done.
    case_decide; [|case_decide]; intros [= <- <- <-]; (split; [|done]); cbn [task_ok]; rewrite Hw.
    + done.
    + exists (describe_response ident). split; [by left|]. by rewrite Ho, concat_describe_writes.
  - intros [Hd Ho] [= <- <- <-]. rewrite !decide_True by done. split; [|done]. exists (pull_response (queue mb)). split.
    + right. exists (queue mb). split; [|done]. apply elem_of_app. right. by left.
    + by rewrite Ho, concat_pull_writes.
  - done.
  - intros (resp & Ha & Hr). destruct (write_all s buf w) as [[[]|e] w1] eqn:E; [|done].
    intros [= <- <- <-]. rewrite decide_False by done. split; [|done].
    exists resp. split; [done|]. apply write_all_ok in E. by rewrite E, <- app_assoc.
Qed.

(** The task that ended well. *)
Lemma task_end_ok evs ident w s t mb r mb' w' :
  task_ok evs ident w s t -> task_step s t mb ident w = (Ends r, mb', w') ->
  mb' = mb /\ (r = Ok tt -> finished_ok evs ident w' s).
Proof.
  destruct t as [| |[|buf pending]]; cbn [task_step drain task_ok].
  - intros [Hd Ho]. destruct (read_exact s 1 w) as [[request|e] w1] eqn:E; [|by intros [= <- <- <-]].
    pose proof (read_exact_frame _ _ _ _ _ s E) as (Hw & _).
    case_decide; [done|]. case_decide; [done|]. intros [= <- <- <-]. split; [done|].
    intros _. left. by rewrite Hw.
  - done.
  - intros (resp & Ha & Hr) [= <- <- <-]. cbn in Hr. rewrite app_nil_r in Hr. subst.
    split; [done|]. intros _. by right.
  - intros _. destruct (write_all s buf w) as [[[]|e] w1] eqn:E; [done|]. by intros [= <- <- <-].
Qed.

(** A new stream is none of those known before. *)
Lemma accepts_fresh D (n : RelayNode Conn Ch Sem) w s w' :
  apart D n w -> accepts w s w' -> (s ∉ D) /\ apart (s :: D) n w' /\ silent D w w'.
Proof.
  intros Ha (Hnew & Hlive & _ & Hs). pose proof Ha as [Hd Hp].
  destruct (sends_nothing_apart _ _ _ _ Ha Hs) as [[Hd' Hp'] Hsil].
  split_and!; [|split; [by constructor|]|done].
  - intros Hin. apply Hnew. by apply (proj1 (Forall_forall _ _) Hd).
  - intros a c Hc. destruct (Hp' a c Hc) as [Hl Hn]. split; [done|].
    apply not_elem_of_cons. split; [|done]. intros ->. apply Hnew. by destruct (Hp a s Hc).
Qed.

Lemma process_inv_accept evs p s w w' :
  process_inv evs p w -> accepts w s w' ->
  process_inv evs (with_requests true (pr_mailbox p) (pr_requests p ++ [(s, AwaitRequest)]) p) w'.
Proof.
  intros Hi Hacc. destruct (accepts_fresh _ _ _ _ _ (pi_apart _ _ _ Hi) Hacc) as (Hs & Ha & Hsil).
  destruct Hi as [Hac Ht Hc Hl _ Hnd Hdr Hk Htk Hf].
  assert (s :: request_streams evs p ≡ₚ
    request_streams evs (with_requests true (pr_mailbox p) (pr_requests p ++ [(s, AwaitRequest)]) p)) as Hperm.
  { unfold request_streams. cbn [with_requests pr_requests]. rewrite fmap_app, <- app_assoc. cbn. apply Permutation_middle. }
  constructor; cbn; try done.
  - by eapply apart_perm.
  - rewrite <- Hperm. by constructor.
  - intros x Hx. rewrite <- Hperm. right. by apply Hk.
  - apply Forall_app_2.
    + apply Forall_forall. intros [s' t] Hin. pose proof (proj1 (Forall_forall _ _) Htk _ Hin) as Hok.
      eapply task_ok_change; [apply same_answers_refl| |exact Hok]. apply Hsil.
      apply elem_of_app. left. apply list_elem_of_fmap. by exists (s', t).
    + constructor; [|done]. split; [|by apply Hacc]. intros Hin. by apply Hs, Hk.
  - intros s' Hin. eapply finished_ok_change; [apply same_answers_refl| |by apply Hf].
    apply Hsil, elem_of_app. right. by eapply elem_of_finished.
Qed.

Lemma apart_pool D (n : RelayNode Conn Ch Sem) w w' :
  apart D n w -> keeps_live w w' -> forall D', D' ≡ₚ D -> apart D' n w'.
Proof. intros Ha Hl D' Hp. eapply apart_perm; [by symmetry|by eapply apart_live]. Qed.

Lemma process_inv_turn evs p l1 s t l2 t' mb w w' :
  process_inv evs p w -> pr_requests p = l1 ++ (s, t) :: l2 ->
  task_step s t (pr_mailbox p) (pr_identity p) w = (Goes t', mb, w') ->
  process_inv (evs ++ if decide (t = Draining) then [Drained s (queue (pr_mailbox p))] else [])
    (with_requests (pr_serving p) mb (l1 ++ (s, t') :: l2) p) w'.
Proof.
  intros Hi Hr E. set (new := if decide (t = Draining) then _ else _).
  destruct (task_step_world _ _ _ _ _ _ _ _ E) as [Hlive Hout].
  assert (task_ok evs (pr_identity p) w s t) as Hok.
  { pose proof (pi_tasks _ _ _ Hi) as Htk. rewrite Hr in Htk. by apply Forall_app in Htk as [_ [Htk _]%Forall_cons]. }
  destruct (task_turn_ok _ _ _ _ _ _ _ _ _ Hok E) as [Hok' Hmb]. fold new in Hok'.
  destruct (other_requests evs (evs ++ new) p w w' l1 s t l2 Hi Hr) as (Hnf & Hoth & Hfin); [|done|].
  { intros s' Hne. subst new. case_decide; [by apply same_answers_drain|by apply same_answers_app]. }
  assert (finished_streams new = []) as Hfn by (subst new; by case_decide).
  assert (request_streams (evs ++ new) (with_requests (pr_serving p) mb (l1 ++ (s, t') :: l2) p) =
    request_streams evs p) as Hst.
  { unfold request_streams. cbn [with_requests pr_requests]. rewrite Hr, finished_streams_app, Hfn, app_nil_r.
    by rewrite !fmap_app, !fmap_cons. }
  pose proof Hi as [Hac Ht Hc Hl Ha Hnd Hdr Hk _ _].
  constructor; cbn; rewrite ?Hst; try done.
  - rewrite <- Hac. subst mb new. case_decide as Hd; [|by rewrite app_nil_r].
    unfold drained_batches. rewrite omap_app, concat_app. cbn. by rewrite app_nil_r, <- app_assoc.
  - by eapply apart_live.
  - rewrite drained_streams_app. subst new. case_decide as Hd; cbn; [|by rewrite app_nil_r].
    apply NoDup_app. split_and!; [done| |by repeat constructor; apply not_elem_of_nil].
    subst t. destruct Hok as [Hok _]. intros x Hx ->%list_elem_of_singleton. done.
  - rewrite drained_streams_app. intros x [Hx|Hx]%elem_of_app; [by apply Hk|].
    assert (x = s) as -> by (subst new; case_decide; [by apply list_elem_of_singleton in Hx|by apply elem_of_nil in Hx]).
    unfold request_streams. rewrite Hr, fmap_app. apply elem_of_app. left. apply elem_of_app. right. by left.
  - by apply insert_Forall.
  - intros s' [Hin|Hin]%elem_of_app; [by apply Hfin|]. apply elem_of_finished in Hin. rewrite Hfn in Hin.
    by apply elem_of_nil in Hin.
Qed.

Lemma process_inv_end evs p l1 s t l2 r mb w w' :
  process_inv evs p w -> pr_requests p = l1 ++ (s, t) :: l2 ->
  task_step s t (pr_mailbox p) (pr_identity p) w = (Ends r, mb, w') ->
  process_inv (evs ++ [Finished s r]) (with_requests (pr_serving p) mb (l1 ++ l2) p) w'.
Proof.
  intros Hi Hr E. destruct (task_step_world _ _ _ _ _ _ _ _ E) as [Hlive Hout].
  assert (task_ok evs (pr_identity p) w s t) as Hok.
  { pose proof (pi_tasks _ _ _ Hi) as Htk. rewrite Hr in Htk. by apply Forall_app in Htk as [_ [Htk _]%Forall_cons]. }
  destruct (task_end_ok _ _ _ _ _ _ _ _ _ Hok E) as [Hmb Hend].
  destruct (other_requests evs (evs ++ [Finished s r]) p w w' l1 s t l2 Hi Hr) as (Hnf & Hoth & Hfin);
    [by intros s' _; apply same_answers_app|done|].
  assert (request_streams (evs ++ [Finished s r]) (with_requests (pr_serving p) mb (l1 ++ l2) p) ≡ₚ
    request_streams evs p) as Hst.
  { unfold request_streams. cbn [with_requests pr_requests]. rewrite Hr, finished_streams_app, !fmap_app, fmap_cons. cbn.
    rewrite (app_assoc _ (finished_streams evs)), (Permutation_app_comm _ [s]), <- Permutation_middle. done. }
  pose proof Hi as [Hac Ht Hc Hl Ha Hnd Hdr Hk _ _]. subst mb.
  constructor; cbn; rewrite ?drained_streams_app, ?app_nil_r; try done.
  - unfold drained_batches. by rewrite omap_app, concat_app, app_nil_r.
  - by eapply apart_pool.
  - by rewrite Hst.
  - intros x Hx. rewrite Hst. by apply Hk.
  - intros s' [Hin|Hin]%elem_of_app; [by apply Hfin|].
    apply list_elem_of_singleton in Hin as [= -> <-].
    eapply finished_ok_change; [by apply same_answers_app|done|by apply Hend].
Qed.

(** The node's part of a step is a step of [Node.relay_step]. *)
Lemma process_projects st new st' :
  process_step st new st' ->
  rtc relay_step (pr_node st.1, pr_active st.1, st.2) (pr_node st'.1, pr_active st'.1, st'.2).
Proof.
  destruct 1 as [p w w' Hs|p s n a w w' Hacc E|p s n w w' Hin E|p l1 s l2 r n w w' Ha E|p p' w Hq|st evs st' Hs];
    cbn.
  - apply rtc_once, step_world.
  - eapply rtc_l; [apply step_world|]. eapply rtc_once. by eapply step_accept.
  - eapply rtc_once. by eapply step_frame.
  - eapply rtc_once. by eapply step_close.
  - destruct Hq; apply rtc_refl.
  - destruct Hs; cbn; eapply rtc_once, step_world.
Qed.

Lemma limiter_inv_steps st st' :
  rtc (relay_step (W:=W) (Conn:=Conn) (Ch:=Ch) (Sem:=Sem)) st st' -> limiter_inv st -> limiter_inv st'.
Proof. induction 1 as [|st1 st2 st3 Hs _ IH]; [done|]. intros Hi. eapply IH, limiter_inv_step; done. Qed.

Lemma process_inv_step evs st new st' :
  process_inv evs st.1 st.2 -> process_step st new st' -> process_inv (evs ++ new) st'.1 st'.2.
Proof.
  intros Hi Hst. pose proof (limiter_inv_steps _ _ (process_projects _ _ _ Hst) (pi_limit _ _ _ Hi)) as Hl.
  pose proof (pi_apart _ _ _ Hi) as Ha. pose proof (pi_counted _ _ _ Hi) as Hc.
  destruct Hst as [p w w' Hs|p s n a w w' Hacc E|p s n w w' Hin E|p l1 s l2 r n w w' Hact E|p p' w Hq|st evs' st' Hs];
    cbn in *; rewrite ?app_nil_r.
  - destruct (sends_nothing_apart _ _ _ _ Ha Hs) as [Ha' Hsil].
    pose proof (process_inv_node evs p w (pr_node p) (pr_active p) w' Hi Hc (extends_refl _) Hl Ha' Hsil) as Hi'.
    by destruct p.
  - apply accept_connection_keeps in E as (Ho & Hd & Hm).
    destruct Hacc as (_ & _ & _ & Hs). destruct (sends_nothing_apart _ _ _ _ Ha Hs) as [Ha' Hsil].
    apply (process_inv_node _ _ w); try done.
    + unfold counted. by rewrite Hd, Hm.
    + exists []. by rewrite app_nil_r, Hd.
    + unfold apart. by rewrite Ho.
  - destruct (handle_frame_apart _ _ _ _ _ _ _ Ha E) as [Ha' Hsil].
    destruct (handle_frame_counted _ _ _ _ _ _ Hc E) as [Hc' He].
    by apply (process_inv_node _ _ w).
  - destruct (handle_frame_apart _ _ _ _ _ _ _ Ha E) as [Ha' Hsil].
    destruct (handle_frame_counted _ _ _ _ _ _ Hc E) as [Hc' He].
    by apply (process_inv_node _ _ w).
  - by eapply process_inv_queue.
  - destruct Hs as [p s w w' Hsv Hacc|p w|p l1 s t l2 t' mb w w' Hr E|p l1 s t l2 r mb w w' Hr E];
      rewrite ?app_nil_r; cbn in *.
    + by apply (process_inv_accept _ _ _ w).
    + destruct Hi. by constructor.
    + by eapply process_inv_turn.
    + by eapply process_inv_end.
Qed.

Lemma process_inv_new cfg kp ident serving w :
  process_inv [] (process_new (fresh_node cfg kp) ident serving) w.
Proof.
  constructor; cbn.
  - done.
  - lia.
  - split; cbn; [apply ch_new_open|by rewrite ch_new_empty].
  - by rewrite available_new, Nat.add_0_r.
  - split; [constructor|apply map_Forall_empty].
  - constructor.
  - constructor.
  - done.
  - constructor.
  - by intros s ?%elem_of_nil.
Qed.

Lemma process_inv_run cfg kp ident serving w evs st :
  process_run (process_new (fresh_node cfg kp) ident serving, w) evs st ->
  process_inv evs st.1 st.2.
Proof.
  induction 1 as [|evs st new st' _ IH Hst]; [apply process_inv_new|]. by eapply process_inv_step.
Qed.

(** The identity a process describes never changes. *)
Lemma process_identity st0 evs st : process_run st0 evs st -> pr_identity st.1 = pr_identity st0.1.
Proof.
  induction 1 as [|evs st new st' _ IH Hst]; [done|]. rewrite <- IH.
  destruct Hst as [| | | |p p' w Hq|st evs' st' Hs]; try done; [by destruct Hq|by destruct Hs].
Qed.

(** What the node has delivered, and where it is. *)
Lemma process_account cfg kp ident serving w0 evs p w :
  process_run (process_new (fresh_node cfg kp) ident serving, w0) evs (p, w) ->
  ch_sent (delivery_tx (pr_node p)) =
    concat (drained_batches evs) ++ queue (pr_mailbox p) ++ option_list (pr_holding p) ++
    drop (pr_taken p) (ch_sent (delivery_tx (pr_node p))).
Proof.
  intros Hrun. destruct (process_inv_run _ _ _ _ _ _ _ Hrun) as [Hac _ _ _ _ _ _ _ _ _]. cbn in Hac.
  rewrite <- (take_drop (pr_taken p) (ch_sent _)) at 1. rewrite <- Hac. by rewrite <- !app_assoc.
Qed.

(** What was drained by a request that ended well was sent to its client. *)
Lemma process_responded cfg kp ident serving w0 evs p w s cells :
  process_run (process_new (fresh_node cfg kp) ident serving, w0) evs (p, w) ->
  Drained s cells ∈ evs -> Finished s (Ok tt) ∈ evs -> outbox w s = pull_response cells.
Proof.
  intros Hrun Hin Hfin. destruct (process_inv_run _ _ _ _ _ _ _ Hrun) as [_ _ _ _ _ _ Hdr _ _ Hf]. cbn in *.
  destruct (Hf s Hfin) as [[Hn _]|[[Hn _]|(cells' & Hin' & ->)]]; [by apply elem_of_drained in Hin..|].
  by rewrite (drained_unique _ _ _ _ Hdr Hin Hin').
Qed.

(** The queueing task. *)
Lemma queue_step_backlog p p' : queue_step p p' -> backlog p = S (backlog p').
Proof.
  intros [q cell Hh Hn|q cell Hh]; unfold backlog; cbn; rewrite Hh; cbn; [|lia].
  apply lookup_lt_Some in Hn. lia.
Qed.

Lemma queue_step_enabled p : (0 < backlog p)%nat -> exists p', queue_step p p'.
Proof.
  unfold backlog. destruct (pr_holding p) as [cell|] eqn:Hh.
  - intros _. eexists. by eapply queue_push.
  - intros Hb. destruct (lookup_lt_is_Some_2 (ch_sent (delivery_tx (pr_node p))) (pr_taken p)) as [cell Hn];
      [lia|]. eexists. by eapply queue_recv.
Qed.

Lemma queue_steps_run n st0 evs p p' w :
  process_run st0 evs (p, w) -> nsteps queue_step n p p' ->
  process_run st0 evs (p', w) /\ (n + backlog p' = backlog p)%nat /\ pr_node p' = pr_node p.
Proof.
  intros Hrun Hn. induction Hn as [p|n p1 p2 p3 Hs _ IH]; [done|].
  rewrite (queue_step_backlog _ _ Hs). destruct IH as (Hr & Hb & Hnode).
  { rewrite <- (app_nil_r evs). eapply run_step; [done|]. by apply process_queue. }
  split_and!; [done|lia|]. rewrite Hnode. by destruct Hs.
Qed.
End invariant.

(** ** Properties *)

Section properties.
Context {W Conn Ch Sem : Type} `{NetLaws W Conn} `{Crypto} `{ChannelLaws Ch} `{SemaphoreLaws Sem}.
Implicit Types (p : Process Conn Ch Sem) (w : W) (evs : list (event Conn)).

(** C12: a relay process hands out every delivery exactly once and in order,
    in every interleaving of its connections, its queueing task and its
    requests with each other and with the network. What the node has delivered
    so far is, in order, what the PULL requests have drained, what is in the
    mailbox, the one cell the queueing task may hold, and what is still in the
    channel. No request drains twice. A request that drained and ended without
    an error has sent exactly the response that carries its cells; one still
    being answered has sent a part of it and has the rest ahead. A request that
    drained nothing and ended without an error has sent the relay's description
    or nothing. The counter of deliveries counts them, modulo [2^64], and the
    connection limit holds. *)
Theorem process_hands_out_once cfg kp ident serving w0 evs p w :
  process_run (process_new (fresh_node cfg kp) ident serving, w0) evs (p, w) ->
  let delivered := ch_sent (delivery_tx (pr_node p)) in
  delivered = concat (drained_batches evs) ++ queue (pr_mailbox p) ++ option_list (pr_holding p) ++
              drop (pr_taken p) delivered /\
  NoDup (drained_streams evs) /\
  (forall s cells, Drained s cells ∈ evs -> Finished s (Ok tt) ∈ evs ->
     outbox w s = pull_response cells) /\
  (forall s cells pending, Drained s cells ∈ evs -> (s, Responding pending) ∈ pr_requests p ->
     outbox w s ++ concat pending = pull_response cells) /\
  (forall s, Finished s (Ok tt) ∈ evs -> s ∉ drained_streams evs ->
     outbox w s = [] \/ outbox w s = describe_response ident) /\
  cells_delivered (metrics (pr_node p)) = as_u64 (len delivered) /\
  (length (pr_active p) <= max_connections cfg)%nat.
Proof.
  intros Hrun delivered. pose proof (process_inv_run _ _ _ _ _ _ _ Hrun) as Hi. cbn in Hi.
  pose proof (process_identity _ _ _ Hrun) as Hid. cbn in Hid.
  destruct Hi as [Hac Ht Hc Hl Ha Hnd Hdr Hk Htk Hf].
  assert (Huniq : forall s cells resp, Drained s cells ∈ evs -> answers evs (pr_identity p) s resp ->
    resp = pull_response cells).
  { intros s cells resp Hin [[Hn _]|(cells' & Hin' & ->)]; [by apply elem_of_drained in Hin|].
    by rewrite (drained_unique _ _ _ _ Hdr Hin Hin'). }
  split_and!; [|done| | | |apply Hc|].
  - by eapply process_account.
  - intros s cells Hin Hfin. by eapply process_responded.
  - intros s cells pending Hin Hreq. apply (proj1 (Forall_forall _ _) Htk) in Hreq as (resp & Hans & <-).
    by apply (Huniq s).
  - intros s Hfin Hn. destruct (Hf s Hfin) as [[_ Ho]|[[_ Ho]|(cells & Hin & _)]].
    + by left.
    + right. by rewrite Ho, Hid.
    + by apply elem_of_drained in Hin.
  - assert (rtc relay_step (fresh_node cfg kp, [], w0) (pr_node p, pr_active p, w)) as Hrel.
    { clear -Hrun. change (pr_node p, pr_active p, w) with (pr_node (p, w).1, pr_active (p, w).1, (p, w).2).
      induction Hrun as [|evs st new st' _ IH Hst]; [apply rtc_refl|].
      etransitivity; [exact IH|by apply (process_projects _ _ _ Hst)]. }
    destruct (limiter_inv_reachable _ _ _ _ Hrel) as [Hli Hcfg]. cbn in Hli, Hcfg. rewrite Hcfg in Hli. lia.
Qed.

(** C21: every delivery reaches the mailbox. In any state of a relay process the
    queueing task needs exactly [backlog] turns for what the node has delivered
    so far: it never gets stuck before, and every run of that many turns ends
    with the channel empty, nothing held, and everything the node delivered
    either drained by a PULL or in the mailbox, in order; the next PULL then
    drains all of it. *)
Theorem deliveries_reach_mailbox cfg kp ident serving w0 evs p w n p' :
  process_run (process_new (fresh_node cfg kp) ident serving, w0) evs (p, w) ->
  nsteps queue_step n p p' ->
  (n <= backlog p)%nat /\
  ((n < backlog p)%nat -> exists p'', queue_step p' p'') /\
  (n = backlog p ->
     ch_sent (delivery_tx (pr_node p)) = concat (drained_batches evs) ++ queue (pr_mailbox p') /\
     pr_holding p' = None /\
     forall (s : Conn) ident' w', exists mb,
       task_step s Draining (pr_mailbox p') ident' w' =
         (Goes (Responding (pull_writes (queue (pr_mailbox p')))), mb, w') /\ queue mb = []).
Proof.
  intros Hrun Hn. destruct (queue_steps_run _ _ _ _ _ _ Hrun Hn) as (Hrun' & Hb & Hnode).
  split_and!; [lia|intros Hlt; apply queue_step_enabled; lia|]. intros Hall.
  assert (backlog p' = 0%nat) as Hz by lia. pose proof (process_inv_run _ _ _ _ _ _ _ Hrun') as Hi. cbn in Hi.
  pose proof (pi_account _ _ _ Hi) as Hac. pose proof (pi_taken _ _ _ Hi) as Ht.
  unfold backlog in Hz. destruct (pr_holding p') eqn:Hh; [lia|].
  rewrite take_ge in Hac by lia. cbn in Hac. rewrite app_nil_r, Hnode in Hac. split_and!; [done|done|].
  intros s ident' w'. by exists mailbox_new.
Qed.
End properties.
