(* ===== verification/Topology.v ===== *)
(** * The set of known relays: [veil-routing/src/topology.rs]

    The map from relay ids to relays, its iteration in the unspecified order
    of a hash map, and its invariant. *)
From S2P Require Import Prelude.
From S2P Require Import Interfaces.

Open Scope Z_scope.

Record RelayInfo : Type := mkRelayInfo {
  info_id : bytes;
  info_address : bytes;
  info_public_key : bytes
}.

#[export] Instance RelayInfo_eq_dec : EqDecision RelayInfo.
Proof. solve_decision. Defined.

Record Topology : Type := mkTopology { relays : gmap bytes RelayInfo }.

Definition topology_new : Topology := {| relays := ∅ |}.

Definition add_relay (self : Topology) (relay : RelayInfo) : Topology :=
  {| relays := <[info_id relay := relay]> (relays self) |}.

Definition get (self : Topology) (id : bytes) : option RelayInfo := relays self !! id.

(** [self.relays.values()], in some order. *)
Definition all `{HashOrder} (self : Topology) : list RelayInfo :=
  hash_order (map_to_list (relays self)).*2.

Definition topology_len (self : Topology) : Z := Z.of_nat (size (relays self)).

Definition topology_is_empty (self : Topology) : bool := bool_decide (size (relays self) = 0%nat).

(** Relays added one after the other. *)
Definition add_relays (self : Topology) (rs : list RelayInfo) : Topology :=
  fold_left add_relay rs self.

(** Every relay is filed under its own id. *)
Definition wf_topology (t : Topology) : Prop :=
  map_Forall (fun id r => info_id r = id) (relays t).

(** The last relay of a list with the given id. *)
Definition last_with_id (id : bytes) (rs : list RelayInfo) : option RelayInfo :=
  last (filter (fun r => info_id r = id) rs).

(** ** Lemmas *)

Lemma wf_topology_new : wf_topology topology_new.
Proof. apply map_Forall_empty. Qed.

Lemma wf_add_relay t r : wf_topology t -> wf_topology (add_relay t r).
Proof. intros Ht. by apply map_Forall_insert_2. Qed.

Lemma wf_add_relays t rs : wf_topology t -> wf_topology (add_relays t rs).
Proof.
  revert t. induction rs as [|r rs IH]; intros t Ht; [done|].
  apply IH. by apply wf_add_relay.
Qed.

#[export] Hint Resolve wf_topology_new wf_add_relay wf_add_relays : veil.

Lemma add_relays_snoc t rs r : add_relays t (rs ++ [r]) = add_relay (add_relays t rs) r.
Proof. unfold add_relays. by rewrite fold_left_app. Qed.

Lemma get_add_relays t rs id :
  get (add_relays t rs) id =
    match last_with_id id rs with Some r => Some r | None => get t id end.
Proof.
  unfold get, last_with_id. induction rs as [|r rs IH] using rev_ind; [done|].
  rewrite add_relays_snoc, filter_app. cbn [relays add_relay].
  destruct (decide (info_id r = id)) as [<-|Hne].
  - rewrite lookup_insert_eq, filter_cons_True, filter_nil by done. by rewrite last_snoc.
  - rewrite lookup_insert_ne, IH, filter_cons_False by done. by rewrite app_nil_r.
Qed.

Section order.
Context `{HashOrderLaws}.

Lemma all_perm t : all t ≡ₚ (map_to_list (relays t)).*2.
Proof. apply hash_order_perm. Qed.

Lemma all_ids t : wf_topology t -> info_id <$> all t ≡ₚ (map_to_list (relays t)).*1.
Proof.
  intros Ht. rewrite all_perm, <- list_fmap_compose.
  eq_perm. apply list_fmap_ext. intros i [k r] Hi. cbn.
  apply (Ht k r). apply elem_of_map_to_list. by eapply list_elem_of_lookup_2.
Qed.

(** The relays of a topology have distinct ids. *)
Lemma all_NoDup t : wf_topology t -> NoDup (info_id <$> all t).
Proof. intros Ht. rewrite all_ids by done. apply NoDup_fst_map_to_list. Qed.

Lemma elem_of_all t r : r ∈ all t <-> exists id, relays t !! id = Some r.
Proof.
  rewrite all_perm, list_elem_of_fmap. split.
  - intros ([k r'] & -> & Hin). exists k. by apply elem_of_map_to_list.
  - intros [k Hk]. exists (k, r). split; [done|]. by apply elem_of_map_to_list.
Qed.

Lemma length_all t : len (all t) = topology_len t.
Proof.
  unfold len, topology_len. rewrite (Permutation_length (all_perm t)), length_fmap.
  by rewrite length_map_to_list.
Qed.

(** Adding relays with distinct ids to an empty topology, then listing them. *)
Lemma add_relays_relays rs :
  NoDup (info_id <$> rs) ->
  relays (add_relays topology_new rs) = list_to_map ((fun r => (info_id r, r)) <$> rs).
Proof.
  intros Hnd. apply map_eq. intros id. change (relays ?t !! id) with (get t id).
  rewrite get_add_relays. unfold get. cbn. rewrite lookup_empty. unfold last_with_id.
  induction rs as [|r rs IH]; [done|]. cbn in Hnd. apply NoDup_cons in Hnd as [Hni Hnd].
  rewrite fmap_cons, list_to_map_cons. destruct (decide (info_id r = id)) as [<-|Hne].
  - rewrite filter_cons_True, lookup_insert_eq by done.
    assert (filter (fun r0 => info_id r0 = info_id r) rs = []) as ->; [|done].
    clear IH Hnd. induction rs as [|x rs IH]; [done|]. rewrite fmap_cons, not_elem_of_cons in Hni.
    destruct Hni as [Hx Hni]. rewrite filter_cons_False by congruence. by apply IH.
  - rewrite filter_cons_False, lookup_insert_ne by done. by apply IH.
Qed.

(** Relays with distinct ids are listed as they were added, in some order. *)
Lemma all_add_relays rs : NoDup (info_id <$> rs) -> all (add_relays topology_new rs) ≡ₚ rs.
Proof.
  intros Hnd. rewrite all_perm, add_relays_relays by done.
  rewrite map_to_list_to_map by by rewrite <- list_fmap_compose.
  rewrite <- list_fmap_compose. eq_perm. apply list_fmap_id.
Qed.

(** A topology is rebuilt from the list of its relays, in any order. *)
Lemma add_relays_all t rs :
  wf_topology t -> rs ≡ₚ all t -> add_relays topology_new rs = t.
Proof.
  intros Ht Hp. destruct t as [m]. destruct (add_relays topology_new rs) as [m'] eqn:E.
  f_equal. change m' with (relays {| relays := m' |}). rewrite <- E.
  rewrite add_relays_relays by (rewrite Hp; by apply all_NoDup).
  rewrite <- (list_to_map_to_list m). apply list_to_map_proper.
  - rewrite <- list_fmap_compose. rewrite Hp. by apply all_NoDup.
  - rewrite Hp, all_perm, <- list_fmap_compose. eq_perm.
    etransitivity; [|apply list_fmap_id].
    apply list_fmap_ext. intros i [k r] Hi. cbn. f_equal.
    apply (Ht k r). apply elem_of_map_to_list. by eapply list_elem_of_lookup_2.
Qed.
End order.

(** ** Properties *)

(** The topology is the last relay added under each id. Starting from
    the empty topology, after any sequence of additions a lookup returns the
    last relay added with that id, every relay listed is filed under its own
    id, no id is listed twice, exactly the relays that lookups return are
    listed, and the reported size is the number listed. *)
Theorem topology_holds_last_added `{HashOrderLaws} rs :
  let t := add_relays topology_new rs in
  (forall id, get t id = last_with_id id rs) /\
  (forall id r, get t id = Some r -> info_id r = id) /\
  NoDup (info_id <$> all t) /\
  (forall r, r ∈ all t <-> get t (info_id r) = Some r) /\
  len (all t) = topology_len t /\
  (topology_is_empty t = true <-> rs = []).
Proof.
  intros t. assert (wf_topology t) as Hwf by (subst t; auto with veil).
  assert (forall id, get t id = last_with_id id rs) as Hget.
  { intros id. subst t. rewrite get_add_relays. by destruct (last_with_id id rs). }
  split_and!; [done|apply Hwf|by apply all_NoDup| |apply length_all|].
  - intros r. rewrite elem_of_all. split; [|by eauto]. intros [id Hid].
    by rewrite (Hwf id r Hid).
  - unfold topology_is_empty. rewrite bool_decide_eq_true, map_size_empty_iff.
    split; [|by intros ->]. intros He. destruct rs as [|r rs _] using rev_ind; [done|].
    exfalso. specialize (Hget (info_id r)). unfold get in Hget. rewrite He, lookup_empty in Hget.
    unfold last_with_id in Hget. rewrite filter_app, filter_cons_True, filter_nil, last_snoc in Hget; done.
Qed.
