(* ===== verification/TopologyFile.v ===== *)
(** * Topology files: [veil-routing/src/topology_file.rs]

    Loading and saving a topology as JSON, over the interfaces of
    [serde_json], [hex] and the file system. The theorems characterize what
    [from_json] accepts and which error it reports, and show that saving and
    loading restores the topology. *)
From S2P Require Import Prelude.
From S2P Require Import RustStd.
From S2P Require Import Interfaces.
From S2P Require Import Cell.
From S2P Require Import Keys.
From S2P Require Import Topology.

Open Scope Z_scope.

Definition CURRENT_VERSION : Z := 1.

Inductive TopologyFileError (E : Type) : Type :=
  | Read (path : bytes) (source : io_error)
  | Write (path : bytes) (source : io_error)
  | Parse (e : E)
  | InvalidPublicKey (id : bytes) (reason : string)
  | UnsupportedVersion (found expected : Z).
Arguments Read {E}.
Arguments Write {E}.
Arguments Parse {E}.
Arguments InvalidPublicKey {E}.
Arguments UnsupportedVersion {E}.

Record RelayEntry : Type := mkEntry {
  entry_id : bytes;
  entry_address : bytes;
  entry_public_key : bytes
}.

Record TopologyFile : Type := mkTopologyFile {
  version : Z;
  file_relays : list RelayEntry
}.

#[export] Instance RelayEntry_eq_dec : EqDecision RelayEntry.
Proof. solve_decision. Defined.
#[export] Instance TopologyFile_eq_dec : EqDecision TopologyFile.
Proof. solve_decision. Defined.

#[export] Program Instance RelayEntry_countable : Countable RelayEntry :=
  inj_countable' (fun e => (entry_id e, entry_address e, entry_public_key e))
    (fun t => mkEntry t.1.1 t.1.2 t.2) _.
Next Obligation. by intros []. Qed.

#[export] Program Instance TopologyFile_countable : Countable TopologyFile :=
  inj_countable' (fun f => (version f, file_relays f)) (fun t => mkTopologyFile t.1 t.2) _.
Next Obligation. by intros []. Qed.

Section topology_file.
Context {W E : Type} `{Hex} `{HashOrder} `{Fs W} `{Json E TopologyFile}.

(** The body of the loop of [from_json]: one entry's relay. *)
Definition entry_relay (entry : RelayEntry) : result (TopologyFileError E) RelayInfo :=
  let? bs := ok_or (hex_decode (entry_public_key entry))
               (InvalidPublicKey (entry_id entry) "not valid hex") in
  let? array :=
    if decide (length bs = 32%nat) then Ok bs
    else Err (InvalidPublicKey (entry_id entry) "must decode to exactly 32 bytes") in
  Ok {| info_id := entry_id entry; info_address := entry_address entry;
        info_public_key := public_key_from_bytes array |}.

Fixpoint add_entries (topology : Topology) (entries : list RelayEntry) :
    result (TopologyFileError E) Topology :=
  match entries with
  | [] => Ok topology
  | entry :: entries' =>
      let? relay := entry_relay entry in
      add_entries (add_relay topology relay) entries'
  end.

Definition from_json (raw : bytes) : result (TopologyFileError E) Topology :=
  let? file := map_err Parse (from_str raw) in
  if decide (version file <> CURRENT_VERSION)
  then Err (UnsupportedVersion (version file) CURRENT_VERSION)
  else add_entries topology_new (file_relays file).

Definition relay_entry (r : RelayInfo) : RelayEntry :=
  {| entry_id := info_id r; entry_address := info_address r;
     entry_public_key := public_key_to_hex (info_public_key r) |}.

Definition to_json (self : Topology) : outcome bytes :=
  let file := {| version := CURRENT_VERSION; file_relays := map relay_entry (all self) |} in
  match to_string_pretty file with
  | Ok s => Done s
  | Err _ => Panic
  end.

Definition load_from_file (path : bytes) (w : W) : result (TopologyFileError E) Topology * W :=
  match read_to_string path w with
  | (Err source, w) => (Err (Read path source), w)
  | (Ok raw, w) => (from_json raw, w)
  end.

Definition save_to_file (self : Topology) (path : bytes) (w : W) :
    outcome (result (TopologyFileError E) unit * W) :=
  let! json := to_json self in
  match fs_write path json w with
  | (Err source, w) => Done (Err (Write path source), w)
  | (Ok tt, w) => Done (Ok tt, w)
  end.
End topology_file.

(** The invariants of the field types: a [u32] and [String]s. *)
Definition valid_entry (e : RelayEntry) : Prop :=
  utf8_valid (entry_id e) = true /\ utf8_valid (entry_address e) = true /\
  utf8_valid (entry_public_key e) = true.

Definition valid_file (f : TopologyFile) : Prop :=
  0 <= version f < 2 ^ 32 /\ Forall valid_entry (file_relays f).

(** The invariants of a relay's field types. *)
Definition valid_relay (r : RelayInfo) : Prop :=
  utf8_valid (info_id r) = true /\ utf8_valid (info_address r) = true /\
  length (info_public_key r) = 32%nat.

Definition valid_topology (t : Topology) : Prop :=
  wf_topology t /\ map_Forall (fun _ => valid_relay) (relays t).

(** ** Lemmas *)

Section lemmas.
Context {W E : Type} `{HexLaws} `{HashOrderLaws} `{FsLaws W} `{JsonLaws E TopologyFile valid_file}.

(** Why an entry is refused. *)
Lemma entry_relay_spec (e : RelayEntry) :
  entry_relay (E:=E) e =
    match hex_decode (entry_public_key e) with
    | None => Err (InvalidPublicKey (entry_id e) "not valid hex")
    | Some k => if decide (length k = 32%nat)
                then Ok (mkRelayInfo (entry_id e) (entry_address e) k)
                else Err (InvalidPublicKey (entry_id e) "must decode to exactly 32 bytes")
    end.
Proof. unfold entry_relay. destruct (hex_decode _); cbn; [|done]. by case_decide. Qed.

(** The loop stops at the first refused entry, or adds them all. *)
Lemma add_entries_spec t es :
  match add_entries (E:=E) t es with
  | Ok t' => exists rs, Forall2 (fun e r => entry_relay (E:=E) e = Ok r) es rs /\ t' = add_relays t rs
  | Err x => exists es1 e es2 rs, es = es1 ++ e :: es2 /\
      Forall2 (fun e r => entry_relay (E:=E) e = Ok r) es1 rs /\ entry_relay e = Err x
  end.
Proof.
  revert t. induction es as [|e es IH]; intros t; cbn.
  - by exists [].
  - destruct (entry_relay e) as [r|x] eqn:Er.
    + specialize (IH (add_relay t r)). destruct (add_entries _ es) as [t'|x].
      * destruct IH as (rs & Hrs & ->). exists (r :: rs). split; [by constructor|done].
      * destruct IH as (es1 & e' & es2 & rs & -> & Hrs & Hx).
        exists (e :: es1), e', es2, (r :: rs). split_and!; [done|by constructor|done].
    + by exists [], e, es, [].
Qed.

Lemma add_entries_ok t es rs :
  Forall2 (fun e r => entry_relay (E:=E) e = Ok r) es rs ->
  add_entries (E:=E) t es = Ok (add_relays t rs).
Proof.
  intros Hf. revert t. induction Hf as [|e r es rs He _ IH]; intros t; cbn; [done|].
  by rewrite He.
Qed.

Lemma hex_utf8 b : utf8_valid (hex_encode b) = true.
Proof.
  apply utf8_valid_ascii. eapply Forall_impl; [apply hex_encode_digits|].
  unfold is_hex_digit. intros x Hx. cbn in Hx. lia.
Qed.

Lemma entry_relay_entry r : valid_relay r -> entry_relay (E:=E) (relay_entry r) = Ok r.
Proof.
  intros (_ & _ & Hk). rewrite entry_relay_spec. unfold relay_entry, public_key_to_hex. cbn.
  rewrite hex_decode_encode, decide_True by done. by destruct r.
Qed.

Lemma valid_all t : valid_topology t -> Forall valid_relay (all t).
Proof.
  intros [_ Hv]. apply Forall_forall. intros r Hr%elem_of_all. destruct Hr as [id Hid].
  by apply (Hv id).
Qed.

Lemma from_to_json t :
  valid_topology t -> exists s, to_json (E:=E) t = Done s /\ from_json (E:=E) s = Ok t.
Proof.
  intros Ht. pose proof (valid_all t Ht) as Hall. unfold to_json.
  set (f := {| version := CURRENT_VERSION; file_relays := map relay_entry (all t) |}).
  destruct (to_string_pretty_ok f) as [s Hs]. rewrite Hs. exists s. split; [done|].
  unfold from_json. rewrite (from_str_to_string f s); [|split|done].
  - cbn. rewrite decide_False by (unfold CURRENT_VERSION; lia).
    rewrite (add_entries_ok _ _ (all t)); [f_equal; by apply add_relays_all; [apply Ht|]|].
    clear -Hall H0. induction Hall; constructor; [|done]. by apply entry_relay_entry.
  - cbn. unfold CURRENT_VERSION. lia.
  - cbn. clear -Hall H0. induction Hall as [|r rs (Hi & Ha & _)]; constructor; [|done].
    split_and!; [done..|]. apply hex_utf8.
Qed.
End lemmas.

(** ** Properties *)

Section properties.
Context {W E : Type} `{HexLaws} `{HashOrderLaws} `{FsLaws W} `{JsonLaws E TopologyFile valid_file}.

(** C31: a saved topology is restored. For a topology whose relays satisfy
    their types' invariants, saving never panics, and once the write has
    succeeded, loading the same path returns exactly that topology, in
    whatever order the hash map listed its relays; and so does parsing the
    printed JSON. *)
Theorem topology_file_roundtrip t path w res w' :
  valid_topology t -> save_to_file (E:=E) t path w = Done (res, w') ->
  (exists s, to_json (E:=E) t = Done s /\ from_json (E:=E) s = Ok t) /\
  (res = Ok tt -> (load_from_file (E:=E) path w').1 = Ok t).
Proof.
  intros Ht. destruct (from_to_json t Ht) as (s & Hs & Hj). unfold save_to_file.
  rewrite Hs. intros Hw. split; [by exists s|]. intros ->.
  destruct (fs_write path s w) as [[[]|e] w1] eqn:Ew; [|done].
  injection Hw as <-. destruct (read_after_write path s w w1 Ew) as [w2 E2].
  unfold load_from_file. by rewrite E2.
Qed.

(** C32: which topology files are accepted. [from_json] returns a topology
    exactly when the text parses, states version 1, and every entry's key is
    hexadecimal for 32 bytes; the topology then holds the entries in order, a
    later entry replacing an earlier one with its id. Otherwise the error says
    why: the parser's error, the unsupported version (checked before any
    key), or the first entry with an invalid key and what is wrong with it. *)
Theorem from_json_spec raw :
  match from_json (E:=E) raw with
  | Ok t => exists es rs, from_str raw = Ok (mkTopologyFile 1 es) /\
      Forall2 (fun e r => info_id r = entry_id e /\ info_address r = entry_address e /\
                 hex_decode (entry_public_key e) = Some (info_public_key r) /\
                 length (info_public_key r) = 32%nat) es rs /\
      t = add_relays topology_new rs
  | Err (Parse x) => from_str raw = Err x
  | Err (UnsupportedVersion found expected) =>
      expected = 1 /\ found <> 1 /\ exists es, from_str raw = Ok (mkTopologyFile found es)
  | Err (InvalidPublicKey id reason) => exists es1 e es2,
      from_str raw = Ok (mkTopologyFile 1 (es1 ++ e :: es2)) /\ entry_id e = id /\
      Forall (fun e => exists k, hex_decode (entry_public_key e) = Some k /\ length k = 32%nat) es1 /\
      ((reason = "not valid hex"%string /\ hex_decode (entry_public_key e) = None) \/
       (reason = "must decode to exactly 32 bytes"%string /\
        exists k, hex_decode (entry_public_key e) = Some k /\ length k <> 32%nat))
  | Err _ => False
  end.
Proof.
  unfold from_json, CURRENT_VERSION. destruct (from_str raw) as [[v es]|x]; cbn; [|done].
  case_decide as Hv; [by split_and!; eauto|]. subst v.
  pose proof (add_entries_spec (E:=E) topology_new es) as Hs.
  destruct (add_entries _ es) as [t|x].
  - destruct Hs as (rs & Hrs & ->). exists es, rs. split_and!; [done| |done].
    eapply Forall2_impl; [done|]. intros e r. cbv beta. rewrite entry_relay_spec. cbn.
    destruct (hex_decode _) as [k|]; [|done]. case_decide; [|done]. by intros [= <-].
  - destruct Hs as (es1 & e & es2 & rs & -> & Hrs & Hx). rewrite entry_relay_spec in Hx.
    assert (Forall (fun e => exists k, hex_decode (entry_public_key e) = Some k /\
              length k = 32%nat) es1) as Hes1.
    { clear -Hrs. induction Hrs as [|e' r es1 rs He _ IH]; constructor; [|done].
      rewrite entry_relay_spec in He. destruct (hex_decode _) as [k|]; [|done].
      case_decide; [by exists k|done]. }
    destruct (hex_decode _) as [k|] eqn:Ek; [case_decide; [done|]|];
      injection Hx as <-; exists es1, e, es2; split_and!; eauto 6.
Qed.
End properties.
