(* ===== verification/PathSelection.v ===== *)
(** * Path selection: [veil-routing/src/path_selection.rs]

    Uniform and subnet-diverse selection of a circuit's relays. The theorems
    hold for every iteration order of the hash map and every shuffle: a path
    has the requested number of distinct known relays, and the diverse
    selection repeats a subnet only when it has used up all diversity. *)
From S2P Require Import Prelude.
From S2P Require Import RustStd.
From S2P Require Import Interfaces.
From S2P Require Import Topology.

Open Scope Z_scope.

Inductive PathSelectionError : Type :=
  | InsufficientRelays (needed available : nat).

#[export] Instance PathSelectionError_eq_dec : EqDecision PathSelectionError.
Proof. solve_decision. Defined.

Definition subnet_key (address : bytes) : option (Z * Z * Z) :=
  '(host, _) ← rsplit_once x3a address;
  '(a, b, c, _) ← parse_ipv4 host;
  Some (a, b, c).

(** The accumulators of the diversity-constrained pass: [path],
    [used_subnets] and [leftover]. *)
Record pass_state : Type := mkPass {
  pass_path : list RelayInfo;
  used_subnets : list (Z * Z * Z);
  pass_leftover : list RelayInfo
}.

Definition diverse_step (st : pass_state) (relay : RelayInfo) : pass_state :=
  match subnet_key (info_address relay) with
  | Some key =>
      if decide (key ∈ used_subnets st)
      then mkPass (pass_path st) (used_subnets st) (pass_leftover st ++ [relay])
      else mkPass (pass_path st ++ [relay]) (used_subnets st ++ [key]) (pass_leftover st)
  | None => mkPass (pass_path st ++ [relay]) (used_subnets st) (pass_leftover st)
  end.

(** The loop over the leftover relays. *)
Fixpoint fill_path (hop_count : nat) (leftover path : list RelayInfo) : list RelayInfo :=
  match leftover with
  | [] => path
  | relay :: leftover' =>
      if decide (length path = hop_count) then path
      else fill_path hop_count leftover' (path ++ [relay])
  end.

Section selection.
Context {R : Type} `{Rng R} `{HashOrder}.

Definition select_path (topology : Topology) (hop_count : nat) (rng : R) :
    result PathSelectionError (list RelayInfo) * R :=
  let candidates := all topology in
  if decide (length candidates < hop_count)%nat
  then (Err (InsufficientRelays hop_count (length candidates)), rng)
  else
    let '(candidates, rng) := shuffle candidates rng in
    (Ok (take hop_count candidates), rng).

Definition select_diverse_path (topology : Topology) (hop_count : nat) (rng : R) :
    result PathSelectionError (list RelayInfo) * R :=
  let candidates := all topology in
  if decide (length candidates < hop_count)%nat
  then (Err (InsufficientRelays hop_count (length candidates)), rng)
  else
    let '(candidates, rng) := shuffle candidates rng in
    let st := fold_left diverse_step candidates (mkPass [] [] []) in
    let path := fill_path hop_count (pass_leftover st) (pass_path st) in
    (Ok (take hop_count path), rng).
End selection.

#[global] Arguments select_path : simpl never.
#[global] Arguments select_diverse_path : simpl never.

Example subnet_ex :
  subnet_key (String.list_byte_of_string "10.0.1.7:9001") = Some (10, 0, 1).
Proof. reflexivity. Qed.
Example subnet_ex2 : subnet_key (String.list_byte_of_string "relay2:9001") = None.
Proof. reflexivity. Qed.

(** ** Lemmas *)

Definition relay_subnet (r : RelayInfo) : option (Z * Z * Z) := subnet_key (info_address r).

(** What the first pass has established after the relays [seen]. *)
Record pass_inv (seen : list RelayInfo) (st : pass_state) : Prop := {
  pi_perm : pass_path st ++ pass_leftover st ≡ₚ seen;
  pi_used : omap relay_subnet (pass_path st) = used_subnets st;
  pi_distinct : NoDup (used_subnets st);
  pi_leftover : Forall (fun r => exists k, relay_subnet r = Some k /\ k ∈ used_subnets st)
                  (pass_leftover st)
}.

Lemma pass_inv_step seen st r : pass_inv seen st -> pass_inv (seen ++ [r]) (diverse_step st r).
Proof.
  intros [Hp Hu Hd Hl]. unfold diverse_step. fold (relay_subnet r).
  destruct (relay_subnet r) as [k|] eqn:Hk; [case_decide as Hin|]; constructor; cbn.
  - by rewrite app_assoc, Hp.
  - done.
  - done.
  - apply Forall_app_2; [done|]. constructor; [by exists k|done].
  - rewrite <- Hp, <- !app_assoc. by rewrite (Permutation_app_comm [r]).
  - rewrite omap_app, Hu. cbn. by rewrite Hk.
  - apply NoDup_app. split_and!; [done| |apply NoDup_singleton].
    intros x Hx Hx'. apply list_elem_of_singleton in Hx'. congruence.
  - eapply Forall_impl; [done|]. intros x (k' & ? & ?). exists k'. split; [done|].
    apply elem_of_app. by left.
  - rewrite <- Hp, <- !app_assoc. by rewrite (Permutation_app_comm [r]).
  - rewrite omap_app, Hu. cbn. rewrite Hk. by rewrite app_nil_r.
  - done.
  - done.
Qed.

Lemma pass_inv_fold seen st rs :
  pass_inv seen st -> pass_inv (seen ++ rs) (fold_left diverse_step rs st).
Proof.
  revert seen st. induction rs as [|r rs IH]; intros seen st Hi; cbn.
  - by rewrite app_nil_r.
  - rewrite (cons_middle r), app_assoc. apply IH. by apply pass_inv_step.
Qed.

Lemma pass_inv_all rs : pass_inv rs (fold_left diverse_step rs (mkPass [] [] [])).
Proof. apply (pass_inv_fold []). constructor; cbn; [done|done|constructor|constructor]. Qed.

(** Filling up and truncating keeps the first relays of both lists. *)
Lemma take_fill_path n l p : take n (fill_path n l p) = take n (p ++ l).
Proof.
  revert p. induction l as [|r l IH]; intros p; cbn; [by rewrite app_nil_r|].
  case_decide as Hn.
  - by rewrite take_ge, take_app_length' by lia.
  - rewrite IH. by rewrite <- app_assoc.
Qed.

Section paths.
Context {R : Type} `{RngLaws R} `{HashOrderLaws}.

(** The first [n] relays of an arrangement of the topology are a path. *)
Lemma path_of_arrangement t n rs :
  wf_topology t -> rs ≡ₚ all t -> (n <= length (all t))%nat ->
  length (take n rs) = n /\ NoDup (info_id <$> take n rs) /\
  forall r, r ∈ take n rs -> get t (info_id r) = Some r.
Proof.
  intros Ht Hp Hn. split_and!.
  - rewrite length_take, Hp. lia.
  - rewrite fmap_take. eapply sublist_NoDup; [|apply sublist_take].
    rewrite Hp. by apply all_NoDup.
  - intros r Hr%elem_of_take. destruct Hr as (i & Hr & _). apply list_elem_of_lookup_2 in Hr.
    rewrite Hp in Hr. apply elem_of_all in Hr as [id Hid]. unfold get. by rewrite (Ht id r Hid).
Qed.

Lemma select_diverse_eq t n (rng : R) :
  (n <= length (all t))%nat ->
  exists st, pass_inv (shuffle (all t) rng).1 st /\
    (select_diverse_path t n rng).1 = Ok (take n (pass_path st ++ pass_leftover st)).
Proof.
  intros Hn. unfold select_diverse_path. rewrite decide_False by lia.
  destruct (shuffle (all t) rng) as [c rng'] eqn:E. cbn.
  eexists. split; [apply pass_inv_all|]. by rewrite take_fill_path.
Qed.

(** A diverse path is an arrangement of relays of the topology cut to
    length. *)
Lemma select_diverse_path_ok t n (rng : R) :
  wf_topology t -> (n <= length (all t))%nat ->
  exists path, (select_diverse_path t n rng).1 = Ok path /\ length path = n /\
    NoDup (info_id <$> path) /\ forall r, r ∈ path -> get t (info_id r) = Some r.
Proof.
  intros Ht Hn. destruct (select_diverse_eq t n rng Hn) as (st & Hst & ->).
  eexists. split; [done|]. apply path_of_arrangement; [done| |done].
  rewrite (pi_perm _ _ Hst). apply shuffle_perm.
Qed.

(** No subnet twice, or no further diversity. *)
Lemma diverse_or_exhausted t n (rng : R) path :
  (n <= length (all t))%nat -> (select_diverse_path t n rng).1 = Ok path ->
  NoDup (omap relay_subnet path) \/
  forall r, r ∈ all t ->
    match relay_subnet r with
    | None => r ∈ path
    | Some k => exists r', r' ∈ path /\ relay_subnet r' = Some k
    end.
Proof.
  intros Hlen E.
  destruct (select_diverse_eq t n rng Hlen) as (st & Hst & E').
  rewrite E in E'. injection E' as ->. destruct Hst as [Hp Hu Hd' Hlo].
  destruct (decide (n <= length (pass_path st))%nat) as [Hn|Hn]; [left|right].
  - rewrite take_app_le by done. rewrite <- Hu, <- (take_drop n (pass_path st)), omap_app in Hd'.
    by apply NoDup_app in Hd' as [? _].
  - rewrite (shuffle_perm (all t) rng) in Hp.
    rewrite take_app_ge by lia. intros r Hr. rewrite <- Hp, elem_of_app in Hr.
    destruct (relay_subnet r) as [k|] eqn:Hk.
    + assert (k ∈ used_subnets st) as Hks.
      { destruct Hr as [Hr|Hr].
        - rewrite <- Hu. apply list_elem_of_omap. by exists r.
        - destruct (proj1 (Forall_forall _ _) Hlo r Hr) as (k' & ? & ?). congruence. }
      rewrite <- Hu in Hks. apply list_elem_of_omap in Hks as (r' & Hr' & Hk').
      exists r'. split; [apply elem_of_app; by left|done].
    + apply elem_of_app. left. destruct Hr as [Hr|Hr]; [done|].
      destruct (proj1 (Forall_forall _ _) Hlo r Hr) as (k' & ? & ?). congruence.
Qed.
End paths.

(** ** Properties *)

Section properties.
Context {R : Type} `{RngLaws R} `{HashOrderLaws}.

(** Uniform selection. A topology with enough relays yields a path of
    exactly the requested length whose relays are known and pairwise
    distinct; otherwise the error reports what was needed and what there is,
    and no randomness is consumed. *)
Theorem select_path_spec t n (rng : R) :
  wf_topology t ->
  match (select_path t n rng).1 with
  | Ok path => Z.of_nat n <= topology_len t /\ length path = n /\ NoDup (info_id <$> path) /\
               forall r, r ∈ path -> get t (info_id r) = Some r
  | Err (InsufficientRelays needed available) =>
      needed = n /\ Z.of_nat available = topology_len t /\ (available < n)%nat /\
      (select_path t n rng).2 = rng
  end.
Proof.
  intros Ht. pose proof (length_all t) as Hl. unfold len in Hl. unfold select_path.
  case_decide as Hd; [done|]. pose proof (shuffle_perm (all t) rng) as Hp.
  destruct (shuffle (all t) rng) as [c rng']. cbn in *. split; [lia|].
  apply path_of_arrangement; [done|done|lia].
Qed.

(** C24: diverse selection. The path has the requested length and distinct
    known relays, or the same error as uniform selection. Either no two of
    its relays share a known /24 subnet, or diversity is exhausted: every
    relay of unknown subnet is in the path, and so is a relay of every
    subnet of the topology. *)
Theorem select_diverse_path_spec t n (rng : R) :
  wf_topology t ->
  match (select_diverse_path t n rng).1 with
  | Ok path => length path = n /\ NoDup (info_id <$> path) /\
      (forall r, r ∈ path -> get t (info_id r) = Some r) /\
      (NoDup (omap relay_subnet path) \/
       forall r, r ∈ all t ->
         match relay_subnet r with
         | None => r ∈ path
         | Some k => exists r', r' ∈ path /\ relay_subnet r' = Some k
         end)
  | Err e => (Z.of_nat n > topology_len t) /\ (select_path t n rng).1 = Err e
  end.
Proof.
  intros Ht. pose proof (length_all t) as Hl. unfold len in Hl.
  destruct (decide (length (all t) < n)%nat) as [Hd|Hd].
  { unfold select_diverse_path, select_path. rewrite !decide_True by done. cbn. split; [lia|done]. }
  destruct (select_diverse_path_ok t n rng Ht ltac:(lia)) as (path & E & Hlen & Hnd & Hget).
  rewrite E. split_and!; [done..|].
  by apply (diverse_or_exhausted t n rng); [lia|].
Qed.
End properties.
