(* ===== verification/Circuit.v ===== *)
(** * Circuit construction: [veil-routing/src/lib.rs]

    Nesting one onion layer per relay of a path. The theorem follows the
    packet hop by hop: every relay of the path peels exactly its own layer,
    learns only the next address, and the last one recovers the body; the
    size of the packet is exact. *)
From S2P Require Import Prelude.
From S2P Require Import RustStd.
From S2P Require Import Interfaces.
From S2P Require Import Cell.
From S2P Require Import Keys.
From S2P Require Import Forwarding.
From S2P Require Import Topology.
From S2P Require Import PathSelection.

Open Scope Z_scope.

(** [CircuitError::{PathSelection, Onion, EmptyPath}] *)
Inductive CircuitError : Type :=
  | CircuitPathSelection (e : PathSelectionError)
  | CircuitOnion (e : OnionError)
  | EmptyPath.

#[export] Instance RelayInfo_inhabited : Inhabited RelayInfo := populate (mkRelayInfo [] [] []).

Section circuit.
Context {R : Type} `{Rng R} `{Crypto}.

(** The loop of [build_circuit] over the given indices; every index is below
    the length of [inner_hops], so no indexing panics. *)
Fixpoint wrap_hops (indices : list nat) (inner_hops : list RelayInfo) (exit : RelayInfo)
    (layer : bytes) (rng : R) : result OnionError bytes * R :=
  match indices with
  | [] => (Ok layer, rng)
  | i :: indices' =>
      let hop := inner_hops !!! i in
      let next_hop_addr :=
        if decide (i + 1 < length inner_hops)%nat
        then info_address (inner_hops !!! (i + 1)%nat)
        else info_address exit in
      match build_onion_layer (info_public_key hop) (Forward next_hop_addr layer) rng with
      | (Err e, rng) => (Err e, rng)
      | (Ok layer, rng) => wrap_hops indices' inner_hops exit layer rng
      end
  end.

Definition build_circuit (path : list RelayInfo) (final_body : bytes) (rng : R) :
    result CircuitError bytes * R :=
  match split_last path with
  | None => (Err EmptyPath, rng)
  | Some (exit, inner_hops) =>
      match build_onion_layer (info_public_key exit) (Deliver final_body) rng with
      | (Err e, rng) => (Err (CircuitOnion e), rng)
      | (Ok layer, rng) =>
          let '(res, rng) := wrap_hops (rev (seq 0 (length inner_hops))) inner_hops exit layer rng in
          (map_err CircuitOnion res, rng)
      end
  end.
End circuit.

#[global] Arguments build_circuit : simpl never.

(** ** The journey of a packet

    Each relay peels with its own key and passes the inner packet on: the
    next addresses seen on the way, and the body the last relay delivers.
    [None] when a relay cannot peel, or the exit comes early or late. *)
Fixpoint follow `{Crypto} (kps : list KeyPair) (frame : bytes) : option (list bytes * bytes) :=
  match kps with
  | [] => None
  | kp :: kps' =>
      match peel_onion_layer kp frame with
      | Ok (Deliver body) => match kps' with [] => Some ([], body) | _ => None end
      | Ok (Forward hop inner) =>
          '(hops, body) ← follow kps' inner;
          Some (hop :: hops, body)
      | Err _ => None
      end
  end.

(** The size of a packet: 61 bytes around the body for the exit layer, and
    63 bytes and the next address for every other layer. *)
Fixpoint hops_size (hops : list RelayInfo) : Z :=
  match hops with
  | [] => 0
  | r :: hops' => 63 + len (info_address r) + hops_size hops'
  end.

Definition circuit_size (path : list RelayInfo) (body : bytes) : Z :=
  61 + len body + hops_size (tail path).

(** An address that an onion layer can carry. *)
Definition routable (r : RelayInfo) : Prop :=
  utf8_valid (info_address r) = true /\ len (info_address r) <= u16_MAX.

(** The relay's key pair is the one its topology entry announces. *)
Definition owns `{Crypto} (kp : KeyPair) (r : RelayInfo) : Prop :=
  wf_keypair kp /\ public_key kp = info_public_key r.

(** ** Lemmas *)

Lemma hops_size_nonneg hops : 0 <= hops_size hops.
Proof. induction hops as [|r hops IH]; cbn; [lia|]. pose proof (len_nonneg (info_address r)). lia. Qed.

Lemma circuit_size_drop path body k :
  circuit_size (drop k path) body <= circuit_size path body.
Proof.
  unfold circuit_size. enough (forall p, hops_size (tail (drop k p)) <= hops_size (tail p)) as He
    by (pose proof (He path); lia).
  induction k as [|k IH]; intros [|r p]; cbn; try lia.
  etransitivity; [apply IH|]. destruct p as [|r' p]; cbn; [lia|].
  pose proof (len_nonneg (info_address r')). lia.
Qed.

Lemma circuit_size_cons r r' path body :
  circuit_size (r :: r' :: path) body = 63 + len (info_address r') + circuit_size (r' :: path) body.
Proof. unfold circuit_size. cbn. lia. Qed.

Lemma len_encode_forward hop body : len (encode_payload (Forward hop body)) = 3 + len hop + len body.
Proof. unfold encode_payload. rewrite !len_app. unfold len. rewrite length_to_be_bytes. cbn. lia. Qed.

Lemma len_encode_deliver body : len (encode_payload (Deliver body)) = 1 + len body.
Proof. unfold encode_payload. rewrite len_app. unfold len. cbn. lia. Qed.

Section lemmas.
Context {R : Type} `{RngLaws R} `{CryptoLaws}.

(** One layer for a relay of the path, with its size. *)
Lemma wrap_one kp r p rng :
  owns kp r -> wf_payload p -> len (encode_payload p) < 2 ^ 32 ->
  exists frame, build_onion_layer (info_public_key r) p rng = (Ok frame, layer_rng rng) /\
    peel_onion_layer kp frame = Ok p /\ len frame = 60 + len (encode_payload p).
Proof.
  intros [Hk <-] Hp Hl. destruct (peel_build kp p rng Hk Hp Hl) as (f & E & Hf & Hs).
  exists f. split_and!; [done|done|]. unfold len. lia.
Qed.

(** The packet [layer] is on its way at hop [k] of the path. *)
Definition under_way (kps : list KeyPair) (path : list RelayInfo) (body : bytes) (k : nat)
    (layer : bytes) : Prop :=
  follow (drop k kps) layer = Some (info_address <$> tail (drop k path), body) /\
  len layer = circuit_size (drop k path) body.

Lemma drop_two (path : list RelayInfo) k :
  (S k < length path)%nat ->
  exists r r' rest, drop k path = r :: r' :: rest /\ drop (S k) path = r' :: rest /\
    path !! k = Some r /\ path !! S k = Some r'.
Proof.
  intros Hk. destruct (lookup_lt_is_Some_2 path k ltac:(lia)) as [r Hr].
  destruct (lookup_lt_is_Some_2 path (S k) Hk) as [r' Hr'].
  exists r, r', (drop (S (S k)) path). by rewrite !(drop_S _ _ _ Hr), (drop_S _ _ _ Hr').
Qed.

(** Wrapping for hop [k] a packet under way at the next hop. *)
Lemma under_way_step kps path body k layer rng :
  Forall2 owns kps path -> Forall routable path -> circuit_size path body < 2 ^ 32 ->
  (S k < length path)%nat -> under_way kps path body (S k) layer ->
  exists frame,
    build_onion_layer (info_public_key (path !!! k)) (Forward (info_address (path !!! S k)) layer) rng
      = (Ok frame, layer_rng rng) /\ under_way kps path body k frame.
Proof.
  intros Hk2 Hr Hsz Hk [Hf Hl]. destruct (drop_two path k Hk) as (r & r' & rest & Ed & Ed' & E & E').
  rewrite (list_lookup_total_correct _ _ _ E), (list_lookup_total_correct _ _ _ E').
  destruct (Forall2_lookup_r _ _ _ _ _ Hk2 E) as (kp & Ekp & Hown).
  pose proof (Forall_lookup_1 _ _ _ _ Hr E') as [Hu Ha].
  pose proof (circuit_size_drop path body k) as Hd. rewrite Ed, circuit_size_cons in Hd.
  rewrite Ed' in *.
  assert (len (encode_payload (Forward (info_address r') layer)) < 2 ^ 32) as Hlen
    by (rewrite len_encode_forward; lia).
  destruct (wrap_one kp r (Forward (info_address r') layer) rng Hown (conj Hu Ha) Hlen)
    as (frame & Eb & Ep & Hs).
  exists frame. split; [done|]. split.
  - rewrite (drop_S _ _ _ Ekp). cbn [follow]. rewrite Ep, Hf, Ed. done.
  - rewrite Ed, circuit_size_cons, Hs, len_encode_forward, Hl. lia.
Qed.

Lemma wrap_hops_ok kps inner exit body k layer rng :
  Forall2 owns kps (inner ++ [exit]) -> Forall routable (inner ++ [exit]) ->
  circuit_size (inner ++ [exit]) body < 2 ^ 32 -> (k <= length inner)%nat ->
  under_way kps (inner ++ [exit]) body k layer ->
  exists frame rng', wrap_hops (rev (seq 0 k)) inner exit layer rng = (Ok frame, rng') /\
    under_way kps (inner ++ [exit]) body 0 frame.
Proof.
  intros Hk2 Hr Hsz. revert layer rng. induction k as [|k IH]; intros layer rng Hk Hu.
  - by exists layer, rng.
  - rewrite seq_S, rev_app_distr. cbn [rev app wrap_hops].
    destruct (under_way_step kps _ body k layer rng Hk2 Hr Hsz) as (frame & Eb & Hf);
      [rewrite length_app; cbn; lia|done|].
    rewrite lookup_total_app_l in Eb by lia.
    assert ((inner ++ [exit]) !!! S k =
              if decide (k + 1 < length inner)%nat then inner !!! (k + 1)%nat else exit) as Hn.
    { rewrite Nat.add_1_r. case_decide; [by rewrite lookup_total_app_l|].
      rewrite lookup_total_app_r by lia. by replace (S k - length inner)%nat with 0%nat by lia. }
    rewrite Hn in Eb. cbn [Nat.add].
    assert (forall (P : Prop) (d : Decision P) (a b : RelayInfo),
              info_address (if d then a else b) = if d then info_address a else info_address b) as Hif
      by (by intros P [] a b).
    unfold decide in *. rewrite Hif in Eb. rewrite Eb. apply IH; [lia|done].
Qed.

Lemma build_circuit_ok kps path body rng :
  path <> [] -> Forall2 owns kps path -> Forall routable path ->
  circuit_size path body < 2 ^ 32 ->
  exists frame rng', build_circuit path body rng = (Ok frame, rng') /\
    follow kps frame = Some (info_address <$> tail path, body) /\
    len frame = circuit_size path body.
Proof.
  intros Hne Hk2 Hr Hsz. destruct (exists_last Hne) as (inner & exit & ->).
  unfold build_circuit. rewrite split_last_snoc.
  apply Forall2_app_inv_r in Hk2 as Hsplit.
  destruct Hsplit as (kps1 & kps2 & Hk1 & Hke & ->).
  apply Forall2_cons_inv_r in Hke as (kp & kps3 & Hown & Hnil & ->).
  apply Forall2_nil_inv_r in Hnil as ->.
  assert (len (encode_payload (Deliver body)) < 2 ^ 32) as Hl.
  { rewrite len_encode_deliver. unfold circuit_size in Hsz.
    pose proof (hops_size_nonneg (tail (inner ++ [exit]))). lia. }
  destruct (wrap_one kp exit (Deliver body) rng Hown I Hl) as (layer & -> & Hp & Hs).
  destruct (wrap_hops_ok (kps1 ++ [kp]) inner exit body (length inner) layer (layer_rng rng))
    as (frame & rng' & -> & Hf & Hlen); try done.
  - split.
    + rewrite <- (Forall2_length _ _ _ Hk1) at 1. rewrite !drop_app_length. cbn. by rewrite Hp.
    + rewrite drop_app_length, Hs, len_encode_deliver. unfold circuit_size. cbn. lia.
  - exists frame, rng'. by rewrite !drop_0 in *.
Qed.
End lemmas.

(** ** Properties *)

Section properties.
Context {R : Type} `{RngLaws R} `{CryptoLaws}.

(** C16: a circuit delivers its body at the exit and nowhere else. For a
    non-empty path of relays that hold the announced keys, with addresses of
    at most 65,535 bytes and a packet within 4 GiB, construction succeeds;
    each relay of the path in turn peels its layer and finds exactly the
    address of the next relay, and the last one finds exactly the body. The
    packet has 61 bytes more than the body, and 63 more and the next address
    for every further hop. An empty path is refused, drawing no
    randomness. *)
Theorem circuit_routes_to_exit kps path body (rng : R) :
  Forall2 owns kps path -> Forall routable path -> circuit_size path body < 2 ^ 32 ->
  match (build_circuit path body rng).1 with
  | Ok frame => path <> [] /\ follow kps frame = Some (info_address <$> tail path, body) /\
      len frame = 61 + len body + hops_size (tail path)
  | Err e => path = [] /\ e = EmptyPath /\ (build_circuit path body rng).2 = rng
  end.
Proof.
  intros Hk Hr Hs. destruct (decide (path = [])) as [->|Hne]; [done|].
  destruct (build_circuit_ok kps path body rng Hne Hk Hr Hs) as (f & rng' & -> & Hf & Hl).
  split_and!; done.
Qed.
End properties.
