(* ===== verification/RoutingTests.v ===== *)
(** * The unit tests of [veil-routing]

    The [#[cfg(test)]] modules of topology.rs, topology_file.rs,
    path_selection.rs and lib.rs, as in [CoreTests]. The tests that need a
    particular JSON text to be parsed or a write to a real file to succeed are in
    [TopologyFileTests]. *)
From S2P Require Import Prelude.
From S2P Require Import RustStd.
From S2P Require Import Interfaces.
From S2P Require Import Cell.
From S2P Require Import Keys.
From S2P Require Import CoreTests.
From S2P Require Import Forwarding.
From S2P Require Import Topology.
From S2P Require Import TopologyFile.
From S2P Require Import PathSelection.
From S2P Require Import Circuit.

Open Scope Z_scope.

(** The number of values that [sort_unstable] and [dedup] leave. *)
Definition count_distinct {A : Type} `{EqDecision A} (l : list A) : nat := length (remove_dups l).

Lemma count_distinct_NoDup {A : Type} `{EqDecision A} (l : list A) : NoDup l -> count_distinct l = length l.
Proof.
  unfold count_distinct. induction 1 as [|x l Hx _ IH]; [done|]. cbn.
  destruct (decide_rel (∈) x l); [done|]. cbn. by rewrite IH.
Qed.

Section tests.
Context {R : Type} `{Rng R} `{Crypto} `{HashOrder}.

(** ** [topology.rs] *)

Definition dummy_relay (id : bytes) (rng : R) : RelayInfo * R :=
  let '(keypair, rng) := generate rng in
  ({| info_id := id; info_address := b_ "127.0.0.1:" ++ show_uint 9000; info_public_key := public_key keypair |}, rng).

Definition add_and_get_relay (rng : R) : outcome unit :=
  let topo := topology_new in
  let '(relay, rng) := dummy_relay (b_ "r1") rng in
  let topo := add_relay topo relay in
  let! _ := assert (negb (is_none (get topo (b_ "r1")))) in
  assert (is_none (get topo (b_ "nonexistent"))).

Definition len_reflects_relay_count (rng : R) : outcome unit :=
  let topo := topology_new in
  let! _ := assert (topology_is_empty topo) in
  let '(relay, rng) := dummy_relay (b_ "r1") rng in
  let topo := add_relay topo relay in
  let '(relay, rng) := dummy_relay (b_ "r2") rng in
  let topo := add_relay topo relay in
  assert_eq (topology_len topo) 2.

Definition topology_tests (rng : R) : list (outcome unit) := [add_and_get_relay rng; len_reflects_relay_count rng].

(** ** Topologies of generated relays *)

(** The loop that adds a relay with a fresh key for every id and address. *)
Fixpoint add_generated (topo : Topology) (entries : list (bytes * bytes)) (rng : R) : Topology * R :=
  match entries with
  | [] => (topo, rng)
  | (id, address) :: entries' =>
      let '(keypair, rng) := generate rng in
      let relay := {| info_id := id; info_address := address; info_public_key := public_key keypair |} in
      add_generated (add_relay topo relay) entries' rng
  end.

Definition numbered (addresses : list bytes) : list (bytes * bytes) :=
  imap (fun i address => (b_ "relay-" ++ show_uint (Z.of_nat i), address)) addresses.

Definition ports_from (first : Z) (n : nat) : list bytes :=
  (fun i => b_ "127.0.0.1:" ++ show_uint (first + Z.of_nat i)) <$> seq 0 n.

Definition topology_with (n : nat) (rng : R) : Topology * R :=
  add_generated topology_new (numbered (ports_from 9000 n)) rng.

Definition topology_with_addresses (addresses : list bytes) (rng : R) : Topology * R :=
  add_generated topology_new (numbered addresses) rng.

Definition sample_topology (rng : R) : Topology * R :=
  add_generated topology_new (numbered (ports_from 9001 3)) rng.

(** ** [path_selection.rs] *)

Definition selects_requested_hop_count (rng : R) : outcome unit :=
  let '(topo, rng) := topology_with 5 rng in
  let '(path, rng) := select_path topo 3 rng in
  let! path := unwrap_ok path in
  assert_eq (length path) 3%nat.

Definition selected_relays_are_distinct (rng : R) : outcome unit :=
  let '(topo, rng) := topology_with 5 rng in
  let '(path, rng) := select_path topo 4 rng in
  let! path := unwrap_ok path in
  let ids := info_id <$> path in
  let before := length ids in
  assert_eq (count_distinct ids) before.

Definition errors_when_topology_too_small (rng : R) : outcome unit :=
  let '(topo, rng) := topology_with 2 rng in
  let '(result, rng) := select_path topo 5 rng in
  assert (match result with Err (InsufficientRelays _ _) => true | _ => false end).

Definition distinct_subnets (path : list RelayInfo) : outcome unit :=
  let subnets := omap (fun r => subnet_key (info_address r)) path in
  let before := length subnets in
  assert_eq (count_distinct subnets) before.

Definition diverse_path_avoids_repeating_subnets_when_alternatives_exist (rng : R) : outcome unit :=
  let '(topo, rng) := topology_with_addresses
    [b_ "10.0.1.1:9001"; b_ "10.0.2.1:9001"; b_ "10.0.3.1:9001"; b_ "10.0.4.1:9001"] rng in
  let '(path, rng) := select_diverse_path topo 4 rng in
  let! path := unwrap_ok path in
  distinct_subnets path.

Definition diverse_path_degrades_gracefully_when_topology_has_no_diversity (rng : R) : outcome unit :=
  let '(topo, rng) := topology_with 5 rng in
  let '(path, rng) := select_diverse_path topo 3 rng in
  let! path := unwrap_ok path in
  assert_eq (length path) 3%nat.

Definition diverse_path_prefers_diversity_over_full_repeats_when_partially_available (rng : R) : outcome unit :=
  let '(topo, rng) := topology_with_addresses
    [b_ "10.0.1.1:9001"; b_ "10.0.1.2:9001"; b_ "10.0.2.1:9001"; b_ "10.0.3.1:9001"] rng in
  let '(path, rng) := select_diverse_path topo 3 rng in
  let! path := unwrap_ok path in
  distinct_subnets path.

Definition diverse_path_errors_when_topology_too_small (rng : R) : outcome unit :=
  let '(topo, rng) := topology_with 2 rng in
  let '(result, rng) := select_diverse_path topo 5 rng in
  assert (match result with Err (InsufficientRelays _ _) => true | _ => false end).

Definition subnet_key_handles_hostnames_and_ipv6_as_unknown : outcome unit :=
  let! _ := assert_eq (subnet_key (b_ "relay2:9001")) None in
  let! _ := assert_eq (subnet_key (b_ "[::1]:9001")) None in
  assert_eq (subnet_key (b_ "not-even-an-address")) None.

Definition subnet_key_ignores_port_differences_on_the_same_host : outcome unit :=
  assert_eq (subnet_key (b_ "127.0.0.1:9001")) (subnet_key (b_ "127.0.0.1:9002")).

Definition path_tests (rng : R) : list (outcome unit) :=
  [selects_requested_hop_count rng; selected_relays_are_distinct rng; errors_when_topology_too_small rng;
   diverse_path_avoids_repeating_subnets_when_alternatives_exist rng;
   diverse_path_degrades_gracefully_when_topology_has_no_diversity rng;
   diverse_path_prefers_diversity_over_full_repeats_when_partially_available rng;
   diverse_path_errors_when_topology_too_small rng;
   subnet_key_handles_hostnames_and_ipv6_as_unknown;
   subnet_key_ignores_port_differences_on_the_same_host].

(** ** [lib.rs] *)

Definition make_relay (id : bytes) (port : Z) (rng : R) : RelayInfo * KeyPair * R :=
  let '(keypair, rng) := generate rng in
  let info := {| info_id := id; info_address := b_ "127.0.0.1:" ++ show_uint port;
                 info_public_key := public_key keypair |} in
  (info, keypair, rng).

(** The relay peels its layer, which should be for the address. *)
Definition forwards_to (keypair : KeyPair) (frame address : bytes) : outcome bytes :=
  let! peeled := unwrap_ok (peel_onion_layer keypair frame) in
  match peeled with
  | Forward next_hop body => let! _ := assert_eq next_hop address in Done body
  | _ => Panic
  end.

Definition three_hop_circuit_peels_correctly_at_every_hop (rng : R) : outcome unit :=
  let '(r1, kp1, rng) := make_relay (b_ "r1") 9001 rng in
  let '(r2, kp2, rng) := make_relay (b_ "r2") 9002 rng in
  let '(r3, kp3, rng) := make_relay (b_ "r3") 9003 rng in
  let '(onion, rng) := build_circuit [r1; r2; r3] (b_ "final message") rng in
  let! onion := unwrap_ok onion in
  let! layer_for_r2 := forwards_to kp1 onion (info_address r2) in
  let! layer_for_r3 := forwards_to kp2 layer_for_r2 (info_address r3) in
  let! peeled_3 := unwrap_ok (peel_onion_layer kp3 layer_for_r3) in
  match peeled_3 with
  | Deliver body => assert_eq body (b_ "final message")
  | _ => Panic
  end.

Definition empty_path_is_rejected (rng : R) : outcome unit :=
  let '(result, rng) := build_circuit [] (b_ "x") rng in
  assert (match result with Err EmptyPath => true | _ => false end).

Definition circuit_tests (rng : R) : list (outcome unit) :=
  [three_hop_circuit_peels_correctly_at_every_hop rng; empty_path_is_rejected rng].
End tests.

(** ** [topology_file.rs] *)

Section file_tests.
Context {E R : Type} `{Rng R} `{Crypto} `{Hex} `{HashOrder} `{Json E TopologyFile}.

(** The loop over the relays of the original. *)
Fixpoint survive (restored : Topology) (relays : list RelayInfo) : outcome unit :=
  match relays with
  | [] => Done tt
  | relay :: relays' =>
      let! restored_relay := unwrap_some (get restored (info_id relay)) in
      let! _ := assert_eq (info_address restored_relay) (info_address relay) in
      let! _ := assert_eq (info_public_key restored_relay) (info_public_key relay) in
      survive restored relays'
  end.

Definition json_roundtrip_preserves_every_relay (rng : R) : outcome unit :=
  let '(original, rng) := sample_topology rng in
  let! json := to_json (E:=E) original in
  let! restored := unwrap_ok (from_json (E:=E) json) in
  let! _ := assert_eq (topology_len restored) (topology_len original) in
  survive restored (all original).
End file_tests.

(** ** The tests pass *)

Section pass.
Context {R : Type} `{RngLaws R} `{CryptoLaws} `{HashOrderLaws}.

(** What the loops generate. *)
Definition generated_for (entry : bytes * bytes) (r : RelayInfo) : Prop :=
  info_id r = entry.1 /\ info_address r = entry.2 /\ length (info_public_key r) = 32%nat.

Lemma add_generated_relays entries : forall topo (rng : R),
  exists rs rng', add_generated topo entries rng = (add_relays topo rs, rng') /\ Forall2 generated_for entries rs.
Proof.
  induction entries as [|[id a] entries IH]; intros topo rng; [by exists [], rng|]. cbn [add_generated].
  destruct (generated rng) as (kp & rng1 & -> & Hkp).
  match goal with |- context[add_relay topo ?relay] => set (r := relay) end.
  destruct (IH (add_relay topo r) rng1) as (rs & rng2 & -> & Hrs).
  exists (r :: rs), rng2. split; [done|]. constructor; [|done]. split_and!; [done|done|by apply wf_public_length].
Qed.

Lemma generated_ids entries rs : Forall2 generated_for entries rs -> info_id <$> rs = entries.*1.
Proof. induction 1 as [|e r es rs [Hi _] _ IH]; [done|]. cbn. by rewrite Hi, IH. Qed.

(** The topology holds the generated relays, in some order. *)
Lemma generated_topology entries (rng : R) :
  NoDup entries.*1 ->
  exists t rs rng', add_generated topology_new entries rng = (t, rng') /\ wf_topology t /\
    Forall2 generated_for entries rs /\ all t ≡ₚ rs /\ length (all t) = length entries.
Proof.
  intros Hnd. destruct (add_generated_relays entries topology_new rng) as (rs & rng' & E & Hrs).
  exists (add_relays topology_new rs), rs, rng'.
  assert (all (add_relays topology_new rs) ≡ₚ rs) as Hall
    by (apply all_add_relays; by rewrite (generated_ids _ _ Hrs)).
  split_and!; [done|auto with veil|done|done|]. rewrite Hall. symmetry. by eapply Forall2_length.
Qed.

(** The subnet of a relay of the topology is that of its address. *)
Lemma generated_subnets entries rs t :
  Forall2 generated_for entries rs -> all t ≡ₚ rs ->
  forall r, r ∈ all t -> exists e, e ∈ entries /\ relay_subnet r = subnet_key e.2.
Proof.
  intros Hrs Hall r Hr. rewrite Hall in Hr. apply list_elem_of_lookup in Hr as [i Hi].
  destruct (Forall2_lookup_r _ _ _ _ _ Hrs Hi) as (e & He & _ & Ha & _).
  exists e. split; [by eapply list_elem_of_lookup_2|]. unfold relay_subnet. by rewrite Ha.
Qed.

Lemma topology_tests_pass (rng : R) : Forall passes (topology_tests rng).
Proof.
  repeat apply Forall_cons_2; [| |constructor]; unfold passes.
  - unfold add_and_get_relay, dummy_relay. destruct (generate rng) as [kp rng1].
    unfold get, add_relay. cbn [relays info_id]. rewrite lookup_insert_eq, lookup_insert_ne by done. done.
  - unfold len_reflects_relay_count, dummy_relay.
    destruct (generate rng) as [kp1 rng1], (generate rng1) as [kp2 rng2].
    apply assert_eq_eq. unfold topology_len, add_relay. cbn [relays info_id].
    rewrite !map_size_insert_None; [done|done|]. by rewrite lookup_insert_ne.
Qed.

(** A path of a generated topology. *)
Lemma generated_select entries n (rng : R) :
  NoDup entries.*1 -> (n <= length entries)%nat ->
  exists t rng1 path, add_generated topology_new entries rng = (t, rng1) /\
    (select_path t n rng1).1 = Ok path /\ length path = n /\ NoDup (info_id <$> path).
Proof.
  intros Hnd Hn. destruct (generated_topology entries rng Hnd) as (t & rs & rng1 & E & Hwf & _ & _ & Hl).
  pose proof (select_path_spec t n rng1 Hwf) as Hs. pose proof (length_all t) as Hla. unfold len in Hla.
  exists t, rng1. destruct (select_path t n rng1).1 as [path|[needed available]].
  - exists path. destruct Hs as (_ & ? & ? & _). by split_and!.
  - destruct Hs as (-> & Ha & Hlt & _). lia.
Qed.

Lemma generated_diverse entries n (rng : R) :
  NoDup entries.*1 -> (n <= length entries)%nat ->
  exists t rng1 path, add_generated topology_new entries rng = (t, rng1) /\
    (select_diverse_path t n rng1).1 = Ok path /\ length path = n /\ NoDup (info_id <$> path) /\
    (forall e, e ∈ entries -> exists r, r ∈ all t /\ relay_subnet r = subnet_key e.2) /\
    (NoDup (omap relay_subnet path) \/
     forall r k, r ∈ all t -> relay_subnet r = Some k -> k ∈ omap relay_subnet path).
Proof.
  intros Hnd Hn. destruct (generated_topology entries rng Hnd) as (t & rs & rng1 & E & Hwf & Hrs & Hall & Hl).
  destruct (select_diverse_path_ok t n rng1 Hwf) as (path & Ep & Hlen & Hids & _); [lia|].
  exists t, rng1, path. split_and!; [done|done|done|done| |].
  - intros e He. apply list_elem_of_lookup in He as [i Hi].
    destruct (Forall2_lookup_l _ _ _ _ _ Hrs Hi) as (r & Hr & _ & Ha & _).
    exists r. rewrite Hall. split; [by eapply list_elem_of_lookup_2|]. unfold relay_subnet. by rewrite Ha.
  - destruct (diverse_or_exhausted t n rng1 path) as [?|Hex]; [lia|done|by left|right].
    intros r k Hr Hk. specialize (Hex r Hr). rewrite Hk in Hex. destruct Hex as (r' & Hr' & Hk').
    apply list_elem_of_omap. by exists r'.
Qed.

Lemma generated_few entries n (rng : R) :
  NoDup entries.*1 -> (length entries < n)%nat ->
  exists t rng1 e, add_generated topology_new entries rng = (t, rng1) /\
    select_path t n rng1 = (Err e, rng1) /\ select_diverse_path t n rng1 = (Err e, rng1).
Proof.
  intros Hnd Hn. destruct (generated_topology entries rng Hnd) as (t & rs & rng1 & E & _ & _ & _ & Hl).
  exists t, rng1, (InsufficientRelays n (length (all t))). split_and!; [done|..].
  - unfold select_path. by rewrite decide_True by lia.
  - unfold select_diverse_path. by rewrite decide_True by lia.
Qed.

(** When as many subnets as the path has relays are to be covered, none is used
    twice. *)
Lemma covered_distinct (entries : list (bytes * bytes)) t path ks :
  (forall e, e ∈ entries -> exists r, r ∈ all t /\ relay_subnet r = subnet_key e.2) ->
  NoDup (omap relay_subnet path) \/
    (forall r k, r ∈ all t -> relay_subnet r = Some k -> k ∈ omap relay_subnet path) ->
  NoDup ks -> length ks = length path -> Forall (fun k => k ∈ omap (fun e => subnet_key e.2) entries) ks ->
  distinct_subnets path = Done tt.
Proof.
  intros He Hd Hks Hl Hcov. apply assert_eq_eq, count_distinct_NoDup.
  change (fun r => subnet_key (info_address r)) with relay_subnet. destruct Hd as [?|Hd]; [done|].
  assert (ks ⊆+ omap relay_subnet path) as Hsub.
  { apply NoDup_submseteq; [done|]. intros k Hk. pose proof (proj1 (Forall_forall _ _) Hcov k Hk) as (e & Hin & Ek)%list_elem_of_omap.
    destruct (He e Hin) as (r & Hr & Er). apply (Hd r k Hr). by rewrite Er. }
  assert (length (omap relay_subnet path) <= length path)%nat as Hle.
  { clear. induction path as [|r path IH]; cbn; [lia|]. destruct (relay_subnet r); cbn; lia. }
  apply submseteq_length_Permutation in Hsub; [|lia]. by rewrite <- Hsub.
Qed.

(** A decidable fact about closed terms. *)
Ltac by_deciding := apply (bool_decide_unpack _); by vm_compute.

Lemma select_tests_pass (rng : R) :
  passes (selects_requested_hop_count rng) /\ passes (selected_relays_are_distinct rng) /\
  passes (errors_when_topology_too_small rng) /\ passes (diverse_path_errors_when_topology_too_small rng).
Proof.
  unfold passes. split_and!.
  - unfold selects_requested_hop_count, topology_with.
    destruct (generated_select (numbered (ports_from 9000 5)) 3 rng) as (t & rng1 & path & -> & Ep & Hl & _);
      [by_deciding|by vm_compute; lia|].
    destruct (select_path t 3 rng1) as [r rng2]. cbn in Ep. subst r. by apply assert_eq_eq.
  - unfold selected_relays_are_distinct, topology_with.
    destruct (generated_select (numbered (ports_from 9000 5)) 4 rng) as (t & rng1 & path & -> & Ep & _ & Hnd);
      [by_deciding|by vm_compute; lia|].
    destruct (select_path t 4 rng1) as [r rng2]. cbn in Ep. subst r. by apply assert_eq_eq, count_distinct_NoDup.
  - unfold errors_when_topology_too_small, topology_with.
    destruct (generated_few (numbered (ports_from 9000 2)) 5 rng) as (t & rng1 & [] & -> & -> & _);
      [by_deciding|by vm_compute; lia|done].
  - unfold diverse_path_errors_when_topology_too_small, topology_with.
    destruct (generated_few (numbered (ports_from 9000 2)) 5 rng) as (t & rng1 & [] & -> & _ & ->);
      [by_deciding|by vm_compute; lia|done].
Qed.

Lemma diverse_tests_pass (rng : R) :
  passes (diverse_path_avoids_repeating_subnets_when_alternatives_exist rng) /\
  passes (diverse_path_degrades_gracefully_when_topology_has_no_diversity rng) /\
  passes (diverse_path_prefers_diversity_over_full_repeats_when_partially_available rng).
Proof.
  unfold passes. split_and!.
  - unfold diverse_path_avoids_repeating_subnets_when_alternatives_exist, topology_with_addresses.
    match goal with |- context[add_generated _ ?e _] => set (entries := e) end.
    destruct (generated_diverse entries 4 rng) as (t & rng1 & path & -> & Ep & Hl & _ & He & Hd);
      [by_deciding|by vm_compute; lia|].
    destruct (select_diverse_path t 4 rng1) as [r rng2]. cbn [fst] in Ep. subst r. cbn [unwrap_ok].
    apply (covered_distinct entries t path [(10, 0, 1); (10, 0, 2); (10, 0, 3); (10, 0, 4)]);
      [done|done|by_deciding|done|by_deciding].
  - unfold diverse_path_degrades_gracefully_when_topology_has_no_diversity, topology_with.
    destruct (generated_diverse (numbered (ports_from 9000 5)) 3 rng) as (t & rng1 & path & -> & Ep & Hl & _);
      [by_deciding|by vm_compute; lia|].
    destruct (select_diverse_path t 3 rng1) as [r rng2]. cbn in Ep. subst r. by apply assert_eq_eq.
  - unfold diverse_path_prefers_diversity_over_full_repeats_when_partially_available, topology_with_addresses.
    match goal with |- context[add_generated _ ?e _] => set (entries := e) end.
    destruct (generated_diverse entries 3 rng) as (t & rng1 & path & -> & Ep & Hl & _ & He & Hd);
      [by_deciding|by vm_compute; lia|].
    destruct (select_diverse_path t 3 rng1) as [r rng2]. cbn [fst] in Ep. subst r. cbn [unwrap_ok].
    apply (covered_distinct entries t path [(10, 0, 1); (10, 0, 2); (10, 0, 3)]);
      [done|done|by_deciding|done|by_deciding].
Qed.

Lemma path_tests_pass (rng : R) : Forall passes (path_tests rng).
Proof.
  destruct (select_tests_pass rng) as (? & ? & ? & ?), (diverse_tests_pass rng) as (? & ? & ?).
  repeat apply Forall_cons_2; try done; by vm_compute.
Qed.

Lemma make_relay_ok id port (rng : R) :
  exists kp rng', wf_keypair kp /\
    make_relay id port rng = (mkRelayInfo id (b_ "127.0.0.1:" ++ show_uint port) (public_key kp), kp, rng').
Proof. destruct (generated rng) as (kp & rng' & E & Hkp). exists kp, rng'. unfold make_relay. by rewrite E. Qed.

(** What [follow] says of the first relay. *)
Lemma follow_forwards kp kps frame hop hops body :
  follow (kp :: kps) frame = Some (hop :: hops, body) ->
  exists inner, forwards_to kp frame hop = Done inner /\ follow kps inner = Some (hops, body).
Proof.
  cbn. unfold forwards_to. destruct (peel_onion_layer kp frame) as [[h inner|b]|e]; [| |done].
  - destruct (follow kps inner) as [[hs b]|] eqn:Ef; [|done]. cbn. intros [= -> -> ->].
    exists inner. rewrite assert_eq_refl, Ef. by split.
  - by destruct kps.
Qed.

Lemma follow_delivers kp frame body :
  follow [kp] frame = Some ([], body) -> peel_onion_layer kp frame = Ok (Deliver body).
Proof.
  cbn. destruct (peel_onion_layer kp frame) as [[h inner|b]|e]; [done| |done]. by intros [= ->].
Qed.

Lemma circuit_tests_pass (rng : R) : Forall passes (circuit_tests rng).
Proof.
  repeat apply Forall_cons_2; [| |constructor]; unfold passes; [|done].
  unfold three_hop_circuit_peels_correctly_at_every_hop.
  destruct (make_relay_ok (b_ "r1") 9001 rng) as (kp1 & rng1 & H1k & ->).
  destruct (make_relay_ok (b_ "r2") 9002 rng1) as (kp2 & rng2 & H2k & ->).
  destruct (make_relay_ok (b_ "r3") 9003 rng2) as (kp3 & rng3 & H3k & ->).
  match goal with |- context[build_circuit ?p ?b rng3] => set (path := p); set (body := b) end.
  destruct (build_circuit_ok [kp1; kp2; kp3] path body rng3) as (onion & rng4 & -> & Hf & _);
    [done|by repeat (apply Forall2_cons_2; [by split|])
    |repeat apply Forall_cons_2; by vm_compute|by vm_compute|].
  cbn [unwrap_ok info_address]. subst path. cbn [tail fmap list_fmap info_address] in Hf.
  apply follow_forwards in Hf as (l2 & E2 & Hf). rewrite E2.
  apply follow_forwards in Hf as (l3 & E3 & Hf). rewrite E3.
  apply follow_delivers in Hf as ->. apply assert_eq_refl.
Qed.

Context {E : Type} `{HexLaws} `{JsonLaws E TopologyFile valid_file}.

Lemma survive_all t rs : (forall r, r ∈ rs -> get t (info_id r) = Some r) -> survive t rs = Done tt.
Proof.
  induction rs as [|r rs IH]; intros Hget; [done|]. cbn [survive].
  rewrite (Hget r) by by left. cbn [unwrap_some]. rewrite !assert_eq_refl. apply IH.
  intros r' Hr'. apply Hget. by right.
Qed.

(** The sample topology can be written. *)
Lemma sample_topology_valid (rng : R) :
  exists t rng', sample_topology rng = (t, rng') /\ valid_topology t.
Proof.
  unfold sample_topology. set (entries := numbered (ports_from 9001 3)).
  destruct (generated_topology entries rng) as (t & rs & rng1 & -> & Hwf & Hrs & Hall & _); [by_deciding|].
  exists t, rng1. split; [done|].
  split; [done|]. intros id r Hr. assert (r ∈ rs) as Hin by (rewrite <- Hall; apply elem_of_all; by exists id).
  apply list_elem_of_lookup in Hin as [i Hi].
  destruct (Forall2_lookup_r _ _ _ _ _ Hrs Hi) as (e & He & Hid & Ha & Hk).
  assert (Forall (fun e => utf8_valid e.1 = true /\ utf8_valid e.2 = true) entries) as Hutf by by_deciding.
  destruct (Forall_lookup_1 _ _ _ _ Hutf He). split_and!; [by rewrite Hid|by rewrite Ha|done].
Qed.

Lemma json_test_passes (rng : R) : passes (json_roundtrip_preserves_every_relay (E:=E) rng).
Proof.
  unfold passes, json_roundtrip_preserves_every_relay.
  destruct (sample_topology_valid rng) as (t & rng1 & -> & Hv). pose proof Hv as [Hwf _].
  destruct (from_to_json (E:=E) t Hv) as (json & -> & ->). cbn [unwrap_ok].
  rewrite assert_eq_refl. apply survive_all. intros r [id Hid]%elem_of_all. unfold get. by rewrite (Hwf id r Hid).
Qed.
End pass.

(** ** All of them *)

(** The unit tests of [veil-routing] pass in the model, whatever the random
    generator does, in whatever order hash maps are listed, and for every
    implementation of the ciphers, of hex and of JSON that meets its laws. *)
Lemma routing_tests_pass {R E : Type} `{RngLaws R} `{CryptoLaws} `{HashOrderLaws} `{HexLaws}
    `{JsonLaws E TopologyFile valid_file} (rng : R) :
  Forall passes (topology_tests rng) /\ Forall passes (path_tests rng) /\
  Forall passes (circuit_tests rng) /\ passes (json_roundtrip_preserves_every_relay (E:=E) rng).
Proof.
  split_and!; [apply topology_tests_pass|apply path_tests_pass|apply circuit_tests_pass|apply json_test_passes].
Qed.
