(* ===== verification/TopologyFileTests.v ===== *)
(** * The unit tests of topology files

    The tests of topology_file.rs that need a particular JSON text or a real
    file. What [serde_json] makes of the four texts is what it documents: three
    are the documents they spell, one is no JSON ([parses_test_texts]); the
    temporary file of the test can be written ([writable]). *)
From S2P Require Import Prelude.
From S2P Require Import RustStd.
From S2P Require Import Interfaces.
From S2P Require Import Cell.
From S2P Require Import Keys.
From S2P Require Import CoreTests.
From S2P Require Import Topology.
From S2P Require Import TopologyFile.
From S2P Require Import RoutingTests.

Open Scope Z_scope.

(** ** The texts *)

(** A double quote, a string in quotes, a line end and the indentation. *)
Definition quoted (s : string) : bytes := x22 :: b_ s ++ [x22].
Definition indented (n : nat) : bytes := x0a :: replicate n x20.

Definition version_99_text : bytes :=
  b_ "{" ++ quoted "version" ++ b_ ": 99, " ++ quoted "relays" ++ b_ ": []}".

Definition one_relay_text (key : string) : bytes :=
  b_ "{" ++ indented 12 ++ quoted "version" ++ b_ ": 1," ++ indented 12 ++ quoted "relays" ++ b_ ": [{ " ++
  quoted "id" ++ b_ ": " ++ quoted "bad" ++ b_ ", " ++ quoted "address" ++ b_ ": " ++ quoted "127.0.0.1:9001" ++
  b_ ", " ++ quoted "public_key" ++ b_ ": " ++ quoted key ++ b_ " }]" ++ indented 8 ++ b_ "}".

Definition one_relay_file (key : string) : TopologyFile :=
  {| version := 1;
     file_relays := [{| entry_id := b_ "bad"; entry_address := b_ "127.0.0.1:9001"; entry_public_key := b_ key |}] |}.

(** ** The tests *)

Section tests.
Context {E R W : Type} `{Rng R} `{Crypto} `{Hex} `{HashOrder} `{Fs W} `{Json E TopologyFile}.

Definition file_roundtrip_via_a_real_temp_file (path : bytes) (w : W) (rng : R) : outcome unit :=
  let '(original, rng) := sample_topology rng in
  let! (saved, w) := save_to_file (E:=E) original path w in
  let! _ := unwrap_ok saved in
  let '(restored, w) := load_from_file (E:=E) path w in
  let! restored := unwrap_ok restored in
  assert_eq (topology_len restored) (topology_len original).

Definition unsupported_version_is_rejected : outcome unit :=
  let result := from_json (E:=E) version_99_text in
  assert (match result with Err (UnsupportedVersion found _) => bool_decide (found = 99) | _ => false end).

Definition invalid_hex_public_key_is_rejected : outcome unit :=
  let result := from_json (E:=E) (one_relay_text "not hex at all") in
  assert (match result with Err (InvalidPublicKey _ _) => true | _ => false end).

Definition wrong_length_public_key_is_rejected : outcome unit :=
  let result := from_json (E:=E) (one_relay_text "aabbcc") in
  assert (match result with Err (InvalidPublicKey _ _) => true | _ => false end).

Definition malformed_json_is_rejected : outcome unit :=
  let result := from_json (E:=E) (b_ "not json at all") in
  assert (match result with Err (Parse _) => true | _ => false end).

Definition topology_file_tests (path : bytes) (w : W) (rng : R) : list (outcome unit) :=
  [file_roundtrip_via_a_real_temp_file path w rng; unsupported_version_is_rejected;
   invalid_hex_public_key_is_rejected; wrong_length_public_key_is_rejected; malformed_json_is_rejected].

(** What the parser makes of the texts. *)
Record parses_test_texts : Prop := {
  parses_version_99 : from_str (E:=E) version_99_text = Ok {| version := 99; file_relays := [] |};
  parses_one_relay key : key ∈ ["not hex at all"; "aabbcc"]%string ->
    from_str (E:=E) (one_relay_text key) = Ok (one_relay_file key);
  parses_no_json : exists e, from_str (E:=E) (A:=TopologyFile) (b_ "not json at all") = Err e
}.

Definition writable (path : bytes) (w : W) : Prop := forall data, exists w', fs_write path data w = (Ok tt, w').
End tests.

Section pass.
Context {E R W : Type} `{RngLaws R} `{CryptoLaws} `{HashOrderLaws} `{HexLaws} `{FsLaws W}
  `{JsonLaws E TopologyFile valid_file}.

(** A key that is not 32 bytes long in hexadecimal is refused. *)
Lemma bad_key_refused key :
  from_str (E:=E) (one_relay_text key) = Ok (one_relay_file key) -> String.length key <> 64%nat ->
  exists reason, from_json (E:=E) (one_relay_text key) = Err (InvalidPublicKey (b_ "bad") reason).
Proof.
  intros Hp Hl. unfold from_json. rewrite Hp. cbn -[entry_relay]. rewrite decide_False by (unfold CURRENT_VERSION; lia).
  cbn -[entry_relay]. rewrite entry_relay_spec. cbn [entry_public_key entry_id].
  destruct (hex_decode (b_ key)) as [k|] eqn:Ek; [|by eexists].
  rewrite decide_False; [by eexists|]. intros Hk. apply hex_decode_length in Ek. rewrite Hk in Ek.
  apply Hl. unfold b_ in Ek. etransitivity; [|exact Ek]. clear. induction key as [|c key IH]; [done|]. cbn. by f_equal.
Qed.

Lemma topology_file_tests_pass path (w : W) (rng : R) :
  parses_test_texts (E:=E) -> writable path w -> Forall passes (topology_file_tests (E:=E) path w rng).
Proof.
  intros [H99 Hone [e Hno]] Hw. repeat apply Forall_cons_2; [| | | | |constructor]; unfold passes.
  - unfold file_roundtrip_via_a_real_temp_file. destruct (sample_topology_valid rng) as (t & rng1 & -> & Hv).
    destruct (from_to_json (E:=E) t Hv) as (json & Ej & El). unfold save_to_file. rewrite Ej.
    destruct (Hw json) as [w1 Ew]. rewrite Ew. cbn [unwrap_ok].
    destruct (read_after_write path json w w1 Ew) as [w2 Er].
    unfold load_from_file. rewrite Er, El. cbn [unwrap_ok]. apply assert_eq_refl.
  - unfold unsupported_version_is_rejected, from_json. rewrite H99. by vm_compute.
  - unfold invalid_hex_public_key_is_rejected.
    destruct (bad_key_refused "not hex at all") as [reason ->]; [apply Hone; by left|done|done].
  - unfold wrong_length_public_key_is_rejected.
    destruct (bad_key_refused "aabbcc") as [reason ->]; [apply Hone; by right; left|done|done].
  - unfold malformed_json_is_rejected, from_json. by rewrite Hno.
Qed.
End pass.
