(* ===== verification/Discovery.v ===== *)
(** * Topology discovery: [veil-routing/src/discovery.rs],
      [examples/discover_relays.rs]

    Asking every relay to describe itself. The theorem shows that a scan never
    stops early: each address is asked once, in order, and ends up either in
    the topology or in the list of unreachable relays; that whatever the
    network answers the discovered topology is well typed; and that what the
    example program prints is a topology file that loads back to it. *)
From S2P Require Import Prelude.
From S2P Require Import RustStd.
From S2P Require Import Interfaces.
From S2P Require Import Forwarding.
From S2P Require Import Mailbox.
From S2P Require Import PullListener.
From S2P Require Import Topology.
From S2P Require Import TopologyFile.

Open Scope Z_scope.

Record UnreachableRelay : Type := mkUnreachable {
  unreachable_address : bytes;
  unreachable_error : io_error
}.

Section discovery.
Context {W Conn : Type} `{Net W Conn}.

Definition identity_relay (ident : RelayIdentity) : RelayInfo :=
  {| info_id := ri_id ident; info_address := ri_main_addr ident;
     info_public_key := ri_public_key ident |}.

(** The loop of [discover_topology]. *)
Fixpoint discover_loop (addresses : list bytes) (topology : Topology)
    (unreachable : list UnreachableRelay) (w : W) : Topology * list UnreachableRelay * W :=
  match addresses with
  | [] => (topology, unreachable, w)
  | address :: addresses' =>
      match describe address w with
      | (Ok ident, w) =>
          discover_loop addresses' (add_relay topology (identity_relay ident)) unreachable w
      | (Err error, w) =>
          discover_loop addresses' topology (unreachable ++ [mkUnreachable address error]) w
      end
  end.

Definition discover_topology (addresses : list bytes) (w : W) :
    Topology * list UnreachableRelay * W :=
  discover_loop addresses topology_new [] w.

(** The answers of the relays, asked one after the other. *)
Fixpoint describe_each (addresses : list bytes) (w : W) :
    list (bytes * io_result RelayIdentity) * W :=
  match addresses with
  | [] => ([], w)
  | address :: addresses' =>
      let '(r, w) := describe address w in
      let '(rs, w) := describe_each addresses' w in
      ((address, r) :: rs, w)
  end.
End discovery.

(** [discover_relays]: its usage message and exit code 1, or the JSON it prints
    between the two listings. *)
Inductive scan_output : Type :=
  | Usage
  | Scanned (discovered : Z) (json : bytes) (unreachable : list UnreachableRelay).

Definition discover_relays {W Conn E : Type} `{Net W Conn} `{Hex} `{HashOrder} `{Json E TopologyFile}
    (args : list bytes) (w : W) : outcome (scan_output * W) :=
  let addresses := drop 1 args in
  match addresses with
  | [] => Done (Usage, w)
  | _ =>
      let '(topology, unreachable, w) := discover_topology addresses w in
      let! json := to_json (E:=E) topology in
      Done (Scanned (topology_len topology) json unreachable, w)
  end.

Definition answered (a : bytes * io_result RelayIdentity) : option RelayInfo :=
  match a.2 with Ok i => Some (identity_relay i) | Err _ => None end.

Definition unanswered (a : bytes * io_result RelayIdentity) : option UnreachableRelay :=
  match a.2 with Ok _ => None | Err e => Some (mkUnreachable a.1 e) end.

Lemma discover_loop_spec {W Conn} `{Net W Conn} addresses t u (w : W) :
  discover_loop addresses t u w =
    (add_relays t (omap answered (describe_each addresses w).1),
     u ++ omap unanswered (describe_each addresses w).1,
     (describe_each addresses w).2).
Proof.
  revert t u w. induction addresses as [|a addresses IH]; intros t u w;
    cbn [discover_loop describe_each].
  - cbn. by rewrite app_nil_r.
  - destruct (describe a w) as [[i|e] w1]; rewrite IH;
      destruct (describe_each addresses w1) as [rs w2]; cbn; [done|].
    by rewrite <- app_assoc.
Qed.

(** ** What the network can make of a topology *)

Section typing.
Context {W Conn : Type} `{NetLaws W Conn}.

Lemma read_exact_length c n w b w' : read_exact c n w = (Ok b, w') -> length b = n.
Proof.
  intros E. destruct (decide (n <= length (inbox w c))%nat) as [Hn|Hn].
  - destruct (read_exact_ok c n w Hn) as (w1 & E1 & _). rewrite E1 in E. injection E as <- _.
    rewrite length_take. lia.
  - destruct (read_exact_eof c n w ltac:(lia)) as (e & w1 & E1). congruence.
Qed.

Lemma read_string_valid c w s w' : read_len_prefixed_string c w = (Ok s, w') -> utf8_valid s = true.
Proof.
  unfold read_len_prefixed_string, io_bind.
  destruct (read_exact c 2 w) as [[b|e] w1]; [|done].
  destruct (read_exact c _ w1) as [[buf|e] w2]; [|done].
  destruct (from_utf8 buf) as [s'|] eqn:E; [|done]. intros [= <- <-].
  apply from_utf8_Some in E as [Hu <-]. done.
Qed.

(** Whatever the peer sends, an identity that [describe] returns is one. *)
Lemma describe_valid addr w i w' :
  describe addr w = (Ok i, w') -> valid_relay (identity_relay i).
Proof.
  unfold describe, io_bind. destruct (connect addr w) as [[c|e] w1]; [|done].
  destruct (write_all c _ w1) as [[[]|e] w2]; [|done].
  destruct (read_len_prefixed_string c w2) as [[id|e] w3] eqn:E1; [|done].
  destruct (read_exact c 32 w3) as [[pk|e] w4] eqn:E2; [|done].
  destruct (read_len_prefixed_string c w4) as [[ma|e] w5] eqn:E3; [|done]. intros [= <- <-].
  split_and!; cbn; [by eapply read_string_valid|by eapply read_string_valid|by eapply read_exact_length].
Qed.

Lemma valid_add_relay t r : valid_topology t -> valid_relay r -> valid_topology (add_relay t r).
Proof.
  intros [Hw Hv] Hr. split; [by apply wf_add_relay|]. by apply map_Forall_insert_2.
Qed.

Lemma discover_loop_valid addresses t u w :
  valid_topology t -> valid_topology (discover_loop addresses t u w).1.1.
Proof.
  revert t u w. induction addresses as [|a addresses IH]; intros t u w Ht; cbn; [done|].
  destruct (describe a w) as [[i|e] w1] eqn:E; apply IH; [|done].
  apply valid_add_relay; [done|by eapply describe_valid].
Qed.

Lemma discover_topology_valid addresses w : valid_topology (discover_topology addresses w).1.1.
Proof. apply discover_loop_valid. split; [apply wf_topology_new|apply map_Forall_empty]. Qed.
End typing.

(** ** Properties *)

(** Discovery classifies every address. The topology holds, under each
    id, the last relay that described itself with that id, at its own main
    address; the unreachable list holds the failures with their errors, in
    order; each address is asked exactly once whatever the others answered,
    so the answers and the failures together are as many as the addresses. *)
Theorem discovery_is_complete {W Conn} `{Net W Conn} addresses (w : W) :
  let '(t, unreachable, w') := discover_topology addresses w in
  let answers := (describe_each addresses w).1 in
  map fst answers = addresses /\ w' = (describe_each addresses w).2 /\
  (forall id, get t id = last_with_id id (omap answered answers)) /\
  unreachable = omap unanswered answers /\
  (length (omap answered answers) + length unreachable = length addresses)%nat.
Proof.
  unfold discover_topology. rewrite discover_loop_spec. cbn [app].
  assert (map fst (describe_each addresses w).1 = addresses) as Ha.
  { revert w. induction addresses as [|a addresses IH]; intros w; cbn; [done|].
    destruct (describe a w) as [r w1]. specialize (IH w1).
    destruct (describe_each addresses w1). cbn in *. by rewrite IH. }
  split_and!; [done|done| |done|].
  - intros id. rewrite get_add_relays. by destruct (last_with_id id _).
  - apply (f_equal length) in Ha. rewrite length_map in Ha. rewrite <- Ha.
    generalize (describe_each addresses w).1 as l. clear Ha. intros l. induction l as [|[a [i|e]] l IH]; cbn in *; lia.
Qed.

(** C35: a discovered topology is well typed, whatever the network sends. Every
    relay in it is filed under its own id and has an id and an address that are
    UTF-8 and a public key of 32 bytes; so printing it as JSON never panics, and
    the file that [discover_relays] prints loads back to exactly the topology it
    counted. Without an address the program only prints its usage. *)
Theorem discovered_topology_typed {W Conn E : Type} `{NetLaws W Conn} `{HexLaws} `{HashOrderLaws}
    `{JsonLaws E TopologyFile valid_file} (program : bytes) (addresses : list bytes) (w : W) :
  let '(t, unreachable, w') := discover_topology addresses w in
  valid_topology t /\
  match addresses with
  | [] => discover_relays (E:=E) [program] w = Done (Usage, w)
  | _ => exists json,
      discover_relays (E:=E) (program :: addresses) w =
        Done (Scanned (topology_len t) json unreachable, w') /\
      from_json (E:=E) json = Ok t
  end.
Proof.
  pose proof (discover_topology_valid addresses w) as Hv.
  destruct (discover_topology addresses w) as [[t u] w'] eqn:E1. cbn in Hv. split; [done|].
  destruct addresses as [|a addresses]; [done|].
  destruct (from_to_json (E:=E) t Hv) as (json & Ej & El). exists json. split; [|done].
  unfold discover_relays. cbn [drop]. by rewrite E1, Ej.
Qed.
