(* ===== verification/DummyTraffic.v ===== *)
(** * Cover traffic timing: [veil-routing/src/dummy_traffic.rs]

    A [Duration] is its number of nanoseconds. The theorems bound the delay
    before a dummy cell and show the one input on which the modulus is zero. *)
From S2P Require Import Prelude.
From S2P Require Import Interfaces.
From S2P Require Import Cell.

Open Scope Z_scope.

(** [Duration]: 64-bit seconds and nanoseconds below a second. *)
Definition NANOS_PER_SEC : Z := 10 ^ 9.
Definition NANOS_PER_MILLI : Z := 10 ^ 6.
Definition DURATION_MAX : Z := 2 ^ 64 * NANOS_PER_SEC - 1.

Definition saturating_sub (a b : Z) : Z := Z.max 0 (a - b).
Definition as_millis (d : Z) : Z := d / NANOS_PER_MILLI.
Definition from_millis (ms : Z) : Z := ms * NANOS_PER_MILLI.

(** [Duration + Duration]: panics on overflow. *)
Definition duration_add (a b : Z) : outcome Z :=
  if decide (a + b <= DURATION_MAX) then Done (a + b) else Panic.

(** [a % b] on [u64]: panics when [b] is zero. *)
Definition rem_u64 (a b : Z) : outcome Z := if decide (b = 0) then Panic else Done (a mod b).

Record DummyTrafficGenerator : Type := mkGenerator {
  min_interval : Z;
  max_interval : Z
}.

(** The generator's [span], in milliseconds. *)
Definition dummy_span (self : DummyTrafficGenerator) : Z :=
  as_u64 (Z.max (as_millis (saturating_sub (max_interval self) (min_interval self))) 1).

(** The time [next_dummy] sleeps and the cell it then returns. *)
Definition next_dummy {R : Type} `{Rng R} (self : DummyTrafficGenerator) (rng : R) :
    outcome (Z * Cell * R) :=
  let span := dummy_span self in
  let '(r, rng) := next_u64 rng in
  let! jitter := rem_u64 r span in
  let! delay := duration_add (min_interval self) (from_millis jitter) in
  let '(cell, rng) := new_dummy rng in
  Done (delay, cell, rng).

Definition wf_duration (d : Z) : Prop := 0 <= d <= DURATION_MAX.

Lemma dummy_span_range g :
  max_interval g - min_interval g < from_millis (2 ^ 64) ->
  1 <= dummy_span g /\
  (dummy_span g = 1 \/ min_interval g + from_millis (dummy_span g) <= max_interval g).
Proof.
  unfold dummy_span, as_millis, saturating_sub, from_millis, as_u64, NANOS_PER_MILLI.
  intros Hd. set (d := Z.max 0 _). assert (0 <= d < 2 ^ 64 * 10 ^ 6) as Hr by lia.
  assert (0 <= d / 10 ^ 6 < 2 ^ 64) as Hq
    by (split; [apply Z.div_pos; lia|apply Z.div_lt_upper_bound; lia]).
  pose proof (Z_div_mod_eq_full d (10 ^ 6)). pose proof (Z.mod_pos_bound d (10 ^ 6) ltac:(lia)).
  rewrite Z.mod_small by lia. split; lia.
Qed.

Lemma next_dummy_ok {R} `{RngLaws R} g (rng : R) :
  wf_duration (min_interval g) -> wf_duration (max_interval g) ->
  max_interval g - min_interval g < from_millis (2 ^ 64) ->
  exists delay c rng', next_dummy g rng = Done (delay, c, rng') /\
    min_interval g <= delay /\
    (min_interval g < max_interval g -> delay < max_interval g) /\
    (max_interval g <= min_interval g -> delay = min_interval g) /\
    wf_cell c /\ cell_type c = Dummy.
Proof.
  intros Hmin Hmax Hd. destruct (dummy_span_range g Hd) as [Hs1 Hs2].
  unfold next_dummy. destruct (next_u64 rng) as [r rng1].
  unfold rem_u64. rewrite decide_False by lia.
  pose proof (Z.mod_pos_bound r (dummy_span g) ltac:(lia)) as Hj.
  set (j := r mod dummy_span g) in *.
  unfold wf_duration, from_millis, NANOS_PER_MILLI in *.
  assert (j * 10 ^ 6 + 10 ^ 6 <= dummy_span g * 10 ^ 6) as Hjs by lia.
  unfold duration_add. rewrite decide_True by (destruct Hs2 as [Hs2|Hs2]; [rewrite Hs2 in *|]; lia).
  pose proof (new_dummy_wf rng1) as [Hc Ht]. destruct (new_dummy rng1) as [c rng2]. cbn in *.
  exists (min_interval g + j * 10 ^ 6), c, rng2.
  split_and!; try done; destruct Hs2 as [Hs2|Hs2]; try rewrite Hs2 in *; lia.
Qed.

(** ** Properties *)

(** The delay before a dummy cell. With intervals less than 2^64
    milliseconds apart the generator never divides by zero; it waits
    at least the minimum and, when the maximum is larger, strictly less than
    the maximum, as documented (with an empty or inverted range it waits
    exactly the minimum), and returns a well-formed dummy cell. It panics
    only if the sum leaves the range of a duration, which takes a maximum
    outside that range. *)
Theorem dummy_delay_within_range {R} `{RngLaws R} g (rng : R) :
  wf_duration (min_interval g) -> wf_duration (max_interval g) ->
  max_interval g - min_interval g < from_millis (2 ^ 64) ->
  exists delay c rng', next_dummy g rng = Done (delay, c, rng') /\
    min_interval g <= delay /\
    (min_interval g < max_interval g -> delay < max_interval g) /\
    (max_interval g <= min_interval g -> delay = min_interval g) /\
    wf_cell c /\ cell_type c = Dummy.
Proof. apply next_dummy_ok. Qed.

(** The truncating cast can make the modulus zero. Two valid intervals
    exactly 2^64 milliseconds apart give a span of zero, and the remainder
    panics whatever the generator draws. *)
Theorem dummy_span_truncates {R} `{Rng R} (m : Z) (rng : R) :
  let g := mkGenerator m (m + from_millis (2 ^ 64)) in
  from_millis (2 ^ 64) <= DURATION_MAX /\ dummy_span g = 0 /\ next_dummy g rng = Panic.
Proof.
  intros g. assert (dummy_span g = 0) as Hs.
  { unfold dummy_span, saturating_sub. subst g. cbn [max_interval min_interval].
    replace (m + from_millis (2 ^ 64) - m) with (from_millis (2 ^ 64)) by lia. reflexivity. }
  split_and!; [by vm_compute|done|].
  unfold next_dummy. rewrite Hs. by destruct (next_u64 rng).
Qed.
