(* ===== verification/Envelope.v ===== *)
(** * Wire envelopes: [veil-sdk/src/envelope.rs]

    A sender's public key followed by an encrypted cell, the body every
    circuit delivers. The theorem shows that wrapping and unwrapping are
    inverse and that only the length decides what is accepted. *)
From S2P Require Import Prelude.
From S2P Require Import Encryption.

Open Scope Z_scope.

Definition ENVELOPE_SIZE : nat := 32 + ENCRYPTED_CELL_SIZE.

Inductive EnvelopeError : Type := WrongLength (expected actual : nat).

(** The lengths of [sender_public] and [encrypted_cell] are those of their
    array types, so both copies are in range. *)
Definition wrap (sender_public encrypted_cell : bytes) : bytes :=
  let out := zeros ENVELOPE_SIZE in
  let out := blit 0 sender_public out in
  blit 32 encrypted_cell out.

Definition unwrap (envelope : bytes) : result EnvelopeError (bytes * bytes) :=
  if decide (length envelope <> ENVELOPE_SIZE)
  then Err (WrongLength ENVELOPE_SIZE (length envelope))
  else
    let pub_bytes := take 32 envelope in
    let cell_bytes := drop 32 envelope in
    Ok (pub_bytes, cell_bytes).

#[global] Arguments wrap : simpl never.
#[global] Arguments unwrap : simpl never.

Lemma wrap_app p c :
  length p = 32%nat -> length c = ENCRYPTED_CELL_SIZE -> wrap p c = p ++ c.
Proof.
  intros Hp Hc. unfold wrap. change (zeros ENVELOPE_SIZE) with ([] ++ zeros ENVELOPE_SIZE).
  rewrite blit_zeros by (done || (unfold ENVELOPE_SIZE; lia)). cbn [app].
  rewrite blit_zeros by (rewrite ?Hp, ?Hc; unfold ENVELOPE_SIZE; lia).
  rewrite Hp, Hc. change (zeros _) with (@nil byte). apply app_nil_r.
Qed.

Lemma length_wrap p c :
  length p = 32%nat -> length c = ENCRYPTED_CELL_SIZE -> length (wrap p c) = ENVELOPE_SIZE.
Proof. intros Hp Hc. rewrite wrap_app, length_app, Hp, Hc by done. done. Qed.

Lemma unwrap_wrap p c :
  length p = 32%nat -> length c = ENCRYPTED_CELL_SIZE -> unwrap (wrap p c) = Ok (p, c).
Proof.
  intros Hp Hc. unfold unwrap. rewrite length_wrap by done. rewrite decide_False by tauto.
  rewrite wrap_app by done. by rewrite take_app_length', drop_app_length' by done.
Qed.

Lemma unwrap_Ok e p c :
  unwrap e = Ok (p, c) -> length p = 32%nat /\ length c = ENCRYPTED_CELL_SIZE /\ e = wrap p c.
Proof.
  unfold unwrap. case_decide as Hl; [done|]. intros [= <- <-].
  assert (length (take 32 e) = 32%nat) as Hp
    by (rewrite length_take; unfold ENVELOPE_SIZE in Hl; lia).
  assert (length (drop 32 e) = ENCRYPTED_CELL_SIZE) as Hc
    by (rewrite length_drop; unfold ENVELOPE_SIZE in Hl; lia).
  split_and!; [done..|]. by rewrite wrap_app, take_drop.
Qed.

(** ** Properties *)

(** Envelopes. Exactly the byte strings of 572 bytes are accepted; each
    is the wrapping of the 32-byte key and the 540-byte cell that unwrapping
    returns, and of no other pair; any other length is reported with the
    expected one. *)
Theorem envelope_roundtrip e p c :
  (unwrap e = Ok (p, c) <->
     length p = 32%nat /\ length c = ENCRYPTED_CELL_SIZE /\ e = wrap p c) /\
  (length e = 572%nat <-> exists q d, unwrap e = Ok (q, d)) /\
  (length e <> 572%nat -> unwrap e = Err (WrongLength 572 (length e))).
Proof.
  split_and!; [split|..].
  - apply unwrap_Ok.
  - intros (Hp & Hc & ->). by apply unwrap_wrap.
  - split; unfold unwrap; [|intros (q & d & E)]; case_decide as Hl; [done|by eauto|done|done].
  - intros Hl. unfold unwrap. by rewrite decide_True.
Qed.
