(* ===== verification/Session.v ===== *)
(** * Sessions: [veil-sdk/src/session.rs]

    A sender's ephemeral key pair and the cell key agreed with a recipient.
    The theorem shows that the recipient derives the same key from its own
    secret and the public key that travels in every envelope. *)
From S2P Require Import Prelude.
From S2P Require Import Interfaces.
From S2P Require Import Cell.
From S2P Require Import Keys.

Open Scope Z_scope.

Definition SESSION_CONTEXT : bytes := String.list_byte_of_string "veil-sdk-session-v1".

Record Session : Type := mkSession { sess_keypair : KeyPair; cell_key : bytes }.

Section session.
Context {R : Type} `{Rng R} `{Crypto}.

Definition establish (recipient_public : bytes) (rng : R) : VeilResult Session * R :=
  let '(keypair, rng) := generate rng in
  let shared := diffie_hellman keypair recipient_public in
  (let? cell_key := derive_key shared SESSION_CONTEXT in
   Ok {| sess_keypair := keypair; cell_key := cell_key |}, rng).

Definition session_public_key (self : Session) : bytes := public_key (sess_keypair self).

(** The key a recipient derives from a sender's public key. *)
Definition recipient_key (identity : KeyPair) (sender_public : bytes) : VeilResult bytes :=
  derive_key (diffie_hellman identity sender_public) SESSION_CONTEXT.

(** A session of this sender with the given recipient. *)
Definition session_with (recipient : KeyPair) (s : Session) : Prop :=
  wf_keypair (sess_keypair s) /\ length (cell_key s) = 32%nat /\
  recipient_key recipient (session_public_key s) = Ok (cell_key s).
End session.

Section properties.
Context {R : Type} `{RngLaws R} `{CryptoLaws}.

Lemma establish_ok recipient (rng : R) :
  wf_keypair recipient ->
  exists s, (establish (public_key recipient) rng).1 = Ok s /\ session_with recipient s.
Proof.
  intros Hr. unfold establish. pose proof (generate_wf rng) as Hg.
  destruct (generate rng) as [kp rng']. cbn [fst] in Hg. cbv beta iota zeta.
  destruct (derive_key_ok (diffie_hellman kp (public_key recipient)) SESSION_CONTEXT) as (k & Hk & Hl).
  exists {| sess_keypair := kp; cell_key := k |}. cbn [fst]. rewrite Hk. split; [done|]. split_and!; [done|done|].
  unfold recipient_key, session_public_key. cbn [sess_keypair cell_key]. by rewrite (diffie_hellman_comm recipient kp), Hk.
Qed.

(** A session can always be established, and the recipient can follow.
    For any recipient key pair, establishing a session succeeds with a
    well-formed ephemeral key pair and a 32-byte cell key, and the recipient
    derives that very key from its own secret and the session's public
    key. *)
Theorem session_key_agreement recipient (rng : R) :
  wf_keypair recipient ->
  exists s, (establish (public_key recipient) rng).1 = Ok s /\
    wf_keypair (sess_keypair s) /\ length (cell_key s) = 32%nat /\
    derive_key (diffie_hellman recipient (session_public_key s)) SESSION_CONTEXT = Ok (cell_key s).
Proof. apply establish_ok. Qed.
End properties.
