(* ===== verification/Client.v ===== *)
(** * Sending: [veil-sdk/src/client.rs], [cover_traffic.rs]

    [VeilClient::send] and one turn of the cover-traffic task. State is the
    random generator and the network. The theorems show what reaches the
    wire for each cell, that the only failure with a usable topology is an I/O
    error, that every other error comes before any network activity, and
    that cover traffic has the shape of real traffic. *)
From S2P Require Import Prelude.
From S2P Require Import RustStd.
From S2P Require Import Interfaces.
From S2P Require Import Cell.
From S2P Require Import Fragmentation.
From S2P Require Import Encryption.
From S2P Require Import Keys.
From S2P Require Import Forwarding.
From S2P Require Import Topology.
From S2P Require Import PathSelection.
From S2P Require Import Circuit.
From S2P Require Import DummyTraffic.
From S2P Require Import Envelope.
From S2P Require Import Session.

Open Scope Z_scope.

(** [ClientError::{Core, Routing, Io}] *)
Inductive ClientError : Type :=
  | Core (e : VeilError)
  | Routing (e : CircuitError)
  | ClientIo (e : io_error).

Record SentCircuit : Type := mkSent { exit_relay_id : bytes }.

Record VeilClient : Type := mkClient { topology : Topology; hop_count : nat }.

Section client.
Context {R W Conn : Type} `{Rng R} `{Crypto} `{HashOrder} `{Net W Conn}.

(** The body of the loop of [send]. *)
Definition send_cell (self : VeilClient) (session : Session) (cell : Cell) (rng : R) (w : W) :
    outcome (result ClientError SentCircuit * R * W) :=
  let '(encrypted, rng) := encrypt_cell (cell_key session) cell rng in
  let! encrypted := encrypted in
  match encrypted with
  | Err e => Done (Err (Core e), rng, w)
  | Ok encrypted =>
      let enveloped := wrap (session_public_key session) encrypted in
      match select_diverse_path (topology self) (hop_count self) rng with
      | (Err e, rng) => Done (Err (Routing (CircuitPathSelection e)), rng, w)
      | (Ok path, rng) =>
          match build_circuit path enveloped rng with
          | (Err e, rng) => Done (Err (Routing e), rng, w)
          | (Ok onion, rng) =>
              match path !! 0%nat, last path with
              | Some first, Some exit =>
                  let first_hop_addr := info_address first in
                  match (stream <-- connect first_hop_addr ;; write_frame stream onion) w with
                  | (Err e, w) => Done (Err (ClientIo e), rng, w)
                  | (Ok tt, w) => Done (Ok {| exit_relay_id := info_id exit |}, rng, w)
                  end
              | _, _ => Panic
              end
          end
      end
  end.

Fixpoint send_cells (self : VeilClient) (session : Session) (cells : list Cell)
    (sent : list SentCircuit) (rng : R) (w : W) :
    outcome (result ClientError (list SentCircuit) * R * W) :=
  match cells with
  | [] => Done (Ok sent, rng, w)
  | cell :: cells' =>
      let! (res, rng, w) := send_cell self session cell rng w in
      match res with
      | Err e => Done (Err e, rng, w)
      | Ok circuit => send_cells self session cells' (sent ++ [circuit]) rng w
      end
  end.

Definition send (self : VeilClient) (session : Session) (message : bytes) (rng : R) (w : W) :
    outcome (result ClientError (list SentCircuit) * R * W) :=
  match fragment_message message rng with
  | (Err e, rng) => Done (Err (Core e), rng, w)
  | (Ok cells, rng) => send_cells self session cells [] rng w
  end.

(** One turn of the loop of the cover-traffic task: the time it sleeps
    first, and the state it leaves. *)
Definition cover_step (topology : Topology) (hop_count : nat)
    (generator : DummyTrafficGenerator) (rng : R) (w : W) : outcome (Z * R * W) :=
  let! (delay, dummy_cell, rng) := next_dummy generator rng in
  let '(throwaway_key, rng) := fill_bytes 32 rng in
  let '(encrypted, rng) := encrypt_cell throwaway_key dummy_cell rng in
  let! encrypted := encrypted in
  match encrypted with
  | Err _ => Done (delay, rng, w)
  | Ok encrypted =>
      let '(fake_sender_bytes, rng) := fill_bytes 32 rng in
      let enveloped := wrap fake_sender_bytes encrypted in
      match select_diverse_path topology hop_count rng with
      | (Err _, rng) => Done (delay, rng, w)
      | (Ok path, rng) =>
          match build_circuit path enveloped rng with
          | (Err _, rng) => Done (delay, rng, w)
          | (Ok onion, rng) =>
              match path !! 0%nat with
              | None => Panic
              | Some first =>
                  match connect (info_address first) w with
                  | (Err _, w) => Done (delay, rng, w)
                  | (Ok stream, w) =>
                      let '(_, w) := write_frame stream onion w in
                      Done (delay, rng, w)
                  end
              end
          end
      end
  end.
End client.

#[global] Arguments send_cell : simpl never.

(** ** Specification *)

(** The network that a client can use: every relay is filed under its id,
    has a routable address and holds the key its entry announces; there are
    enough relays for the hop count, which is between 1 and 60,000 so that a
    packet stays within the 4 GiB of a frame. *)
Record usable `{Crypto} (key_of : RelayInfo -> KeyPair) (self : VeilClient) : Prop := {
  us_wf : wf_topology (topology self);
  us_relay r : get (topology self) (info_id r) = Some r -> routable r /\ owns (key_of r) r;
  us_hops : 1 <= Z.of_nat (hop_count self) <= 60000;
  us_enough : Z.of_nat (hop_count self) <= topology_len (topology self)
}.

(** A path of this client. *)
Definition client_path (self : VeilClient) (path : list RelayInfo) : Prop :=
  length path = hop_count self /\ NoDup (info_id <$> path) /\
  forall r, r ∈ path -> get (topology self) (info_id r) = Some r.

(** As long as [up] holds of the network, the known relays accept connections
    and streams accept data. *)
Record stays_up {W Conn : Type} `{Net W Conn} (self : VeilClient) (up : W -> Prop) : Prop := {
  up_connect r w : up w -> get (topology self) (info_id r) = Some r ->
    exists c w', connect (info_address r) w = (Ok c, w') /\ up w';
  up_write (c : Conn) bs w : up w -> exists w', write_all c bs w = (Ok tt, w') /\ up w'
}.

Section lemmas.
Context {R W Conn : Type} `{RngLaws R} `{CryptoLaws} `{HashOrderLaws} `{NetLaws W Conn}.
Context (key_of : RelayInfo -> KeyPair).

(** The stream [c], dialled to the entry relay of a fresh path, carries one
    frame; followed along the path it surfaces at the exit as an envelope of
    the session whose cell decrypts to [cell]. *)
Definition on_wire (self : VeilClient) (session : Session) (w : W) (cell : Cell)
    (sc : SentCircuit) (c : Conn) : Prop :=
  exists path onion enc,
    client_path self path /\
    info_id <$> last path = Some (exit_relay_id sc) /\
    info_address <$> head path = Some (dialled c) /\
    outbox w c = frame_bytes onion /\
    len onion = circuit_size path (wrap (session_public_key session) enc) /\
    follow (map key_of path) onion =
      Some (info_address <$> tail path, wrap (session_public_key session) enc) /\
    length enc = ENCRYPTED_CELL_SIZE /\
    decrypt_cell (cell_key session) enc = Done (Ok cell).

Lemma hops_size_le hops :
  Forall routable hops -> hops_size hops <= 65598 * len hops.
Proof.
  induction 1 as [|r hops [_ Hr] _ IH]; [done|]. cbn [hops_size].
  change (r :: hops) with ([r] ++ hops). rewrite len_app. unfold u16_MAX, len in *. cbn in *. lia.
Qed.

Lemma path_circuit_size self path body :
  usable key_of self -> client_path self path -> len body = 572 -> circuit_size path body < 2 ^ 32.
Proof.
  intros Hu (Hl & _ & Hg) Hb. unfold circuit_size.
  assert (Forall routable (tail path)) as Hr.
  { apply Forall_forall. intros r Hr. apply (us_relay _ _ Hu r), Hg.
    destruct path; [done|]. by right. }
  apply hops_size_le in Hr. pose proof (us_hops _ _ Hu).
  assert (len (tail path) <= len path) by (unfold len; destruct path; cbn; lia).
  unfold len in *. lia.
Qed.

Lemma diverse_client_path self (rng : R) :
  usable key_of self ->
  exists path rng', select_diverse_path (topology self) (hop_count self) rng = (Ok path, rng') /\
    client_path self path.
Proof.
  intros Hu. pose proof (length_all (topology self)) as Hl. pose proof (us_enough _ _ Hu).
  unfold len in Hl.
  destruct (select_diverse_path_ok (topology self) (hop_count self) rng (us_wf _ _ Hu))
    as (path & E & Hp); [lia|].
  destruct (select_diverse_path _ _ rng) as [r rng'] eqn:Es. cbn in E. subst r.
  exists path, rng'. by split.
Qed.

(** Building a circuit for an envelope over a path of this client. *)
Lemma client_circuit_ok self path body (rng : R) :
  usable key_of self -> client_path self path -> len body = 572 ->
  exists onion rng', build_circuit path body rng = (Ok onion, rng') /\
    follow (map key_of path) onion = Some (info_address <$> tail path, body) /\
    len onion = circuit_size path body.
Proof.
  intros Hu Hp Hb. pose proof Hp as (Hl & _ & Hg). apply build_circuit_ok.
  - intros ->. pose proof (us_hops _ _ Hu). cbn in Hl. lia.
  - apply Forall2_fmap_l, Forall_Forall2_diag, Forall_forall. intros r Hr.
    by apply (us_relay _ _ Hu r), Hg.
  - apply Forall_forall. intros r Hr. by apply (us_relay _ _ Hu r), Hg.
  - by eapply path_circuit_size.
Qed.

(** Dialling and writing one frame: what is on the new stream, and the
    others untouched. *)
Lemma dial_and_write addr body w :
  exists r w', (stream <-- connect addr ;; write_frame stream body) w = (r, w') /\
    (forall s, live w s -> live w' s /\ outbox w' s = outbox w s) /\
    (r = Ok tt -> exists c, live w' c /\ ~ live w c /\ dialled c = addr /\
       outbox w' c = frame_bytes body).
Proof.
  unfold io_bind. destruct (connect addr w) as [[c|e] w1] eqn:E1.
  2: { exists (Err e), w1. split_and!; [done| |done].
       intros s Hs. by destruct (connect_fresh _ _ _ _ s E1 Hs) as (? & _ & ? & _). }
  destruct (connect_ok _ _ _ _ E1) as (Hlc & Hoc & Hdc).
  assert (~ live w c) as Hfresh
    by (intros Hs; by destruct (connect_fresh _ _ _ _ c E1 Hs) as (_ & _ & _ & [])).
  destruct (write_frame c body w1) as [r w2] eqn:E2. exists r, w2. split_and!; [done| |].
  - intros s Hs. destruct (connect_fresh _ _ _ _ s E1 Hs) as (Hl1 & _ & Ho1 & _).
    split; [by eapply write_frame_untouched|].
    rewrite (write_frame_outbox_ne _ _ _ _ _ s E2); [done|]. by intros ->.
  - intros ->. exists c. split_and!; [by eapply write_frame_untouched|done|done|].
    by rewrite (write_frame_ok _ _ _ _ E2), Hoc.
Qed.

Lemma dial_and_write_up self up r body w :
  stays_up self up -> up w -> get (topology self) (info_id r) = Some r ->
  exists w', (stream <-- connect (info_address r) ;; write_frame stream body) w = (Ok tt, w') /\ up w'.
Proof.
  intros Hup Hw Hr. destruct (up_connect _ _ Hup r w Hw Hr) as (c & w1 & E1 & Hw1).
  destruct (up_write _ _ Hup c (to_be_bytes 4 (as_u32 (len body))) w1 Hw1) as (w2 & E2 & Hw2).
  destruct (up_write _ _ Hup c body w2 Hw2) as (w3 & E3 & Hw3).
  exists w3. unfold io_bind, write_frame. rewrite E1. unfold io_bind. by rewrite E2, E3.
Qed.

Lemma client_path_ends self path :
  usable key_of self -> client_path self path ->
  exists first exit, path !! 0%nat = Some first /\ head path = Some first /\ last path = Some exit.
Proof.
  intros Hu (Hl & _ & _). pose proof (us_hops _ _ Hu).
  destruct path as [|first path]; [cbn in Hl; lia|].
  destruct (last (first :: path)) as [exit|] eqn:E; [by exists first, exit|].
  by apply last_None in E.
Qed.

Lemma send_cell_ok self session cell (rng : R) w :
  usable key_of self -> length (session_public_key session) = 32%nat -> wf_cell cell ->
  exists r rng' w', send_cell self session cell rng w = Done (r, rng', w') /\
    (forall s, live w s -> live w' s /\ outbox w' s = outbox w s) /\
    match r with
    | Ok sc => exists c, live w' c /\ ~ live w c /\ on_wire self session w' cell sc c
    | Err e => exists e', e = ClientIo e'
    end /\
    (forall up, stays_up self up -> up w -> up w' /\ exists sc, r = Ok sc).
Proof.
  intros Hu Hpk Hc. unfold send_cell.
  destruct (decrypt_encrypt (cell_key session) cell rng Hc) as (enc & -> & Henc & Hdec).
  set (rng1 := (fill_bytes _ rng).2). set (body := wrap _ enc).
  assert (len body = 572) as Hb by (unfold len, body; by rewrite length_wrap).
  destruct (diverse_client_path self rng1 Hu) as (path & rng2 & -> & Hp).
  destruct (client_circuit_ok self path body rng2 Hu Hp Hb) as (onion & rng3 & -> & Hf & Hl).
  destruct (client_path_ends self path Hu Hp) as (first & exit & -> & Hh & Hx). rewrite Hx.
  destruct (dial_and_write (info_address first) onion w) as (r & w' & E & Hk & Hr). cbv zeta.
  assert (forall up, stays_up self up -> up w -> r = Ok tt /\ up w') as Hup.
  { intros up Hup Hw. destruct (dial_and_write_up self up first onion w Hup Hw) as (w2 & E2 & Hw2).
    - apply Hp. destruct path; [done|]. injection Hh as ->. by left.
    - rewrite E in E2. by injection E2 as -> ->. }
  rewrite E. destruct r as [[]|e].
  - eexists _, _, _. split_and!; [done|done| |].
    + destruct (Hr eq_refl) as (c & ? & ? & Hd & Ho).
      exists c. split_and!; [done|done|]. exists path, onion, enc. rewrite Hx, Hh, Hd. by split_and!.
    + intros up Hu1 Hu2. split; [by eapply Hup|by eexists].
  - eexists _, _, _. split_and!; [done|done|by eexists|].
    intros up Hu1 Hu2. by destruct (Hup up Hu1 Hu2).
Qed.

Lemma on_wire_later self session w w' cell sc c :
  on_wire self session w cell sc c -> outbox w' c = outbox w c ->
  on_wire self session w' cell sc c.
Proof.
  intros (path & onion & enc & ? & ? & ? & ? & ?) Ho. exists path, onion, enc. by rewrite Ho.
Qed.

Lemma send_cells_ok self session cells sent (rng : R) w :
  usable key_of self -> length (session_public_key session) = 32%nat -> Forall wf_cell cells ->
  exists r rng' w' k scs conns,
    send_cells self session cells sent rng w = Done (r, rng', w') /\
    (forall s, live w s -> live w' s /\ outbox w' s = outbox w s) /\
    NoDup conns /\ Forall (fun c => live w' c /\ ~ live w c) conns /\
    Forall3 (on_wire self session w') (take k cells) scs conns /\
    ((k = length cells /\ r = Ok (sent ++ scs)) \/
     ((k < length cells)%nat /\ exists e, r = Err (ClientIo e))) /\
    (forall up, stays_up self up -> up w -> exists scs, r = Ok scs).
Proof.
  intros Hu Hpk Hcs. revert sent rng w.
  induction Hcs as [|cell cells Hc _ IH]; intros sent rng w; cbn [send_cells].
  - exists (Ok sent), rng, w, 0%nat, [], []. rewrite app_nil_r.
    split_and!; [done|done|constructor|constructor|constructor|by left|by eexists].
  - destruct (send_cell_ok self session cell rng w Hu Hpk Hc) as (r & rng1 & w1 & -> & Hk1 & Hr & Hup1).
    destruct r as [sc|e].
    2: { destruct Hr as [e' ->]. exists (Err (ClientIo e')), rng1, w1, 0%nat, [], [].
         split_and!; [done|done|constructor|constructor|constructor|right|].
         - cbn. split; [lia|by eexists].
         - intros up Hu1 Hu2. by destruct (Hup1 up Hu1 Hu2) as [_ [sc ?]]. }
    destruct Hr as (c & Hlc & Hfc & Hw).
    destruct (IH (sent ++ [sc]) rng1 w1)
      as (r & rng2 & w2 & k & scs & conns & -> & Hk2 & Hnd & Hconns & Hall & Hr & Hup2).
    exists r, rng2, w2, (S k), (sc :: scs), (c :: conns). rewrite <- app_assoc in Hr.
    split_and!; [done| | | | | |].
    + intros s Hs. destruct (Hk1 s Hs) as [Hs1 <-]. by apply Hk2.
    + constructor; [|done]. intros Hin.
      by destruct (proj1 (Forall_forall _ _) Hconns c Hin) as [_ []].
    + constructor; [split; [by apply Hk2|done]|]. eapply Forall_impl; [done|].
      intros c' [? Hn]. split; [done|]. intros Hs. by apply Hn, Hk1.
    + cbn [take]. constructor; [|done]. eapply on_wire_later; [done|by apply Hk2].
    + cbn [length]. destruct Hr as [[-> ->]|[Hk He]]; [by left|right]. split; [lia|done].
    + intros up Hu1 Hu2. apply (Hup2 up); [done|by apply Hup1].
Qed.
Lemma send_ok self session message (rng : R) (w : W) :
  usable key_of self -> length (session_public_key session) = 32%nat ->
  1 <= len message <= MAX_MESSAGE_SIZE ->
  exists r rng' w' id cells k scs conns,
    send self session message rng w = Done (r, rng', w') /\
    fragments_of id message cells /\
    NoDup conns /\ Forall (fun c => live w' c /\ ~ live w c) conns /\
    Forall3 (on_wire self session w') (take k cells) scs conns /\
    (forall s, live w s -> live w' s /\ outbox w' s = outbox w s) /\
    ((k = length cells /\ r = Ok scs) \/
     ((k < length cells)%nat /\ exists e, r = Err (ClientIo e))) /\
    (forall up, stays_up self up -> up w -> r = Ok scs).
Proof.
  intros Hu Hpk Hm. unfold send.
  destruct (fragment_message_ok message rng) as (cells & -> & Hfr & _);
    [by intros ->; unfold len in Hm; cbn in Hm; lia|lia|].
  destruct (send_cells_ok self session cells [] (fill_bytes 16 rng).2 w Hu Hpk
              (fr_wf _ _ _ Hfr)) as (r & rng' & w' & k & scs & conns & E & Hk & Hnd & Hc & Hall & Hr & Hup).
  exists r, rng', w', (fill_bytes 16 rng).1, cells, k, scs, conns. split_and!; try done.
  intros up Hu1 Hu2. destruct (Hup up Hu1 Hu2) as [scs' ->]. by destruct Hr as [[_ ?]|[_ [e ?]]].
Qed.
End lemmas.

(** ** Properties *)

Section properties.
Context {R W Conn : Type} `{RngLaws R} `{CryptoLaws} `{HashOrderLaws} `{NetLaws W Conn}.
Context (key_of : RelayInfo -> KeyPair).

(** C15: what [send] puts on the wire. With a usable topology and a message
    of 1 to [MAX_MESSAGE_SIZE] bytes, [send] never panics; for each cell in
    order it dials a new stream to the entry relay of a fresh path of distinct
    relays and writes one frame there, which the relays of the path, each
    peeling with its own key, turn into an envelope at the reported exit whose
    cell decrypts to that cell under the session key. It returns one exit per
    cell when all were sent; the only error is an I/O error, after a prefix
    of the cells, and there is none while the relays are up. Streams that were already open are not written to. *)
Theorem client_send_spec self session message (rng : R) (w : W) :
  usable key_of self -> length (session_public_key session) = 32%nat ->
  1 <= len message <= MAX_MESSAGE_SIZE ->
  exists r rng' w' id cells k scs conns,
    send self session message rng w = Done (r, rng', w') /\
    fragments_of id message cells /\
    NoDup conns /\ Forall (fun c => live w' c /\ ~ live w c) conns /\
    Forall3 (on_wire key_of self session w') (take k cells) scs conns /\
    (forall s, live w s -> live w' s /\ outbox w' s = outbox w s) /\
    ((k = length cells /\ r = Ok scs) \/
     ((k < length cells)%nat /\ exists e, r = Err (ClientIo e))) /\
    (forall up, stays_up self up -> up w -> r = Ok scs).
Proof. apply send_ok. Qed.

Lemma send_refuses self session message (rng : R) (w : W) :
  wf_topology (topology self) ->
  exists e rng',
    (len message = 0 \/ len message > MAX_MESSAGE_SIZE ->
       send self session message rng w =
         Done (Err (Core (MessageTooLarge (len message) MAX_MESSAGE_SIZE)), rng, w)) /\
    (1 <= len message <= MAX_MESSAGE_SIZE ->
       hop_count self = 0%nat \/ Z.of_nat (hop_count self) > topology_len (topology self) ->
       send self session message rng w = Done (Err (Routing e), rng', w) /\
       match e with
       | EmptyPath => hop_count self = 0%nat
       | CircuitPathSelection (InsufficientRelays needed available) =>
           needed = hop_count self /\ Z.of_nat available = topology_len (topology self)
       | CircuitOnion _ => False
       end).
Proof.
  intros Ht. destruct (decide (1 <= len message <= MAX_MESSAGE_SIZE)) as [Hm|Hm].
  2: { exists EmptyPath, rng. split; [|done]. intros _. unfold send, fragment_message.
       destruct (decide (message = [])) as [->|Hne]; [done|].
       rewrite decide_True; [done|]. pose proof (len_nonneg message).
       pose proof (proj1 (len_0 message)). assert (len message <> 0) by tauto. lia. }
  destruct (fragment_message_ok message rng) as (cells & E & Hfr & _);
    [by intros ->; unfold len in Hm; cbn in Hm; lia|lia|].
  destruct (decide (hop_count self = 0%nat \/
                    Z.of_nat (hop_count self) > topology_len (topology self))) as [Hh|Hh].
  2: { exists EmptyPath, rng. split; [lia|]. by intros _ ?. }
  unfold send. rewrite E. pose proof (fr_nonempty _ _ _ Hfr) as Hne.
  pose proof (fr_wf _ _ _ Hfr) as Hwf. destruct cells as [|cell cells]; [done|].
  apply Forall_cons in Hwf as [Hc _]. cbn [send_cells]. unfold send_cell.
  set (rng1 := (fill_bytes 16 rng).2).
  destruct (decrypt_encrypt (cell_key session) cell rng1 Hc) as (enc & -> & _ & _).
  set (rng2 := (fill_bytes _ rng1).2). cbv zeta.
  pose proof (length_all (topology self)) as Hl. unfold len in Hl.
  destruct (decide (length (all (topology self)) < hop_count self)%nat) as [Hs|Hs].
  - eexists (CircuitPathSelection (InsufficientRelays _ _)), rng2.
    split; [lia|]. intros _ _. unfold select_diverse_path. rewrite decide_True by done.
    split; [done|]. by split.
  - destruct Hh as [Hz|Hh]; [|lia].
    destruct (select_diverse_path_ok (topology self) (hop_count self) rng2 Ht ltac:(lia))
      as (path & Ep & Hpl & _).
    destruct (select_diverse_path _ _ rng2) as [res rng3]. cbn in Ep. subst res.
    rewrite Hz in Hpl. destruct path; [|done].
    exists EmptyPath, rng3. split; [lia|]. by intros _ _.
Qed.

(** C38: every other error comes before any network activity. An empty or
    oversized message, a hop count above the number of relays, and a hop
    count of zero are refused with their own errors, and the network is
    untouched. *)
Theorem client_send_refuses self session message (rng : R) (w : W) :
  wf_topology (topology self) ->
  exists e rng',
    (len message = 0 \/ len message > MAX_MESSAGE_SIZE ->
       send self session message rng w =
         Done (Err (Core (MessageTooLarge (len message) MAX_MESSAGE_SIZE)), rng, w)) /\
    (1 <= len message <= MAX_MESSAGE_SIZE ->
       hop_count self = 0%nat \/ Z.of_nat (hop_count self) > topology_len (topology self) ->
       send self session message rng w = Done (Err (Routing e), rng', w) /\
       match e with
       | EmptyPath => hop_count self = 0%nat
       | CircuitPathSelection (InsufficientRelays needed available) =>
           needed = hop_count self /\ Z.of_nat available = topology_len (topology self)
       | CircuitOnion _ => False
       end).
Proof. apply send_refuses. Qed.

(** Cover traffic has the shape of real traffic. Each turn of the
    cover-traffic task, for a usable topology and a valid generator, waits
    within the configured range and makes exactly one attempt to dial the
    entry relay of a fresh path and write one frame; like a real send, the
    frame surfaces at the exit as a 572-byte envelope, and its size depends
    on the path alone; errors are swallowed and nothing panics. *)
Theorem cover_traffic_shape self g (rng : R) (w : W) :
  usable key_of self -> wf_duration (min_interval g) -> wf_duration (max_interval g) ->
  max_interval g - min_interval g < from_millis (2 ^ 64) ->
  exists delay rng' path first onion envelope,
    cover_step (topology self) (hop_count self) g rng w =
      Done (delay, rng', ((stream <-- connect (info_address first) ;; write_frame stream onion) w).2) /\
    min_interval g <= delay /\ (min_interval g < max_interval g -> delay < max_interval g) /\
    client_path self path /\ head path = Some first /\
    follow (map key_of path) onion = Some (info_address <$> tail path, envelope) /\
    length envelope = ENVELOPE_SIZE /\
    len onion = 61 + 572 + hops_size (tail path).
Proof.
  intros Hu Hmin Hmax Hd.
  destruct (next_dummy_ok g rng Hmin Hmax Hd) as (delay & c & rng1 & E & Hlo & Hhi & _ & Hc & _).
  unfold cover_step. rewrite E.
  destruct (fill_bytes 32 rng1) as [key rng2].
  destruct (decrypt_encrypt key c rng2 Hc) as (enc & -> & Henc & _).
  pose proof (fill_bytes_length 32 (fill_bytes Encryption.NONCE_SIZE rng2).2) as Hpk.
  destruct (fill_bytes 32 _) as [pk rng3]. cbn [fst] in Hpk. cbv zeta.
  set (body := wrap pk enc). assert (length body = ENVELOPE_SIZE) as Hb by by apply length_wrap.
  assert (len body = 572) as Hb' by (unfold len; by rewrite Hb).
  destruct (diverse_client_path key_of self rng3 Hu) as (path & rng4 & -> & Hp).
  destruct (client_circuit_ok key_of self path body rng4 Hu Hp Hb') as (onion & rng5 & -> & Hf & Hl).
  destruct (client_path_ends key_of self path Hu Hp) as (first & exit & -> & Hh & _).
  exists delay, rng5, path, first, onion, body.
  rewrite Hl. unfold circuit_size. rewrite Hb'. split_and!; try done.
  unfold io_bind. destruct (connect _ w) as [[s|e] w1]; [|done].
  by destruct (write_frame s onion w1).
Qed.
End properties.
