(* ===== verification/CoverTraffic.v ===== *)
(** * Cover traffic over time: [veil-sdk/src/cover_traffic.rs]

    The task that [VeilClient::spawn_cover_traffic] starts, for any number of
    turns of its loop, while the network does what it likes between them. *)
From S2P Require Import Prelude.
From S2P Require Import Interfaces.
From S2P Require Import Keys.
From S2P Require Import Forwarding.
From S2P Require Import Topology.
From S2P Require Import PathSelection.
From S2P Require Import Circuit.
From S2P Require Import DummyTraffic.
From S2P Require Import Envelope.
From S2P Require Import Client.

Open Scope Z_scope.

Definition VeilClient_new (topology : Topology) (hop_count : nat) : VeilClient :=
  {| Client.topology := topology; Client.hop_count := hop_count |}.

Definition DummyTrafficGenerator_new (min_interval max_interval : Z) : DummyTrafficGenerator :=
  {| DummyTraffic.min_interval := min_interval; DummyTraffic.max_interval := max_interval |}.

Section cover.
Context {R W Conn : Type} `{Rng R} `{Crypto} `{HashOrder} `{Net W Conn}.

(** The loop of the task, from one turn to the next: [ws] are the states in
    which its turns find the network, and a turn gives the time it slept and
    the state it left. The task runs until it is aborted, after as many turns
    as [ws] has. *)
Fixpoint cover_loop (topology : Topology) (hop_count : nat) (generator : DummyTrafficGenerator)
    (ws : list W) (rng : R) : outcome (list (Z * W) * R) :=
  match ws with
  | [] => Done ([], rng)
  | w :: ws' =>
      let! (delay, rng, w) := cover_step topology hop_count generator rng w in
      let! (turns, rng) := cover_loop topology hop_count generator ws' rng in
      Done ((delay, w) :: turns, rng)
  end.

Definition cover_spawn (topology : Topology) (hop_count : nat) (min_interval max_interval : Z)
    (ws : list W) (rng : R) : outcome (list (Z * W) * R) :=
  let generator := DummyTrafficGenerator_new min_interval max_interval in
  cover_loop topology hop_count generator ws rng.

Definition spawn_cover_traffic (self : VeilClient) (min_interval max_interval : Z)
    (ws : list W) (rng : R) : outcome (list (Z * W) * R) :=
  cover_spawn (topology self) (hop_count self) min_interval max_interval ws rng.

(** A turn of a client's task: one attempt to send one packet that no relay can
    tell from a packet of [send]. When the dial and the write succeed, a new stream
    to the entry relay carries exactly that packet. *)
Definition covers (key_of : RelayInfo -> KeyPair) (self : VeilClient) (min_interval max_interval : Z)
    (w : W) (turn : Z * W) : Prop :=
  exists path first onion envelope,
    turn.2 = ((stream <-- connect (info_address first) ;; write_frame stream onion) w).2 /\
    min_interval <= turn.1 /\ (min_interval < max_interval -> turn.1 < max_interval) /\
    client_path self path /\ head path = Some first /\
    follow (map key_of path) onion = Some (info_address <$> tail path, envelope) /\
    length envelope = ENVELOPE_SIZE /\ len onion = 61 + 572 + hops_size (tail path) /\
    forall stream w1 w2, connect (info_address first) w = (Ok stream, w1) -> write_frame stream onion w1 = (Ok tt, w2) ->
      turn.2 = w2 /\ dialled stream = info_address first /\ outbox w2 stream = frame_bytes onion.

(** How long the turns slept altogether. *)
Definition slept (turns : list (Z * W)) : Z := foldr Z.add 0 (map fst turns).
End cover.

(** ** Properties *)

Section properties.
Context {R W Conn : Type} `{RngLaws R} `{CryptoLaws} `{HashOrderLaws} `{NetLaws W Conn}.
Context (key_of : RelayInfo -> KeyPair).

Lemma slept_bounds self lo hi (ws : list W) turns :
  Forall2 (covers key_of self lo hi) ws turns -> lo < hi ->
  len ws * lo <= slept turns /\ (ws <> [] -> slept turns < len ws * hi).
Proof.
  intros Hall Hlt. induction Hall as [|w turn ws turns Hw Hws IH]; [done|].
  destruct Hw as (_ & _ & _ & _ & _ & Hlo & Hhi & _). specialize (Hhi Hlt).
  unfold slept, len in *. cbn [map foldr length] in *. destruct IH as [IHlo IHhi].
  split; [lia|]. intros _. destruct ws as [|w2 ws]; [inversion Hws; subst; cbn; lia|].
  specialize (IHhi ltac:(done)). lia.
Qed.

Lemma cover_loop_ok self g (ws : list W) : forall rng : R,
  usable key_of self -> wf_duration (min_interval g) -> wf_duration (max_interval g) ->
  max_interval g - min_interval g < from_millis (2 ^ 64) ->
  exists turns rng', cover_loop (topology self) (hop_count self) g ws rng = Done (turns, rng') /\
    Forall2 (covers key_of self (min_interval g) (max_interval g)) ws turns.
Proof.
  induction ws as [|w ws IH]; intros rng Hu Hmin Hmax Hd; [by eexists _, _|].
  destruct (cover_traffic_shape key_of self g rng w Hu Hmin Hmax Hd)
    as (delay & rng1 & path & first & onion & env & E & Hlo & Hhi & Hp & Hh & Hf & He & Hl).
  destruct (IH rng1 Hu Hmin Hmax Hd) as (turns & rng2 & Er & Hall).
  eexists _, rng2. cbn [cover_loop]. rewrite E, Er. split; [reflexivity|].
  constructor; [|done]. exists path, first, onion, env. split_and!; try done.
  intros stream w1 w2 Hc Hw. destruct (connect_ok _ _ _ _ Hc) as (_ & Ho & Hdl). split_and!; [|done|].
  - cbn [snd]. unfold io_bind. by rewrite Hc, Hw.
  - by rewrite (write_frame_ok _ _ _ _ Hw), Ho.
Qed.

(** C33: the cover-traffic task. Over a usable topology and with a valid, not
    empty range of intervals less than 2^64 milliseconds wide (for other ranges the
    task can panic, see [DummyTraffic.dummy_span_truncates]), the task a client
    spawns never panics and never stops by itself. However the network changes in
    between, each of its turns makes one attempt to dial the entry relay of a fresh
    path and to write one frame, which surfaces at the exit as a 572-byte envelope
    like those of [send] and has the size of a packet of [send] over that path.
    When the network lets the attempt succeed, a new stream to that relay carries
    exactly this frame. Any [n] turns sleep at least [n] times the minimum and less
    than [n] times the maximum. *)
Theorem cover_task_runs t hops lo hi (ws : list W) (rng : R) :
  let self := VeilClient_new t hops in
  usable key_of self -> wf_duration lo -> wf_duration hi -> lo < hi -> hi - lo < from_millis (2 ^ 64) ->
  exists turns rng', spawn_cover_traffic self lo hi ws rng = Done (turns, rng') /\
    Forall2 (covers key_of self lo hi) ws turns /\
    len ws * lo <= slept turns /\ (ws <> [] -> slept turns < len ws * hi).
Proof.
  intros self Hu Hlo Hhi Hlt Hd.
  destruct (cover_loop_ok self (DummyTrafficGenerator_new lo hi) ws rng Hu Hlo Hhi Hd) as (turns & rng' & E & Hall).
  exists turns, rng'. split; [exact E|]. split; [exact Hall|]. by eapply slept_bounds.
Qed.
End properties.
