(* ===== verification/Receiver.v ===== *)
(** * Receiving: [veil-sdk/src/receiver.rs]

    Polling mailboxes, decrypting what is addressed to an identity and
    reassembling messages across polls. The theorems show that [receive] is
    the decryption of everything pulled, in order, that one failed mailbox
    loses what was already drained from the others, and that any number of
    polls recovers a message whose cells were delivered in any order and to
    any mailboxes. *)
From S2P Require Import Prelude.
From S2P Require Import Interfaces.
From S2P Require Import Cell.
From S2P Require Import Fragmentation.
From S2P Require Import Reassembly.
From S2P Require Import Encryption.
From S2P Require Import Keys.
From S2P Require Import Forwarding.
From S2P Require Import PullListener.
From S2P Require Import Envelope.
From S2P Require Import Session.

Open Scope Z_scope.

(** [ReceiveError::Io] *)
Inductive ReceiveError : Type := ReceiveIo (e : io_error).

Section receive.
Context {W Conn : Type} `{Crypto} `{Net W Conn}.

(** The body of the inner loop of [receive]. *)
Definition receive_envelope (ident : KeyPair) (raw : bytes) (decrypted : list Cell) :
    outcome (list Cell) :=
  match unwrap raw with
  | Err _ => Done decrypted
  | Ok (sender_public, encrypted) =>
      let shared := diffie_hellman ident sender_public in
      match derive_key shared SESSION_CONTEXT with
      | Err _ => Done decrypted
      | Ok key =>
          let! res := decrypt_cell key encrypted in
          match res with
          | Ok cell => Done (decrypted ++ [cell])
          | Err _ => Done decrypted
          end
      end
  end.

Fixpoint receive_envelopes (ident : KeyPair) (envelopes : list bytes) (decrypted : list Cell) :
    outcome (list Cell) :=
  match envelopes with
  | [] => Done decrypted
  | raw :: envelopes' =>
      let! decrypted := receive_envelope ident raw decrypted in
      receive_envelopes ident envelopes' decrypted
  end.

Fixpoint receive_loop (ident : KeyPair) (mailbox_addrs : list bytes) (decrypted : list Cell)
    (w : W) : outcome (result ReceiveError (list Cell) * W) :=
  match mailbox_addrs with
  | [] => Done (Ok decrypted, w)
  | addr :: mailbox_addrs' =>
      match pull addr w with
      | (Err e, w) => Done (Err (ReceiveIo e), w)
      | (Ok envelopes, w) =>
          let! decrypted := receive_envelopes ident envelopes decrypted in
          receive_loop ident mailbox_addrs' decrypted w
      end
  end.

Definition receive (ident : KeyPair) (mailbox_addrs : list bytes) (w : W) :
    outcome (result ReceiveError (list Cell) * W) :=
  receive_loop ident mailbox_addrs [] w.
End receive.

Record Receiver : Type := mkReceiver {
  recv_identity : KeyPair;
  recv_reassembler : Reassembler
}.

Section receiver.
Context {W Conn : Type} `{Crypto} `{Net W Conn}.

Definition Receiver_new (ident : KeyPair) : Receiver :=
  {| recv_identity := ident; recv_reassembler := Reassembly.new |}.

(** The loop of [poll]. *)
Fixpoint poll_cells (cells : list Cell) (reassembler : Reassembler) (completed : list bytes) :
    outcome (list bytes * Reassembler) :=
  match cells with
  | [] => Done (completed, reassembler)
  | cell :: cells' =>
      let! (res, reassembler) := Reassembly.insert reassembler cell in
      match res with
      | Ok (Some message) => poll_cells cells' reassembler (completed ++ [message])
      | _ => poll_cells cells' reassembler completed
      end
  end.

Definition poll (self : Receiver) (mailbox_addrs : list bytes) (w : W) :
    outcome (result ReceiveError (list bytes) * Receiver * W) :=
  let! (res, w) := receive (recv_identity self) mailbox_addrs w in
  match res with
  | Err e => Done (Err e, self, w)
  | Ok cells =>
      let! (completed, reassembler) := poll_cells cells (recv_reassembler self) [] in
      Done (Ok completed,
            {| recv_identity := recv_identity self; recv_reassembler := reassembler |}, w)
  end.

Definition receiver_pending_count (self : Receiver) : Z := pending_count (recv_reassembler self).

(** ** Specification *)

(** What one envelope means to an identity. *)
Definition opened (ident : KeyPair) (raw : bytes) : option Cell :=
  match unwrap raw with
  | Err _ => None
  | Ok (sender_public, encrypted) =>
      match recipient_key ident sender_public with
      | Err _ => None
      | Ok key => match decrypt_cell key encrypted with
                  | Done (Ok cell) => Some cell
                  | _ => None
                  end
      end
  end.

(** Pulling from each address in turn: all the batches, or the first error. *)
Fixpoint pull_each (addrs : list bytes) (w : W) : io_result (list bytes) * W :=
  match addrs with
  | [] => (Ok [], w)
  | addr :: addrs' =>
      match pull addr w with
      | (Err e, w) => (Err e, w)
      | (Ok batch, w) =>
          match pull_each addrs' w with
          | (Err e, w) => (Err e, w)
          | (Ok rest, w) => (Ok (batch ++ rest), w)
          end
      end
  end.

(** The messages a run of insertions completed. *)
Definition completed_messages (outs : list (VeilResult (option bytes))) : list bytes :=
  omap (fun r => match r with Ok (Some m) => Some m | _ => None end) outs.
End receiver.

Section lemmas.
Context {W Conn : Type} `{CryptoLaws} `{Net W Conn}.

Lemma receive_envelope_spec ident raw acc :
  receive_envelope ident raw acc = Done (acc ++ option_list (opened ident raw)).
Proof.
  unfold receive_envelope, opened, recipient_key. destruct (unwrap raw) as [[p c]|e] eqn:E;
    [|by rewrite app_nil_r].
  destruct (derive_key _ _) as [key|]; [|by rewrite app_nil_r].
  apply unwrap_Ok in E as (_ & Hc & _).
  destruct (decrypt_cell_cases key c Hc) as [[_ ->]|(m & _ & _ & ->)]; [by rewrite app_nil_r|].
  destruct (from_bytes m); [done|by rewrite app_nil_r].
Qed.

Lemma receive_envelopes_spec ident raws acc :
  receive_envelopes ident raws acc = Done (acc ++ omap (opened ident) raws).
Proof.
  revert acc. induction raws as [|raw raws IH]; intros acc; cbn [receive_envelopes].
  - by rewrite app_nil_r.
  - rewrite receive_envelope_spec, IH, <- app_assoc. do 2 f_equal. cbn.
    by destruct (opened ident raw).
Qed.

Lemma receive_loop_spec ident addrs acc w :
  receive_loop ident addrs acc w =
    Done (match pull_each addrs w with
          | (Ok raws, w') => (Ok (acc ++ omap (opened ident) raws), w')
          | (Err e, w') => (Err (ReceiveIo e), w')
          end).
Proof.
  revert acc w. induction addrs as [|a addrs IH]; intros acc w; cbn [receive_loop pull_each].
  - by rewrite app_nil_r.
  - destruct (pull a w) as [[batch|e] w1]; [|done].
    rewrite receive_envelopes_spec, IH. destruct (pull_each addrs w1) as [[rest|e] w2]; [|done].
    by rewrite omap_app, app_assoc.
Qed.

Lemma opened_wf ident raw c : opened ident raw = Some c -> wf_cell c.
Proof.
  unfold opened. destruct (unwrap raw) as [[p d]|] eqn:Eu; [|done].
  destruct (recipient_key ident p) as [key|]; [|done].
  apply unwrap_Ok in Eu as (_ & Hd & _).
  destruct (decrypt_cell_cases key d Hd) as [[_ ->]|(m & _ & Hm & ->)]; [done|].
  destruct (from_bytes m) as [c'|] eqn:Ec; [|done]. intros [= <-].
  by destruct (parsed_layout m c' Hm Ec).
Qed.

Lemma opened_all_wf ident raws : Forall wf_cell (omap (opened ident) raws).
Proof.
  apply Forall_forall. intros c (raw & _ & Hr)%list_elem_of_omap. by eapply opened_wf.
Qed.

(** A session's envelope opens for its recipient. *)
Lemma opened_wrap recipient s enc cell :
  session_with recipient s -> length enc = ENCRYPTED_CELL_SIZE ->
  decrypt_cell (cell_key s) enc = Done (Ok cell) ->
  opened recipient (wrap (session_public_key s) enc) = Some cell.
Proof.
  intros (Hk & _ & Hr) He Hd. unfold opened.
  rewrite unwrap_wrap; [by rewrite Hr, Hd| |done]. by apply wf_public_length.
Qed.
End lemmas.

(** The loop of [poll] is a run of insertions. *)
Lemma poll_cells_spec cells r completed :
  poll_cells cells r completed =
    match insert_all r cells with
    | Done (outs, r') => Done (completed ++ completed_messages outs, r')
    | Panic => Panic
    end.
Proof.
  revert r completed. induction cells as [|c cells IH]; intros r completed; cbn.
  - by rewrite app_nil_r.
  - destruct (Reassembly.insert r c) as [[res r1]|]; [|done].
    destruct res as [[m|]|e]; rewrite IH; destruct (insert_all r1 cells) as [[outs r2]|]; cbn;
      try done. by rewrite <- app_assoc.
Qed.

Section poll_lemmas.
Context {W Conn : Type} `{CryptoLaws} `{Net W Conn}.

(** Successive polls, each with its own list of mailboxes. *)
Fixpoint poll_all (self : Receiver) (rounds : list (list bytes)) (w : W) :
    outcome (list (result ReceiveError (list bytes)) * Receiver * W) :=
  match rounds with
  | [] => Done ([], self, w)
  | addrs :: rounds' =>
      let! (res, self, w) := poll self addrs w in
      let! (rest, self, w) := poll_all self rounds' w in
      Done (res :: rest, self, w)
  end.

Lemma pull_each_app a b w :
  pull_each (a ++ b) w =
    match pull_each a w with
    | (Err e, w) => (Err e, w)
    | (Ok x, w) => match pull_each b w with
                   | (Err e, w) => (Err e, w)
                   | (Ok y, w) => (Ok (x ++ y), w)
                   end
    end.
Proof.
  revert w. induction a as [|addr a IH]; intros w; cbn.
  - by destruct (pull_each b w) as [[y|e] w'].
  - destruct (pull addr w) as [[x|e] w1]; [|done]. rewrite IH.
    destruct (pull_each a w1) as [[x'|e] w2]; [|done].
    destruct (pull_each b w2) as [[y|e] w3]; [|done]. by rewrite app_assoc.
Qed.

(** One poll: what was pulled, opened and inserted. *)
Lemma poll_ok rv addrs w :
  wf_reassembler (recv_reassembler rv) ->
  match pull_each addrs w with
  | (Err e, w') => poll rv addrs w = Done (Err (ReceiveIo e), rv, w')
  | (Ok raws, w') => exists r',
      poll rv addrs w =
        Done (Ok (completed_messages
                (spec_insert_all (abs (recv_reassembler rv)) (omap (opened (recv_identity rv)) raws)).1),
              mkReceiver (recv_identity rv) r', w') /\
      wf_reassembler r' /\
      abs r' = (spec_insert_all (abs (recv_reassembler rv)) (omap (opened (recv_identity rv)) raws)).2
  end.
Proof.
  intros Hr. unfold poll, receive. rewrite receive_loop_spec.
  destruct (pull_each addrs w) as [[raws|e] w']; [|done]. cbn [app].
  rewrite poll_cells_spec.
  destruct (insert_all_refines _ _ Hr (opened_all_wf (recv_identity rv) raws))
    as (outs & r' & -> & Hr' & ->).
  by exists r'.
Qed.

Lemma poll_all_ok rv rounds w raws w' :
  wf_reassembler (recv_reassembler rv) -> pull_each (concat rounds) w = (Ok raws, w') ->
  exists outs r',
    poll_all rv rounds w = Done (map Ok outs, mkReceiver (recv_identity rv) r', w') /\
    concat outs = completed_messages
      (spec_insert_all (abs (recv_reassembler rv)) (omap (opened (recv_identity rv)) raws)).1 /\
    wf_reassembler r' /\
    abs r' = (spec_insert_all (abs (recv_reassembler rv)) (omap (opened (recv_identity rv)) raws)).2.
Proof.
  revert rv w raws. induction rounds as [|addrs rounds IH]; intros rv w raws Hr E; cbn in *.
  - injection E as <- <-. exists [], (recv_reassembler rv). destruct rv. by split_and!.
  - rewrite pull_each_app in E. pose proof (poll_ok rv addrs w Hr) as Hp.
    destruct (pull_each addrs w) as [[x|e] w1]; [|done].
    destruct (pull_each (concat rounds) w1) as [[y|e] w2] eqn:Ey; [|done]. injection E as <- <-.
    destruct Hp as (r1 & -> & Hr1 & Ha1).
    destruct (IH (mkReceiver (recv_identity rv) r1) w1 y Hr1 Ey) as (outs & r2 & E2 & Ho & Hr2 & Ha2).
    cbn in E2, Ho, Ha2. rewrite E2. rewrite Ha1 in Ho, Ha2.
    eexists (_ :: outs), r2. rewrite omap_app, spec_insert_all_app. cbn.
    split_and!; [done| |done|done]. rewrite Ho. unfold completed_messages. by rewrite omap_app.
Qed.
Lemma polls_recover rv rounds w raws w' id message cells :
  wf_reassembler (recv_reassembler rv) -> in_flight (recv_reassembler rv) !! id = None ->
  pull_each (concat rounds) w = (Ok raws, w') -> fragments_of id message cells ->
  filter (fun c => c_message_id c = id) (omap (opened (recv_identity rv)) raws) ≡ₚ cells ->
  exists outs r',
    poll_all rv rounds w = Done (map Ok outs, mkReceiver (recv_identity rv) r', w') /\
    message ∈ concat outs /\ in_flight r' !! id = None /\ wf_reassembler r'.
Proof.
  intros Hr Hid E Hfr Hp.
  destruct (poll_all_ok rv rounds w raws w' Hr E) as (outs & r' & Ep & Ho & Hr' & Ha).
  assert (abs (recv_reassembler rv) !! id = None) as Hs by (unfold abs; by rewrite lookup_fmap, Hid).
  destruct (run_whole id message cells Hfr _ _ Hs Hp) as [Hin Hnone].
  exists outs, r'. split_and!; [done| | |done].
  - rewrite Ho. unfold completed_messages. apply list_elem_of_omap. by exists (Ok (Some message)).
  - rewrite <- Ha in Hnone. unfold abs in Hnone. rewrite lookup_fmap in Hnone.
    by destruct (in_flight r' !! id).
Qed.
End poll_lemmas.

(** ** Properties *)

Section properties.
Context {W Conn : Type} `{CryptoLaws} `{Net W Conn}.

(** [receive] is the decryption of everything pulled. It never panics;
    when every mailbox answers it returns, in order, the cells of exactly the
    envelopes that open under the identity's key, all well formed; it stops
    with the error of the first mailbox that fails. Every returned cell comes
    from a 572-byte envelope whose ciphertext is the AEAD encryption of that
    cell under the key shared with the envelope's sender. *)
Theorem receive_opens_everything ident addrs w :
  receive ident addrs w =
    Done (match pull_each addrs w with
          | (Ok raws, w') => (Ok (omap (opened ident) raws), w')
          | (Err e, w') => (Err (ReceiveIo e), w')
          end) /\
  forall raw c, opened ident raw = Some c ->
    wf_cell c /\ exists sender_public nonce key ct,
      raw = wrap sender_public (nonce ++ ct) /\ length raw = 572%nat /\
      derive_key (diffie_hellman ident sender_public) SESSION_CONTEXT = Ok key /\
      aead_encrypt key nonce (to_bytes c) = Some ct.
Proof.
  split; [unfold receive; by rewrite receive_loop_spec|].
  intros raw c Ho. split; [by eapply opened_wf|]. revert Ho. unfold opened.
  destruct (unwrap raw) as [[p d]|] eqn:Eu; [|done].
  destruct (recipient_key ident p) as [key|] eqn:Ek; [|done].
  apply unwrap_Ok in Eu as (Hp & Hd & ->).
  destruct (decrypt_cell_cases key d Hd) as [[_ ->]|(m & Em & Hm & ->)]; [done|].
  destruct (from_bytes m) as [c'|] eqn:Ec; [|done]. intros [= <-].
  destruct (parsed_layout m c' Hm Ec) as [Hc Hl].
  exists p, (take Encryption.NONCE_SIZE d), key, (drop Encryption.NONCE_SIZE d).
  rewrite take_drop, length_wrap by done. split_and!; [done|done|done|].
  rewrite to_bytes_layout, Hl by done. by apply aead_decrypt_sound.
Qed.

(** C39: one failing mailbox loses the others' deliveries. When a later
    address fails, the cells already drained from the earlier mailboxes, which
    are empty from then on, are in neither the result of [receive] nor the
    state of a polling receiver. *)
Theorem failed_pull_loses_batch rv addr batch addrs w w1 e w2 :
  pull addr w = (Ok batch, w1) -> pull_each addrs w1 = (Err e, w2) ->
  receive (recv_identity rv) (addr :: addrs) w = Done (Err (ReceiveIo e), w2) /\
  poll rv (addr :: addrs) w = Done (Err (ReceiveIo e), rv, w2).
Proof.
  intros E1 E2. assert (receive (recv_identity rv) (addr :: addrs) w =
    Done (Err (ReceiveIo e), w2)) as E.
  { unfold receive. rewrite receive_loop_spec. cbn. by rewrite E1, E2. }
  split; [done|]. unfold poll. by rewrite E.
Qed.

(** Polling recovers a message. However its cells were spread over
    mailboxes and polls, in any order and among any other envelopes, if all
    the pulls succeed and the envelopes that open with the message's id are
    its cells, each once, then the polls do not panic, one of them returns the
    message, and nothing of it stays in flight. *)
Theorem polls_recover_message rv rounds w raws w' id message cells :
  wf_reassembler (recv_reassembler rv) -> in_flight (recv_reassembler rv) !! id = None ->
  pull_each (concat rounds) w = (Ok raws, w') -> fragments_of id message cells ->
  filter (fun c => c_message_id c = id) (omap (opened (recv_identity rv)) raws) ≡ₚ cells ->
  exists outs r',
    poll_all rv rounds w = Done (map Ok outs, mkReceiver (recv_identity rv) r', w') /\
    message ∈ concat outs /\ in_flight r' !! id = None /\ wf_reassembler r'.
Proof. apply polls_recover. Qed.
End properties.
