(* ===== verification/EndToEnd.v ===== *)
(** * End to end: from [VeilClient::send] to [Receiver::poll]

    The fabric as a transition system over packets in flight, in which each
    relay does with a frame what [Node.process_frame] does. Every run of the
    fabric delivers every packet at its exit; together with the theorems on
    sending and receiving, a message sent over the fabric is recovered by its
    recipient, whatever the interleaving and the order of arrival. *)
From S2P Require Import Prelude.
From S2P Require Import RustStd.
From S2P Require Import Interfaces.
From S2P Require Import Cell.
From S2P Require Import Fragmentation.
From S2P Require Import Reassembly.
From S2P Require Import Encryption.
From S2P Require Import Keys.
From S2P Require Import Forwarding.
From S2P Require Import Mailbox.
From S2P Require Import PullListener.
From S2P Require Import Node.
From S2P Require Import Topology.
From S2P Require Import PathSelection.
From S2P Require Import Circuit.
From S2P Require Import Envelope.
From S2P Require Import Session.
From S2P Require Import Client.
From S2P Require Import Receiver.

Open Scope Z_scope.

(** A frame on its way to an address, and a body in the mailbox of the relay
    at an address. *)
Abbreviation packet := (list byte * list byte)%type.
Abbreviation delivery := (list byte * list byte)%type.

(** The packets in flight, and the bodies delivered so far, oldest first. *)
Definition fabric : Type := list packet * list delivery.

Section fabric.
Context `{Crypto} (relay_at : bytes -> option KeyPair).

(** The relay at the packet's address processes it: it forwards, delivers or
    drops ([handle_connection] in [node.rs]). *)
Inductive fabric_step : fabric -> fabric -> Prop :=
  | fabric_forward l1 l2 addr frame ds kp hop inner :
      relay_at addr = Some kp -> peel_onion_layer kp frame = Ok (Forward hop inner) ->
      fabric_step (l1 ++ (addr, frame) :: l2, ds) (l1 ++ (hop, inner) :: l2, ds)
  | fabric_deliver l1 l2 addr frame ds kp body :
      relay_at addr = Some kp -> peel_onion_layer kp frame = Ok (Deliver body) ->
      fabric_step (l1 ++ (addr, frame) :: l2, ds) (l1 ++ l2, ds ++ [(addr, body)])
  | fabric_drop l1 l2 addr frame ds kp e :
      relay_at addr = Some kp -> peel_onion_layer kp frame = Err e ->
      fabric_step (l1 ++ (addr, frame) :: l2, ds) (l1 ++ l2, ds).

(** The packet has [n] relays to go, the last of which will deliver. *)
Definition on_course (n : nat) (p : packet) (d : delivery) : Prop :=
  exists kps hops, length kps = n /\
    Forall2 (fun a kp => relay_at a = Some kp) (p.1 :: hops) kps /\
    follow kps p.2 = Some (hops, d.2) /\ last (p.1 :: hops) = Some d.1.

Lemma on_course_step n p d :
  on_course n p d ->
  exists kp, relay_at p.1 = Some kp /\
    ((exists hop inner n', n = S n' /\ peel_onion_layer kp p.2 = Ok (Forward hop inner) /\
        on_course n' (hop, inner) d) \/
     (n = 1%nat /\ peel_onion_layer kp p.2 = Ok (Deliver d.2) /\ d.1 = p.1)).
Proof.
  intros (kps & hops & Hn & Hf & Hfo & Hl).
  inversion Hf as [|a kp l kps' Ha Hrest]; subst. exists kp. split; [done|].
  cbn in Hfo. destruct (peel_onion_layer kp p.2) as [[hop inner|body]|e]; [|right|done].
  - left. destruct (follow kps' inner) as [[hops' body]|] eqn:E; [|done]. cbn in Hfo.
    injection Hfo as <- Hb. exists hop, inner, (length kps'). split_and!; [done|done|].
    exists kps', hops'. split_and!; [done|done|cbn [snd]; by rewrite E, Hb|]. by rewrite last_cons_cons in Hl.
  - destruct kps'; [|done]. injection Hfo as <- Hb. cbn in *. split_and!; congruence.
Qed.

(** The packets in flight will deliver [rest], with [ns] relays to go. *)
Definition in_transit (ns : list nat) (ps : list packet) (rest : list delivery) : Prop :=
  Forall3 on_course ns ps rest.

(** The state of a run that must deliver [ds], within [k] more steps. *)
Definition will_deliver (ds : list delivery) (k : nat) (st : fabric) : Prop :=
  exists ns rest, in_transit ns st.1 rest /\ st.2 ++ rest ≡ₚ ds /\ k = sum_list ns.

Lemma will_deliver_step ds k st st' :
  will_deliver ds k st -> fabric_step st st' -> exists k', k = S k' /\ will_deliver ds k' st'.
Proof.
  intros (ns & rest & Ht & Hp & ->) Hst.
  assert (Hcut : forall l1 a f l2, st.1 = l1 ++ (a, f) :: l2 ->
    exists n1 n n2 r1 r r2, ns = n1 ++ n :: n2 /\ rest = r1 ++ r :: r2 /\
      in_transit n1 l1 r1 /\ on_course n (a, f) r /\ in_transit n2 l2 r2).
  { intros l1 a f l2 E. unfold in_transit in Ht. rewrite E in Ht.
    apply Forall3_app_inv_m in Ht as (n1 & n' & r1 & r' & -> & -> & Ht1 & Ht2).
    inversion Ht2; subst. by eexists n1, _, _, r1, _, _. }
  destruct Hst as [l1 l2 a f dl kp hop inner Ha Hpeel|l1 l2 a f dl kp body Ha Hpeel
                  |l1 l2 a f dl kp e Ha Hpeel];
    destruct (Hcut l1 a f l2 eq_refl) as (n1 & n & n2 & r1 & r & r2 & -> & -> & Ht1 & Hc & Ht2);
    apply on_course_step in Hc as (kp' & Ha' & Hcases); cbn in Ha', Hcases;
    rewrite Ha in Ha'; injection Ha' as <-; rewrite Hpeel in Hcases; cbn in Hp.
  - destruct Hcases as [(hop' & inner' & n' & -> & E & Hc)|(_ & ? & _)]; [|done].
    injection E as <- <-. exists (sum_list (n1 ++ n' :: n2)). split.
    + rewrite !sum_list_with_app. cbn. lia.
    + exists (n1 ++ n' :: n2), (r1 ++ r :: r2). split_and!; [|done|done].
      apply Forall3_app; [done|by constructor].
  - destruct Hcases as [(? & ? & ? & _ & ? & _)|(-> & E & Hd)]; [done|]. injection E as E.
    exists (sum_list (n1 ++ n2)). split.
    + rewrite !sum_list_with_app. cbn. lia.
    + exists (n1 ++ n2), (r1 ++ r2). split_and!; [by apply Forall3_app| |done]. cbn.
      destruct r as [r11 r12]. cbn in *. subst.
      rewrite <- Hp, <- app_assoc. apply Permutation_app_head. cbn [app]. apply Permutation_middle.
  - by destruct Hcases as [(? & ? & ? & _ & ? & _)|(_ & ? & _)].
Qed.

Lemma will_deliver_progress ds k p ps dl :
  will_deliver ds k (p :: ps, dl) -> exists st', fabric_step (p :: ps, dl) st'.
Proof.
  intros (ns & rest & Ht & _). apply Forall3_cons_inv_m in Ht as (n & ns' & d & rest' & -> & -> & Hc & _).
  destruct p as [a f].
  apply on_course_step in Hc as (kp & Ha & [(hop & inner & n' & _ & E & _)|(_ & E & _)]); cbn in *.
  - eexists. by apply (fabric_forward [] _ _ _ _ kp hop inner).
  - eexists. by apply (fabric_deliver [] _ _ _ _ kp d.2).
Qed.

Lemma will_deliver_nsteps ds k n st st' :
  will_deliver ds k st -> nsteps fabric_step n st st' ->
  (n <= k)%nat /\ will_deliver ds (k - n) st'.
Proof.
  intros Hw Hn. revert k Hw. induction Hn as [st|n st1 st2 st3 Hs _ IH]; intros k Hw.
  - by rewrite Nat.sub_0_r; split; [lia|].
  - destruct (will_deliver_step _ _ _ _ Hw Hs) as (k' & -> & Hw').
    destruct (IH k' Hw') as [Hle Hw2]. split; [lia|done].
Qed.

(** One delivery per packet. *)
Lemma will_deliver_count ds k ps : will_deliver ds k (ps, []) -> length ps = length ds.
Proof.
  intros (ns & rest & Ht & Hp & _). cbn in *. rewrite <- Hp.
  rewrite <- (Forall3_length_lm _ _ _ _ Ht). by eapply Forall3_length_lr.
Qed.

(** With no packet left everything has been delivered. *)
Lemma will_deliver_done ds k dl : will_deliver ds k ([], dl) -> dl ≡ₚ ds.
Proof.
  intros (ns & rest & Ht & Hp & _). inversion Ht; subst. by rewrite app_nil_r in Hp.
Qed.

(** Every delivery is due: it has been made, or one packet in flight will. *)
Lemma will_deliver_due ds k st :
  will_deliver ds k st -> exists rest, st.2 ++ rest ≡ₚ ds /\ length rest = length st.1.
Proof.
  intros (ns & rest & Ht & Hp & _). exists rest. split; [done|].
  rewrite <- (Forall3_length_lm _ _ _ _ Ht). symmetry. by eapply Forall3_length_lr.
Qed.

(** *** The fabric, up to permutation *)

(** What becomes of a frame: the packets sent on, and the bodies delivered. *)
Definition sent_on_for (kp : KeyPair) (f : bytes) : list packet :=
  match peel_onion_layer kp f with Ok (Forward hop inner) => [(hop, inner)] | _ => [] end.

Lemma fabric_more ps ds st :
  rtc fabric_step (ps, ds) st -> forall x, rtc fabric_step (ps ++ x, ds) (st.1 ++ x, st.2).
Proof.
  intros Hr x. change (ps, ds) with ((ps, ds).1, (ps, ds).2) in Hr.
  assert (forall st0 st1, fabric_step st0 st1 ->
    fabric_step (st0.1 ++ x, st0.2) (st1.1 ++ x, st1.2)) as Hstep.
  { intros st0 st1 Hs. destruct Hs; cbn; rewrite <- !app_assoc; cbn.
    - by eapply fabric_forward.
    - by eapply fabric_deliver.
    - by eapply fabric_drop. }
  change (rtc fabric_step ((ps, ds).1 ++ x, (ps, ds).2) (st.1 ++ x, st.2)). cbn in Hr.
  induction Hr as [|st1 st2 st3 Hs _ IH]; [apply rtc_refl|]. eapply rtc_l; [by apply Hstep|done].
Qed.

Lemma fabric_processes ps ds a f rest kp :
  ps ≡ₚ (a, f) :: rest -> relay_at a = Some kp ->
  exists ps', fabric_step (ps, ds) (ps', ds ++ (pair a <$> deliveries kp [f])) /\
    ps' ≡ₚ rest ++ sent_on_for kp f.
Proof.
  intros Hp Ha. assert ((a, f) ∈ ps) as Hin by (rewrite Hp; by left).
  apply list_elem_of_split in Hin as (l1 & l2 & ->). rewrite <- Permutation_middle in Hp.
  apply Permutation_cons_inv in Hp. unfold sent_on_for, deliveries. cbn [omap list_omap].
  destruct (peel_onion_layer kp f) as [[hop inner|body]|e] eqn:Ep; cbn.
  - exists (l1 ++ (hop, inner) :: l2). rewrite app_nil_r. split; [by eapply fabric_forward|].
    rewrite <- Permutation_middle, Hp. apply Permutation_cons_append.
  - exists (l1 ++ l2). split; [by eapply fabric_deliver|by rewrite app_nil_r].
  - exists (l1 ++ l2). rewrite app_nil_r. split; [by eapply fabric_drop|by rewrite app_nil_r].
Qed.

Lemma fabric_step_processes ps ds ps' ds' :
  fabric_step (ps, ds) (ps', ds') ->
  exists a f kp rest, relay_at a = Some kp /\ ps ≡ₚ (a, f) :: rest /\
    ps' ≡ₚ rest ++ sent_on_for kp f /\ ds' = ds ++ (pair a <$> deliveries kp [f]).
Proof.
  inversion 1 as [l1 l2 a f d kp hop inner Ha Hp|l1 l2 a f d kp body Ha Hp|l1 l2 a f d kp e Ha Hp]; subst;
    exists a, f, kp, (l1 ++ l2); unfold sent_on_for, deliveries; cbn; rewrite Hp; cbn; rewrite ?app_nil_r;
    (split_and!; [done|symmetry; apply Permutation_middle| |done]).
  - rewrite <- Permutation_middle. apply Permutation_cons_append.
  - done.
  - done.
Qed.

(** The packets of two groups do not interact. *)
Lemma fabric_split_step ps ds st' (us vs : list packet) (du dv : list delivery) :
  fabric_step (ps, ds) st' -> ps ≡ₚ us ++ vs -> ds ≡ₚ du ++ dv ->
  exists us' vs' du' dv', rtc fabric_step (us, du) (us', du') /\
    rtc fabric_step (vs, dv) (vs', dv') /\ st'.1 ≡ₚ us' ++ vs' /\ st'.2 ≡ₚ du' ++ dv'.
Proof.
  destruct st' as [ps' ds']. intros Hst Hp Hd. cbn.
  apply fabric_step_processes in Hst as (x & f & kp & rest & Hx & Hps & Hps' & ->).
  rewrite Hps in Hp. assert ((x, f) ∈ us ++ vs) as [Hin|Hin]%elem_of_app by (rewrite <- Hp; by left).
  - apply elem_of_Permutation in Hin as [ra Hra].
    destruct (fabric_processes us du x f ra kp Hra Hx) as (us' & Hst & Ha').
    exists us', vs, (du ++ (pair x <$> deliveries kp [f])), dv.
    split_and!; [by apply rtc_once|apply rtc_refl| |].
    + rewrite Hra in Hp. cbn in Hp. apply Permutation_cons_inv in Hp. rewrite Hps', Hp, Ha'.
      rewrite <- !(assoc (++)). apply Permutation_app_head, Permutation_app_comm.
    + rewrite Hd, <- !(assoc (++)). apply Permutation_app_head, Permutation_app_comm.
  - apply elem_of_Permutation in Hin as [rb Hrb].
    destruct (fabric_processes vs dv x f rb kp Hrb Hx) as (vs' & Hst & Hb').
    exists us, vs', du, (dv ++ (pair x <$> deliveries kp [f])).
    split_and!; [apply rtc_refl|by apply rtc_once| |].
    + rewrite Hrb, <- Permutation_middle in Hp. apply Permutation_cons_inv in Hp. by rewrite Hps', Hp, Hb', (assoc (++)).
    + by rewrite Hd, (assoc (++)).
Qed.

Lemma fabric_split ps ds st' (us vs : list packet) (du dv : list delivery) :
  rtc fabric_step (ps, ds) st' -> ps ≡ₚ us ++ vs -> ds ≡ₚ du ++ dv ->
  exists us' vs' du' dv', rtc fabric_step (us, du) (us', du') /\
    rtc fabric_step (vs, dv) (vs', dv') /\ st'.1 ≡ₚ us' ++ vs' /\ st'.2 ≡ₚ du' ++ dv'.
Proof.
  intros Hr. remember (ps, ds) as st eqn:E. revert ps ds E us vs du dv.
  induction Hr as [st|st st1 st2 Hs _ IH]; intros ps ds -> us vs du dv Hp Hd.
  - exists us, vs, du, dv. split_and!; [apply rtc_refl|apply rtc_refl|done|done].
  - destruct (fabric_split_step _ _ _ _ _ _ _ Hs Hp Hd) as (us1 & vs1 & du1 & dv1 & Ha & Hb & Hp1 & Hd1).
    destruct st1 as [ps1 ds1]. destruct (IH ps1 ds1 eq_refl us1 vs1 du1 dv1 Hp1 Hd1) as (us2 & vs2 & du2 & dv2 & Ha2 & Hb2 & ? & ?).
    exists us2, vs2, du2, dv2. split_and!; [by etransitivity|by etransitivity|done|done].
Qed.
End fabric.

Section lemmas.
Context {R W Conn : Type} `{RngLaws R} `{CryptoLaws} `{HashOrderLaws} `{NetLaws W Conn}.
Context (key_of : RelayInfo -> KeyPair) (relay_at : bytes -> option KeyPair).

(** The relays of the client's topology listen where it says. *)
Definition deployed (self : VeilClient) : Prop :=
  forall r, get (topology self) (info_id r) = Some r ->
    relay_at (info_address r) = Some (key_of r).

(** The stream [c] carries one packet to the relay it was dialled to. It fits in
    a frame, whose length has 32 bits. *)
Definition carries (w : W) (c : Conn) (p : packet) : Prop :=
  dialled c = p.1 /\ outbox w c = frame_bytes p.2 /\ len p.2 < 2 ^ 32.

Lemma on_wire_on_course self session recipient w cell sc c :
  usable key_of self -> deployed self -> session_with recipient session ->
  on_wire key_of self session w cell sc c ->
  exists p d, carries w c p /\ on_course relay_at (hop_count self) p d /\
    opened recipient d.2 = Some cell.
Proof.
  intros Hu Hdep Hs (path & onion & enc & Hpath & Hx & Hh & Ho & Hsize & Hf & He & Hd).
  assert (len onion < 2 ^ 32) as Hsmall.
  { rewrite Hsize. eapply path_circuit_size; [done..|]. destruct Hs as (Hkp & _ & _).
    unfold len. by rewrite length_wrap by (done || by apply wf_public_length). }
  destruct Hpath as (Hl & _ & Hg).
  destruct path as [|first rest]; [done|]. cbn in Hh. injection Hh as Hh.
  destruct (last (first :: rest)) as [exit|] eqn:El; [|done].
  exists (info_address first, onion), (info_address exit, wrap (session_public_key session) enc).
  split_and!; [done| |by apply opened_wrap].
  exists (map key_of (first :: rest)), (info_address <$> rest). split_and!.
  - by rewrite length_map.
  - cbn [fst snd].
    change (info_address first :: (info_address <$> rest)) with (info_address <$> (first :: rest)).
    apply Forall2_fmap_l, Forall2_fmap_r, Forall_Forall2_diag, Forall_forall.
    intros r Hr. by apply Hdep, Hg.
  - done.
  - cbn [fst snd].
    change (info_address first :: (info_address <$> rest)) with (info_address <$> (first :: rest)).
    by rewrite fmap_last, El.
Qed.

Lemma all_on_course self session recipient w cells scs conns :
  usable key_of self -> deployed self -> session_with recipient session ->
  Forall3 (on_wire key_of self session w) cells scs conns ->
  exists ps ds, Forall2 (carries w) conns ps /\
    in_transit relay_at (replicate (length cells) (hop_count self)) ps ds /\
    omap (opened recipient) (map snd ds) = cells.
Proof.
  intros Hu Hdep Hs Hall. induction Hall as [|cell sc c cells scs conns Hw _ IH].
  - exists [], []. split_and!; [constructor|constructor|done].
  - destruct IH as (ps & ds & Hc & Ht & Ho).
    destruct (on_wire_on_course _ _ _ _ _ _ _ Hu Hdep Hs Hw) as (p & d & Hcp & Hop & Hod).
    exists (p :: ps), (d :: ds). split_and!; [by constructor|by constructor|].
    cbn. by rewrite Hod, Ho.
Qed.

Lemma sum_list_replicate n k : sum_list (replicate n k) = (n * k)%nat.
Proof. induction n as [|n IH]; cbn; [done|]. by rewrite IH. Qed.

(** A successful [send] leaves the fabric with packets that will deliver one
    envelope per cell, each opening for the recipient. *)
Lemma send_delivers self session recipient message (rng : R) (w : W) :
  usable key_of self -> deployed self -> session_with recipient session ->
  1 <= len message <= MAX_MESSAGE_SIZE ->
  exists r rng' w', send self session message rng w = Done (r, rng', w') /\
  (forall up, stays_up self up -> up w -> exists scs, r = Ok scs) /\
  forall scs, r = Ok scs ->
  exists id cells conns packets ds,
    fragments_of id message cells /\ length scs = length cells /\ NoDup conns /\
    Forall (fun c => live w' c /\ ~ live w c) conns /\ Forall2 (carries w') conns packets /\
    will_deliver relay_at ds (length cells * hop_count self) (packets, []) /\
    length ds = length cells /\ omap (opened recipient) (map snd ds) = cells.
Proof.
  intros Hu Hdep Hs Hm. pose proof Hs as (Hkp & _ & _).
  destruct (send_ok key_of self session message rng w Hu (wf_public_length _ Hkp) Hm)
    as (r & rng' & w' & id & cells & k & scs & conns & E & Hfr & Hnd & Hnew & Hall & _ & Hr & Hup).
  exists r, rng', w'. split_and!; [done|intros up Hu1 Hu2; exists scs; by eapply Hup|]. intros scs' ->.
  destruct Hr as [[-> Er]|[_ [e Er]]]; [|done]. injection Er as ->.
  rewrite take_ge in Hall by lia.
  pose proof (Forall3_length_lm _ _ _ _ Hall) as Hlen.
  destruct (all_on_course self session recipient w' cells scs conns Hu Hdep Hs Hall)
    as (ps & ds & Hc & Ht & Ho).
  exists id, cells, conns, ps, ds. split_and!; try done.
  - exists (replicate (length cells) (hop_count self)), ds. split_and!; [done|done|].
    by rewrite sum_list_replicate.
  - apply Forall3_length_lr in Ht. by rewrite <- Ht, length_replicate.
Qed.

(** What opens among the deliveries and other envelopes. *)
Lemma opened_permutation ident raws bodies junk id cells :
  raws ≡ₚ bodies ++ junk -> omap (opened ident) bodies ≡ₚ cells ->
  Forall (fun c => c_message_id c = id) cells ->
  (forall raw c, raw ∈ junk -> opened ident raw = Some c -> c_message_id c <> id) ->
  filter (fun c => c_message_id c = id) (omap (opened ident) raws) ≡ₚ cells.
Proof.
  intros Hr Hb Hid Hj. rewrite Hr, omap_app, Hb, filter_app, (filter_Forall _ cells) by done.
  rewrite filter_Forall_not, app_nil_r; [done|]. apply Forall_forall.
  intros c (raw & Hin & Ho)%list_elem_of_omap. by eapply Hj.
Qed.
End lemmas.

(** ** Properties *)

Section properties.
Context {R W Conn Ch Sem : Type} `{RngLaws R} `{CryptoLaws} `{HashOrderLaws} `{NetLaws W Conn}
  `{ChannelLaws Ch} `{SemaphoreLaws Sem}.
Context (key_of : RelayInfo -> KeyPair) (relay_at : bytes -> option KeyPair).

(** A relay node implements the fabric. When the node at an address goes
    on after processing a frame, the fabric has the corresponding step from
    that packet: the bodies the step delivers are exactly those handed to the
    node's delivery channel, and every packet it emits has been written, whole,
    at the end of a pooled connection dialled to that packet's address. *)
Theorem relay_refines_fabric addr frame (n : RelayNode Conn Ch Sem) (w : W) n' w' l1 l2 ds :
  relay_at addr = Some (keypair n) -> pool_ok n -> ch_open (delivery_tx n) = true ->
  process_frame frame n w = (Continue, n', w') ->
  exists emitted delivered,
    fabric_step relay_at (l1 ++ (addr, frame) :: l2, ds) (l1 ++ emitted ++ l2, ds ++ delivered) /\
    ch_sent (delivery_tx n') = ch_sent (delivery_tx n) ++ map snd delivered /\
    Forall (fun p => exists c pre, outbound n' !! p.1 = Some c /\ dialled c = p.1 /\
              outbox w' c = pre ++ frame_bytes p.2) emitted /\
    pool_ok n'.
Proof.
  intros Ha Hpool Ho. unfold process_frame.
  destruct (peel_onion_layer (keypair n) frame) as [[hop inner|body]|e] eqn:Ep.
  - destruct (forward hop inner n w) as [[[[]|e] n1] w1] eqn:Ef; [|done]. intros [= <- <-].
    pose proof (forward_pool_ok _ _ _ _ _ _ _ Hpool Ef) as Hpool'.
    pose proof (forward_untouched _ _ _ _ _ _ _ Ef) as (Hn & _ & _).
    destruct (forward_pool _ _ _ _ _ _ _ Ef) as (_ & _ & Hr).
    destruct (Hr eq_refl) as (c & Hc & Hw).
    exists [(hop, inner)], []. rewrite !app_nil_r. split_and!; [|by rewrite Hn| |done].
    + by eapply fabric_forward.
    + constructor; [|done]. exists c. cbn.
      destruct Hw as [[_ Hw]|[Hw _]]; [exists (outbox w c)|exists []];
        (split_and!; [done|by apply (Hpool' hop c)|done]).
  - intros [= <- <-]. exists [], [(addr, body)]. cbn. split_and!; [|by rewrite ch_sent_send, Ho|done|done].
    by eapply fabric_deliver.
  - intros [= <- <-]. exists [], []. rewrite !app_nil_r. split_and!; [|done|done|done].
    by eapply fabric_drop.
Qed.

(** C1: a message sent over the fabric reaches its recipient. With a usable
    topology whose relays are deployed where it says, and a session with the
    recipient, [send] does not panic, and succeeds while the relays are up; when
    it returns success, the new streams carry one packet per cell of the message. However the relays interleave,
    the fabric never gets stuck before all packets are delivered, which takes
    at most hop-count steps per cell; then each cell has been delivered once,
    and polling mailboxes that hold these deliveries, among any envelopes of
    other messages and in any order, over any number of polls, returns the
    message. *)
Theorem message_reaches_recipient self session recipient message (rng : R) (w : W) :
  usable key_of self -> deployed key_of relay_at self -> session_with recipient session ->
  1 <= len message <= MAX_MESSAGE_SIZE ->
  exists r rng' w', send self session message rng w = Done (r, rng', w') /\
  (forall up, stays_up self up -> up w -> exists scs, r = Ok scs) /\
  forall scs, r = Ok scs ->
  exists id cells conns packets,
    fragments_of id message cells /\ length scs = length cells /\
    NoDup conns /\ Forall2 (carries w') conns packets /\
    forall n st, nsteps (fabric_step relay_at) n (packets, []) st ->
      (n <= length cells * hop_count self)%nat /\
      (st.1 <> [] -> exists st', fabric_step relay_at st st') /\
      (st.1 = [] -> length st.2 = length cells /\
       forall rv rounds raws junk wr wr',
         recv_identity rv = recipient -> wf_reassembler (recv_reassembler rv) ->
         in_flight (recv_reassembler rv) !! id = None ->
         pull_each (concat rounds) wr = (Ok raws, wr') -> raws ≡ₚ map snd st.2 ++ junk ->
         (forall raw c, raw ∈ junk -> opened recipient raw = Some c -> c_message_id c <> id) ->
         exists outs rv', poll_all rv rounds wr = Done (map Ok outs, rv', wr') /\
           message ∈ concat outs).
Proof.
  intros Hu Hdep Hs Hm.
  destruct (send_delivers key_of relay_at self session recipient message rng w Hu Hdep Hs Hm)
    as (r & rng' & w' & E & Hup & Hr).
  exists r, rng', w'. split_and!; [done|done|]. intros scs ->.
  destruct (Hr scs eq_refl) as (id & cells & conns & ps & ds & Hfr & Hlen & Hnd & _ & Hc & Hw & Hld & Ho).
  exists id, cells, conns, ps. split_and!; [done|done|done|done|]. intros n st Hn.
  destruct (will_deliver_nsteps _ _ _ _ _ _ Hw Hn) as [Hle Hw'].
  split_and!; [done| |].
  - destruct st as [[|p ps'] dl]; [done|]. intros _. by eapply will_deliver_progress.
  - destruct st as [ps' dl]. cbn. intros ->. apply will_deliver_done in Hw' as Hdl.
    split.
    + by rewrite Hdl.
    + intros rv rounds raws junk wr wr' Hrv Hrw Hid Hpull Hraws Hj.
      destruct (polls_recover rv rounds wr raws wr' id message cells Hrw Hid Hpull Hfr)
        as (outs & r' & Hp & Hin & _).
      { rewrite Hrv. eapply opened_permutation; [done| |by apply (fr_id _ _ _ Hfr)|done].
        rewrite Hdl, Ho. done. }
      by exists outs, (mkReceiver (recv_identity rv) r').
Qed.
End properties.
