(* ===== verification/Links.v ===== *)
(** * Streams between hosts

    What the frames of [forwarding.rs] mean on a TCP stream that is still
    growing or has broken: lemmas on [Node.split_frames], on writes that fail
    half-way, and on all the streams a call of [RelayNode::forward] touches. The
    composition of the relays in [Deployment] rests on them. *)
From S2P Require Import Prelude.
From S2P Require Import RustStd.
From S2P Require Import Interfaces.
From S2P Require Import Keys.
From S2P Require Import Forwarding.
From S2P Require Import Node.

Open Scope Z_scope.

(** ** Frames in a growing stream *)

(** A stream is its complete frames and the rest. *)
Lemma split_frames_join bs :
  bs = concat (map frame_bytes (split_frames bs).1) ++ (split_frames bs).2 /\
  Forall (fun f : bytes => len f < 2 ^ 32) (split_frames bs).1 /\
  split_frames (split_frames bs).2 = ([], (split_frames bs).2).
Proof.
  remember (length bs) as k eqn:Hk. revert bs Hk.
  induction k as [k IH] using lt_wf_ind. intros bs ->. rewrite split_frames_eq. cbn zeta.
  set (n := Z.to_nat (from_be_bytes (take 4 bs))).
  case_decide as Hd; cbn [fst snd map concat app].
  { split_and!; [done|done|]. rewrite split_frames_eq. cbn zeta. fold n. by rewrite decide_True. }
  destruct (IH (length (drop (4 + n) bs)) ltac:(rewrite length_drop; lia) _ eq_refl) as (Hj & Hs & Ht).
  assert (0 <= from_be_bytes (take 4 bs) < 2 ^ 32) as Hr.
  { pose proof (from_be_bytes_range (take 4 bs)) as Hr.
    assert (len (take 4 bs) = 4) as E4 by (unfold len; rewrite length_take; lia).
    rewrite E4 in Hr. change (256 ^ 4) with (2 ^ 32) in Hr. lia. }
  assert (len (take n (drop 4 bs)) = from_be_bytes (take 4 bs)) as Hl.
  { unfold len. rewrite length_take, length_drop. unfold n in *. lia. }
  assert (frame_bytes (take n (drop 4 bs)) = take (4 + n) bs) as Hf.
  { unfold frame_bytes. rewrite Hl. unfold as_u32. rewrite Z.mod_small by lia.
    rewrite to_from_be_bytes_n by (rewrite length_take; lia). by rewrite take_take_drop. }
  split_and!; [|constructor; [rewrite Hl; lia|done]|done].
  rewrite Hf, <- app_assoc, <- Hj. by rewrite take_drop.
Qed.

Lemma split_frames_app frames rest :
  Forall (fun f : bytes => len f < 2 ^ 32) frames ->
  split_frames (concat (map frame_bytes frames) ++ rest) =
    (frames ++ (split_frames rest).1, (split_frames rest).2).
Proof.
  intros Hf. induction Hf as [|f frames Hl _ IH]; cbn [concat map app]; [by destruct (split_frames rest)|].
  by rewrite <- app_assoc, split_frames_cons, IH.
Qed.

(** What is appended to a stream is framed after the incomplete rest. *)
Lemma split_frames_extend bs more :
  split_frames (bs ++ more) =
    ((split_frames bs).1 ++ (split_frames ((split_frames bs).2 ++ more)).1,
     (split_frames ((split_frames bs).2 ++ more)).2).
Proof.
  destruct (split_frames_join bs) as (Hj & Hs & _). rewrite Hj at 1. rewrite <- app_assoc.
  by apply split_frames_app.
Qed.

Lemma split_frames_prefix pre bs :
  pre `prefix_of` bs -> (split_frames pre).1 `prefix_of` (split_frames bs).1.
Proof. intros [more ->]. rewrite split_frames_extend. by eexists. Qed.

Lemma length_frame_bytes f : length (frame_bytes f) = (4 + length f)%nat.
Proof. unfold frame_bytes. by rewrite length_app, length_to_be_bytes. Qed.

(** Less than a frame is no frame. *)
Lemma split_frames_partial f k :
  len f < 2 ^ 32 -> (k < length (frame_bytes f))%nat -> (split_frames (take k (frame_bytes f))).1 = [].
Proof.
  rewrite length_frame_bytes. intros Hl Hk. rewrite split_frames_eq. cbn zeta.
  rewrite length_take, length_frame_bytes.
  destruct (decide (k < 4)%nat); [by rewrite decide_True by lia|].
  rewrite take_take, Nat.min_l by lia. unfold frame_bytes.
  rewrite (take_app_length' (to_be_bytes 4 (as_u32 (len f)))) by (rewrite length_to_be_bytes; lia).
  pose proof (len_nonneg f). unfold as_u32. rewrite Z.mod_small by lia.
  rewrite from_to_be_bytes_small by lia. unfold len. rewrite Nat2Z.id.
  by rewrite decide_True by lia.
Qed.

(** A stream between frames, then one more frame or a part of it. *)
Lemma split_frames_snoc bs f :
  (split_frames bs).2 = [] -> len f < 2 ^ 32 ->
  split_frames (bs ++ frame_bytes f) = ((split_frames bs).1 ++ [f], []).
Proof.
  intros Ht Hl. rewrite split_frames_extend, Ht. cbn [app].
  rewrite <- (app_nil_r (frame_bytes f)), split_frames_cons by done. done.
Qed.

Lemma split_frames_snoc_partial bs f k :
  (split_frames bs).2 = [] -> len f < 2 ^ 32 -> (k < length (frame_bytes f))%nat ->
  (split_frames (bs ++ take k (frame_bytes f))).1 = (split_frames bs).1.
Proof.
  intros Ht Hl Hk. rewrite split_frames_extend, Ht. cbn [app fst].
  by rewrite split_frames_partial, app_nil_r.
Qed.

(** The frame a reader finds is the next one that was sent. *)
Lemma next_frame F done_ read inbox_ bytes_ f fs t :
  F = (split_frames bytes_).1 -> read = concat (map frame_bytes (take done_ F)) ->
  (read ++ inbox_) `prefix_of` bytes_ -> split_frames inbox_ = (f :: fs, t) ->
  F !! done_ = Some f /\ (done_ < length F)%nat.
Proof.
  intros -> -> Hp Hi. set (F := (split_frames bytes_).1) in *.
  assert (Forall (fun f : bytes => len f < 2 ^ 32) (take done_ F)) as Hs
    by (apply Forall_take, split_frames_join).
  apply split_frames_prefix in Hp as [more Hp]. rewrite split_frames_app, Hi in Hp by done. cbn [fst] in Hp.
  fold F in Hp. destruct (decide (done_ < length F)%nat) as [Hlt|Hge].
  - split; [|done]. rewrite Hp, <- app_assoc, lookup_app_r by (rewrite length_take; lia).
    by rewrite length_take, Nat.min_l, Nat.sub_diag by lia.
  - rewrite take_ge in Hp by lia. apply (f_equal length) in Hp. rewrite !length_app in Hp. cbn in Hp. lia.
Qed.

(** Reading one frame from an inbox that starts with it. *)
Lemma inbox_after i i1 f fs t :
  split_frames i = (f :: fs, t) -> split_frames i1 = (fs, t) -> i = frame_bytes f ++ i1.
Proof.
  intros Hi Hi1. destruct (split_frames_join i) as [Hj _], (split_frames_join i1) as [Hj1 _].
  rewrite Hi in Hj. rewrite Hi1 in Hj1. cbn in Hj, Hj1. by rewrite Hj, Hj1, <- app_assoc.
Qed.

(** ** Streams that break *)

Section streams.
Context {W Conn : Type} `{NetLaws W Conn} `{!StreamBreak W Conn} `{!StreamBreakLaws W Conn}.
Implicit Types (c s : Conn) (w : W).

(** What everybody else may do to a stream: nothing. *)
Definition undisturbed_at w w' c : Prop :=
  live w' c /\ inbox w' c = inbox w c /\ outbox w' c = outbox w c /\ (broken w c -> broken w' c).

(** The open streams, except that [s] may have been read from. *)
Definition reads s w w' : Prop :=
  forall c, live w c -> live w' c /\ outbox w' c = outbox w c /\
    (c <> s -> inbox w' c = inbox w c) /\ (broken w c -> broken w' c).

Lemma reads_refl s w : reads s w w.
Proof. by intros c Hc. Qed.

Lemma reads_trans s w1 w2 w3 : reads s w1 w2 -> reads s w2 w3 -> reads s w1 w3.
Proof.
  intros Ha Hb c Hc. destruct (Ha c Hc) as (Hl & <- & Hi & Hk).
  destruct (Hb c Hl) as (? & -> & Hi' & ?). split_and!; auto. intros Hne. by rewrite Hi', Hi.
Qed.

Lemma read_exact_reads s n w r w' : read_exact s n w = (r, w') -> reads s w w'.
Proof.
  intros E c Hc. destruct (read_exact_frame _ _ _ _ _ c E) as (Ho & Hi & Hl).
  split_and!; auto. by eapply read_exact_broken.
Qed.

(** A frame that could not be written whole. *)
Definition cut_short (body : bytes) c w w' : Prop :=
  broken w' c /\ (broken w c -> outbox w' c = outbox w c) /\
  exists k, (k < length (frame_bytes body))%nat /\ outbox w' c = outbox w c ++ take k (frame_bytes body).

Lemma write_frame_cut c body w e w' : write_frame c body w = (Err e, w') -> cut_short body c w w'.
Proof.
  unfold write_frame, io_bind. set (hd := to_be_bytes 4 (as_u32 (len body))).
  assert (length hd = 4%nat) as Hh by apply length_to_be_bytes.
  assert (frame_bytes body = hd ++ body) as Hf by done.
  destruct (write_all c hd w) as [[[]|e1] w1] eqn:E1; intros E.
  - assert (~ broken w c) as Hnb.
    { intros Hb. destruct (write_all_broken _ _ _ _ _ Hb E1) as [_ []]; [by destruct hd|done]. }
    destruct (write_all_err _ _ _ _ _ E) as (Hb & k & Hk & Ho). split_and!; [done|done|].
    exists (4 + k)%nat. rewrite Hf, length_app, Hh. split; [lia|].
    rewrite Ho, (write_all_ok _ _ _ _ E1), <- app_assoc. f_equal.
  - injection E as -> ->. destruct (write_all_err _ _ _ _ _ E1) as (Hb & k & Hk & Ho).
    split_and!; [done|by intros Hbw; apply (write_all_broken _ _ _ _ _ Hbw E1)|].
    exists k. rewrite Hf, length_app. split; [lia|]. rewrite take_app_le by lia. done.
Qed.

Lemma write_frame_unbroken c body w w' : write_frame c body w = (Ok tt, w') -> ~ broken w c.
Proof.
  unfold write_frame, io_bind. intros E Hb.
  destruct (write_all c _ w) as [[[]|e1] w1] eqn:E1; [|done].
  destruct (write_all_broken _ _ _ _ _ Hb E1) as [_ []]; [|done].
  intros Hn%(f_equal length). by rewrite length_to_be_bytes in Hn.
Qed.

(** Writing on one stream leaves the others. *)
Lemma write_frame_undisturbed c body w r w' s :
  write_frame c body w = (r, w') -> live w s ->
  live w' s /\ inbox w' s = inbox w s /\ (broken w s -> broken w' s) /\
  (s <> c -> outbox w' s = outbox w s).
Proof.
  intros E Hs. destruct (write_frame_untouched _ _ _ _ _ s E Hs) as [Hl Hi].
  split_and!; [done|done| |by intros Hne; eapply write_frame_outbox_ne].
  revert E. unfold write_frame, io_bind. destruct (write_all c _ w) as [[[]|e1] w1] eqn:E1.
  - intros E Hb. eapply write_all_stays_broken; [done|]. by eapply write_all_stays_broken.
  - intros [= <- <-]. by apply (write_all_stays_broken _ _ _ _ _ s E1).
Qed.

Lemma connect_undisturbed a w r w' c :
  connect a w = (r, w') -> live w c -> undisturbed_at w w' c.
Proof.
  intros E Hc. destruct (connect_fresh _ _ _ _ c E Hc) as (Hl & Hi & Ho & _).
  split_and!; [done|done|done|by eapply connect_broken].
Qed.

(** A fresh stream and a frame on it concern nobody else. *)
Lemma dial_write_undisturbed a c body w w1 :
  connect a w = (Ok c, w1) ->
  forall r w2, write_frame c body w1 = (r, w2) -> forall s, live w s -> undisturbed_at w w2 s.
Proof.
  intros E1 r w2 E2 s Hs. destruct (connect_fresh _ _ _ _ s E1 Hs) as (_ & _ & _ & Hne).
  destruct (connect_undisturbed _ _ _ _ s E1 Hs) as (Hls & Hi & Hos & Hb).
  destruct (write_frame_undisturbed _ _ _ _ _ s E2 Hls) as (? & Hi2 & ? & Ho2).
  unfold undisturbed_at. rewrite <- Hos, <- Hi. split_and!; auto. apply Ho2. by intros ->.
Qed.
End streams.

Section forwarding.
Context {W Conn Ch Sem : Type} `{NetLaws W Conn} `{!StreamBreak W Conn} `{!StreamBreakLaws W Conn}
  `{Crypto} `{Channel Ch} `{Semaphore Sem}.
Implicit Types (n : RelayNode Conn Ch Sem) (w : W).

(** How a call of [forward] ended for the stream to the next hop: the frame is
    whole on the pooled stream, or whole on a fresh one, or it is nowhere. A
    pooled stream that was given up got less than the frame. *)
Inductive forwarded (hop body : bytes) n w n' w' : result RelayError unit -> Prop :=
  | on_pooled c :
      outbound n !! hop = Some c -> outbound n' = outbound n -> ~ broken w c ->
      outbox w' c = outbox w c ++ frame_bytes body ->
      forwarded hop body n w n' w' (Ok tt)
  | on_fresh c :
      ~ live w c -> live w' c -> outbound n' = <[hop := c]> (outbound n) ->
      outbox w' c = frame_bytes body ->
      (forall c0, outbound n !! hop = Some c0 -> cut_short body c0 w w') ->
      forwarded hop body n w n' w' (Ok tt)
  | fresh_cut c k e :
      ~ live w c -> live w' c -> outbound n' = <[hop := c]> (outbound n) ->
      broken w' c -> (k < length (frame_bytes body))%nat -> outbox w' c = take k (frame_bytes body) ->
      (forall c0, outbound n !! hop = Some c0 -> cut_short body c0 w w') ->
      forwarded hop body n w n' w' (Err e)
  | not_dialled e :
      outbound n' = delete hop (outbound n) ->
      (forall c0, outbound n !! hop = Some c0 -> cut_short body c0 w w') ->
      forwarded hop body n w n' w' (Err e).

(** Streams other than the pooled one to [hop] are left alone. *)
Definition only_hop hop n w w' : Prop :=
  forall c, live w c -> live w' c /\ inbox w' c = inbox w c /\ (broken w c -> broken w' c) /\
    (outbound n !! hop <> Some c -> outbox w' c = outbox w c).

(** Dialling a hop that is not in the pool and writing the frame. *)
Lemma redial_streams hop body n w r n' w' :
  outbound n !! hop = None ->
  match get_or_connect hop n w with
  | (Err e, n1, w1) => (Err e, n1, w1)
  | (Ok conn, n1, w1) =>
      match write_frame conn body w1 with
      | (Err e, w2) => (Err (Io e), n1, w2)
      | (Ok tt, w2) => (Ok tt, n1, w2)
      end
  end = (r, n', w') ->
  (forall c, live w c -> undisturbed_at w w' c) /\ forwarded hop body n w n' w' r.
Proof.
  intros Hnone. unfold get_or_connect. rewrite Hnone.
  assert (forall c0, outbound n !! hop = Some c0 -> False) as Hno by (intros ?; congruence).
  destruct (connect hop w) as [[c|e] w1] eqn:E1.
  - destruct (connect_ok _ _ _ _ E1) as (Hl & Ho & _).
    assert (~ live w c) as Hnew by (intros Hc; by destruct (connect_fresh _ _ _ _ c E1 Hc) as (_ & _ & _ & [])).
    pose proof (dial_write_undisturbed hop c body w w1 E1) as Hund.
    destruct (write_frame c body w1) as [[[]|e] w2] eqn:E2; intros [= <- <- <-]; (split; [by eapply Hund|]).
    + apply (on_fresh _ _ _ _ _ _ c); try done; [by apply (write_frame_undisturbed _ _ _ _ _ c E2 Hl)| |by intros ? []%Hno].
      by rewrite (write_frame_ok _ _ _ _ E2), Ho.
    + destruct (write_frame_cut _ _ _ _ _ E2) as (Hb & _ & k & Hk & Hko). rewrite Ho in Hko.
      eapply (fresh_cut _ _ _ _ _ _ c k); try done;
        [by apply (write_frame_undisturbed _ _ _ _ _ c E2 Hl)|by intros ? []%Hno].
  - intros [= <- <- <-]. split; [intros c Hc; by eapply connect_undisturbed|].
    apply not_dialled; [|by intros ? []%Hno]. by rewrite delete_id.
Qed.

(** With a stream in the pool. *)
Lemma forward_pooled_streams hop body n w r n' w' c :
  outbound n !! hop = Some c -> live w c -> forward hop body n w = (r, n', w') ->
  only_hop hop n w w' /\ forwarded hop body n w n' w' r.
Proof.
  intros Ec Hlc. unfold forward, get_or_connect at 1. rewrite Ec.
  destruct (write_frame c body w) as [[[]|e] w2] eqn:E2.
  + intros [= <- <- <-]. split.
    { intros s Hs. destruct (write_frame_undisturbed _ _ _ _ _ s E2 Hs) as (? & ? & ? & Ho).
      split_and!; try done. intros Hne. apply Ho. congruence. }
    apply (on_pooled _ _ _ _ _ _ c); [done|done|by eapply write_frame_unbroken|by apply write_frame_ok].
  + intros E. apply redial_streams in E as [Hund Hf]; [|cbn; by rewrite lookup_delete_eq].
    assert (cut_short body c w w') as Hcut.
    { destruct (write_frame_cut _ _ _ _ _ E2) as (Hb & Hsame & k & Hk & Ho).
      destruct (write_frame_undisturbed _ _ _ _ _ c E2 Hlc) as (Hl2 & _).
      destruct (Hund c Hl2) as (_ & _ & Ho' & Hb'). split_and!; [auto|by rewrite Ho'|].
      exists k. by rewrite Ho'. }
    assert (forall c0, outbound n !! hop = Some c0 -> cut_short body c0 w w') as Hcut'
      by (rewrite Ec; by intros ? [= <-]).
    assert (forall s, live w s -> live w2 s) as Hlive
      by (intros s Hs; by apply (write_frame_undisturbed _ _ _ _ _ s E2)).
    split.
    { intros s Hs. destruct (write_frame_undisturbed _ _ _ _ _ s E2 Hs) as (Hl & Hi & Hb & Ho).
      destruct (Hund s Hl) as (? & Hi' & Ho' & ?). rewrite Hi', Ho'. split_and!; auto.
      intros Hne. apply Ho. congruence. }
    destruct Hf as [c' Hc'|c' Hn Hl Hout Ho _|c' k e' Hn Hl Hout Hb Hk Ho _|e' Hout _]; cbn in *.
    * by rewrite lookup_delete_eq in Hc'.
    * rewrite insert_delete_eq in Hout. by apply (on_fresh _ _ _ _ _ _ c'); auto.
    * rewrite insert_delete_eq in Hout. by eapply (fresh_cut _ _ _ _ _ _ c' k); auto.
    * apply not_dialled; [|done]. by rewrite Hout, delete_delete_eq.
Qed.

(** With none. *)
Lemma forward_unpooled_streams hop body n w r n' w' :
  outbound n !! hop = None -> forward hop body n w = (r, n', w') ->
  only_hop hop n w w' /\ forwarded hop body n w n' w' r.
Proof.
  intros Ec. unfold forward, get_or_connect at 1. rewrite Ec.
  destruct (connect hop w) as [[c|e] w1] eqn:E1.
  2: { intros [= <- <- <-]. split.
       - intros c Hc. destruct (connect_undisturbed _ _ _ _ c E1 Hc) as (? & ? & ? & ?). by split_and!.
       - apply not_dialled; [by rewrite delete_id|]. rewrite Ec. done. }
  destruct (connect_ok _ _ _ _ E1) as (Hl & Ho & _).
  assert (~ live w c) as Hnew by (intros Hc; by destruct (connect_fresh _ _ _ _ c E1 Hc) as (_ & _ & _ & [])).
  pose proof (dial_write_undisturbed hop c body w w1 E1) as Hund.
  destruct (write_frame c body w1) as [[[]|e] w2] eqn:E2.
  + intros [= <- <- <-]. pose proof (Hund _ _ eq_refl) as Hu. split.
    { intros s Hs. destruct (Hu s Hs) as (? & ? & ? & ?). by split_and!. }
    apply (on_fresh _ _ _ _ _ _ c); try done; [by apply (write_frame_undisturbed _ _ _ _ _ c E2 Hl)| |by rewrite Ec].
    by rewrite (write_frame_ok _ _ _ _ E2), Ho.
  + pose proof (Hund _ _ eq_refl) as Hu. intros E.
    apply redial_streams in E as [Hund2 Hf]; [|cbn; by rewrite lookup_delete_eq]. split.
    { intros s Hs. destruct (Hu s Hs) as (Hl1 & Hi1 & Ho1 & Hb1).
      destruct (Hund2 s Hl1) as (? & Hi2 & Ho2 & ?). rewrite Hi2, Ho2. by split_and!; auto. }
    assert (forall c', ~ live w2 c' -> ~ live w c') as Hnl by (intros c' Hn Hc'; by apply Hn, Hu).
    destruct Hf as [c' Hc'|c' Hn Hl' Hout Ho' _|c' k e' Hn Hl' Hout Hb Hk Ho' _|e' Hout _]; cbn in *;
      rewrite ?lookup_delete_eq, ?insert_delete_eq, ?insert_insert_eq, ?delete_delete_eq, ?delete_insert_eq in *; try done.
    * apply (on_fresh _ _ _ _ _ _ c'); auto. by rewrite Ec.
    * eapply (fresh_cut _ _ _ _ _ _ c' k); auto. by rewrite Ec.
    * apply not_dialled; [done|by rewrite Ec].
Qed.

Lemma forward_streams hop body n w r n' w' :
  map_Forall (fun _ c => live w c) (outbound n) -> forward hop body n w = (r, n', w') ->
  only_hop hop n w w' /\ forwarded hop body n w n' w' r.
Proof.
  intros Hpool. destruct (outbound n !! hop) as [c|] eqn:Ec; [|by apply forward_unpooled_streams].
  apply (forward_pooled_streams _ _ _ _ _ _ _ c); [done|by apply (Hpool hop c)].
Qed.

(** A turn of the frame loop reads one whole frame and processes it, or finds
    none and ends. *)
Lemma handle_frame_reads s n w fl n' w' :
  live w s -> handle_frame s n w = (fl, n', w') ->
  ((split_frames (inbox w s)).1 = [] /\ n' = n /\ reads s w w' /\ exists r, fl = Return r) \/
  (exists f fs t w1, split_frames (inbox w s) = (f :: fs, t) /\ len f < 2 ^ 32 /\ reads s w w1 /\
     inbox w s = frame_bytes f ++ inbox w1 s /\ process_frame f n w1 = (fl, n', w')).
Proof.
  intros Hs. rewrite split_frames_eq. unfold handle_frame. cbn zeta.
  set (k := Z.to_nat (from_be_bytes (take 4 (inbox w s)))).
  destruct (decide (length (inbox w s) < 4)%nat) as [Hsh|Hsh].
  { rewrite decide_True by tauto. destruct (read_exact_eof s 4 w Hsh) as (e & w1 & E1). rewrite E1.
    intros [= <- <- <-]. left. split_and!; [done|done|by eapply read_exact_reads|by eexists]. }
  destruct (read_exact_ok s 4 w ltac:(lia)) as (w1 & E1 & Hi1). rewrite E1. fold k.
  pose proof (read_exact_reads _ _ _ _ _ E1) as Hr1. case_decide as Hd.
  - destruct (read_exact_eof s k w1) as (e & w2 & E2); [rewrite Hi1, length_drop; lia|]. rewrite E2.
    intros [= <- <- <-]. left.
    split_and!; [done|done|by eapply reads_trans, read_exact_reads|by eexists].
  - destruct (read_exact_ok s k w1) as (w2 & E2 & Hi2); [rewrite Hi1, length_drop; lia|]. rewrite E2.
    intros E. right. rewrite Hi1 in E. exists (take k (drop 4 (inbox w s))).
    destruct (split_frames_join (inbox w s)) as (_ & Hsm & _). rewrite split_frames_eq in Hsm.
    cbn zeta in Hsm. fold k in Hsm. rewrite decide_False in Hsm by done. cbn in Hsm.
    apply Forall_cons in Hsm as [Hsm _].
    eexists _, _, w2. split_and!; [done|done|by eapply reads_trans, read_exact_reads| |done].
    apply (inbox_after _ _ _ (split_frames (inbox w2 s)).1 (split_frames (inbox w2 s)).2).
    + rewrite split_frames_eq. cbn zeta. fold k. rewrite decide_False by done.
      rewrite Hi2, Hi1, drop_drop. done.
    + by destruct (split_frames (inbox w2 s)).
Qed.
End forwarding.

(** A forward layer adds 63 bytes and the address to what it carries. *)
Lemma peeled_smaller `{CryptoLaws} kp f hop inner :
  peel_onion_layer kp f = Ok (Forward hop inner) -> len inner + 63 <= len f.
Proof.
  intros Hp. apply peel_sound in Hp as (_ & eph & nonce & key & ct & -> & He & Hn & _ & Hc).
  apply aead_encrypt_length in Hc. unfold len. rewrite !length_app, Hc, He, Hn.
  unfold encode_payload. rewrite !length_app, length_to_be_bytes. cbn. lia.
Qed.
