(* ===== verification/Deployment.v ===== *)
(** * A deployment: relay processes connected by streams

    Every host is a relay process ([RelayProcess.Process]) with its own view of
    the world; between hosts, and from clients to hosts, run the byte streams
    that were dialled. A step lets a client send, the network carry bytes or
    set up a connection, or any task of any process take its turn; streams may
    break, connections be refused at the limit, forwards fail. Here is the
    invariant that every step keeps and what a forward does to it;
    [DeploymentRun] concludes. *)
From S2P Require Import Prelude.
From S2P Require Import RustStd.
From S2P Require Import Interfaces.
From S2P Require Import Cell.
From S2P Require Import Keys.
From S2P Require Import Forwarding.
From S2P Require Import Fragmentation.
From S2P Require Import Mailbox.
From S2P Require Import PullListener.
From S2P Require Import PullServer.
From S2P Require Import Node.
From S2P Require Import RelayProcess.
From S2P Require Import Client.
From S2P Require Import Receiver.
From S2P Require Import EndToEnd.
From S2P Require Import Links.

Open Scope Z_scope.

(** Who writes on a stream: a client, which has sent these bytes, or the relay
    at an address, on a stream it dialled. *)
Inductive origin (Conn : Type) : Type :=
  | FromClient (sent : bytes)
  | FromRelay (addr : bytes) (c : Conn).
Arguments FromClient {Conn}.
Arguments FromRelay {Conn}.

(** What became of a stream at its destination: not accepted yet, accepted as
    the stream [s] of that host, or closed or refused there. *)
Inductive far_end (Conn : Type) : Type :=
  | Waiting
  | Accepted (s : Conn)
  | Closed.
Arguments Waiting {Conn}.
Arguments Accepted {Conn}.
Arguments Closed {Conn}.

(** A stream: [lk_moved] is what the network has carried into the inbox of the
    far end so far, [lk_done] the number of its frames that were processed. *)
Record link (Conn : Type) : Type := mkLink {
  lk_origin : origin Conn;
  lk_dest : bytes;
  lk_end : far_end Conn;
  lk_moved : bytes;
  lk_done : nat
}.
Arguments mkLink {Conn}.
Arguments lk_origin {Conn}.
Arguments lk_dest {Conn}.
Arguments lk_end {Conn}.
Arguments lk_moved {Conn}.
Arguments lk_done {Conn}.

Section deployment.
Context {W Conn Ch Sem : Type} `{EqDecision Conn} `{Net W Conn} `{!StreamBreak W Conn} `{Crypto}
  `{Channel Ch} `{Semaphore Sem}.
Abbreviation process := (Process Conn Ch Sem).
Abbreviation hosts := (gmap bytes (Process Conn Ch Sem * W)).
Abbreviation links := (list (link Conn)).
Implicit Types (lk : link Conn) (p : process) (w : W) (hs : hosts) (ls : links).

Definition set_end (e : far_end Conn) lk : link Conn :=
  mkLink (lk_origin lk) (lk_dest lk) e (lk_moved lk) (lk_done lk).
Definition carried (bs : bytes) lk : link Conn :=
  mkLink (lk_origin lk) (lk_dest lk) (lk_end lk) (lk_moved lk ++ bs) (lk_done lk).
Definition processed lk : link Conn :=
  mkLink (lk_origin lk) (lk_dest lk) (lk_end lk) (lk_moved lk) (S (lk_done lk)).

(** What was sent on a stream so far, and its complete frames. *)
Definition sent_on hs (o : origin Conn) : bytes :=
  match o with
  | FromClient sent => sent
  | FromRelay a c => match hs !! a with Some (_, w) => outbox w c | None => [] end
  end.

Definition link_frames hs lk : list bytes := (split_frames (sent_on hs (lk_origin lk))).1.

(** The streams that the relay at [a] dialled between two states of its pool. *)
Definition new_links (a : bytes) (n n' : RelayNode Conn Ch Sem) : links :=
  (fun hc => mkLink (FromRelay a hc.2) hc.1 Waiting [] 0) <$>
    map_to_list (filter (fun hc => outbound n !! hc.1 <> Some hc.2) (outbound n')).

(** Open streams are as before, except those in [D]. *)
Definition undisturbed (D : list Conn) w w' : Prop :=
  forall c, live w c -> (c ∉ D) -> undisturbed_at w w' c.

Inductive deployment_step : hosts * links -> hosts * links -> Prop :=
  (** A client opens a stream and sends bytes on it; this also covers streams
      that were dialled and given up with less than a frame on them. *)
  | dp_send hs ls sent dest :
      deployment_step (hs, ls) (hs, ls ++ [mkLink (FromClient sent) dest Waiting [] 0])
  (** The destination accepts a stream, or refuses it at its limit. *)
  | dp_accept hs l1 lk l2 p w s w' n active :
      lk_end lk = Waiting -> hs !! lk_dest lk = Some (p, w) ->
      accepts w s w' -> inbox w' s = [] -> undisturbed [] w w' ->
      accept_connection s (pr_node p) (pr_active p) = (n, active) ->
      deployment_step (hs, l1 ++ lk :: l2)
        (<[lk_dest lk := (with_node n active p, w')]> hs,
         l1 ++ set_end (match try_acquire (connection_limiter (pr_node p)) with
                        | Some _ => Accepted s | None => Closed end) lk :: l2)
  (** The network carries some more of the stream. *)
  | dp_carry hs l1 lk l2 p w s w' bs :
      lk_end lk = Accepted s -> hs !! lk_dest lk = Some (p, w) ->
      (lk_moved lk ++ bs) `prefix_of` sent_on hs (lk_origin lk) ->
      undisturbed [s] w w' -> live w' s -> inbox w' s = inbox w s ++ bs -> outbox w' s = outbox w s ->
      (broken w s -> broken w' s) ->
      deployment_step (hs, l1 ++ lk :: l2) (<[lk_dest lk := (p, w')]> hs, l1 ++ carried bs lk :: l2)
  (** A connection processes its next frame. *)
  | dp_frame hs l1 lk l2 p w s n w' :
      lk_end lk = Accepted s -> hs !! lk_dest lk = Some (p, w) -> s ∈ pr_active p ->
      handle_frame s (pr_node p) w = (Continue, n, w') ->
      deployment_step (hs, l1 ++ lk :: l2)
        (<[lk_dest lk := (with_node n (pr_active p) p, w')]> hs,
         (l1 ++ processed lk :: l2) ++ new_links (lk_dest lk) (pr_node p) n)
  (** A connection ends: its stream has, or its forward failed. *)
  | dp_close hs l1 lk l2 p w s r n w' a1 a2 :
      lk_end lk = Accepted s -> hs !! lk_dest lk = Some (p, w) -> pr_active p = a1 ++ s :: a2 ->
      handle_frame s (pr_node p) w = (Return r, n, w') ->
      deployment_step (hs, l1 ++ lk :: l2)
        (<[lk_dest lk := (with_node (drop_permit n) (a1 ++ a2) p, w')]> hs,
         (l1 ++ set_end Closed lk :: l2) ++ new_links (lk_dest lk) (pr_node p) n)
  (** The queueing task of a host. *)
  | dp_queue hs ls a p w p' :
      hs !! a = Some (p, w) -> queue_step p p' -> deployment_step (hs, ls) (<[a := (p', w)]> hs, ls)
  (** The pull listener of a host, which touches its own streams only. *)
  | dp_serve hs ls a p w evs p' w' :
      hs !! a = Some (p, w) -> serve_step (p, w) evs (p', w') ->
      undisturbed (pr_requests p).*1 w w' ->
      deployment_step (hs, ls) (<[a := (p', w')]> hs, ls).

(** Every process has just been started, and nothing was sent. *)
Definition started hs : Prop :=
  map_Forall (fun _ pw => exists cfg kp ident serving,
    pw.1 = process_new (fresh_node cfg kp) ident serving) hs.

(** ** Reading a deployment as a fabric *)

(** The packets that clients have sent into it. *)
Definition injected ls : list packet :=
  ls ≫= fun lk =>
    match lk_origin lk with
    | FromClient sent => pair (lk_dest lk) <$> (split_frames sent).1
    | FromRelay _ _ => []
    end.

(** The packets that were sent on a stream and not processed at its end;
    those on a closed stream never will be. *)
Definition pending_on hs lk : list packet := pair (lk_dest lk) <$> drop (lk_done lk) (link_frames hs lk).
Definition pending hs ls : list packet := ls ≫= pending_on hs.

(** The bodies that the relays have delivered. *)
Definition delivered_at (h : bytes * (process * W)) : list delivery :=
  pair h.1 <$> ch_sent (delivery_tx (pr_node h.2.1)).
Definition delivered hs : list delivery := map_to_list hs ≫= delivered_at.
End deployment.

#[global] Arguments sent_on : simpl never.

(** ** The invariant of a deployment *)

Section invariant.
Context {W Conn Ch Sem : Type} `{EqDecision Conn} `{NetLaws W Conn} `{!StreamBreak W Conn}
  `{!StreamBreakLaws W Conn} `{CryptoLaws} `{ChannelLaws Ch} `{SemaphoreLaws Sem}.
Context (relay_at : bytes -> option KeyPair).
Abbreviation process := (Process Conn Ch Sem).
Abbreviation hosts := (gmap bytes (Process Conn Ch Sem * W)).
Abbreviation links := (list (link Conn)).
Implicit Types (lk : link Conn) (p : process) (w : W) (hs : hosts) (ls : links) (a : bytes).

(** A relay writes on streams of its own that are no requests, and stops inside
    a frame only when the stream is broken. *)
Definition origin_ok hs (o : origin Conn) : Prop :=
  match o with
  | FromClient _ => True
  | FromRelay a c => exists p w, hs !! a = Some (p, w) /\ live w c /\ (c ∉ (pr_requests p).*1) /\
      ((split_frames (outbox w c)).2 = [] \/ broken w c)
  end.

(** What arrived is what was processed and what is still in the inbox. *)
Definition end_ok hs lk : Prop :=
  match lk_end lk with
  | Waiting => lk_moved lk = [] /\ lk_done lk = 0%nat
  | Accepted s => exists p w, hs !! lk_dest lk = Some (p, w) /\ live w s /\ (s ∉ (pr_requests p).*1) /\
      lk_moved lk = concat (map frame_bytes (take (lk_done lk) (link_frames hs lk))) ++ inbox w s
  | Closed => True
  end.

Record link_ok hs lk : Prop := {
  lok_origin : origin_ok hs (lk_origin lk);
  lok_done : (lk_done lk <= length (link_frames hs lk))%nat;
  lok_moved : lk_moved lk `prefix_of` sent_on hs (lk_origin lk);
  lok_end : end_ok hs lk
}.

(** Where the links of a list come from and go to. *)
Definition routes ls : list (origin Conn * bytes) := map (fun lk => (lk_origin lk, lk_dest lk)) ls.

Definition relay_origin lk : option (bytes * Conn) :=
  match lk_origin lk with FromRelay a c => Some (a, c) | FromClient _ => None end.
Definition accepted_end lk : option (bytes * Conn) :=
  match lk_end lk with Accepted s => Some (lk_dest lk, s) | _ => None end.

Record host_ok ls a p w : Prop := {
  hok_keys : relay_at a = Some (keypair (pr_node p));
  hok_open : ch_open (delivery_tx (pr_node p)) = true;
  hok_requests : Forall (live w) (pr_requests p).*1;
  hok_pool : map_Forall (fun hop c => live w c /\ (FromRelay a c, hop) ∈ routes ls) (outbound (pr_node p))
}.

Record deployment_ok hs ls : Prop := {
  dok_hosts a p w : hs !! a = Some (p, w) -> host_ok ls a p w;
  dok_links : Forall (link_ok hs) ls;
  dok_origins : NoDup (omap relay_origin ls);
  dok_ends : NoDup (omap accepted_end ls)
}.

(** ** One host changes *)

(** The open streams of a host other than its requests keep what they carry,
    [s] perhaps excepted, which may be read from or receive. *)
Definition tame (s : list Conn) p w p' w' : Prop :=
  forall c, live w c -> (c ∉ (pr_requests p).*1) ->
    live w' c /\ (c ∉ (pr_requests p').*1) /\ outbox w' c = outbox w c /\
    (broken w c -> broken w' c) /\ ((c ∉ s) -> inbox w' c = inbox w c).

Lemma tame_undisturbed D p w p' w' :
  undisturbed D w w' -> D ⊆ (pr_requests p).*1 ->
  (forall c, live w c -> (c ∉ (pr_requests p).*1) -> c ∉ (pr_requests p').*1) -> tame [] p w p' w'.
Proof.
  intros Hu HD Hr c Hl Hc. destruct (Hu c Hl) as (? & ? & ? & ?); [set_solver|]. split_and!; auto.
Qed.

Lemma sent_on_insert hs a p w p' w' o :
  hs !! a = Some (p, w) -> origin_ok hs o ->
  (forall c, o = FromRelay a c -> live w c -> (c ∉ (pr_requests p).*1) -> outbox w' c = outbox w c) ->
  sent_on (<[a := (p', w')]> hs) o = sent_on hs o.
Proof.
  intros Ha Ho Hout. destruct o as [sent|b c]; unfold sent_on; [done|].
  destruct (decide (b = a)) as [->|Hne]; [|by rewrite lookup_insert_ne].
  rewrite lookup_insert_eq, Ha. destruct Ho as (p0 & w0 & E & Hl & Hc & _). rewrite Ha in E.
  injection E as <- <-. by apply Hout.
Qed.

Lemma tame_sent_on s hs a p w p' w' o :
  hs !! a = Some (p, w) -> tame s p w p' w' -> origin_ok hs o ->
  sent_on (<[a := (p', w')]> hs) o = sent_on hs o.
Proof. intros Ha Ht Ho. apply (sent_on_insert hs a p w); [done|done|]. intros c _ Hl Hc. by apply Ht. Qed.

Lemma tame_origin_ok s hs a p w p' w' o :
  hs !! a = Some (p, w) -> tame s p w p' w' -> origin_ok hs o -> origin_ok (<[a := (p', w')]> hs) o.
Proof.
  intros Ha Ht. destruct o as [sent|b c]; [done|]. intros (p0 & w0 & E & Hl & Hc & Hf). cbn.
  destruct (decide (b = a)) as [->|Hne]; [|rewrite lookup_insert_ne by done; by exists p0, w0].
  rewrite Ha in E. injection E as <- <-. rewrite lookup_insert_eq. exists p', w'.
  destruct (Ht c Hl Hc) as (? & ? & -> & ? & _). split_and!; try done. destruct Hf; auto.
Qed.

(** A link none of whose ends is concerned. *)
Lemma tame_link_ok s hs a p w p' w' lk :
  hs !! a = Some (p, w) -> tame s p w p' w' -> link_ok hs lk ->
  (forall c, accepted_end lk = Some (a, c) -> c ∉ s) -> link_ok (<[a := (p', w')]> hs) lk.
Proof.
  intros Ha Ht [Ho Hd Hm He] Hs.
  pose proof (tame_sent_on s hs a p w p' w' _ Ha Ht Ho) as Hso.
  assert (link_frames (<[a := (p', w')]> hs) lk = link_frames hs lk) as Hfr by (unfold link_frames; by rewrite Hso).
  constructor; [by eapply tame_origin_ok|by rewrite Hfr|by rewrite Hso|].
  unfold end_ok, accepted_end in *. destruct (lk_end lk) as [|c|] eqn:Ee; [done| |done]. rewrite Hfr.
  destruct He as (p0 & w0 & E & Hl & Hc & ->).
  destruct (decide (lk_dest lk = a)) as [Hda|Hne]; [|rewrite lookup_insert_ne by done; by exists p0, w0].
  rewrite Hda in *. rewrite Ha in E. injection E as <- <-. rewrite lookup_insert_eq. exists p', w'.
  destruct (Ht c Hl Hc) as (? & ? & _ & _ & Hi). rewrite Hi by by apply Hs. done.
Qed.

Lemma pending_same hs hs' ls :
  Forall (fun lk => sent_on hs' (lk_origin lk) = sent_on hs (lk_origin lk)) ls -> pending hs' ls = pending hs ls.
Proof.
  intros Hall. unfold pending. induction Hall as [|lk ls Hlk _ IH]; [done|]. cbn. rewrite IH. f_equal.
  unfold pending_on, link_frames. by rewrite Hlk.
Qed.

Lemma insert_hosts ls hs a p w :
  (forall b q v, hs !! b = Some (q, v) -> host_ok ls b q v) -> host_ok ls a p w ->
  forall b q v, <[a := (p, w)]> hs !! b = Some (q, v) -> host_ok ls b q v.
Proof.
  intros Hall Ha b q v. destruct (decide (b = a)) as [->|Hne].
  - rewrite lookup_insert_eq. by intros [= <- <-].
  - rewrite lookup_insert_ne by done. apply Hall.
Qed.

(** A host acts without touching the streams. *)
Lemma deployment_ok_tame hs ls a p w p' w' :
  deployment_ok hs ls -> hs !! a = Some (p, w) -> tame [] p w p' w' -> host_ok ls a p' w' ->
  deployment_ok (<[a := (p', w')]> hs) ls /\ pending (<[a := (p', w')]> hs) ls = pending hs ls.
Proof.
  intros [Hh Hl Ho He] Ha Ht Hok. split.
  - constructor; [by apply insert_hosts| |done|done].
    eapply Forall_impl; [exact Hl|]. intros lk Hlk. apply (tame_link_ok [] _ _ p w); try done.
    intros c _. apply not_elem_of_nil.
  - apply pending_same. eapply Forall_impl; [exact Hl|]. intros lk [Hlk _ _ _].
    by apply (tame_sent_on [] _ _ p w).
Qed.

Lemma routes_replace l1 lk l2 lk' :
  lk_origin lk' = lk_origin lk -> lk_dest lk' = lk_dest lk -> routes (l1 ++ lk' :: l2) = routes (l1 ++ lk :: l2).
Proof. intros Ho Hd. unfold routes. rewrite !map_app. cbn. by rewrite Ho, Hd. Qed.

Lemma host_ok_routes ls ls' a p w :
  (forall r, r ∈ routes ls -> r ∈ routes ls') -> host_ok ls a p w -> host_ok ls' a p w.
Proof.
  intros Hr [Hk Ho Hq Hp]. constructor; [done..|]. intros hop c Hc. destruct (Hp hop c Hc). auto.
Qed.

Lemma pending_middle hs l1 lk l2 : pending hs (l1 ++ lk :: l2) ≡ₚ pending_on hs lk ++ pending hs (l1 ++ l2).
Proof.
  unfold pending. rewrite !bind_app. cbn. rewrite !(assoc (++)). apply Permutation_app_tail, Permutation_app_comm.
Qed.

(** A host acts on one link, at its far end. *)
Lemma deployment_ok_replace s hs l1 lk l2 a p w p' w' lk' :
  deployment_ok hs (l1 ++ lk :: l2) -> hs !! a = Some (p, w) -> tame s p w p' w' ->
  host_ok (l1 ++ lk :: l2) a p' w' -> lk_origin lk' = lk_origin lk -> lk_dest lk' = lk_dest lk ->
  link_ok (<[a := (p', w')]> hs) lk' ->
  (forall c, (a, c) ∈ omap accepted_end (l1 ++ l2) -> c ∉ s) ->
  NoDup (omap accepted_end (l1 ++ lk' :: l2)) ->
  deployment_ok (<[a := (p', w')]> hs) (l1 ++ lk' :: l2) /\
  pending (<[a := (p', w')]> hs) (l1 ++ lk' :: l2) ≡ₚ
    pending_on (<[a := (p', w')]> hs) lk' ++ pending hs (l1 ++ l2).
Proof.
  intros [Hh Hl Ho He] Ha Ht Hok Hor Hd Hlk' Hs He'.
  pose proof (routes_replace l1 lk l2 lk' Hor Hd) as Hro.
  assert (Forall (link_ok hs) (l1 ++ l2)) as Hl12.
  { apply Forall_app in Hl as [Hl1 [_ Hl2]%Forall_cons]. by apply Forall_app_2. }
  assert (forall lk0, lk0 ∈ l1 ++ l2 -> link_ok (<[a := (p', w')]> hs) lk0) as Hothers.
  { intros lk0 Hin. eapply tame_link_ok; [done|done|by eapply Forall_forall in Hl12|].
    intros c Hc. apply Hs. apply list_elem_of_omap. by exists lk0. }
  split; [constructor|].
  - apply insert_hosts.
    + intros b q v Hb. eapply host_ok_routes; [|by apply Hh]. by rewrite Hro.
    + eapply host_ok_routes; [|done]. by rewrite Hro.
  - apply Forall_forall. intros lk0 [Hin|[->|Hin]%elem_of_cons]%elem_of_app; [|done|];
      apply Hothers, elem_of_app; auto.
  - assert (relay_origin lk' = relay_origin lk) as Hro' by (unfold relay_origin; by rewrite Hor).
    rewrite omap_app in Ho. rewrite omap_app. cbn in *. by rewrite Hro'.
  - done.
  - rewrite pending_middle. apply Permutation_app_head.
    rewrite (pending_same hs (<[a := (p', w')]> hs) (l1 ++ l2)); [done|].
    eapply Forall_impl; [exact Hl12|]. intros lk0 [Hlk0 _ _ _]. by eapply tame_sent_on.
Qed.

Lemma reads_tame s p w w' : reads s w w' -> tame [s] p w p w'.
Proof.
  intros Hr c Hl Hc. destruct (Hr c Hl) as (? & ? & Hi & ?). split_and!; try done.
  intros Hs. apply Hi. intros ->. apply Hs. by left.
Qed.

(** The far ends of the other links, when one of them changes. *)
Lemma ends_apart a s l1 lk l2 :
  NoDup (omap accepted_end (l1 ++ lk :: l2)) -> accepted_end lk = Some (a, s) ->
  forall c, (a, c) ∈ omap accepted_end (l1 ++ l2) -> c ∉ [s].
Proof.
  intros Hnd He c Hc ->%list_elem_of_singleton. rewrite omap_app in Hnd. cbn in Hnd. rewrite He in Hnd.
  rewrite <- Permutation_middle in Hnd. apply NoDup_cons in Hnd as [Hn _]. by rewrite <- omap_app in Hn.
Qed.

Lemma ends_same l1 lk l2 lk' :
  accepted_end lk' = accepted_end lk \/ accepted_end lk' = None ->
  NoDup (omap accepted_end (l1 ++ lk :: l2)) -> NoDup (omap accepted_end (l1 ++ lk' :: l2)).
Proof.
  rewrite !omap_app. cbn. intros [->| ->]; [done|]. destruct (accepted_end lk); [|done].
  rewrite <- Permutation_middle. by intros [_ ?]%NoDup_cons.
Qed.

Lemma host_ok_reads ls a s p w w' : reads s w w' -> host_ok ls a p w -> host_ok ls a p w'.
Proof.
  intros Hr [Hk Ho Hq Hp]. constructor; [done|done| |].
  - eapply Forall_impl; [exact Hq|]. intros c Hc. by apply Hr.
  - intros hop c Hc. destruct (Hp hop c Hc). split; [by apply Hr|done].
Qed.

(** A connection reads its next frame: the packet is no longer pending. *)
Lemma deployment_ok_read hs l1 lk l2 p w s f fs t w1 :
  deployment_ok hs (l1 ++ lk :: l2) -> lk_end lk = Accepted s -> hs !! lk_dest lk = Some (p, w) ->
  reads s w w1 -> split_frames (inbox w s) = (f :: fs, t) -> inbox w s = frame_bytes f ++ inbox w1 s ->
  let hs1 := <[lk_dest lk := (p, w1)]> hs in
  deployment_ok hs1 (l1 ++ processed lk :: l2) /\
  pending hs (l1 ++ lk :: l2) ≡ₚ (lk_dest lk, f) :: pending hs1 (l1 ++ processed lk :: l2).
Proof.
  intros Hok Hs Hd Hr Hsp Hi hs1. pose proof Hok as [Hh Hl Ho He].
  pose proof (reads_tame s p w w1 Hr) as Ht.
  assert (accepted_end lk = Some (lk_dest lk, s)) as Hae by (unfold accepted_end; by rewrite Hs).
  assert (link_ok hs lk) as [Hlo Hld Hlm Hle] by by apply Forall_app in Hl as [_ [? _]%Forall_cons].
  assert (sent_on hs1 (lk_origin lk) = sent_on hs (lk_origin lk)) as Hso by by eapply tame_sent_on.
  unfold end_ok in Hle. rewrite Hs in Hle. destruct Hle as (p0 & w0 & E & Hls & Hrs & Hmv).
  rewrite Hd in E. injection E as <- <-.
  destruct (next_frame (link_frames hs lk) (lk_done lk) _ (inbox w s) (sent_on hs (lk_origin lk)) f fs t
              eq_refl eq_refl) as [Hnx Hlt]; [by rewrite <- Hmv|done|].
  assert (link_ok hs1 (processed lk)) as Hlk'.
  { assert (link_frames hs1 (processed lk) = link_frames hs lk) as Hfr
      by (unfold link_frames; cbn [processed lk_origin]; by rewrite Hso).
    constructor; cbn [processed lk_origin lk_done lk_moved]; rewrite ?Hfr, ?Hso; [by eapply tame_origin_ok|lia|done|].
    unfold end_ok. rewrite Hfr. cbn [processed lk_end lk_dest lk_done lk_moved]. rewrite Hs.
    exists p, w1. subst hs1. rewrite lookup_insert_eq. split_and!; [done|by apply Hr|done|].
    rewrite (take_S_r _ _ _ Hnx), map_app, concat_app. cbn. by rewrite app_nil_r, <- app_assoc, <- Hi. }
  destruct (deployment_ok_replace [s] hs l1 lk l2 (lk_dest lk) p w p w1 (processed lk)) as [Hok' Hp]; try done.
  - eapply host_ok_reads; [done|by apply Hh].
  - by apply (ends_apart _ _ _ lk).
  - by apply (ends_same _ lk); [left|].
  - split; [done|]. fold hs1 in Hp. rewrite Hp, (pending_middle hs l1 lk l2).
    unfold pending_on, link_frames. cbn [processed lk_origin lk_dest lk_done]. rewrite Hso.
    fold (link_frames hs lk). by rewrite (drop_S _ _ _ Hnx).
Qed.

(** ** A host writes *)

Lemma new_links_pool a (n n' : RelayNode Conn Ch Sem) hop :
  outbound n' = outbound n \/ outbound n' = delete hop (outbound n) -> new_links a n n' = [].
Proof.
  intros Ho. unfold new_links.
  assert (filter (fun hc => outbound n !! hc.1 <> Some hc.2) (outbound n') = ∅) as ->; [|by rewrite map_to_list_empty].
  apply map_empty_filter_2. intros h c Hc Hne. apply Hne. cbn.
  destruct Ho as [Ho|Ho]; rewrite Ho in Hc; [done|by apply lookup_delete_Some in Hc as [_ Hc]].
Qed.

Lemma new_links_fresh a (n n' : RelayNode Conn Ch Sem) hop c :
  outbound n' = <[hop := c]> (outbound n) -> outbound n !! hop <> Some c ->
  new_links a n n' = [mkLink (FromRelay a c) hop Waiting [] 0].
Proof.
  intros Ho Hne. unfold new_links.
  assert (filter (fun hc => outbound n !! hc.1 <> Some hc.2) (outbound n') = {[hop := c]}) as ->;
    [|by rewrite map_to_list_singleton].
  apply map_eq. intros h. rewrite Ho.
  destruct (decide (h = hop)) as [->|Hh].
  - rewrite lookup_singleton_eq. apply map_lookup_filter_Some. rewrite lookup_insert_eq. by split.
  - rewrite lookup_singleton_ne by done. apply map_lookup_filter_None. right.
    intros x. rewrite lookup_insert_ne by done. cbn. intros Hx Hx'. done.
Qed.

(** Streams between hosts only grow. *)
Definition lively p w p' w' : Prop :=
  forall c, live w c -> (c ∉ (pr_requests p).*1) ->
    live w' c /\ (c ∉ (pr_requests p').*1) /\ inbox w' c = inbox w c /\ (broken w c -> broken w' c).

Lemma link_ok_grow hs a p w p' w' lk extra :
  hs !! a = Some (p, w) -> link_ok hs lk -> lively p w p' w' ->
  let hs' := <[a := (p', w')]> hs in
  sent_on hs (lk_origin lk) `prefix_of` sent_on hs' (lk_origin lk) ->
  link_frames hs' lk = link_frames hs lk ++ extra ->
  (forall c, lk_origin lk = FromRelay a c -> (split_frames (outbox w' c)).2 = [] \/ broken w' c) ->
  link_ok hs' lk /\ pending_on hs' lk = pending_on hs lk ++ (pair (lk_dest lk) <$> extra).
Proof.
  intros Ha [Ho Hd Hm He] Hl hs' Hpre Hfr Hcut. split.
  2: { unfold pending_on. rewrite Hfr, drop_app_le, fmap_app by done. done. }
  constructor.
  - unfold origin_ok in *. destruct (lk_origin lk) as [sent|b c] eqn:Eo; [done|].
    destruct Ho as (p0 & w0 & E & Hlc & Hc & Hf). subst hs'.
    destruct (decide (b = a)) as [->|Hne]; [|rewrite lookup_insert_ne by done; by exists p0, w0].
    rewrite Ha in E. injection E as <- <-. rewrite lookup_insert_eq. exists p', w'.
    destruct (Hl c Hlc Hc) as (? & ? & _ & _). split_and!; try done. by apply Hcut.
  - rewrite Hfr, length_app. lia.
  - by etransitivity.
  - unfold end_ok in *. destruct (lk_end lk) as [|s|]; [done| |done].
    destruct He as (p0 & w0 & E & Hls & Hs & ->). rewrite Hfr, take_app_le by done. subst hs'.
    destruct (decide (lk_dest lk = a)) as [Hda|Hne]; [|rewrite lookup_insert_ne by done; by exists p0, w0].
    rewrite Hda in *. rewrite Ha in E. injection E as <- <-. rewrite lookup_insert_eq. exists p', w'.
    by destruct (Hl s Hls Hs) as (? & ? & -> & _).
Qed.

(** A link whose origin is not written on. *)
Lemma link_ok_other hs a p w p' w' lk :
  hs !! a = Some (p, w) -> link_ok hs lk -> lively p w p' w' ->
  (forall c, lk_origin lk = FromRelay a c -> outbox w' c = outbox w c) ->
  let hs' := <[a := (p', w')]> hs in link_ok hs' lk /\ pending_on hs' lk = pending_on hs lk.
Proof.
  intros Ha Hok Hl Hout hs'. pose proof (lok_origin _ _ Hok) as Ho.
  assert (sent_on hs' (lk_origin lk) = sent_on hs (lk_origin lk)) as Hso
    by (apply (sent_on_insert hs a p w); auto).
  rewrite <- (app_nil_r (pending_on hs lk)). apply (link_ok_grow hs a p w p' w' lk []); try done.
  - fold hs'. by rewrite Hso.
  - fold hs'. unfold link_frames. by rewrite Hso, app_nil_r.
  - intros c Eo. unfold origin_ok in Ho. rewrite Eo in Ho. destruct Ho as (p0 & w0 & E & Hlc & Hc & Hf).
    rewrite Ha in E. injection E as <- <-. rewrite (Hout c Eo). destruct (Hl c Hlc Hc) as (_ & _ & _ & Hb).
    destruct Hf; auto.
Qed.

(** A link on which a frame was cut short. *)
Lemma link_ok_cut hs a p w p' w' lk c body :
  hs !! a = Some (p, w) -> link_ok hs lk -> lively p w p' w' -> lk_origin lk = FromRelay a c ->
  len body < 2 ^ 32 -> cut_short body c w w' ->
  let hs' := <[a := (p', w')]> hs in link_ok hs' lk /\ pending_on hs' lk = pending_on hs lk.
Proof.
  intros Ha Hok Hl Eo Hlen (Hb & Hsame & k & Hk & Hout) hs'.
  pose proof (lok_origin _ _ Hok) as Ho. unfold origin_ok in Ho. rewrite Eo in Ho.
  destruct Ho as (p0 & w0 & E & Hlc & Hc & Hf). rewrite Ha in E. injection E as <- <-.
  assert (sent_on hs (lk_origin lk) = outbox w c) as Hs1 by (unfold sent_on; by rewrite Eo, Ha).
  assert (sent_on hs' (lk_origin lk) = outbox w' c) as Hs2
    by (unfold sent_on, hs'; by rewrite Eo, lookup_insert_eq).
  rewrite <- (app_nil_r (pending_on hs lk)). apply (link_ok_grow hs a p w p' w' lk []); try done; fold hs'.
  - rewrite Hs1, Hs2, Hout. by eexists.
  - unfold link_frames. rewrite Hs1, Hs2, app_nil_r. destruct Hf as [Hf|Hf].
    + rewrite Hout. by apply split_frames_snoc_partial.
    + by rewrite Hsame.
  - intros c' Eo'. rewrite Eo in Eo'. injection Eo' as <-. by right.
Qed.

(** A link on which a whole frame was written. *)
Lemma link_ok_frame hs a p w p' w' lk c body :
  hs !! a = Some (p, w) -> link_ok hs lk -> lively p w p' w' -> lk_origin lk = FromRelay a c ->
  len body < 2 ^ 32 -> ~ broken w c -> outbox w' c = outbox w c ++ frame_bytes body ->
  let hs' := <[a := (p', w')]> hs in
  link_ok hs' lk /\ pending_on hs' lk = pending_on hs lk ++ [(lk_dest lk, body)].
Proof.
  intros Ha Hok Hl Eo Hlen Hb Hout hs'.
  pose proof (lok_origin _ _ Hok) as Ho. unfold origin_ok in Ho. rewrite Eo in Ho.
  destruct Ho as (p0 & w0 & E & Hlc & Hc & [Hf|Hf]); rewrite Ha in E; injection E as <- <-; [|done].
  assert (sent_on hs (lk_origin lk) = outbox w c) as Hs1 by (unfold sent_on; by rewrite Eo, Ha).
  assert (sent_on hs' (lk_origin lk) = outbox w' c) as Hs2
    by (unfold sent_on, hs'; by rewrite Eo, lookup_insert_eq).
  pose proof (split_frames_snoc (outbox w c) body Hf Hlen) as Hsn.
  apply (link_ok_grow hs a p w p' w' lk [body]); try done; fold hs'.
  - rewrite Hs1, Hs2, Hout. by eexists.
  - unfold link_frames. by rewrite Hs1, Hs2, Hout, Hsn.
  - intros c' Eo'. rewrite Eo in Eo'. injection Eo' as <-. left. by rewrite Hout, Hsn.
Qed.

Lemma links_pointwise hs hs' ls :
  (forall lk, lk ∈ ls -> link_ok hs' lk /\ pending_on hs' lk = pending_on hs lk) ->
  Forall (link_ok hs') ls /\ pending hs' ls = pending hs ls.
Proof.
  intros Hall. split; [apply Forall_forall; intros lk Hlk; by apply Hall|].
  unfold pending. induction ls as [|lk ls IH]; [done|]. cbn. rewrite IH.
  - f_equal. apply Hall. by left.
  - intros lk' Hlk'. apply Hall. by right.
Qed.

(** Nothing whole was written on the streams there were. *)
Lemma links_given_up hs ls a p w p' w' hop body :
  deployment_ok hs ls -> hs !! a = Some (p, w) -> lively p w p' w' -> len body < 2 ^ 32 ->
  only_hop hop (pr_node p) w w' ->
  (forall c, outbound (pr_node p) !! hop = Some c -> cut_short body c w w') ->
  let hs' := <[a := (p', w')]> hs in Forall (link_ok hs') ls /\ pending hs' ls = pending hs ls.
Proof.
  intros [_ Hlinks _ _] Ha Hl Hlen Honly Hcut hs'. apply links_pointwise. intros lk Hin.
  pose proof (proj1 (Forall_forall _ _) Hlinks lk Hin) as Hlk.
  assert ((exists c, lk_origin lk = FromRelay a c /\ outbound (pr_node p) !! hop = Some c) \/
          forall c, lk_origin lk = FromRelay a c -> outbound (pr_node p) !! hop <> Some c) as [(c & Eo & Ec)|Hno].
  { destruct (lk_origin lk) as [sent|b c]; [by right|].
    destruct (decide (b = a /\ outbound (pr_node p) !! hop = Some c)) as [[-> Ec]|Hno]; [left; by exists c|].
    right. intros c' [= -> ->] Ec. by apply Hno. }
  - by apply (link_ok_cut hs a p w p' w' lk c body); auto.
  - apply (link_ok_other hs a p w p' w' lk); try done. intros c Eo.
    pose proof (lok_origin _ _ Hlk) as Ho. unfold origin_ok in Ho. rewrite Eo in Ho.
    destruct Ho as (p0 & w0 & E & Hlc & _). rewrite Ha in E. injection E as <- <-.
    apply (Honly c Hlc). by apply Hno.
Qed.

Lemma relay_origin_unique l1 lk l2 a c :
  NoDup (omap relay_origin (l1 ++ lk :: l2)) -> relay_origin lk = Some (a, c) ->
  forall lk', lk' ∈ l1 ++ l2 -> lk_origin lk' <> FromRelay a c.
Proof.
  intros Hnd Ho lk' Hin Eo. rewrite omap_app in Hnd. cbn in Hnd. rewrite Ho in Hnd.
  rewrite <- Permutation_middle, <- omap_app in Hnd. apply NoDup_cons in Hnd as [Hn _]. apply Hn.
  apply list_elem_of_omap. exists lk'. split; [done|]. unfold relay_origin. by rewrite Eo.
Qed.

(** A whole frame was written on the pooled stream. *)
Lemma links_pooled hs ls a p w p' w' hop body c :
  deployment_ok hs ls -> hs !! a = Some (p, w) -> lively p w p' w' -> len body < 2 ^ 32 ->
  only_hop hop (pr_node p) w w' -> outbound (pr_node p) !! hop = Some c -> ~ broken w c ->
  outbox w' c = outbox w c ++ frame_bytes body ->
  let hs' := <[a := (p', w')]> hs in
  Forall (link_ok hs') ls /\ pending hs' ls ≡ₚ pending hs ls ++ [(hop, body)].
Proof.
  intros [Hh Hlinks Hor _] Ha Hl Hlen Honly Ec Hnb Hout hs'.
  destruct (hok_pool _ _ _ _ (Hh a p w Ha) hop c Ec) as [Hlc Hroute].
  unfold routes in Hroute. apply list_elem_of_fmap in Hroute as (lk & Eroute & Hin).
  injection Eroute as Eo Ed. symmetry in Eo. apply list_elem_of_split in Hin as (l1 & l2 & ->).
  pose proof (relay_origin_unique l1 lk l2 a c Hor) as Huniq.
  specialize (Huniq ltac:(unfold relay_origin; by rewrite Eo)).
  apply Forall_app in Hlinks as [Hl1 [Hlk Hl2]%Forall_cons].
  destruct (links_pointwise hs hs' (l1 ++ l2)) as [Hf Hp].
  { intros lk' Hin. apply (link_ok_other hs a p w p' w' lk'); try done.
    - by apply elem_of_app in Hin as [Hin|Hin]; [eapply Forall_forall in Hl1|eapply Forall_forall in Hl2].
    - intros c' Eo'. assert (c' <> c) by (intros ->; by apply (Huniq lk' Hin)).
      pose proof (Forall_app_2 _ _ _ Hl1 Hl2) as Hl12.
      pose proof (lok_origin _ _ (proj1 (Forall_forall _ _) Hl12 lk' Hin)) as Ho. unfold origin_ok in Ho. rewrite Eo' in Ho.
      destruct Ho as (p0 & w0 & E & Hlc' & _). rewrite Ha in E. injection E as <- <-.
      apply (Honly c' Hlc'). congruence. }
  destruct (link_ok_frame hs a p w p' w' lk c body Ha Hlk Hl Eo Hlen Hnb Hout) as [Hlk' Hpk]. fold hs' in Hlk', Hpk.
  split.
  - apply Forall_app in Hf as [? ?]. apply Forall_app_2; [done|by constructor].
  - rewrite !pending_middle, Hpk, Hp, Ed. rewrite <- !(assoc (++)). apply Permutation_app_head, Permutation_app_comm.
Qed.

Lemma deployment_ok_add hs ls new a p w p' w' :
  deployment_ok hs ls -> hs !! a = Some (p, w) ->
  let hs' := <[a := (p', w')]> hs in
  Forall (link_ok hs') ls -> Forall (link_ok hs') new -> omap accepted_end new = [] ->
  NoDup (omap relay_origin (ls ++ new)) -> host_ok (ls ++ new) a p' w' -> deployment_ok hs' (ls ++ new).
Proof.
  intros [Hh _ _ He] Ha hs' Hl Hn Hen Ho Hok. constructor; [|by apply Forall_app_2|done|].
  - apply insert_hosts; [|done]. intros b q v Hb. eapply host_ok_routes; [|by apply Hh].
    intros r Hr. unfold routes. rewrite map_app. apply elem_of_app. by left.
  - by rewrite omap_app, Hen, app_nil_r.
Qed.

(** The stream that a host has just dialled. *)
Lemma link_ok_dialled hs a p w c hop :
  hs !! a = Some (p, w) -> live w c -> (c ∉ (pr_requests p).*1) ->
  (split_frames (outbox w c)).2 = [] \/ broken w c ->
  link_ok hs (mkLink (FromRelay a c) hop Waiting [] 0).
Proof.
  intros Ha Hl Hc Hf. constructor; cbn; [by exists p, w|lia|apply prefix_nil|done].
Qed.

(** A host forwards, and then is [p'] in the world [w']. *)
Section write.
Context (hs : hosts) (ls : links) (a : bytes) (p : process) (w : W) (p' : process) (w' : W) (hop body : bytes)
  (r : result RelayError unit) (n' : RelayNode Conn Ch Sem).
Hypothesis (Hok : deployment_ok hs ls) (Ha : hs !! a = Some (p, w)).
Hypothesis (Hfw : forward hop body (pr_node p) w = (r, n', w')) (Hlen : len body < 2 ^ 32).
Hypothesis (Hreq : pr_requests p' = pr_requests p) (Hkp : keypair (pr_node p') = keypair (pr_node p)).
Hypothesis (Hopen : ch_open (delivery_tx (pr_node p')) = true) (Hout : outbound (pr_node p') = outbound n').

Let hs' := <[a := (p', w')]> hs.
Let ls' := ls ++ new_links a (pr_node p) n'.

Lemma write_streams : only_hop hop (pr_node p) w w' /\ forwarded hop body (pr_node p) w n' w' r.
Proof.
  apply forward_streams; [|done]. intros h c Hc. by apply (hok_pool _ _ _ _ (dok_hosts _ _ Hok a p w Ha) h c).
Qed.

Lemma write_lively : lively p w p' w'.
Proof. intros c Hl Hc. rewrite Hreq. by destruct (proj1 write_streams c Hl) as (? & ? & ? & _). Qed.

(** Streams of requests and of the pool are open; a fresh one is none of them. *)
Lemma fresh_request c : ~ live w c -> c ∉ (pr_requests p').*1.
Proof.
  rewrite Hreq. intros Hn Hin. apply Hn.
  by eapply Forall_forall in Hin; [|exact (hok_requests _ _ _ _ (dok_hosts _ _ Hok a p w Ha))].
Qed.

Lemma fresh_pool c : ~ live w c -> forall h, outbound (pr_node p) !! h <> Some c.
Proof. intros Hn h Hc. by apply Hn, (hok_pool _ _ _ _ (dok_hosts _ _ Hok a p w Ha) h c). Qed.

Lemma fresh_origin c : ~ live w c -> (a, c) ∉ omap relay_origin ls.
Proof.
  intros Hn Hin. apply list_elem_of_omap in Hin as (lk & Hin & Hx). unfold relay_origin in Hx.
  pose proof (lok_origin _ _ (proj1 (Forall_forall _ _) (dok_links _ _ Hok) lk Hin)) as Ho.
  destruct (lk_origin lk); [done|]. injection Hx as -> ->.
  destruct Ho as (p0 & w0 & E0 & Hlc & _). rewrite Ha in E0. by injection E0 as <- <-.
Qed.

Lemma old_route new h c :
  outbound (pr_node p) !! h = Some c -> live w' c /\ (FromRelay a c, h) ∈ routes (ls ++ new).
Proof.
  intros Hc. destruct (hok_pool _ _ _ _ (dok_hosts _ _ Hok a p w Ha) h c Hc) as [Hl Hr].
  split; [by apply write_streams|]. unfold routes. rewrite map_app. apply elem_of_app. by left.
Qed.

Lemma write_host new :
  map_Forall (fun h c => live w' c /\ (FromRelay a c, h) ∈ routes (ls ++ new)) (outbound n') ->
  host_ok (ls ++ new) a p' w'.
Proof.
  destruct (dok_hosts _ _ Hok a p w Ha) as [Hk _ Hq _]. intros Hp.
  constructor; [by rewrite Hkp|done| |by rewrite Hout].
  rewrite Hreq. eapply Forall_impl; [exact Hq|]. intros c Hc. by apply write_streams.
Qed.

(** No stream was dialled. *)
Lemma write_old_links :
  outbound n' = outbound (pr_node p) \/ outbound n' = delete hop (outbound (pr_node p)) ->
  Forall (link_ok hs') ls -> deployment_ok hs' ls' /\ pending hs' ls' = pending hs' ls.
Proof.
  intros Ho Hls. subst ls'. rewrite (new_links_pool a _ _ hop) by done. rewrite app_nil_r. split; [|done].
  rewrite <- (app_nil_r ls). apply (deployment_ok_add hs ls [] a p w); try done.
  - rewrite app_nil_r. by destruct Hok.
  - apply write_host. intros h x Hx. apply old_route.
    destruct Ho as [Ho|Ho]; rewrite Ho in Hx; [done|by apply lookup_delete_Some in Hx as [_ Hx]].
Qed.

(** A stream was dialled; what is on it is between frames or was cut short. *)
Lemma write_new_link c :
  ~ live w c -> outbound n' = <[hop := c]> (outbound (pr_node p)) -> live w' c ->
  (split_frames (outbox w' c)).2 = [] \/ broken w' c -> Forall (link_ok hs') ls ->
  deployment_ok hs' ls' /\ pending hs' ls' = pending hs' ls ++ (pair hop <$> (split_frames (outbox w' c)).1).
Proof.
  intros Hn Ho Hlc Hcut Hls. subst ls'. rewrite (new_links_fresh a _ _ hop c Ho) by by apply fresh_pool. split.
  - apply (deployment_ok_add hs ls _ a p w); try done.
    + constructor; [|done].
      apply (link_ok_dialled hs' a p' w'); [apply lookup_insert_eq|done|by apply fresh_request|done].
    + rewrite omap_app. cbn. apply NoDup_app. split_and!; [by destruct Hok| |apply NoDup_singleton].
      intros x Hx ->%list_elem_of_singleton. by apply (fresh_origin c Hn).
    + apply write_host. rewrite Ho. intros h x. destruct (decide (h = hop)) as [->|Hne].
      * rewrite lookup_insert_eq. intros [= <-]. split; [done|].
        unfold routes. rewrite map_app. apply elem_of_app. right. by left.
      * rewrite lookup_insert_ne by done. apply old_route.
  - unfold pending. rewrite bind_app. cbn. rewrite app_nil_r. f_equal.
    unfold pending_on, link_frames, sent_on, hs'. cbn. by rewrite lookup_insert_eq, drop_0.
Qed.

(** The packet is pending on the stream to the next hop, or, when the forward
    failed, nowhere. *)
Lemma deployment_ok_forward :
  deployment_ok hs' ls' /\
  pending hs' ls' ≡ₚ pending hs ls ++ match r with Ok _ => [(hop, body)] | Err _ => [] end.
Proof.
  destruct write_streams as [Honly Hf]. pose proof write_lively as Hlive.
  pose proof (links_given_up hs ls a p w p' w' hop body Hok Ha Hlive Hlen Honly) as Hgive. fold hs' in Hgive.
  pose proof write_old_links as Hold. pose proof write_new_link as Hdial.
  destruct Hf as [c Ec Ho Hnb Hw|c Hn Hlc Ho Hw Hgu|c k e Hn Hlc Ho Hb Hk Hw Hgu|e Ho Hgu].
  - destruct (links_pooled hs ls a p w p' w' hop body c Hok Ha Hlive Hlen Honly Ec Hnb Hw) as [Hls Hp].
    destruct Hold as [Hok' Hp']; [by left|done|]. split; [done|]. by rewrite Hp'.
  - destruct (Hgive Hgu) as [Hls Hp].
    pose proof (split_frames_cons body [] Hlen) as Hsp. rewrite app_nil_r, <- Hw in Hsp.
    destruct (Hdial c Hn Ho Hlc) as [Hok' Hp']; [by left; rewrite Hsp|done|].
    split; [done|]. by rewrite Hp', Hp, Hsp.
  - destruct (Hgive Hgu) as [Hls Hp].
    pose proof (split_frames_partial body k Hlen Hk) as Hsp. rewrite <- Hw in Hsp.
    destruct (Hdial c Hn Ho Hlc) as [Hok' Hp']; [by right|done|]. split; [done|]. by rewrite Hp', Hp, Hsp.
  - destruct (Hgive Hgu) as [Hls Hp]. destruct Hold as [Hok' Hp']; [by right|done|].
    split; [done|]. by rewrite Hp', Hp, app_nil_r.
Qed.
End write.

(** A host processes a frame it has read. *)
Lemma deployment_ok_process hs ls a p w p' w' f fl n' :
  deployment_ok hs ls -> hs !! a = Some (p, w) -> process_frame f (pr_node p) w = (fl, n', w') ->
  len f < 2 ^ 32 -> pr_requests p' = pr_requests p -> keypair (pr_node p') = keypair n' ->
  delivery_tx (pr_node p') = delivery_tx n' -> outbound (pr_node p') = outbound n' ->
  let hs' := <[a := (p', w')]> hs in let ls' := ls ++ new_links a (pr_node p) n' in
  deployment_ok hs' ls' /\
  match fl with
  | Continue =>
      pending hs' ls' ≡ₚ pending hs ls ++ sent_on_for (keypair (pr_node p)) f /\
      ch_sent (delivery_tx n') = ch_sent (delivery_tx (pr_node p)) ++ deliveries (keypair (pr_node p)) [f]
  | Return _ => pending hs' ls' ≡ₚ pending hs ls /\ ch_sent (delivery_tx n') = ch_sent (delivery_tx (pr_node p))
  end.
Proof.
  intros Hok Ha E Hlen Hreq Hkp Htx Hout hs' ls'. pose proof (dok_hosts _ _ Hok a p w Ha) as Hho.
  pose proof (process_frame_spec _ _ _ _ _ _ E) as (_ & _ & Hkp' & _ & Hspec).
  assert (ch_open (delivery_tx (pr_node p')) = true) as Hopen.
  { rewrite Htx. pose proof (hok_open _ _ _ _ Hho) as Ho. destruct fl; [by destruct Hspec as (_ & -> & _)|by destruct Hspec as (_ & -> & _)]. }
  pose proof (hok_open _ _ _ _ Hho) as Ho. unfold sent_on_for.
  assert (Hlocal : outbound n' = outbound (pr_node p) -> w' = w ->
    deployment_ok hs' ls' /\ pending hs' ls' = pending hs ls).
  { intros Ho' ->. subst ls'. rewrite (new_links_pool a (pr_node p) n' []) by by left. rewrite app_nil_r.
    apply (deployment_ok_tame _ _ _ p w); try done.
    - intros c Hl Hc. rewrite Hreq. by split_and!.
    - destruct Hho as [Hk _ Hq Hp]. constructor; [by rewrite Hkp, Hkp'|done|by rewrite Hreq|by rewrite Hout, Ho']. }
  unfold process_frame in E. destruct (peel_onion_layer (keypair (pr_node p)) f) as [[hop inner|body]|e] eqn:Ep.
  - pose proof (peeled_smaller _ _ _ _ Ep) as Hin.
    destruct (forward hop inner (pr_node p) w) as [[r n1] w1] eqn:Ef.
    assert (w1 = w' /\ outbound n' = outbound n1) as [-> Ho1] by (destruct r as [[]|]; by injection E as <- <- <-).
    destruct (deployment_ok_forward hs ls a p w p' w' hop inner r n1) as [Hok' Hp]; try done;
      [lia|by rewrite Hkp, Hkp'|by rewrite Hout|].
    assert (ls' = ls ++ new_links a (pr_node p) n1) as -> by (subst ls'; unfold new_links; by rewrite Ho1).
    split; [done|]. fold hs' in Hp. destruct r as [[]|e]; injection E as <- <-; (split; [rewrite Hp; by rewrite ?app_nil_r|]).
    + by destruct Hspec as (_ & _ & Hd); apply Hd.
    + by destruct Hspec as (_ & -> & _).
  - injection E as <- <- <-. destruct (Hlocal eq_refl eq_refl) as [Hok' Hp]. split; [done|].
    rewrite Hp, app_nil_r. split; [done|]. by destruct Hspec as (_ & _ & Hd); apply Hd.
  - injection E as <- <- <-. destruct (Hlocal eq_refl eq_refl) as [Hok' Hp]. split; [done|].
    rewrite Hp, app_nil_r. split; [done|]. by destruct Hspec as (_ & _ & Hd); apply Hd.
Qed.

(** The delivered bodies when one host delivers more. *)
Lemma delivered_insert hs a p w p' w' more :
  hs !! a = Some (p, w) ->
  ch_sent (delivery_tx (pr_node p')) = ch_sent (delivery_tx (pr_node p)) ++ more ->
  delivered (<[a := (p', w')]> hs) ≡ₚ delivered hs ++ (pair a <$> more).
Proof.
  intros Ha Hm. unfold delivered. rewrite <- (insert_delete_id hs a (p, w) Ha) at 2.
  rewrite <- (insert_delete_eq hs a (p', w')).
  rewrite !map_to_list_insert by apply lookup_delete_eq. cbn. unfold delivered_at at 1 3. cbn.
  rewrite Hm, fmap_app, <- !(assoc (++)). apply Permutation_app_head, Permutation_app_comm.
Qed.

End invariant.
