(* ===== verification/DeploymentRun.v ===== *)
(** * Runs of a deployment

    Every step of [Deployment.deployment_step] keeps the invariant of
    [Deployment] and is, seen from the fabric, some steps of the fabric; what
    happens at a host is a run of its process. Together with the theorems on
    sending and receiving this gives what a message meets in a deployment whose
    relays interleave freely, refuse and lose connections. *)
From S2P Require Import Prelude.
From S2P Require Import RustStd.
From S2P Require Import Interfaces.
From S2P Require Import Cell.
From S2P Require Import Keys.
From S2P Require Import Forwarding.
From S2P Require Import Fragmentation.
From S2P Require Import Mailbox.
From S2P Require Import PullListener.
From S2P Require Import PullServer.
From S2P Require Import Node.
From S2P Require Import RelayProcess.
From S2P Require Import Topology.
From S2P Require Import Envelope.
From S2P Require Import Session.
From S2P Require Import Reassembly.
From S2P Require Import Client.
From S2P Require Import Receiver.
From S2P Require Import EndToEnd.
From S2P Require Import Links.
From S2P Require Import Deployment.

Open Scope Z_scope.

(** A choice for every key of a map is a function. *)
Lemma map_choice {K A B : Type} `{Countable K} (m : gmap K A) (P : K -> A -> B -> Prop) (b0 : B) :
  map_Forall (fun k a => exists b, P k a b) m -> exists f, map_Forall (fun k a => P k a (f k)) m.
Proof.
  induction m as [|k a m Hk IH] using map_ind; intros Hall.
  { exists (fun _ => b0). apply map_Forall_empty. }
  apply map_Forall_insert in Hall as [[b Hb] Hall]; [|done]. destruct (IH Hall) as [f Hf].
  exists (fun k' => if decide (k' = k) then b else f k'). apply map_Forall_insert; [done|].
  split; [by rewrite decide_True|]. intros k' a' Hk'. rewrite decide_False by (intros ->; congruence). by apply Hf.
Qed.

Section runs.
Context {W Conn Ch Sem : Type} `{EqDecision Conn} `{NetLaws W Conn} `{!StreamBreak W Conn}
  `{!StreamBreakLaws W Conn} `{CryptoLaws} `{ChannelLaws Ch} `{SemaphoreLaws Sem}.
Context (relay_at : bytes -> option KeyPair).
Abbreviation process := (Process Conn Ch Sem).
Abbreviation hosts := (gmap bytes (Process Conn Ch Sem * W)).
Abbreviation links := (list (link Conn)).
Abbreviation deployment_ok := (deployment_ok relay_at).
Abbreviation host_ok := (host_ok relay_at).
Implicit Types (lk : link Conn) (p : process) (w : W) (hs : hosts) (ls : links) (a : bytes).

(** ** Every step *)

(** The fabric has a run from what was injected to what is pending and what was
    delivered. *)
Definition as_fabric hs ls : Prop :=
  exists ps ds, rtc (fabric_step relay_at) (injected ls, []) (ps, ds) /\
    ps ≡ₚ pending hs ls /\ ds ≡ₚ delivered hs.

Lemma as_fabric_same hs ls hs' ls' :
  as_fabric hs ls -> injected ls' = injected ls -> pending hs' ls' ≡ₚ pending hs ls ->
  delivered hs' ≡ₚ delivered hs -> as_fabric hs' ls'.
Proof.
  intros (ps & ds & Hr & Hp & Hd) Hi Hp' Hd'. exists ps, ds. rewrite Hi, Hp', Hd'. done.
Qed.

Lemma delivered_same hs a p w p' w' :
  hs !! a = Some (p, w) -> ch_sent (delivery_tx (pr_node p')) = ch_sent (delivery_tx (pr_node p)) ->
  delivered (<[a := (p', w')]> hs) ≡ₚ delivered hs.
Proof.
  intros Ha Hs. rewrite <- (app_nil_r (delivered hs)). apply (delivered_insert hs a p w p' w' []); [done|].
  by rewrite app_nil_r.
Qed.

Lemma injected_app ls1 ls2 : injected (ls1 ++ ls2) = injected ls1 ++ injected ls2.
Proof. apply bind_app. Qed.

Lemma injected_new_links a (n n' : RelayNode Conn Ch Sem) : injected (new_links a n n') = [].
Proof. unfold new_links. generalize (map_to_list (filter (fun hc => outbound n !! hc.1 <> Some hc.2) (outbound n'))). by induction l. Qed.

Lemma injected_replace l1 lk l2 lk' :
  lk_origin lk' = lk_origin lk -> lk_dest lk' = lk_dest lk -> injected (l1 ++ lk' :: l2) = injected (l1 ++ lk :: l2).
Proof. intros Ho Hd. rewrite !injected_app. cbn. by rewrite Ho, Hd. Qed.

Lemma pending_on_same hs hs' lk lk' :
  lk_dest lk' = lk_dest lk -> lk_done lk' = lk_done lk ->
  sent_on hs' (lk_origin lk') = sent_on hs (lk_origin lk) -> pending_on hs' lk' = pending_on hs lk.
Proof. intros Hd Hn Hs. unfold pending_on, link_frames. by rewrite Hd, Hn, Hs. Qed.

Definition good hs ls : Prop := deployment_ok hs ls /\ as_fabric hs ls.

(** A link that changes at its far end only. *)
Lemma good_replace s hs l1 lk l2 p w p' w' lk' :
  good hs (l1 ++ lk :: l2) -> hs !! lk_dest lk = Some (p, w) -> tame s p w p' w' ->
  host_ok (l1 ++ lk :: l2) (lk_dest lk) p' w' ->
  ch_sent (delivery_tx (pr_node p')) = ch_sent (delivery_tx (pr_node p)) ->
  lk_origin lk' = lk_origin lk -> lk_dest lk' = lk_dest lk -> lk_done lk' = lk_done lk ->
  let hs' := <[lk_dest lk := (p', w')]> hs in
  (origin_ok hs' (lk_origin lk) -> sent_on hs' (lk_origin lk) = sent_on hs (lk_origin lk) ->
   link_ok hs lk -> link_ok hs' lk') ->
  (forall c, (lk_dest lk, c) ∈ omap accepted_end (l1 ++ l2) -> c ∉ s) ->
  NoDup (omap accepted_end (l1 ++ lk' :: l2)) ->
  good hs' (l1 ++ lk' :: l2) /\ pending hs' (l1 ++ lk' :: l2) ≡ₚ pending hs (l1 ++ lk :: l2).
Proof.
  intros [Hok Hf] Hd Ht Hho Hch Ho Hde Hdo hs' Hlk' Hs Hnd.
  assert (link_ok hs lk) as Hlk by by destruct Hok as [_ [_ [? _]%Forall_cons]%Forall_app _ _].
  pose proof (tame_sent_on s hs _ p w p' w' _ Hd Ht (lok_origin _ _ Hlk)) as Hso. fold hs' in Hso.
  pose proof (tame_origin_ok s hs _ p w p' w' _ Hd Ht (lok_origin _ _ Hlk)) as Hoo. fold hs' in Hoo.
  destruct (deployment_ok_replace relay_at s hs l1 lk l2 (lk_dest lk) p w p' w' lk') as [Hok' Hp]; auto.
  assert (pending hs' (l1 ++ lk' :: l2) ≡ₚ pending hs (l1 ++ lk :: l2)) as Hpe.
  { fold hs' in Hp. rewrite Hp, (pending_middle hs l1 lk l2). apply Permutation_app_tail.
    rewrite (pending_on_same hs hs' lk lk'); [done|done|done|by rewrite Ho]. }
  split; [|done]. split; [done|].
  eapply as_fabric_same; [exact Hf|by apply injected_replace|done|by eapply delivered_same].
Qed.

(** Reading a frame and then processing it. *)
Lemma good_frame hs l1 lk l2 p w s f fs t w1 n w' :
  good hs (l1 ++ lk :: l2) -> lk_end lk = Accepted s -> hs !! lk_dest lk = Some (p, w) ->
  reads s w w1 -> split_frames (inbox w s) = (f :: fs, t) -> len f < 2 ^ 32 ->
  inbox w s = frame_bytes f ++ inbox w1 s -> process_frame f (pr_node p) w1 = (Continue, n, w') ->
  let hs' := <[lk_dest lk := (with_node n (pr_active p) p, w')]> hs in
  let ls' := (l1 ++ processed lk :: l2) ++ new_links (lk_dest lk) (pr_node p) n in
  good hs' ls' /\
  exists others, pending hs (l1 ++ lk :: l2) ≡ₚ (lk_dest lk, f) :: others /\
    pending hs' ls' ≡ₚ others ++ sent_on_for (keypair (pr_node p)) f.
Proof.
  intros [Hok Hf] He Hd Hr Hsp Hlen Hi E hs' ls'.
  destruct (deployment_ok_read relay_at hs l1 lk l2 p w s f fs t w1 Hok He Hd Hr Hsp Hi) as [Hok1 Hp1].
  pose proof (hok_keys _ _ _ _ _ (dok_hosts _ _ _ Hok _ _ _ Hd)) as Hkeys.
  set (hs1 := <[lk_dest lk := (p, w1)]> hs) in *. set (ls1 := l1 ++ processed lk :: l2) in *.
  assert (hs1 !! lk_dest lk = Some (p, w1)) as Hd1 by apply lookup_insert_eq.
  destruct (deployment_ok_process relay_at hs1 ls1 (lk_dest lk) p w1 (with_node n (pr_active p) p) w' f Continue n)
    as (Hok2 & Hp2 & Hs2); try done.
  assert (<[lk_dest lk := (with_node n (pr_active p) p, w')]> hs1 = hs') as Ehs by apply insert_insert_eq.
  rewrite Ehs in Hok2, Hp2. split; [|by exists (pending hs1 ls1)]. split; [done|].
  destruct Hf as (ps & ds & Hrun & Hps & Hds). rewrite Hp1 in Hps.
  destruct (fabric_processes relay_at ps ds _ _ _ _ Hps Hkeys) as (ps' & Hstep & Hps').
  exists ps', (ds ++ (pair (lk_dest lk) <$> deliveries (keypair (pr_node p)) [f])). split_and!.
  - eapply rtc_r; [|exact Hstep]. subst ls'. rewrite injected_app, injected_new_links, app_nil_r.
    unfold ls1. by rewrite (injected_replace l1 lk l2 (processed lk)).
  - by rewrite Hps', <- Hp2.
  - rewrite Hds. symmetry. by apply (delivered_insert hs _ p w).
Qed.

Lemma good_accepted hs ls lk s p w :
  good hs ls -> lk ∈ ls -> lk_end lk = Accepted s -> hs !! lk_dest lk = Some (p, w) -> live w s.
Proof.
  intros [[_ Hl _ _] _] Hin He Hd. pose proof (lok_end _ _ (proj1 (Forall_forall _ _) Hl lk Hin)) as Hle.
  unfold end_ok in Hle. rewrite He in Hle. destruct Hle as (p0 & w0 & E & Hs & _).
  rewrite Hd in E. by injection E as <- <-.
Qed.

(** A connection that is closed after having read. *)
Lemma good_hang_up hs l1 lk l2 p w s w1 p' :
  good hs (l1 ++ lk :: l2) -> lk_end lk = Accepted s -> hs !! lk_dest lk = Some (p, w) -> reads s w w1 ->
  pr_requests p' = pr_requests p -> keypair (pr_node p') = keypair (pr_node p) ->
  delivery_tx (pr_node p') = delivery_tx (pr_node p) -> outbound (pr_node p') = outbound (pr_node p) ->
  good (<[lk_dest lk := (p', w1)]> hs) (l1 ++ set_end Closed lk :: l2) /\
  pending (<[lk_dest lk := (p', w1)]> hs) (l1 ++ set_end Closed lk :: l2) ≡ₚ pending hs (l1 ++ lk :: l2).
Proof.
  intros Hg He Hd Hr Hq Hk Ht Ho. pose proof Hg as [Hok _].
  pose proof (host_ok_reads relay_at _ _ s _ _ w1 Hr (dok_hosts _ _ _ Hok _ _ _ Hd)) as Hho.
  apply (good_replace [s] hs l1 lk l2 p w p' w1 (set_end Closed lk)); try done.
  - intros c Hl Hc. rewrite Hq. by apply (reads_tame s p w w1 Hr).
  - destruct Hho. constructor; by rewrite ?Hk, ?Ht, ?Hq, ?Ho.
  - by rewrite Ht.
  - intros Hoo Hso [_ Hld Hlm _].
    assert (link_frames (<[lk_dest lk := (p', w1)]> hs) (set_end Closed lk) = link_frames hs lk) as Hfr
      by (unfold link_frames; cbn [set_end lk_origin]; by rewrite Hso).
    constructor; cbn [set_end lk_origin lk_done lk_moved]; [done|by rewrite Hfr|by rewrite Hso|done].
  - apply (ends_apart _ _ _ lk); [by destruct Hok|]. unfold accepted_end. by rewrite He.
  - apply (ends_same _ lk); [by right|by destruct Hok].
Qed.

Lemma good_close hs l1 lk l2 p w s r n w' p' :
  good hs (l1 ++ lk :: l2) -> lk_end lk = Accepted s -> hs !! lk_dest lk = Some (p, w) ->
  handle_frame s (pr_node p) w = (Return r, n, w') ->
  pr_requests p' = pr_requests p -> pr_node p' = drop_permit n ->
  let hs' := <[lk_dest lk := (p', w')]> hs in
  let ls' := (l1 ++ set_end Closed lk :: l2) ++ new_links (lk_dest lk) (pr_node p) n in
  good hs' ls' /\ pending hs' ls' ≡ₚ pending hs (l1 ++ lk :: l2).
Proof.
  intros Hg He Hd E Hq Hn hs' ls'. pose proof Hg as [Hok _].
  assert (live w s) as Hs by (eapply good_accepted; [done| |done|done]; apply elem_of_app; right; by left).
  destruct (handle_frame_reads s _ w _ _ _ Hs E) as [(_ & -> & Hr & _)|(f & fs & t & w1 & Hsp & Hlen & Hr & Hi & Ef)].
  { subst ls'. rewrite (new_links_pool _ _ _ []), app_nil_r by by left.
    apply (good_hang_up hs l1 lk l2 p w s w' p'); rewrite ?Hn; done. }
  destruct (good_hang_up hs l1 lk l2 p w s w1 p Hg He Hd Hr) as [[Hok1 Hf1] Hp1]; try done.
  set (hs1 := <[lk_dest lk := (p, w1)]> hs) in *. set (ls1 := l1 ++ set_end Closed lk :: l2) in *.
  assert (hs1 !! lk_dest lk = Some (p, w1)) as Hd1 by apply lookup_insert_eq.
  destruct (deployment_ok_process relay_at hs1 ls1 (lk_dest lk) p w1 p' w' f (Return r) n) as (Hok2 & Hp2 & Hs2);
    try done; try by rewrite Hn.
  assert (delivered (<[lk_dest lk := (p', w')]> hs1) ≡ₚ delivered hs1) as Hd2
    by (eapply delivered_same; [done|by rewrite Hn]).
  assert (<[lk_dest lk := (p', w')]> hs1 = hs') as Ehs by apply insert_insert_eq.
  rewrite Ehs in Hok2, Hp2, Hd2. split; [|by rewrite <- Hp1]. split; [done|].
  eapply as_fabric_same; [exact Hf1| |done|done].
  subst ls'. by rewrite injected_app, injected_new_links, app_nil_r.
Qed.

Lemma good_accept hs l1 lk l2 p w s w' n active :
  good hs (l1 ++ lk :: l2) -> lk_end lk = Waiting -> hs !! lk_dest lk = Some (p, w) ->
  accepts w s w' -> inbox w' s = [] -> undisturbed [] w w' ->
  accept_connection s (pr_node p) (pr_active p) = (n, active) ->
  let hs' := <[lk_dest lk := (with_node n active p, w')]> hs in
  let ls' := l1 ++ set_end (match try_acquire (connection_limiter (pr_node p)) with
                            | Some _ => Accepted s | None => Closed end) lk :: l2 in
  good hs' ls' /\ pending hs' ls' ≡ₚ pending hs (l1 ++ lk :: l2).
Proof.
  intros Hg He Hd (Hnew & Hls & _) Hin Hund Hacc hs' ls'. subst hs' ls'. pose proof Hg as [Hok _].
  pose proof (dok_hosts _ _ _ Hok _ _ _ Hd) as [Hk Ho Hq Hp].
  assert (accepted_end lk = None) as Hae by (unfold accepted_end; by rewrite He).
  assert (outbound n = outbound (pr_node p) /\ delivery_tx n = delivery_tx (pr_node p) /\
          keypair n = keypair (pr_node p)) as (Hno & Hnt & Hnk)
    by (unfold accept_connection in Hacc; destruct (try_acquire _); by injection Hacc as <- <-).
  assert (tame [] p w (with_node n active p) w') as Ht by (apply (tame_undisturbed []); [done|set_solver|done]).
  assert (s ∉ (pr_requests p).*1) as Hsr by (intros Hi; by apply Hnew; eapply Forall_forall in Hq).
  assert (forall c, (lk_dest lk, c) ∈ omap accepted_end (l1 ++ lk :: l2) -> live w c) as Hlive.
  { intros c (lk0 & Hi & Ha)%list_elem_of_omap. unfold accepted_end in Ha.
    destruct (lk_end lk0) as [|s0|] eqn:E0; [done| |done]. injection Ha as Hda <-.
    eapply good_accepted; [exact Hg|exact Hi|done|by rewrite Hda]. }
  apply (good_replace [] hs l1 lk l2 p w (with_node n active p) w'); try done.
  - constructor; cbn; rewrite ?Hno, ?Hnt, ?Hnk; try done.
    + eapply Forall_impl; [exact Hq|]. intros c Hc. apply (Hund c Hc), not_elem_of_nil.
    + intros h c Hc. destruct (Hp h c Hc) as [Hl Hro]. split; [apply (Hund c Hl), not_elem_of_nil|done].
  - cbn. by rewrite Hnt.
  - intros Hoo Hso [_ Hld Hlm Hle].
    set (lk' := set_end _ lk). set (hs' := <[lk_dest lk := (with_node n active p, w')]> hs) in *.
    assert (link_frames hs' lk' = link_frames hs lk) as Hfr
      by (unfold link_frames; cbn [lk' set_end lk_origin]; by rewrite Hso).
    constructor; cbn [lk' set_end lk_origin lk_done lk_moved]; [done|by rewrite Hfr|by rewrite Hso|].
    unfold end_ok. rewrite Hfr. cbn [lk' set_end lk_end lk_dest lk_done lk_moved].
    destruct (try_acquire _); [|done]. unfold end_ok in Hle. rewrite He in Hle. destruct Hle as [-> ->].
    exists (with_node n active p), w'. unfold hs'. rewrite lookup_insert_eq.
    split_and!; [done|done|done|by rewrite Hin].
  - intros c _. apply not_elem_of_nil.
  - pose proof (dok_ends _ _ _ Hok) as Hnd. rewrite omap_app in Hnd. rewrite omap_app. cbn in *.
    rewrite Hae in Hnd. unfold accepted_end at 2. cbn. destruct (try_acquire _); [|done].
    rewrite <- Permutation_middle. apply NoDup_cons. split; [|done]. intros Hi. apply Hnew, Hlive.
    rewrite omap_app. cbn. by rewrite Hae.
Qed.

Lemma good_carry hs l1 lk l2 p w s w' bs :
  good hs (l1 ++ lk :: l2) -> lk_end lk = Accepted s -> hs !! lk_dest lk = Some (p, w) ->
  (lk_moved lk ++ bs) `prefix_of` sent_on hs (lk_origin lk) ->
  undisturbed [s] w w' -> live w' s -> inbox w' s = inbox w s ++ bs -> outbox w' s = outbox w s ->
  (broken w s -> broken w' s) ->
  let hs' := <[lk_dest lk := (p, w')]> hs in let ls' := l1 ++ carried bs lk :: l2 in
  good hs' ls' /\ pending hs' ls' ≡ₚ pending hs (l1 ++ lk :: l2).
Proof.
  intros Hg He Hd Hpre Hund Hls Hin Hout Hb hs' ls'. subst hs' ls'. pose proof Hg as [Hok _].
  pose proof (dok_hosts _ _ _ Hok _ _ _ Hd) as [Hk Ho Hq Hp].
  assert (forall c, live w c -> live w' c) as Hlive
    by (intros c Hc; destruct (decide (c = s)) as [->|Hne]; [done|]; apply (Hund c Hc); by intros ?%list_elem_of_singleton).
  apply (good_replace [s] hs l1 lk l2 p w p w'); try done.
  - intros c Hc Hr. destruct (decide (c = s)) as [->|Hne].
    + split_and!; try done. intros []. by left.
    + destruct (Hund c Hc) as (? & ? & ? & ?); [by intros ?%list_elem_of_singleton|]. by split_and!.
  - constructor; try done.
    + eapply Forall_impl; [exact Hq|apply Hlive].
    + intros h c Hc. destruct (Hp h c Hc). split; [by apply Hlive|done].
  - intros Hoo Hso [_ Hld Hlm Hle].
    set (hs' := <[lk_dest lk := (p, w')]> hs) in *.
    assert (link_frames hs' (carried bs lk) = link_frames hs lk) as Hfr
      by (unfold link_frames; cbn [carried lk_origin]; by rewrite Hso).
    constructor; cbn [carried lk_origin lk_done lk_moved]; [done|by rewrite Hfr|by rewrite Hso|].
    unfold end_ok in *. rewrite Hfr. cbn [carried lk_end lk_dest lk_done lk_moved]. rewrite He in *.
    destruct Hle as (p0 & w0 & E & _ & Hsr & ->). rewrite Hd in E. injection E as <- <-.
    exists p, w'. unfold hs'. rewrite lookup_insert_eq.
    split_and!; [done|done|done|by rewrite Hin, <- (assoc (++))].
  - apply (ends_apart _ _ _ lk); [by destruct Hok|]. unfold accepted_end. by rewrite He.
  - apply (ends_same _ lk); [by left|by destruct Hok].
Qed.

Lemma good_local hs ls a p w p' w' :
  good hs ls -> hs !! a = Some (p, w) -> tame [] p w p' w' -> pr_node p' = pr_node p ->
  (forall c, live w c -> live w' c) -> Forall (live w') (pr_requests p').*1 ->
  good (<[a := (p', w')]> hs) ls /\ pending (<[a := (p', w')]> hs) ls = pending hs ls.
Proof.
  intros [Hok Hf] Ha Ht Hn Hl Hq. pose proof (dok_hosts _ _ _ Hok _ _ _ Ha) as [Hk Ho _ Hp].
  destruct (deployment_ok_tame relay_at hs ls a p w p' w' Hok Ha Ht) as [Hok' Hp'].
  { constructor; rewrite ?Hn; try done. intros h c Hc. destruct (Hp h c Hc). auto. }
  split; [|done]. split; [done|]. eapply as_fabric_same; [exact Hf|done|by rewrite Hp'|]. eapply delivered_same; [done|by rewrite Hn].
Qed.

Lemma serve_step_requests p w evs p' w' :
  serve_step (p, w) evs (p', w') -> pr_node p' = pr_node p /\ pr_active p' = pr_active p /\
  (forall c, live w c -> live w' c) /\
  forall c, c ∈ (pr_requests p').*1 -> c ∈ (pr_requests p).*1 \/ (~ live w c /\ live w' c).
Proof.
  intros Hs. inversion Hs as [p0 s w0 w1 Hsv Hacc|p0 w0|p0 l1 s t l2 t' mb w0 w1 Hr E|p0 l1 s t l2 r mb w0 w1 Hr E]; subst; cbn.
  - destruct Hacc as (Hn & Hl & _ & Hsn). split_and!; [done|done|intros c Hc; by apply Hsn|].
    intros c. rewrite fmap_app. intros [Hc| ->%list_elem_of_singleton]%elem_of_app; auto.
  - split_and!; auto.
  - destruct (task_step_world _ _ _ _ _ _ _ _ E) as [Hl _]. split_and!; auto.
    intros c. rewrite Hr, !fmap_app, !fmap_cons. auto.
  - destruct (task_step_world _ _ _ _ _ _ _ _ E) as [Hl _]. split_and!; auto.
    intros c. rewrite Hr, !fmap_app, fmap_cons.
    intros [Hc|Hc]%elem_of_app; left; apply elem_of_app; [by left|right; by right].
Qed.

Lemma good_queue hs ls a p w p' :
  good hs ls -> hs !! a = Some (p, w) -> queue_step p p' ->
  good (<[a := (p', w)]> hs) ls /\ pending (<[a := (p', w)]> hs) ls = pending hs ls.
Proof.
  intros Hg Ha Hq. pose proof (dok_hosts _ _ _ (proj1 Hg) _ _ _ Ha) as [_ _ Hr _].
  assert (pr_requests p' = pr_requests p /\ pr_node p' = pr_node p) as [Hpr Hpn] by by destruct Hq.
  eapply good_local; [done|done| |done|done|by rewrite Hpr]. intros c Hl Hc. rewrite Hpr. done.
Qed.

Lemma good_serve hs ls a p w evs p' w' :
  good hs ls -> hs !! a = Some (p, w) -> serve_step (p, w) evs (p', w') ->
  undisturbed (pr_requests p).*1 w w' ->
  good (<[a := (p', w')]> hs) ls /\ pending (<[a := (p', w')]> hs) ls = pending hs ls.
Proof.
  intros Hg Ha Hs Hund. pose proof (dok_hosts _ _ _ (proj1 Hg) _ _ _ Ha) as [_ _ Hr _].
  destruct (serve_step_requests _ _ _ _ _ Hs) as (Hn & _ & Hl & Hq).
  eapply good_local; [done|done| |done|done|].
  + apply (tame_undisturbed (pr_requests p).*1); [done|done|]. intros c Hlc Hc Hc'.
    by destruct (Hq c Hc') as [?|[? _]].
  + apply Forall_forall. intros c Hc. destruct (Hq c Hc) as [Hc'|[_ ?]]; [|done].
    apply Hl. by eapply Forall_forall in Hr.
Qed.

Lemma good_send hs ls sent dest :
  good hs ls -> good hs (ls ++ [mkLink (FromClient sent) dest Waiting [] 0]).
Proof.
  intros [[Hh Hl Ho He] (ps & ds & Hrun & Hp & Hd)]. split.
  - constructor.
    + intros a p w Ha. eapply host_ok_routes; [|by apply Hh]. intros r Hr.
      unfold routes. rewrite map_app. apply elem_of_app. by left.
    + apply Forall_app_2; [done|]. constructor; [|done].
      constructor; cbn; [done|lia|apply prefix_nil|done].
    + by rewrite omap_app, app_nil_r.
    + by rewrite omap_app, app_nil_r.
  - set (new := [mkLink (FromClient sent) dest Waiting [] 0]).
    exists (ps ++ injected new), ds. rewrite injected_app.
    split_and!; [|unfold pending; rewrite bind_app; fold (pending hs ls)|done].
    + by apply (fabric_more relay_at (injected ls) [] (ps, ds)).
    + by rewrite Hp.
Qed.

Lemma good_step hs ls st' : deployment_step (hs, ls) st' -> good hs ls -> good st'.1 st'.2.
Proof.
  intros Hst Hg. inversion Hst as [hs0 ls0 sent dest|hs0 l1 lk l2 p w s w' n active He Hd Hacc Hin Hund Ha
    |hs0 l1 lk l2 p w s w' bs He Hd Hpre Hund Hls Hin Hout Hb|hs0 l1 lk l2 p w s n w' He Hd Hact E
    |hs0 l1 lk l2 p w s r n w' a1 a2 He Hd Hact E|hs0 ls0 a p w p' Ha Hq|hs0 ls0 a p w evs p' w' Ha Hs Hund];
    subst; cbn.
  - by apply good_send.
  - by eapply good_accept.
  - by eapply good_carry.
  - assert (live w s) as Hs by (eapply good_accepted; [done| |done|done]; apply elem_of_app; right; by left).
    destruct (handle_frame_reads s _ w _ _ _ Hs E) as [(_ & _ & _ & r & Hr)|(f & fs & t & w1 & Hsp & Hlen & Hr & Hi & Ef)];
      [done|]. by eapply good_frame.
  - by eapply good_close.
  - by eapply good_queue.
  - by eapply good_serve.
Qed.

(** ** Reachable deployments *)

(** The relays listen where the fabric says. *)
Definition keyed hs : Prop := map_Forall (fun a pw => relay_at a = Some (keypair (pr_node pw.1))) hs.

Lemma good_start hs : started hs -> keyed hs -> good hs [].
Proof.
  intros Hs Hk. split.
  - constructor; try done; try apply NoDup_nil_2.
    intros a p w Ha. destruct (Hs a (p, w) Ha) as (cfg & kp & ident & serving & E). cbn in E. subst p.
    constructor; cbn; [apply (Hk a _ Ha)|apply ch_new_open|constructor|apply map_Forall_empty].
  - exists [], []. split_and!; [apply rtc_refl|done|]. unfold delivered.
    assert (Forall (fun h => delivered_at h = []) (map_to_list hs)) as Hall.
    { apply Forall_forall. intros [a [p w]] Hin%elem_of_map_to_list.
      destruct (Hs a (p, w) Hin) as (cfg & kp & ident & serving & E). cbn in E. subst p.
      unfold delivered_at. cbn. by rewrite ch_new_empty. }
    induction Hall as [|h l Hh _ IH]; [done|]. cbn. by rewrite Hh.
Qed.

Lemma good_reachable hs0 st :
  started hs0 -> keyed hs0 -> rtc deployment_step (hs0, []) st -> good st.1 st.2.
Proof.
  intros Hs Hk Hr. refine (rtc_ind_r (fun st => good st.1 st.2) (hs0, []) _ _ _ Hr); [by apply good_start|].
  intros [hs ls] st2 _ Hst IH. by eapply good_step.
Qed.

(** A host's part of a deployment's step. *)
Lemma host_step hs ls st' a p w :
  deployment_step (hs, ls) st' -> hs !! a = Some (p, w) ->
  exists p' w', st'.1 !! a = Some (p', w') /\
    ((p', w') = (p, w) \/ exists evs, process_step (p, w) evs (p', w')).
Proof.
  intros Hst Ha.
  assert (forall b q v q' v' evs, hs !! b = Some (q, v) -> process_step (q, v) evs (q', v') ->
    exists p' w', <[b := (q', v')]> hs !! a = Some (p', w') /\
      ((p', w') = (p, w) \/ exists evs, process_step (p, w) evs (p', w'))) as Hins.
  { intros b q v q' v' evs Hb Hp. destruct (decide (a = b)) as [->|Hne].
    - rewrite Ha in Hb. injection Hb as <- <-. rewrite lookup_insert_eq. exists q', v'. eauto.
    - rewrite lookup_insert_ne by done. eauto. }
  inversion Hst as [|hs0 l1 lk l2 q v s v' n active He Hd Hacc Hin Hund Hc
    |hs0 l1 lk l2 q v s v' bs He Hd Hpre Hund Hls Hin Hout Hb|hs0 l1 lk l2 q v s n v' He Hd Hact E
    |hs0 l1 lk l2 q v s r n v' a1 a2 He Hd Hact E|hs0 ls0 b q v q' Hb Hq|hs0 ls0 b q v evs q' v' Hb Hs Hund];
    subst; cbn; [by eauto|eapply Hins; [done|]..].
  - by eapply process_accept.
  - apply process_others. intros c Hc. destruct (decide (c = s)) as [->|Hne]; [done|].
    destruct (Hund c Hc) as (? & _ & ? & _); [by intros ?%list_elem_of_singleton|done].
  - by eapply process_frame_step.
  - by eapply process_close.
  - by apply process_queue.
  - by apply process_serve.
Qed.

(** What happens at a host is a run of its process. *)
Lemma host_run hs0 st a p w :
  rtc deployment_step (hs0, []) st -> hs0 !! a = Some (p, w) ->
  exists p' w' evs, st.1 !! a = Some (p', w') /\ process_run (p, w) evs (p', w').
Proof.
  intros Hr Ha. change hs0 with ((hs0, [] : links).1) in Ha.
  refine (rtc_ind_r (fun st => exists p' w' evs, st.1 !! a = Some (p', w') /\ process_run (p, w) evs (p', w')) _ _ _ _ Hr).
  - exists p, w, []. split; [done|constructor].
  - intros [hs ls] st2 _ Hst (p1 & w1 & evs & Ha1 & Hrun).
    destruct (host_step _ _ _ _ _ _ Hst Ha1) as (p2 & w2 & Ha2 & [E|[new Hp]]); exists p2, w2.
    + exists evs. split; [done|by rewrite E].
    + exists (evs ++ new). split; [done|by eapply run_step].
Qed.

(** No host appears or disappears. *)
Lemma host_old hs0 st a : rtc deployment_step (hs0, []) st -> is_Some (st.1 !! a) -> is_Some (hs0 !! a).
Proof.
  intros Hr. refine (rtc_ind_r (fun st => is_Some (st.1 !! a) -> is_Some (hs0 !! a)) _ _ _ _ Hr); [done|].
  intros [hs ls] st2 _ Hst IH Hs. apply IH. cbn.
  assert (forall b (x y : process * W), hs !! b = Some x -> is_Some (<[b := y]> hs !! a) -> is_Some (hs !! a)) as Hins.
  { intros b x y Hb Hi. destruct (decide (a = b)) as [->|Hne]; [by eexists|].
    by rewrite lookup_insert_ne in Hi. }
  inversion Hst; subst; cbn in Hs; [done|eapply Hins; eassumption..].
Qed.

(** A record of what every host did. *)
Definition records hs0 hs (log : bytes -> list (event Conn)) : Prop :=
  forall a p w, hs !! a = Some (p, w) ->
    exists p0 w0, hs0 !! a = Some (p0, w0) /\ process_run (p0, w0) (log a) (p, w).

Lemma host_logs hs0 st :
  rtc deployment_step (hs0, []) st ->
  exists log : bytes -> list (event Conn), records hs0 st.1 log.
Proof.
  intros Hr.
  destruct (map_choice st.1 (fun a pw evs => exists p0 w0, hs0 !! a = Some (p0, w0) /\ process_run (p0, w0) evs pw) [])
    as [log Hlog].
  - intros a [p w] Ha. destruct (host_old hs0 st a Hr) as [[p0 w0] Hp0]; [by eexists|].
    destruct (host_run hs0 st a p0 w0 Hr Hp0) as (p' & w' & evs & Ha' & Hrun).
    rewrite Ha in Ha'. injection Ha' as <- <-. by exists evs, p0, w0.
  - exists log. intros a p w Ha. apply (Hlog a (p, w) Ha).
Qed.

(** The bodies that a host has handed to PULL requests, and those that wait there
    in the mailbox, in the hands of the queueing task, or in the channel. *)
Definition handed (log : bytes -> list (event Conn)) hs : list bytes :=
  map_to_list hs ≫= fun h => concat (drained_batches (log h.1)).
Definition waiting_at p : list bytes :=
  queue (pr_mailbox p) ++ option_list (pr_holding p) ++ drop (pr_taken p) (ch_sent (delivery_tx (pr_node p))).
Definition waiting hs : list bytes := map_to_list hs ≫= fun h => waiting_at h.2.1.

Lemma delivered_split log hs :
  (forall a p w, hs !! a = Some (p, w) ->
     ch_sent (delivery_tx (pr_node p)) = concat (drained_batches (log a)) ++ waiting_at p) ->
  map snd (delivered hs) ≡ₚ handed log hs ++ waiting hs.
Proof.
  intros Hall. unfold delivered, handed, waiting.
  assert (Forall (fun h => ch_sent (delivery_tx (pr_node h.2.1)) =
      concat (drained_batches (log h.1)) ++ waiting_at h.2.1) (map_to_list hs)) as Hl.
  { apply Forall_forall. intros [a [p w]] Hin%elem_of_map_to_list. by apply (Hall a p w). }
  induction Hl as [|h l Hh _ IH]; [done|]. cbn. rewrite map_app, IH. unfold delivered_at.
  change (map snd (pair h.1 <$> ?x)) with (snd <$> (pair h.1 <$> x)).
  rewrite <- list_fmap_compose. change (snd ∘ pair h.1) with (fun x : bytes => x). rewrite list_fmap_id, Hh.
  rewrite <- !(assoc (++)). apply Permutation_app_head. rewrite !(assoc (++)).
  apply Permutation_app_tail, Permutation_app_comm.
Qed.

(** What such a record says. *)
Lemma records_say hs0 hs log :
  started hs0 -> records hs0 hs log ->
  map snd (delivered hs) ≡ₚ handed log hs ++ waiting hs /\
  forall a p w s cells, hs !! a = Some (p, w) -> Drained s cells ∈ log a -> Finished s (Ok tt) ∈ log a ->
    outbox w s = pull_response cells.
Proof.
  intros Hs Hlog.
  assert (forall a p w, hs !! a = Some (p, w) -> exists cfg kp ident serving w0,
    process_run (process_new (fresh_node cfg kp) ident serving, w0) (log a) (p, w)) as Hnew.
  { intros a p w Ha. destruct (Hlog a p w Ha) as (p0 & w0 & Hp0 & Hrun).
    destruct (Hs a (p0, w0) Hp0) as (cfg & kp & ident & serving & E). cbn in E. subst p0.
    by exists cfg, kp, ident, serving, w0. }
  split.
  - apply delivered_split. intros a p w Ha. destruct (Hnew a p w Ha) as (cfg & kp & ident & serving & w0 & Hpr).
    by apply (process_account cfg kp ident serving w0 (log a) p w).
  - intros a p w s cells Ha Hdr Hfin. destruct (Hnew a p w Ha) as (cfg & kp & ident & serving & w0 & Hpr).
    by apply (process_responded cfg kp ident serving w0 (log a) p w).
Qed.
End runs.

(** ** Properties *)

Section properties.
Context {R W Conn Ch Sem : Type} `{EqDecision Conn} `{RngLaws R} `{NetLaws W Conn} `{!StreamBreak W Conn}
  `{!StreamBreakLaws W Conn} `{CryptoLaws} `{HashOrderLaws} `{ChannelLaws Ch} `{SemaphoreLaws Sem}.
Context (key_of : RelayInfo -> KeyPair) (relay_at : bytes -> option KeyPair).
Abbreviation hosts := (gmap bytes (Process Conn Ch Sem * W)).

(** What a reachable deployment has done with the packets of one sender: each
    was delivered once or is pending. *)
Lemma deployment_due (hs0 hs : hosts) ls packets others ds k :
  started hs0 -> keyed relay_at hs0 -> rtc deployment_step (hs0, []) (hs, ls) ->
  injected ls ≡ₚ packets ++ others -> will_deliver relay_at ds k (packets, []) ->
  exists left mine os theirs rest,
    pending hs ls ≡ₚ left ++ os /\ delivered hs ≡ₚ mine ++ theirs /\
    rtc (fabric_step relay_at) (others, []) (os, theirs) /\
    mine ++ rest ≡ₚ ds /\ length rest = length left.
Proof.
  intros Hs Hk Hr Hi Hw.
  destruct (good_reachable relay_at hs0 (hs, ls) Hs Hk Hr) as (_ & ps & dl & Hrun & Hp & Hd). cbn in Hp, Hd.
  destruct (fabric_split relay_at _ _ _ packets others [] [] Hrun Hi) as (left & os & mine & theirs & Ha & Hb & Hp' & Hd');
    [done|]. cbn in Hp', Hd'.
  apply rtc_nsteps in Ha as [n Ha]. destruct (will_deliver_nsteps _ _ _ _ _ _ Hw Ha) as [_ Hw'].
  apply will_deliver_due in Hw' as (rest & Hds & Hlen). cbn in Hds, Hlen.
  exists left, mine, os, theirs, rest. by rewrite <- Hp, <- Hd.
Qed.

(** C5: relay processes connected by streams implement the fabric. From freshly
    started processes, after any sequence of steps of clients, networks and
    tasks, in which connections are refused or lost and forwards fail, the
    fabric can get from the packets that clients sent to the packets that are
    pending and the bodies that the hosts have delivered: no relay makes a
    packet up, alters one or processes one twice. And what happened at each host
    is a run of its process. *)
Theorem deployment_refines_fabric (hs0 hs : hosts) ls :
  started hs0 -> keyed relay_at hs0 -> rtc deployment_step (hs0, []) (hs, ls) ->
  (exists ps ds, rtc (fabric_step relay_at) (injected ls, []) (ps, ds) /\
     ps ≡ₚ pending hs ls /\ ds ≡ₚ delivered hs) /\
  forall a p w, hs0 !! a = Some (p, w) ->
    exists p' w' evs, hs !! a = Some (p', w') /\ process_run (p, w) evs (p', w').
Proof.
  intros Hs Hk Hr. split.
  - by destruct (good_reachable relay_at hs0 (hs, ls) Hs Hk Hr) as [_ ?].
  - intros a p w Ha. by apply (host_run hs0 (hs, ls)).
Qed.

(** C6: where every packet of a deployment is. Whatever has happened since the
    processes were started, there is a record of each host's run such that, for
    some run of the fabric from the packets that clients sent, the packets still
    in flight are those pending on the links and the bodies delivered are,
    together, those handed to PULL requests and those that wait at the hosts,
    each exactly once. And a PULL request that drained cells and ended without an
    error has sent its client the response with exactly these cells. *)
Theorem deployment_hands_over (hs0 hs : hosts) ls :
  started hs0 -> keyed relay_at hs0 -> rtc deployment_step (hs0, []) (hs, ls) ->
  exists log : bytes -> list (event Conn),
    (forall a p w, hs !! a = Some (p, w) ->
       exists p0 w0, hs0 !! a = Some (p0, w0) /\ process_run (p0, w0) (log a) (p, w)) /\
    (exists ps ds, rtc (fabric_step relay_at) (injected ls, []) (ps, ds) /\
       ps ≡ₚ pending hs ls /\ map snd ds ≡ₚ handed log hs ++ waiting hs) /\
    forall a p w s cells, hs !! a = Some (p, w) -> Drained s cells ∈ log a -> Finished s (Ok tt) ∈ log a ->
      outbox w s = pull_response cells.
Proof.
  intros Hs Hk Hr. destruct (host_logs hs0 (hs, ls) Hr) as [log Hlog].
  destruct (records_say hs0 hs log Hs Hlog) as [Hdel Hans].
  exists log. split_and!; [done| |done].
  destruct (good_reachable relay_at hs0 (hs, ls) Hs Hk Hr) as (_ & ps & ds & Hrun & Hp & Hd).
  exists ps, ds. split_and!; [done|done|]. etransitivity; [by apply Permutation_map|done].
Qed.

(** C4: a message sent into a deployment. When [send] returns success its new
    streams carry one packet per cell. In every state a deployment reaches after
    these packets (and any [others]) were sent into it, every cell of the
    message has been delivered exactly once or its packet is pending: the cells
    that the recipient can open among the deliveries are some of the message's,
    none twice. When none of the packets is pending any more, the
    deliveries are the whole message, and polling mailboxes that hold them,
    among any envelopes of other messages and in any order, returns it. *)
Theorem deployment_delivers_message self session recipient message (rng : R) (w : W) :
  usable key_of self -> deployed key_of relay_at self -> session_with recipient session ->
  1 <= len message <= MAX_MESSAGE_SIZE ->
  exists r rng' w', send self session message rng w = Done (r, rng', w') /\
  (forall up, stays_up self up -> up w -> exists scs, r = Ok scs) /\
  forall scs, r = Ok scs ->
  exists id cells conns packets,
    fragments_of id message cells /\ NoDup conns /\ Forall2 (carries w') conns packets /\
    length packets = length cells /\
    forall (hs0 hs : hosts) ls others,
      started hs0 -> keyed relay_at hs0 -> rtc deployment_step (hs0, []) (hs, ls) ->
      injected ls ≡ₚ packets ++ others ->
      exists left mine os theirs,
        pending hs ls ≡ₚ left ++ os /\ delivered hs ≡ₚ mine ++ theirs /\
        rtc (fabric_step relay_at) (others, []) (os, theirs) /\
        (length left + length mine = length cells)%nat /\
        omap (opened recipient) (map snd mine) ⊆+ cells /\
        (left = [] ->
         forall rv rounds raws junk wr wr',
           recv_identity rv = recipient -> wf_reassembler (recv_reassembler rv) ->
           in_flight (recv_reassembler rv) !! id = None ->
           pull_each (concat rounds) wr = (Ok raws, wr') -> raws ≡ₚ map snd mine ++ junk ->
           (forall raw c, raw ∈ junk -> opened recipient raw = Some c -> c_message_id c <> id) ->
           exists outs rv', poll_all rv rounds wr = Done (map Ok outs, rv', wr') /\
             message ∈ concat outs).
Proof.
  intros Hu Hdep Hses Hm.
  destruct (send_delivers key_of relay_at self session recipient message rng w Hu Hdep Hses Hm)
    as (r & rng' & w' & E & Hup & Hr).
  exists r, rng', w'. split_and!; [done|done|]. intros scs ->.
  destruct (Hr scs eq_refl) as (id & cells & conns & ps & ds & Hfr & _ & Hnd & _ & Hc & Hw & Hld & Ho).
  exists id, cells, conns, ps. split_and!; [done|done|done|by rewrite (will_deliver_count _ _ _ _ Hw)|].
  intros hs0 hs ls others Hs Hk Hrun Hi.
  destruct (deployment_due hs0 hs ls ps others ds _ Hs Hk Hrun Hi Hw)
    as (left & mine & os & theirs & rest & Hp & Hd & Hot & Hds & Hlen).
  exists left, mine, os, theirs. split_and!; [done|done|done| | |].
  - rewrite <- Hlen, <- Hld, <- Hds, length_app. lia.
  - rewrite <- Ho, <- Hds, map_app, omap_app. by apply submseteq_inserts_r.
  - intros ->. destruct rest; [|done]. rewrite app_nil_r in Hds.
    intros rv rounds raws junk wr wr' Hrv Hrw Hid Hpull Hraws Hj.
    destruct (polls_recover rv rounds wr raws wr' id message cells Hrw Hid Hpull Hfr)
      as (outs & r' & Hpoll & Hin & _).
    { rewrite Hrv. eapply opened_permutation; [done| |by apply (fr_id _ _ _ Hfr)|done].
      by rewrite Hds, Ho. }
    by exists outs, (mkReceiver (recv_identity rv) r').
Qed.
End properties.
