(* ===== verification/Progress.v ===== *)
(** * Progress of a deployment

    How much a deployment ever does with what its clients sent, and that what
    was sent can always be finished. Every stream that is accepted or closed and
    every frame that is processed is paid for by the layers of the packets that
    clients sent ([deployment_work_bounded]); with a network that can deliver,
    every packet is processed, or ends on a stream that is closed or leads
    nowhere, and every delivery reaches its mailbox ([deployment_quiesces]). *)
From S2P Require Import Prelude.
From S2P Require Import RustStd.
From S2P Require Import Interfaces.
From S2P Require Import Keys.
From S2P Require Import Forwarding.
From S2P Require Import Mailbox.
From S2P Require Import PullListener.
From S2P Require Import PullServer.
From S2P Require Import Node.
From S2P Require Import RelayProcess.
From S2P Require Import EndToEnd.
From S2P Require Import Links.
From S2P Require Import Deployment.
From S2P Require Import DeploymentRun.

Open Scope Z_scope.

(** ** Counting *)

(** The most layers that packets can have: each takes 63 bytes at least. *)
Definition layers (ps : list packet) : nat := sum_list_with (fun pk => S (length pk.2 / 63)) ps.

Lemma layers_app ps qs : layers (ps ++ qs) = (layers ps + layers qs)%nat.
Proof. apply sum_list_with_app. Qed.

Lemma layers_one a f : layers [(a, f)] = S (length f / 63).
Proof. unfold layers. cbn -[Nat.div]. lia. Qed.

#[global] Instance layers_perm : Proper ((≡ₚ) ==> eq) layers.
Proof. intros ps qs Hp. unfold layers. by rewrite Hp. Qed.

Lemma layers_prefix ps qs : ps `prefix_of` qs -> (layers ps <= layers qs)%nat.
Proof. intros [more ->]. rewrite layers_app. lia. Qed.

(** Processing a packet uses up a layer. *)
Lemma layers_sent_on `{CryptoLaws} kp f a : (S (layers (sent_on_for kp f)) <= layers [(a, f)])%nat.
Proof.
  rewrite layers_one. unfold sent_on_for.
  destruct (peel_onion_layer kp f) as [[hop inner|body]|e] eqn:Ep; rewrite ?layers_one; [|unfold layers; cbn -[Nat.div]; lia..].
  apply peeled_smaller in Ep. unfold len in Ep.
  assert (length inner / 63 + 1 <= length f / 63)%nat; [|lia].
  replace (length inner / 63 + 1)%nat with ((length inner + 1 * 63) / 63)%nat by by rewrite Nat.div_add.
  apply Nat.Div0.div_le_mono. lia.
Qed.

Section work.
Context {W Conn Ch Sem : Type} `{EqDecision Conn} `{NetLaws W Conn} `{!StreamBreak W Conn}
  `{!StreamBreakLaws W Conn} `{CryptoLaws} `{ChannelLaws Ch} `{SemaphoreLaws Sem}.
Context (relay_at : bytes -> option KeyPair).
Abbreviation process := (Process Conn Ch Sem).
Abbreviation hosts := (gmap bytes (Process Conn Ch Sem * W)).
Abbreviation links := (list (link Conn)).
Abbreviation good := (good relay_at).
Implicit Types (lk : link Conn) (p : process) (w : W) (hs : hosts) (ls : links) (a : bytes).

(** How far a stream has come at its destination. *)
Definition stage lk : nat := match lk_end lk with Waiting => 0 | Accepted _ => 1 | Closed => 2 end.

(** The acceptances, closings and frames so far. *)
Definition handled ls : nat := sum_list_with (fun lk => (lk_done lk + stage lk)%nat) ls.

(** What may still be done: nothing on closed streams. *)
Definition link_work hs lk : nat :=
  match lk_end lk with
  | Waiting => 2 + 3 * layers (pending_on hs lk)
  | Accepted _ => 1 + 3 * layers (pending_on hs lk)
  | Closed => 0
  end.
Definition work hs ls : nat := sum_list_with (link_work hs) ls.

(** What the clients have paid for. *)
Definition link_budget lk : nat :=
  match lk_origin lk with
  | FromClient sent => 2 + 3 * layers (pair (lk_dest lk) <$> (split_frames sent).1)
  | FromRelay _ _ => 0
  end.
Definition budget ls : nat := sum_list_with link_budget ls.

(** The layers left on closed streams. *)
Definition link_lost hs lk : nat :=
  match lk_end lk with Closed => layers (pending_on hs lk) | _ => 0 end.
Definition lost hs ls : nat := sum_list_with (link_lost hs) ls.

Definition dones ls : nat := sum_list_with lk_done ls.

Lemma work_account hs ls :
  (handled ls + work hs ls + 3 * lost hs ls = dones ls + 2 * length ls + 3 * layers (pending hs ls))%nat.
Proof.
  unfold handled, work, lost, dones, pending. induction ls as [|lk ls IH]; [done|]. cbn. rewrite layers_app.
  unfold stage, link_work, link_lost in *. destruct (lk_end lk); lia.
Qed.

(** Sums over a list of links with one of them singled out. *)
Lemma sum_middle {A} (f : A -> nat) l1 x l2 :
  sum_list_with f (l1 ++ x :: l2) = (f x + sum_list_with f (l1 ++ l2))%nat.
Proof. rewrite !sum_list_with_app. cbn. lia. Qed.

(** ** What is pending on a link only grows *)

Lemma pending_grows hs a p w p' w' lk :
  hs !! a = Some (p, w) -> link_ok hs lk ->
  (forall c, live w c -> (c ∉ (pr_requests p).*1) -> outbox w c `prefix_of` outbox w' c) ->
  pending_on hs lk `prefix_of` pending_on (<[a := (p', w')]> hs) lk.
Proof.
  intros Ha [Ho Hd _ _] Hout. unfold pending_on, link_frames in *.
  assert (sent_on hs (lk_origin lk) `prefix_of` sent_on (<[a := (p', w')]> hs) (lk_origin lk)) as Hpre.
  { destruct (lk_origin lk) as [sent|b c]; unfold sent_on; [done|].
    destruct (decide (b = a)) as [->|Hne]; [|by rewrite lookup_insert_ne].
    rewrite lookup_insert_eq, Ha. destruct Ho as (p0 & w0 & E & Hl & Hr & _). rewrite Ha in E.
    injection E as <- <-. by apply Hout. }
  apply split_frames_prefix in Hpre as [more ->]. rewrite drop_app_le by done. rewrite fmap_app. by eexists.
Qed.

Lemma lost_grows hs ls a p w p' w' :
  Forall (link_ok hs) ls -> hs !! a = Some (p, w) ->
  (forall c, live w c -> (c ∉ (pr_requests p).*1) -> outbox w c `prefix_of` outbox w' c) ->
  (lost hs ls <= lost (<[a := (p', w')]> hs) ls)%nat.
Proof.
  intros Hl Ha Hout. unfold lost. induction Hl as [|lk ls Hlk _ IH]; [done|]. cbn. unfold link_lost at 1 3.
  pose proof (layers_prefix _ _ (pending_grows hs a p w p' w' lk Ha Hlk Hout)).
  destruct (lk_end lk); lia.
Qed.

(** Processing a frame appends to streams, and dials one at most. *)
Lemma process_frame_writes f (n : RelayNode Conn Ch Sem) w fl n' w' :
  map_Forall (fun _ c => live w c) (outbound n) -> process_frame f n w = (fl, n', w') ->
  (forall c, live w c -> outbox w c `prefix_of` outbox w' c) /\
  forall a, (length (new_links a n n') <= 1)%nat.
Proof.
  intros Hpool. unfold process_frame. destruct (peel_onion_layer (keypair n) f) as [[hop body|body]|e].
  2,3: intros [= <- <- <-]; split; [done|]; intros a; rewrite (new_links_pool a _ _ []) by (by left); cbn; lia.
  destruct (forward hop body n w) as [[r n1] w1] eqn:Ef. intros E.
  assert (w' = w1 /\ outbound n' = outbound n1) as [-> Ho] by (destruct r as [[]|]; by injection E as <- <- <-).
  destruct (forward_streams hop body n w r n1 w1 Hpool Ef) as [Honly Hf].
  assert (forall c, outbound n !! hop = Some c -> cut_short body c w w1 -> outbox w c `prefix_of` outbox w1 c) as Hcut
    by (intros c _ (_ & _ & k & _ & ->); by eexists).
  assert (Hfresh : forall c, ~ live w c -> outbound n' = <[hop := c]> (outbound n) ->
    forall a, (length (new_links a n n') <= 1)%nat).
  { intros c Hn Hi a. rewrite (new_links_fresh a n n' hop c Hi); [done|]. intros Hc. by apply Hn, (Hpool hop). }
  assert (Hout : forall c, live w c -> (outbound n !! hop = Some c -> outbox w c `prefix_of` outbox w1 c) ->
    outbox w c `prefix_of` outbox w1 c).
  { intros c Hc Hp. destruct (decide (outbound n !! hop = Some c)) as [Ec|Hne]; [by apply Hp|].
    destruct (Honly c Hc) as (_ & _ & _ & Hs). by rewrite Hs. }
  destruct Hf as [c Ec Ho' Hnb Hw|c Hn Hlc Ho' Hw Hgu|c k e Hn Hlc Ho' Hb Hk Hw Hgu|e Ho' Hgu].
  - split; [|intros a; rewrite (new_links_pool a n n' []) by (left; congruence); cbn; lia].
    intros c' Hc'. apply Hout; [done|]. rewrite Ec. intros [= <-]. rewrite Hw. by eexists.
  - split; [intros c' Hc'; apply Hout; auto|]. apply (Hfresh c Hn). congruence.
  - split; [intros c' Hc'; apply Hout; auto|]. apply (Hfresh c Hn). congruence.
  - split; [intros c' Hc'; apply Hout; auto|].
    intros a. rewrite (new_links_pool a n n' hop) by (right; congruence). cbn; lia.
Qed.

(** What is in the inbox of an accepted stream is pending. *)
Lemma frame_next_pending hs lk p w s f fs t :
  link_ok hs lk -> lk_end lk = Accepted s -> hs !! lk_dest lk = Some (p, w) ->
  split_frames (inbox w s) = (f :: fs, t) -> (lk_dest lk, f) ∈ pending_on hs lk.
Proof.
  intros [_ _ Hm He] Hs Hd Hsp. unfold end_ok in He. rewrite Hs in He. destruct He as (p0 & w0 & E & _ & _ & Hmv).
  rewrite Hd in E. injection E as <- <-. rewrite Hmv in Hm.
  destruct (next_frame (link_frames hs lk) (lk_done lk) _ (inbox w s) _ f fs t eq_refl eq_refl Hm Hsp) as [Hn _].
  unfold pending_on. rewrite (drop_S _ _ _ Hn), fmap_cons. by left.
Qed.

Lemma frame_pending hs lk p w s f fs t :
  link_ok hs lk -> lk_end lk = Accepted s -> hs !! lk_dest lk = Some (p, w) ->
  split_frames (inbox w s) = (f :: fs, t) -> (1 <= layers (pending_on hs lk))%nat.
Proof.
  intros Hok Hs Hd Hsp. pose proof (frame_next_pending hs lk p w s f fs t Hok Hs Hd Hsp) as Hin.
  destruct (pending_on hs lk); [by apply elem_of_nil in Hin|]. unfold layers. cbn -[Nat.div]. lia.
Qed.

(** ** Every step is paid for *)

(** What a step of a stream's far end costs, when the rest of the links stay. *)
Definition paid hs ls hs' ls' : Prop := (handled ls' + work hs' ls' + budget ls <= handled ls + work hs ls + budget ls')%nat.

Lemma paid_account hs ls hs' ls' :
  (dones ls' + 2 * length ls' + 3 * layers (pending hs' ls') + 3 * lost hs ls + budget ls <=
   dones ls + 2 * length ls + 3 * layers (pending hs ls) + 3 * lost hs' ls' + budget ls')%nat ->
  paid hs ls hs' ls'.
Proof. unfold paid. pose proof (work_account hs ls). pose proof (work_account hs' ls'). lia. Qed.

(** The links a relay dialled cost nothing yet and were not paid for. *)
Lemma new_links_counts a (n n' : RelayNode Conn Ch Sem) hs :
  dones (new_links a n n') = 0%nat /\ lost hs (new_links a n n') = 0%nat /\ budget (new_links a n n') = 0%nat.
Proof.
  unfold new_links, dones, lost, budget.
  induction (map_to_list (filter (fun hc => outbound n !! hc.1 <> Some hc.2) (outbound n'))) as [|hc l IH]; [done|].
  cbn. destruct IH as (-> & -> & ->). done.
Qed.

Lemma paid_same hs hs' l1 lk l2 lk' :
  lk_done lk' = lk_done lk -> lk_origin lk' = lk_origin lk -> lk_dest lk' = lk_dest lk ->
  pending hs' (l1 ++ lk' :: l2) ≡ₚ pending hs (l1 ++ lk :: l2) ->
  (lost hs (l1 ++ lk :: l2) <= lost hs' (l1 ++ lk' :: l2))%nat ->
  paid hs (l1 ++ lk :: l2) hs' (l1 ++ lk' :: l2).
Proof.
  intros Hn Ho Hd Hp Hl. apply paid_account. rewrite Hp. unfold dones, budget. rewrite !sum_middle, !length_app.
  unfold link_budget at 1 3. rewrite Hn, Ho, Hd. cbn. lia.
Qed.

Lemma lost_middle hs l1 lk l2 a p w p' w' lk' :
  Forall (link_ok hs) (l1 ++ lk :: l2) -> hs !! a = Some (p, w) -> link_lost hs lk = 0%nat ->
  (forall c, live w c -> (c ∉ (pr_requests p).*1) -> outbox w c `prefix_of` outbox w' c) ->
  let hs' := <[a := (p', w')]> hs in
  (lost hs (l1 ++ lk :: l2) + link_lost hs' lk' <= lost hs' (l1 ++ lk' :: l2))%nat.
Proof.
  intros [Hl1 [_ Hl2]%Forall_cons]%Forall_app Ha Hz Hout hs'.
  pose proof (lost_grows hs (l1 ++ l2) a p w p' w' (Forall_app_2 _ _ _ Hl1 Hl2) Ha Hout) as Hg.
  fold hs' in Hg. unfold lost in *. rewrite !sum_middle, Hz. lia.
Qed.

Lemma paid_accept hs l1 lk l2 p w s w' n active :
  good hs (l1 ++ lk :: l2) -> lk_end lk = Waiting -> hs !! lk_dest lk = Some (p, w) ->
  accepts w s w' -> inbox w' s = [] -> undisturbed [] w w' ->
  accept_connection s (pr_node p) (pr_active p) = (n, active) ->
  paid hs (l1 ++ lk :: l2) (<[lk_dest lk := (with_node n active p, w')]> hs)
    (l1 ++ set_end (match try_acquire (connection_limiter (pr_node p)) with
                    | Some _ => Accepted s | None => Closed end) lk :: l2).
Proof.
  intros Hg He Hd Hacc Hin Hund Ha.
  destruct (good_accept relay_at hs l1 lk l2 p w s w' n active Hg He Hd Hacc Hin Hund Ha) as [_ Hp].
  apply paid_same; try done.
  etransitivity; [|apply (lost_middle hs l1 lk l2 (lk_dest lk) p w); [apply Hg|done|unfold link_lost; by rewrite He|]].
  - apply Nat.le_add_r.
  - intros c Hc _. destruct (Hund c Hc) as (_ & _ & -> & _); [apply not_elem_of_nil|done].
Qed.

Lemma paid_carry hs l1 lk l2 p w s w' bs :
  good hs (l1 ++ lk :: l2) -> lk_end lk = Accepted s -> hs !! lk_dest lk = Some (p, w) ->
  (lk_moved lk ++ bs) `prefix_of` sent_on hs (lk_origin lk) ->
  undisturbed [s] w w' -> live w' s -> inbox w' s = inbox w s ++ bs -> outbox w' s = outbox w s ->
  (broken w s -> broken w' s) ->
  paid hs (l1 ++ lk :: l2) (<[lk_dest lk := (p, w')]> hs) (l1 ++ carried bs lk :: l2).
Proof.
  intros Hg He Hd Hpre Hund Hls Hin Hout Hb.
  destruct (good_carry relay_at hs l1 lk l2 p w s w' bs Hg He Hd Hpre Hund Hls Hin Hout Hb) as [_ Hp].
  apply paid_same; try done.
  etransitivity; [|apply (lost_middle hs l1 lk l2 (lk_dest lk) p w); [apply Hg|done|unfold link_lost; by rewrite He|]].
  - apply Nat.le_add_r.
  - intros c Hc _. destruct (decide (c = s)) as [->|Hne]; [by rewrite Hout|].
    destruct (Hund c Hc) as (_ & _ & -> & _); [by intros ?%list_elem_of_singleton|done].
Qed.

(** What a host does with a frame that it has read. *)
Lemma frame_writes hs ls a p w s f w1 fl n w' :
  good hs ls -> hs !! a = Some (p, w) -> reads s w w1 -> process_frame f (pr_node p) w1 = (fl, n, w') ->
  (forall c, live w c -> outbox w c `prefix_of` outbox w' c) /\
  (length (new_links a (pr_node p) n) <= 1)%nat.
Proof.
  intros Hg Ha Hr E. pose proof (dok_hosts _ _ _ (proj1 Hg) _ _ _ Ha) as [_ _ _ Hpool].
  destruct (process_frame_writes f (pr_node p) w1 fl n w') as [Hout Hnew]; [|done|].
  - intros h c Hc. by apply Hr, (Hpool h c).
  - split; [|done]. intros c Hc. destruct (Hr c Hc) as (Hl & <- & _). by apply Hout.
Qed.

Lemma paid_frame hs l1 lk l2 p w s n w' :
  good hs (l1 ++ lk :: l2) -> lk_end lk = Accepted s -> hs !! lk_dest lk = Some (p, w) ->
  handle_frame s (pr_node p) w = (Continue, n, w') ->
  paid hs (l1 ++ lk :: l2) (<[lk_dest lk := (with_node n (pr_active p) p, w')]> hs)
    ((l1 ++ processed lk :: l2) ++ new_links (lk_dest lk) (pr_node p) n).
Proof.
  intros Hg He Hd E.
  assert (live w s) as Hs by (eapply good_accepted; [done| |done|done]; apply elem_of_app; right; by left).
  destruct (handle_frame_reads s _ w _ _ _ Hs E) as [(_ & _ & _ & r & Hr)|(f & fs & t & w1 & Hsp & Hlen & Hr & Hi & Ef)];
    [done|].
  destruct (good_frame relay_at hs l1 lk l2 p w s f fs t w1 n w' Hg He Hd Hr Hsp Hlen Hi Ef) as (_ & others & Hp & Hp').
  destruct (frame_writes _ _ _ _ _ _ _ _ _ _ _ Hg Hd Hr Ef) as [Hout Hnew].
  set (hs' := <[lk_dest lk := (with_node n (pr_active p) p, w')]> hs) in *.
  assert (lost hs (l1 ++ lk :: l2) + link_lost hs' (processed lk) <= lost hs' (l1 ++ processed lk :: l2))%nat as Hl.
  { apply (lost_middle hs l1 lk l2 (lk_dest lk) p w); [apply Hg|done|unfold link_lost; by rewrite He|auto]. }
  pose proof (layers_sent_on (keypair (pr_node p)) f (lk_dest lk)) as Hpay.
  destruct (new_links_counts (lk_dest lk) (pr_node p) n hs') as (Hn1 & Hn2 & Hn3).
  apply paid_account. rewrite Hp, Hp'. change ((lk_dest lk, f) :: others) with ([(lk_dest lk, f)] ++ others).
  unfold dones, budget, lost in *. rewrite !layers_app, !(sum_list_with_app _ (_ ++ _ :: _)), Hn1, Hn2, Hn3, !sum_middle in *.
  rewrite !length_app. change (link_budget (processed lk)) with (link_budget lk).
  change (lk_done (processed lk)) with (S (lk_done lk)). cbn [length]. lia.
Qed.

Lemma paid_close hs l1 lk l2 p w s r n w' p' :
  good hs (l1 ++ lk :: l2) -> lk_end lk = Accepted s -> hs !! lk_dest lk = Some (p, w) ->
  handle_frame s (pr_node p) w = (Return r, n, w') ->
  pr_requests p' = pr_requests p -> pr_node p' = drop_permit n ->
  paid hs (l1 ++ lk :: l2) (<[lk_dest lk := (p', w')]> hs)
    ((l1 ++ set_end Closed lk :: l2) ++ new_links (lk_dest lk) (pr_node p) n).
Proof.
  intros Hg He Hd E Hq Hn.
  assert (Hin : lk ∈ l1 ++ lk :: l2) by (apply elem_of_app; right; by left).
  assert (live w s) as Hs by by eapply good_accepted.
  destruct (good_close relay_at hs l1 lk l2 p w s r n w' p' Hg He Hd E Hq Hn) as [_ Hp].
  set (hs' := <[lk_dest lk := (p', w')]> hs) in *.
  assert ((forall c, live w c -> outbox w c `prefix_of` outbox w' c) /\
    (2 * length (new_links (lk_dest lk) (pr_node p) n) <= 3 * layers (pending_on hs lk))%nat) as [Hout Hnew].
  { destruct (handle_frame_reads s _ w _ _ _ Hs E) as [(_ & -> & Hr & _)|(f & fs & t & w1 & Hsp & Hlen & Hr & Hi & Ef)].
    - rewrite (new_links_pool _ _ _ []) by by left. split; [|cbn; lia].
      intros c Hc. by destruct (Hr c Hc) as (_ & -> & _).
    - destruct (frame_writes _ _ _ _ _ _ _ _ _ _ _ Hg Hd Hr Ef) as [Hout Hnew]. split; [done|].
      pose proof (frame_pending hs lk p w s f fs t (proj1 (Forall_forall _ _) (dok_links _ _ _ (proj1 Hg)) lk Hin) He Hd Hsp).
      lia. }
  assert (lost hs (l1 ++ lk :: l2) + link_lost hs' (set_end Closed lk) <= lost hs' (l1 ++ set_end Closed lk :: l2))%nat as Hl.
  { apply (lost_middle hs l1 lk l2 (lk_dest lk) p w); [apply Hg|done|unfold link_lost; by rewrite He|auto]. }
  assert (layers (pending_on hs lk) <= link_lost hs' (set_end Closed lk))%nat as Hlk.
  { unfold link_lost. apply layers_prefix, (pending_grows hs (lk_dest lk) p w p' w' lk); [done| |auto].
    exact (proj1 (Forall_forall _ _) (dok_links _ _ _ (proj1 Hg)) lk Hin). }
  destruct (new_links_counts (lk_dest lk) (pr_node p) n hs') as (Hn1 & Hn2 & Hn3).
  apply paid_account. rewrite Hp. unfold dones, budget, lost in *.
  rewrite !(sum_list_with_app _ (_ ++ _ :: _)), Hn1, Hn2, Hn3, !sum_middle in *.
  rewrite !length_app. change (link_budget (set_end Closed lk)) with (link_budget lk).
  change (lk_done (set_end Closed lk)) with (lk_done lk). cbn [length]. lia.
Qed.

Lemma paid_local hs ls a p w p' w' :
  good hs ls -> hs !! a = Some (p, w) -> pending (<[a := (p', w')]> hs) ls = pending hs ls ->
  (forall c, live w c -> (c ∉ (pr_requests p).*1) -> outbox w c `prefix_of` outbox w' c) ->
  paid hs ls (<[a := (p', w')]> hs) ls.
Proof.
  intros Hg Ha Hp Hout. apply paid_account. rewrite Hp.
  pose proof (lost_grows hs ls a p w p' w' (dok_links _ _ _ (proj1 Hg)) Ha Hout). lia.
Qed.

Lemma paid_send hs ls sent dest :
  paid hs ls hs (ls ++ [mkLink (FromClient sent) dest Waiting [] 0]).
Proof.
  set (lk := mkLink (FromClient sent) dest Waiting [] 0).
  assert (link_work hs lk = link_budget lk) as Hlk
    by (unfold link_work, link_budget, pending_on, link_frames, sent_on; by rewrite drop_0).
  unfold paid, handled, work, budget. rewrite !sum_list_with_app. cbn -[link_work link_budget].
  rewrite Hlk. lia.
Qed.

Lemma step_paid hs ls st' : deployment_step (hs, ls) st' -> good hs ls -> paid hs ls st'.1 st'.2.
Proof.
  intros Hst Hg. inversion Hst as [hs0 ls0 sent dest|hs0 l1 lk l2 p w s w' n active He Hd Hacc Hin Hund Ha
    |hs0 l1 lk l2 p w s w' bs He Hd Hpre Hund Hls Hin Hout Hb|hs0 l1 lk l2 p w s n w' He Hd Hact E
    |hs0 l1 lk l2 p w s r n w' a1 a2 He Hd Hact E|hs0 ls0 a p w p' Ha Hq|hs0 ls0 a p w evs p' w' Ha Hs Hund];
    subst; cbn.
  - by apply paid_send.
  - by eapply paid_accept.
  - by apply (paid_carry hs l1 lk l2 p w s w' bs).
  - by eapply paid_frame.
  - eapply paid_close; done.
  - eapply paid_local; [done|done|by eapply good_queue|done].
  - eapply paid_local; [done|done|by eapply good_serve|].
    intros c Hc Hr. by destruct (Hund c Hc Hr) as (_ & _ & -> & _).
Qed.

(** Whatever was done in a reachable deployment was paid for. *)
Lemma reachable_paid hs0 st :
  started hs0 -> keyed relay_at hs0 -> rtc deployment_step (hs0, []) st ->
  (handled st.2 + work st.1 st.2 <= budget st.2)%nat.
Proof.
  intros Hs Hk Hr.
  enough (good st.1 st.2 /\ (handled st.2 + work st.1 st.2 <= budget st.2)%nat) by tauto.
  refine (rtc_ind_r (fun st => good st.1 st.2 /\ (handled st.2 + work st.1 st.2 <= budget st.2)%nat) (hs0, []) _ _ _ Hr).
  - split; [by apply good_start|done].
  - intros [hs ls] st2 _ Hst [Hg Hw]. cbn [fst snd] in *. pose proof (step_paid _ _ _ Hst Hg) as Hp. unfold paid in Hp.
    split; [by eapply good_step|lia].
Qed.

Lemma budget_injected ls :
  (budget ls = 2 * length (filter (fun lk => relay_origin lk = None) ls) + 3 * layers (injected ls))%nat.
Proof.
  unfold budget, injected. induction ls as [|lk ls IH]; [done|]. cbn -[filter]. rewrite filter_cons, layers_app, IH.
  unfold link_budget, relay_origin in *. destruct (lk_origin lk); cbn -[filter layers].
  - rewrite decide_True by done. cbn [length]. lia.
  - rewrite decide_False by done. change (layers []) with 0%nat. lia.
Qed.
End work.

(** ** A network that can deliver *)

(** A connection can always arrive on a stream of its own, and an open stream can
    always be carried further, without anything happening to the others. *)
Class NetFlow (W Conn : Type) `{Net W Conn} `{!StreamBreak W Conn} : Prop := {
  stream_arrives (w : W) :
    exists (s : Conn) w', accepts w s w' /\ inbox w' s = [] /\ undisturbed [] w w';
  stream_carries (w : W) (s : Conn) (bs : bytes) :
    live w s -> exists w', undisturbed [s] w w' /\ live w' s /\ inbox w' s = inbox w s ++ bs /\
      outbox w' s = outbox w s /\ (broken w s -> broken w' s)
}.

Section progress.
Context {W Conn Ch Sem : Type} `{EqDecision Conn} `{NetLaws W Conn} `{!StreamBreak W Conn}
  `{!StreamBreakLaws W Conn} `{!NetFlow W Conn} `{CryptoLaws} `{ChannelLaws Ch} `{SemaphoreLaws Sem}.
Context (relay_at : bytes -> option KeyPair).
Abbreviation process := (Process Conn Ch Sem).
Abbreviation hosts := (gmap bytes (Process Conn Ch Sem * W)).
Abbreviation links := (list (link Conn)).
Abbreviation good := (good relay_at).
Implicit Types (lk : link Conn) (p : process) (w : W) (hs : hosts) (ls : links) (a : bytes).

(** Every accepted stream has its task. *)
Definition served hs ls : Prop :=
  forall a s, (a, s) ∈ omap accepted_end ls -> exists p w, hs !! a = Some (p, w) /\ s ∈ pr_active p.

Lemma ends_middle x l1 lk l2 :
  x ∈ omap accepted_end (l1 ++ lk :: l2) <-> accepted_end lk = Some x \/ x ∈ omap accepted_end (l1 ++ l2).
Proof.
  rewrite !omap_app. cbn. destruct (accepted_end lk) as [y|]; [|split; [by right|by intros [?|?]]].
  rewrite <- Permutation_middle, elem_of_cons.
  split; [intros [->|?]; auto|intros [[= ->]|?]; auto].
Qed.

Lemma new_links_ends a (n n' : RelayNode Conn Ch Sem) : omap accepted_end (new_links a n n') = [].
Proof.
  unfold new_links. by induction (map_to_list (filter (fun hc => outbound n !! hc.1 <> Some hc.2) (outbound n'))).
Qed.

Lemma served_change hs ls ls' a p w p' w' :
  served hs ls -> hs !! a = Some (p, w) ->
  (forall b s, (b, s) ∈ omap accepted_end ls' ->
     ((b, s) ∈ omap accepted_end ls /\ (b = a -> s ∈ pr_active p -> s ∈ pr_active p')) \/
     (b = a /\ s ∈ pr_active p')) ->
  served (<[a := (p', w')]> hs) ls'.
Proof.
  intros Hs Ha Hc b s Hb. destruct (decide (b = a)) as [->|Hne].
  - exists p', w'. split; [apply lookup_insert_eq|]. destruct (Hc a s Hb) as [[Hin Hk]|[_ ?]]; [|done].
    destruct (Hs a s Hin) as (p0 & w0 & E & Hact). rewrite Ha in E. injection E as <- <-. by apply Hk.
  - destruct (Hc b s Hb) as [[Hin _]|[? _]]; [|done]. rewrite lookup_insert_ne by done. by apply Hs.
Qed.

Lemma served_step hs ls st' :
  deployment_step (hs, ls) st' -> good hs ls -> served hs ls -> served st'.1 st'.2.
Proof.
  intros Hst Hg Hs. inversion Hst as [hs0 ls0 sent dest|hs0 l1 lk l2 p w s w' n active He Hd Hacc Hin Hund Ha
    |hs0 l1 lk l2 p w s w' bs He Hd Hpre Hund Hls Hin Hout Hb|hs0 l1 lk l2 p w s n w' He Hd Hact E
    |hs0 l1 lk l2 p w s r n w' a1 a2 He Hd Hact E|hs0 ls0 a p w p' Ha Hq|hs0 ls0 a p w evs p' w' Ha Hev Hund];
    subst; cbn [fst snd].
  - intros a s Hin. rewrite omap_app, app_nil_r in Hin. by apply Hs.
  - apply (served_change hs _ _ (lk_dest lk) p w _ _ Hs Hd). intros b c. rewrite !ends_middle.
    unfold accept_connection in Ha. unfold accepted_end at 1. cbn.
    destruct (try_acquire _); injection Ha as <- <-; intros [Hx|Hx]; try done; [right|left|left].
    + injection Hx as <- <-. split; [done|]. apply elem_of_app. right. by left.
    + split; [by right|]. intros _ Hc. apply elem_of_app. by left.
    + split; [by right|done].
  - apply (served_change hs _ _ (lk_dest lk) p w _ _ Hs Hd). intros b c Hin'. left. by rewrite !ends_middle in *.
  - apply (served_change hs _ _ (lk_dest lk) p w _ _ Hs Hd). intros b c.
    rewrite omap_app, new_links_ends, app_nil_r, !ends_middle. by left.
  - apply (served_change hs _ _ (lk_dest lk) p w _ _ Hs Hd). intros b c.
    rewrite omap_app, new_links_ends, app_nil_r, !ends_middle. cbn. intros [?|Hx]; [done|]. left. split; [by right|].
    intros ->. rewrite Hact. intros Hc. apply elem_of_app. rewrite elem_of_app, elem_of_cons in Hc.
    assert (c <> s); [|tauto]. intros ->.
    eapply (ends_apart (lk_dest lk) s l1 lk l2); [apply (dok_ends _ _ _ (proj1 Hg))| |exact Hx|by left].
    unfold accepted_end. by rewrite He.
  - apply (served_change hs ls ls a p w _ _ Hs Ha). intros b c Hc. left. split; [done|]. by destruct Hq.
  - apply (served_change hs ls ls a p w _ _ Hs Ha). intros b c Hc. left. split; [done|].
    destruct (serve_step_requests _ _ _ _ _ Hev) as (_ & -> & _). done.
Qed.

Definition ready hs ls : Prop := good hs ls /\ served hs ls.

Lemma ready_step hs ls st' : deployment_step (hs, ls) st' -> ready hs ls -> ready st'.1 st'.2.
Proof. intros Hst [Hg Hs]. split; [by eapply good_step|by eapply served_step]. Qed.

Lemma ready_steps st st' : rtc deployment_step st st' -> ready st.1 st.2 -> ready st'.1 st'.2.
Proof.
  induction 1 as [|[hs ls] st1 st2 Hst _ IH]; [done|]. intros Hr. apply IH. by eapply ready_step.
Qed.

(** Nothing is left to do at the far end of a stream: it is closed, nothing
    listens there, or everything on it was processed. *)
Definition settled hs lk : Prop :=
  match lk_end lk with
  | Waiting => hs !! lk_dest lk = None
  | Accepted _ => pending_on hs lk = []
  | Closed => True
  end.

#[export] Instance settled_dec hs lk : Decision (settled hs lk).
Proof. unfold settled. destruct (lk_end lk); apply _. Defined.

(** The steps of a turn: what was paid for gets less, and nothing is sent. *)
Definition advances hs ls st' : Prop :=
  rtc deployment_step (hs, ls) st' /\ injected st'.2 = injected ls /\ (work st'.1 st'.2 < work hs ls)%nat.

Lemma budget_middle l1 lk l2 lk' :
  lk_origin lk' = lk_origin lk -> lk_dest lk' = lk_dest lk -> budget (l1 ++ lk' :: l2) = budget (l1 ++ lk :: l2).
Proof. intros Ho Hd. unfold budget. rewrite !sum_middle. unfold link_budget at 1 3. by rewrite Ho, Hd. Qed.

Lemma handled_middle l1 lk l2 lk' :
  (handled (l1 ++ lk' :: l2) + (lk_done lk + stage lk) = handled (l1 ++ lk :: l2) + (lk_done lk' + stage lk'))%nat.
Proof. unfold handled. rewrite !sum_middle. lia. Qed.

Lemma handled_new ls a (n n' : RelayNode Conn Ch Sem) : handled (ls ++ new_links a n n') = handled ls.
Proof.
  unfold handled, new_links. rewrite sum_list_with_app.
  induction (map_to_list (filter (fun hc => outbound n !! hc.1 <> Some hc.2) (outbound n'))) as [|hc l IH]; [cbn; lia|].
  cbn in *. lia.
Qed.

Lemma budget_new ls a (n n' : RelayNode Conn Ch Sem) : budget (ls ++ new_links a n n') = budget ls.
Proof.
  destruct (new_links_counts a n n' (∅ : hosts)) as (_ & _ & Hb). unfold budget in *.
  rewrite sum_list_with_app, Hb. lia.
Qed.

(** A step that brings a stream further, its budget being the same. *)
Lemma step_advances hs l1 lk l2 hs' lk' (new : links) a (n n' : RelayNode Conn Ch Sem) :
  good hs (l1 ++ lk :: l2) -> deployment_step (hs, l1 ++ lk :: l2) (hs', (l1 ++ lk' :: l2) ++ new) ->
  new = new_links a n n' -> lk_origin lk' = lk_origin lk -> lk_dest lk' = lk_dest lk ->
  (lk_done lk + stage lk < lk_done lk' + stage lk')%nat ->
  advances hs (l1 ++ lk :: l2) (hs', (l1 ++ lk' :: l2) ++ new).
Proof.
  intros Hg Hst -> Ho Hd Hlt. pose proof (step_paid _ _ _ _ Hst Hg) as Hp. unfold paid in Hp. cbn [fst snd] in Hp.
  pose proof (handled_middle l1 lk l2 lk'). rewrite handled_new in Hp.
  rewrite budget_new, (budget_middle l1 lk l2 lk' Ho Hd) in Hp.
  split_and!; [by apply rtc_once| |cbn [fst snd]; lia].
  cbn [snd]. rewrite injected_app, injected_new_links, app_nil_r. by apply injected_replace.
Qed.

Lemma waiting_advances hs l1 lk l2 :
  ready hs (l1 ++ lk :: l2) -> lk_end lk = Waiting -> is_Some (hs !! lk_dest lk) ->
  exists st', advances hs (l1 ++ lk :: l2) st'.
Proof.
  intros [Hg _] He [[p w] Hd]. destruct (stream_arrives w) as (s & w' & Hacc & Hin & Hund).
  destruct (accept_connection s (pr_node p) (pr_active p)) as [n active] eqn:Ea.
  pose proof (dp_accept hs l1 lk l2 p w s w' n active He Hd Hacc Hin Hund Ea) as Hst.
  rewrite <- (app_nil_r (l1 ++ set_end _ lk :: l2)) in Hst.
  eexists. eapply (step_advances _ _ _ _ _ _ [] [] (pr_node p) (pr_node p)); [exact Hg|exact Hst| |done|done|].
  - symmetry. apply (new_links_pool _ _ _ []). by left.
  - unfold stage. cbn. rewrite He. destruct (try_acquire _); lia.
Qed.

(** With the rest of a stream carried, its inbox holds what is pending on it. *)
Lemma carried_inbox hs lk p w s :
  link_ok hs lk -> lk_end lk = Accepted s -> hs !! lk_dest lk = Some (p, w) ->
  exists bs, lk_moved lk ++ bs = sent_on hs (lk_origin lk) /\
    (split_frames (inbox w s ++ bs)).1 = drop (lk_done lk) (link_frames hs lk).
Proof.
  intros [_ Hdn [bs Hm] He] Hs Hd. unfold end_ok in He. rewrite Hs in He. destruct He as (p0 & w0 & E & _ & _ & Hmv).
  rewrite Hd in E. injection E as <- <-. exists bs. split; [done|].
  assert (Hf : Forall (fun f : bytes => len f < 2 ^ 32) (take (lk_done lk) (link_frames hs lk)))
    by apply Forall_take, split_frames_join.
  pose proof (split_frames_app _ (inbox w s ++ bs) Hf) as Hsp.
  rewrite (assoc (++)), <- Hmv, <- Hm in Hsp. apply (f_equal fst) in Hsp. cbn [fst] in Hsp.
  fold (link_frames hs lk) in Hsp. rewrite <- (take_drop (lk_done lk) (link_frames hs lk)) in Hsp at 1.
  by apply app_inv_head in Hsp.
Qed.

(** A turn of the task of a stream that holds a frame. *)
Lemma turn_advances hs l1 lk l2 p w s :
  ready hs (l1 ++ lk :: l2) -> lk_end lk = Accepted s -> hs !! lk_dest lk = Some (p, w) ->
  (split_frames (inbox w s)).1 <> [] -> exists st', advances hs (l1 ++ lk :: l2) st'.
Proof.
  intros [Hg Hsv] He Hd Hf.
  assert (s ∈ pr_active p) as Hact.
  { destruct (Hsv (lk_dest lk) s) as (p0 & w0 & E & Ha); [|rewrite Hd in E; by injection E as <- <-].
    apply ends_middle. left. unfold accepted_end. by rewrite He. }
  destruct (handle_frame s (pr_node p) w) as [[[|r] n] w'] eqn:E.
  - eexists. eapply (step_advances hs l1 lk l2); [exact Hg|by apply (dp_frame hs l1 lk l2 p w s n w')|done..|].
    unfold stage. cbn. lia.
  - apply list_elem_of_split in Hact as (a1 & a2 & Ha).
    eexists. eapply (step_advances hs l1 lk l2); [exact Hg|by apply (dp_close hs l1 lk l2 p w s r n w' a1 a2)|done..|].
    unfold stage. cbn. rewrite He. lia.
Qed.

Lemma accepted_advances hs l1 lk l2 s :
  ready hs (l1 ++ lk :: l2) -> lk_end lk = Accepted s -> pending_on hs lk <> [] ->
  exists st', advances hs (l1 ++ lk :: l2) st'.
Proof.
  intros Hr He Hne. pose proof Hr as [Hg Hsv].
  assert (link_ok hs lk) as Hlk by (pose proof (dok_links _ _ _ (proj1 Hg)) as [_ [? _]%Forall_cons]%Forall_app; done).
  destruct (Hsv (lk_dest lk) s) as (p & w & Hd & _).
  { apply ends_middle. left. unfold accepted_end. by rewrite He. }
  destruct (carried_inbox hs lk p w s Hlk He Hd) as (bs & Hbs & Hfr).
  assert (live w s) as Hl by (eapply good_accepted; [done| |done|done]; apply elem_of_app; right; by left).
  destruct (stream_carries w s bs Hl) as (w' & Hund & Hl' & Hin & Hout & Hb).
  set (hs1 := <[lk_dest lk := (p, w')]> hs).
  assert (deployment_step (hs, l1 ++ lk :: l2) (hs1, l1 ++ carried bs lk :: l2)) as Hst
    by (apply (dp_carry hs l1 lk l2 p w s w' bs); try done; by rewrite Hbs).
  assert (work hs1 (l1 ++ carried bs lk :: l2) <= work hs (l1 ++ lk :: l2))%nat as Hw.
  { pose proof (step_paid _ _ _ _ Hst Hg) as Hp. unfold paid in Hp. cbn [fst snd] in Hp.
    pose proof (handled_middle l1 lk l2 (carried bs lk)) as Hh. unfold stage in Hh. cbn in Hh.
    rewrite (budget_middle l1 lk l2 (carried bs lk)) in Hp by done. lia. }
  destruct (turn_advances hs1 l1 (carried bs lk) l2 p w' s) as (st' & Hrun & Hinj & Hwk).
  - by apply (ready_step _ _ _ Hst).
  - done.
  - apply lookup_insert_eq.
  - rewrite Hin, Hfr. intros Hz. apply Hne. unfold pending_on. by rewrite Hz.
  - exists st'. split_and!; [by eapply rtc_l| |lia]. rewrite Hinj. by apply injected_replace.
Qed.

(** As long as a stream is not settled, work can be done. *)
Lemma unsettled_advances hs ls :
  ready hs ls -> ~ Forall (settled hs) ls -> exists st', advances hs ls st'.
Proof.
  intros Hr (lk & Hin & Hn)%not_Forall_Exists%Exists_exists; [|apply _].
  apply list_elem_of_split in Hin as (l1 & l2 & ->). change (~ settled hs lk) in Hn. unfold settled in Hn.
  destruct (lk_end lk) as [|s|] eqn:He; [|by apply (accepted_advances hs l1 lk l2 s)|by destruct Hn].
  apply waiting_advances; [done|done|]. by apply not_eq_None_Some.
Qed.

Lemma settles hs ls :
  ready hs ls -> exists hs' ls', rtc deployment_step (hs, ls) (hs', ls') /\ injected ls' = injected ls /\
    Forall (settled hs') ls'.
Proof.
  remember (work hs ls) as k eqn:Hk. revert hs ls Hk.
  induction k as [k IH] using lt_wf_ind. intros hs ls -> Hr.
  destruct (decide (Forall (settled hs) ls)) as [Hall|Hnot]; [by exists hs, ls|].
  destruct (unsettled_advances hs ls Hr Hnot) as ([hs1 ls1] & Hrun & Hinj & Hlt). cbn [fst snd] in *.
  destruct (IH _ Hlt hs1 ls1 eq_refl) as (hs' & ls' & Hrun' & Hinj' & Hall).
  { by apply (ready_steps _ _ Hrun). }
  exists hs', ls'. split_and!; [by etransitivity|by rewrite Hinj', Hinj|done].
Qed.

(** ** The queueing tasks *)

(** What was received from the channel is in the mailbox or in hand; nothing was
    drained yet. *)
Definition filed p : Prop :=
  queue (pr_mailbox p) ++ option_list (pr_holding p) = take (pr_taken p) (ch_sent (delivery_tx (pr_node p))) /\
  (pr_taken p <= length (ch_sent (delivery_tx (pr_node p))))%nat.

Lemma queue_step_filed p p' : queue_step p p' -> filed p -> filed p'.
Proof.
  unfold filed. intros [q cell Hh Hn|q cell Hh]; cbn; rewrite Hh; cbn; rewrite ?app_nil_r.
  - intros [-> _]. rewrite (take_S_r _ _ _ Hn). split; [done|]. by apply lookup_lt_Some in Hn.
  - done.
Qed.

Lemma filed_node p n active more :
  ch_sent (delivery_tx n) = ch_sent (delivery_tx (pr_node p)) ++ more -> filed p -> filed (with_node n active p).
Proof.
  unfold filed. cbn. intros -> [-> Hl]. split; [by rewrite take_app_le|]. rewrite length_app. lia.
Qed.

(** Without a backlog everything is in the mailbox. *)
Lemma filed_idle p : filed p -> backlog p = 0%nat -> ch_sent (delivery_tx (pr_node p)) = queue (pr_mailbox p).
Proof.
  unfold filed, backlog. intros [He Hl] Hb. destruct (pr_holding p); [lia|]. rewrite take_ge in He by lia.
  rewrite <- He. apply app_nil_r.
Qed.

(** Only queueing tasks have had turns. *)
Definition queued hs hs' : Prop :=
  forall a, match hs !! a, hs' !! a with
            | Some (p, w), Some (p', w') => w' = w /\ pr_node p' = pr_node p /\ (filed p -> filed p')
            | None, None => True
            | _, _ => False
            end.

Lemma queued_refl hs : queued hs hs.
Proof. intros a. by destruct (hs !! a) as [[p w]|]. Qed.

Lemma queued_trans hs1 hs2 hs3 : queued hs1 hs2 -> queued hs2 hs3 -> queued hs1 hs3.
Proof.
  intros Ha Hb a. specialize (Ha a). specialize (Hb a).
  destruct (hs1 !! a) as [[p1 w1]|], (hs2 !! a) as [[p2 w2]|], (hs3 !! a) as [[p3 w3]|]; try done.
  destruct Ha as (-> & <- & Ha), Hb as (-> & -> & Hb). auto.
Qed.

Lemma queued_insert hs a p w p' :
  hs !! a = Some (p, w) -> pr_node p' = pr_node p -> (filed p -> filed p') -> queued hs (<[a := (p', w)]> hs).
Proof.
  intros Ha Hn Hf b. destruct (decide (b = a)) as [->|Hne]; [by rewrite lookup_insert_eq, Ha|].
  rewrite lookup_insert_ne by done. apply queued_refl.
Qed.

(** They change no stream and no channel. *)
Lemma queued_sent_on hs hs' o : queued hs hs' -> sent_on hs' o = sent_on hs o.
Proof.
  intros Hq. destruct o as [sent|a c]; [done|]. unfold sent_on. specialize (Hq a).
  destruct (hs !! a) as [[p w]|], (hs' !! a) as [[p' w']|]; try done. by destruct Hq as (-> & _).
Qed.

Lemma queued_pending hs hs' ls : queued hs hs' -> pending hs' ls = pending hs ls.
Proof. intros Hq. apply pending_same, Forall_forall. intros lk _. by apply queued_sent_on. Qed.

Lemma queued_delivered hs hs' : queued hs hs' -> delivered hs' = delivered hs.
Proof.
  intros Hq. unfold delivered. set (f := fun pw : process * W => ch_sent (delivery_tx (pr_node pw.1))).
  assert (f <$> hs' = f <$> hs) as Hf.
  { apply map_eq. intros a. rewrite !lookup_fmap. specialize (Hq a).
    destruct (hs !! a) as [[p w]|], (hs' !! a) as [[p' w']|]; try done. destruct Hq as (_ & Hn & _).
    cbn. unfold f. cbn. by rewrite Hn. }
  assert (forall h : hosts, map_to_list h ≫= delivered_at =
    map_to_list (f <$> h) ≫= fun ab => pair ab.1 <$> ab.2) as He.
  { intros h. rewrite map_to_list_fmap. induction (map_to_list h) as [|x l IH]; [done|]. cbn. by rewrite IH. }
  by rewrite !He, Hf.
Qed.

Lemma settled_queued hs hs' lk : queued hs hs' -> settled hs lk -> settled hs' lk.
Proof.
  intros Hq. unfold settled, pending_on, link_frames. rewrite (queued_sent_on _ _ _ Hq).
  destruct (lk_end lk); [|done|done]. specialize (Hq (lk_dest lk)). intros Hn. rewrite Hn in Hq.
  by destruct (hs' !! lk_dest lk).
Qed.

Lemma queue_empties hs ls a p w :
  hs !! a = Some (p, w) -> exists p', rtc deployment_step (hs, ls) (<[a := (p', w)]> hs, ls) /\
    backlog p' = 0%nat /\ queued hs (<[a := (p', w)]> hs).
Proof.
  intros Ha. remember (backlog p) as k eqn:Hk. revert hs p Ha Hk.
  induction k as [|k IH]; intros hs p Ha Hk.
  { exists p. rewrite insert_id by done. split_and!; [apply rtc_refl|lia|apply queued_refl]. }
  destruct (queue_step_enabled p) as [p1 Hq]; [lia|].
  assert (backlog p1 = k /\ pr_node p1 = pr_node p) as [Hb Hn].
  { pose proof (queue_step_backlog p p1 Hq). split; [lia|by destruct Hq]. }
  destruct (IH (<[a := (p1, w)]> hs) p1) as (p' & Hrun & Hz & Hqd); [apply lookup_insert_eq|done|].
  exists p'. rewrite insert_insert_eq in Hrun, Hqd. split_and!; [|done|].
  - eapply rtc_l; [by apply (dp_queue hs ls a p w p1)|done].
  - eapply queued_trans; [|exact Hqd]. apply (queued_insert hs a p w p1); [done|done|by apply queue_step_filed].
Qed.

(** The queueing tasks of some hosts empty their backlogs. *)
Lemma queues_empty_of (addrs : list bytes) hs ls :
  (forall a, a ∈ addrs -> is_Some (hs !! a)) ->
  exists hs', rtc deployment_step (hs, ls) (hs', ls) /\ queued hs hs' /\
    (forall a p w, hs' !! a = Some (p, w) -> a ∈ addrs -> backlog p = 0%nat) /\
    forall a, (a ∉ addrs) -> hs' !! a = hs !! a.
Proof.
  induction addrs as [|b addrs IH] in hs |- *; intros Hin.
  { exists hs. split_and!; [apply rtc_refl|apply queued_refl|by intros a p w _ ?%elem_of_nil|done]. }
  destruct (Hin b) as [[p w] Hb]; [by left|].
  destruct (queue_empties hs ls b p w Hb) as (p' & Hrun & Hz & Hq1).
  set (hs1 := <[b := (p', w)]> hs) in *. destruct (IH hs1) as (hs' & Hrun' & Hq' & Hq & Hrest).
  { intros a Ha. unfold hs1. destruct (decide (a = b)) as [->|Hne]; [rewrite lookup_insert_eq; by eexists|].
    rewrite lookup_insert_ne by done. apply Hin. by right. }
  exists hs'. split_and!; [by etransitivity|by eapply queued_trans| |].
  - intros a q v Ha [->|Hi]%elem_of_cons; [|by apply (Hq a q v)].
    destruct (decide (b ∈ addrs)) as [Hi|Hni]; [by apply (Hq b q v)|].
    rewrite (Hrest b Hni) in Ha. unfold hs1 in Ha. rewrite lookup_insert_eq in Ha. by injection Ha as <- _.
  - intros a Ha. rewrite elem_of_cons in Ha. rewrite (Hrest a) by tauto.
    unfold hs1. apply lookup_insert_ne. intros ->. tauto.
Qed.

(** All of them. *)
Lemma queues_empty hs ls :
  exists hs', rtc deployment_step (hs, ls) (hs', ls) /\ queued hs hs' /\
    forall a p w, hs' !! a = Some (p, w) -> backlog p = 0%nat.
Proof.
  destruct (queues_empty_of (map_to_list hs).*1 hs ls) as (hs' & Hrun & Hq & Hz & _).
  { intros a Ha. apply list_elem_of_fmap in Ha as ([a' pw] & -> & Hin%elem_of_map_to_list). by eexists. }
  exists hs'. split_and!; [done|done|]. intros a p w Ha. apply (Hz a p w Ha). specialize (Hq a). rewrite Ha in Hq.
  destruct (hs !! a) as [pw|] eqn:E; [|done]. apply list_elem_of_fmap. exists (a, pw).
  split; [done|by apply elem_of_map_to_list].
Qed.

(** What is still pending when all streams are settled. *)
Lemma settled_pending hs ls a f :
  Forall (settled hs) ls -> (a, f) ∈ pending hs ls ->
  hs !! a = None \/ exists lk, lk ∈ ls /\ lk_end lk = Closed /\ (a, f) ∈ pending_on hs lk.
Proof.
  intros Hs (lk & Hpk & Hin)%list_elem_of_bind. pose proof (proj1 (Forall_forall _ _) Hs lk Hin) as Hlk.
  unfold settled in Hlk. destruct (lk_end lk) as [|s|] eqn:He.
  - left. unfold pending_on in Hpk. by apply list_elem_of_fmap in Hpk as (f' & [= -> ->] & _).
  - rewrite Hlk in Hpk. by apply elem_of_nil in Hpk.
  - right. by exists lk.
Qed.

(** A host without a backlog has its deliveries in the mailbox. *)
Lemma idle_account cfg kp ident serving w0 evs p w :
  process_run (process_new (fresh_node cfg kp) ident serving, w0) evs (p, w) -> backlog p = 0%nat ->
  ch_sent (delivery_tx (pr_node p)) = concat (drained_batches evs) ++ queue (pr_mailbox p).
Proof.
  intros Hrun Hz. unfold backlog in Hz. rewrite (process_account cfg kp ident serving w0 evs p w Hrun).
  destruct (pr_holding p); [lia|]. rewrite drop_ge by lia. by rewrite app_nil_r.
Qed.

Lemma ready_reachable hs0 st :
  started hs0 -> keyed relay_at hs0 -> rtc deployment_step (hs0, []) st -> ready st.1 st.2.
Proof.
  intros Hs Hk Hr. apply (ready_steps _ _ Hr). split; [by apply good_start|].
  intros a s Hin. by apply elem_of_nil in Hin.
Qed.
End progress.

(** ** Properties *)

Section properties.
Context {W Conn Ch Sem : Type} `{EqDecision Conn} `{NetLaws W Conn} `{!StreamBreak W Conn}
  `{!StreamBreakLaws W Conn} `{!NetFlow W Conn} `{CryptoLaws} `{ChannelLaws Ch} `{SemaphoreLaws Sem}.
Context (relay_at : bytes -> option KeyPair).
Abbreviation hosts := (gmap bytes (Process Conn Ch Sem * W)).

(** C8: a deployment never does more than its clients have paid for. In every
    reachable state, the streams that were accepted (one each) or closed (two
    each), the frames that were processed and all the work that is still due add
    up to at most two for every stream of a client and three for every layer that
    the packets sent by clients can have: no relay loops, amplifies, or works on
    anything else than what was sent. *)
Theorem deployment_work_bounded (hs0 hs : hosts) ls :
  started hs0 -> keyed relay_at hs0 -> rtc deployment_step (hs0, []) (hs, ls) ->
  (handled ls + work hs ls <=
   2 * length (filter (fun lk => relay_origin lk = None) ls) + 3 * layers (injected ls))%nat.
Proof.
  intros Hs Hk Hr. rewrite <- budget_injected. by apply (reachable_paid relay_at hs0 (hs, ls)).
Qed.

(** C7: what was sent can always be finished. From every state that a deployment
    reaches, the network and the tasks of the relays, without another packet of
    a client, can bring it to one in which every packet was processed except
    those addressed to no host and those left on a stream that was closed, and
    in which every body delivered at a host is in its mailbox or was handed to a
    PULL request. *)
Theorem deployment_quiesces (hs0 hs : hosts) ls :
  started hs0 -> keyed relay_at hs0 -> rtc deployment_step (hs0, []) (hs, ls) ->
  exists hs' ls', rtc deployment_step (hs, ls) (hs', ls') /\ injected ls' = injected ls /\
    (forall a f, (a, f) ∈ pending hs' ls' -> hs' !! a = None \/
       exists lk, lk ∈ ls' /\ lk_end lk = Closed /\ (a, f) ∈ pending_on hs' lk) /\
    forall a p w, hs' !! a = Some (p, w) -> exists log,
      ch_sent (delivery_tx (pr_node p)) = concat (drained_batches log) ++ queue (pr_mailbox p) /\
      exists p0 w0, hs0 !! a = Some (p0, w0) /\ process_run (p0, w0) log (p, w).
Proof.
  intros Hs Hk Hr. destruct (settles relay_at hs ls) as (hs1 & ls' & Hrun1 & Hinj & Hall).
  { by apply (ready_reachable relay_at hs0 (hs, ls)). }
  destruct (queues_empty relay_at hs1 ls') as (hs' & Hrun2 & Hqd & Hq).
  exists hs', ls'. split_and!; [by etransitivity|done| |].
  { intros a f. apply settled_pending. eapply Forall_impl; [exact Hall|]. intros lk. by apply settled_queued. }
  intros a p w Ha. pose proof (Hq a p w Ha) as Hz.
  assert (rtc deployment_step (hs0, []) (hs', ls')) as Hr'
    by (etransitivity; [exact Hr|]; by etransitivity).
  destruct (host_logs hs0 (hs', ls') Hr') as [log Hlog]. destruct (Hlog a p w Ha) as (p0 & w0 & Hp0 & Hpr).
  exists (log a). split; [|by exists p0, w0].
  destruct (Hs a (p0, w0) Hp0) as (cfg & kp & ident & serving & E). cbn in E. subst p0.
  by apply (idle_account cfg kp ident serving w0 (log a) p w).
Qed.
End properties.
