(* ===== verification/Reliable.v ===== *)
(** * A deployment in which nothing fails

    [Progress] shows that a deployment can always finish its work, and what it
    may leave behind: packets on streams that were closed. Here nothing fails:
    relays accept connections ([reliable]), the limits are not reached, and
    every packet is due at a relay of the deployment. Then the deployment can
    deliver everything, and a message that was sent into it can arrive. *)
From S2P Require Import Prelude.
From S2P Require Import RustStd.
From S2P Require Import Interfaces.
From S2P Require Import Cell.
From S2P Require Import Keys.
From S2P Require Import Forwarding.
From S2P Require Import Fragmentation.
From S2P Require Import Mailbox.
From S2P Require Import PullListener.
From S2P Require Import PullServer.
From S2P Require Import Node.
From S2P Require Import RelayProcess.
From S2P Require Import Topology.
From S2P Require Import Session.
From S2P Require Import Reassembly.
From S2P Require Import Client.
From S2P Require Import Receiver.
From S2P Require Import EndToEnd.
From S2P Require Import Links.
From S2P Require Import Deployment.
From S2P Require Import DeploymentRun.
From S2P Require Import Progress.

Open Scope Z_scope.

Section reliable.
Context {W Conn Ch Sem : Type} `{EqDecision Conn} `{NetLaws W Conn} `{!StreamBreak W Conn}
  `{!StreamBreakLaws W Conn} `{CryptoLaws} `{ChannelLaws Ch} `{SemaphoreLaws Sem}.
Context (relay_at : bytes -> option KeyPair) (up : W -> Prop).
Abbreviation process := (Process Conn Ch Sem).
Abbreviation hosts := (gmap bytes (Process Conn Ch Sem * W)).
Abbreviation links := (list (link Conn)).
Implicit Types (lk : link Conn) (p : process) (w : W) (hs : hosts) (ls : links) (a : bytes).

(** As long as [up] holds of a host's network, connections arrive and are
    carried, the relays of the deployment accept connections, and streams accept
    data. *)
Record reliable : Prop := {
  rl_arrives w : up w -> exists (s : Conn) w', accepts w s w' /\ inbox w' s = [] /\ undisturbed [] w w' /\ up w';
  rl_carries w (s : Conn) bs : up w -> live w s ->
    exists w', undisturbed [s] w w' /\ live w' s /\ inbox w' s = inbox w s ++ bs /\
      outbox w' s = outbox w s /\ (broken w s -> broken w' s) /\ up w';
  rl_connect hop kp w r w' : relay_at hop = Some kp -> up w -> connect hop w = (r, w') -> (exists c, r = Ok c) /\ up w';
  rl_write (c : Conn) bs w r w' : up w -> write_all c bs w = (r, w') -> r = Ok tt /\ up w';
  rl_read (c : Conn) n w r w' : up w -> read_exact c n w = (r, w') -> up w'
}.
Hypothesis Hrel : reliable.

(** ** A frame is always processed *)

Lemma write_frame_reliable (c : Conn) body w r w' : up w -> write_frame c body w = (r, w') -> r = Ok tt /\ up w'.
Proof.
  intros Hu. unfold write_frame, io_bind. destruct (write_all c _ w) as [r1 w1] eqn:E1.
  destruct (rl_write Hrel _ _ _ _ _ Hu E1) as [-> Hu1]. by apply (rl_write Hrel).
Qed.

Lemma forward_reliable hop kp body (n : RelayNode Conn Ch Sem) w r n' w' :
  relay_at hop = Some kp -> up w -> forward hop body n w = (r, n', w') -> r = Ok tt /\ up w'.
Proof.
  intros Hk Hu. unfold forward, get_or_connect at 1. destruct (outbound n !! hop) as [c|].
  - destruct (write_frame c body w) as [r1 w1] eqn:E1.
    destruct (write_frame_reliable _ _ _ _ _ Hu E1) as [-> Hu1]. by intros [= <- <- <-].
  - destruct (connect hop w) as [r0 w0] eqn:E0. destruct (rl_connect Hrel _ _ _ _ _ Hk Hu E0) as [[c ->] Hu0].
    destruct (write_frame c body w0) as [r1 w1] eqn:E1.
    destruct (write_frame_reliable _ _ _ _ _ Hu0 E1) as [-> Hu1]. by intros [= <- <- <-].
Qed.

Lemma frame_reliable f (n : RelayNode Conn Ch Sem) w fl n' w' k a d :
  relay_at a = Some (keypair n) -> on_course relay_at k (a, f) d -> up w -> process_frame f n w = (fl, n', w') ->
  fl = Continue /\ up w'.
Proof.
  intros Ha Hc Hu. apply on_course_step in Hc as (kp & Ha' & Hcases). cbn [fst snd] in *.
  rewrite Ha in Ha'. injection Ha' as <-. unfold process_frame.
  destruct Hcases as [(hop & inner & k' & _ & -> & Hc')|(_ & -> & _)]; [|by intros [= <- <- <-]].
  apply on_course_step in Hc' as (kp' & Hk & _).
  destruct (forward hop inner n w) as [[r n1] w1] eqn:E.
  destruct (forward_reliable _ _ _ _ _ _ _ _ Hk Hu E) as [-> Hu1]. by intros [= <- <- <-].
Qed.

(** A turn of the frame loop reads the next frame and processes it. *)
Lemma handle_frame_next (s : Conn) (n : RelayNode Conn Ch Sem) w f fs t :
  split_frames (inbox w s) = (f :: fs, t) ->
  exists b w1 w2, read_exact s 4 w = (Ok b, w1) /\ read_exact s (length f) w1 = (Ok f, w2) /\
    handle_frame s n w = process_frame f n w2.
Proof.
  intros Hsp. destruct (split_frames_join (inbox w s)) as (Hj & Hs & _). rewrite Hsp in Hj, Hs. cbn in Hj, Hs.
  apply Forall_cons in Hs as [Hl _]. unfold frame_bytes at 1 in Hj. rewrite <- !(assoc (++)) in Hj.
  destruct (read_exact_app s w 4 _ _ Hj) as (w1 & E1 & Hi1); [apply length_to_be_bytes|].
  destruct (read_exact_app s w1 (length f) _ _ Hi1 eq_refl) as (w2 & E2 & _).
  eexists _, w1, w2. split_and!; [done|done|]. unfold handle_frame. rewrite E1.
  unfold as_u32. pose proof (len_nonneg f). rewrite Z.mod_small, from_to_be_bytes_small by lia.
  unfold len at 1. by rewrite Nat2Z.id, E2.
Qed.

(** ** The invariant *)

(** The packets in flight will deliver [ds] ([due]); the hosts' networks are up,
    no stream was closed, and there is room for every connection to come. *)
Definition due (ds : list delivery) ls : Prop :=
  exists packets k, injected ls ≡ₚ packets /\ will_deliver relay_at ds k (packets, []).

Record sound hs ls : Prop := {
  so_ready : ready relay_at hs ls;
  so_up : map_Forall (fun _ pw => up pw.2) hs;
  so_open : Forall (fun lk => lk_end lk <> Closed) ls;
  so_room : map_Forall (fun _ pw => (work hs ls <= available_permits (connection_limiter (pr_node pw.1)))%nat) hs;
  so_hosts a kp : relay_at a = Some kp -> is_Some (hs !! a);
  so_filed : map_Forall (fun _ pw => filed pw.1) hs
}.

(** What is pending is on course, and what is due is pending or delivered. *)
Lemma due_good ds hs ls :
  due ds ls -> good relay_at hs ls ->
  exists rest, delivered hs ++ rest ≡ₚ ds /\ length rest = length (pending hs ls) /\
    forall q, q ∈ pending hs ls -> exists k d, on_course relay_at k q d.
Proof.
  intros (packets & k & Hi & Hw) (_ & ps & dl & Hrun & Hp & Hd).
  destruct (fabric_split relay_at _ _ _ packets [] [] [] Hrun) as (us & vs & du & dv & Ha & Hb & Hp' & Hd');
    [by rewrite app_nil_r|done|]. cbn in Hp', Hd'.
  assert (vs = [] /\ dv = []) as [-> ->].
  { inversion Hb as [|? [ps2 ds2] ? Hst _]; subst; [done|]. exfalso.
    apply fabric_step_processes in Hst as (x & f & kp & rest & _ & Hn & _). by apply Permutation_nil_cons in Hn. }
  rewrite app_nil_r in Hp', Hd'. apply rtc_nsteps in Ha as [m Ha].
  destruct (will_deliver_nsteps _ _ _ _ _ _ Hw Ha) as [_ Hw']. pose proof Hw' as (ns & rest0 & Ht & _).
  apply will_deliver_due in Hw' as (rest & Hds & Hlen). cbn [fst snd] in *.
  exists rest. rewrite <- Hp, <- Hd, Hp', Hd'. split_and!; [done|done|].
  intros q Hq. rewrite <- Hp, Hp' in Hq. apply list_elem_of_lookup in Hq as [i Hq].
  destruct (Forall3_lookup_m _ _ _ _ _ _ Ht Hq) as (n & d & _ & _ & Hc). by exists n, d.
Qed.

(** ** Every turn keeps it *)

Lemma link_work_le hs l1 lk l2 : (link_work hs lk <= work hs (l1 ++ lk :: l2))%nat.
Proof. unfold work. rewrite sum_middle. lia. Qed.

Lemma open_middle l1 lk l2 lk' :
  Forall (fun lk => lk_end lk <> Closed) (l1 ++ lk :: l2) -> lk_end lk' <> Closed ->
  Forall (fun lk => lk_end lk <> Closed) (l1 ++ lk' :: l2).
Proof. rewrite !Forall_app, !Forall_cons. tauto. Qed.

Lemma open_new a (n n' : RelayNode Conn Ch Sem) : Forall (fun lk => lk_end lk <> Closed) (new_links a n n').
Proof. unfold new_links. apply Forall_fmap, Forall_forall. by intros [h c] _. Qed.

(** One host changes, and the work does not grow. *)
Lemma sound_insert hs ls a p w p' w' ls' :
  sound hs ls -> hs !! a = Some (p, w) -> up w' -> ready relay_at (<[a := (p', w')]> hs) ls' ->
  Forall (fun lk => lk_end lk <> Closed) ls' ->
  (work (<[a := (p', w')]> hs) ls' <= work hs ls)%nat ->
  (work (<[a := (p', w')]> hs) ls' + available_permits (connection_limiter (pr_node p)) <=
   work hs ls + available_permits (connection_limiter (pr_node p')))%nat ->
  (filed p -> filed p') -> sound (<[a := (p', w')]> hs) ls'.
Proof.
  intros [Hr Hu Ho Hm Hh Hf] Ha Hw Hr' Ho' Hle Hroom Hfp. constructor; [done| |done| | |].
  - by apply map_Forall_insert_2.
  - pose proof (Hm a (p, w) Ha) as Hma. cbn in Hma.
    apply map_Forall_insert_2; [cbn; lia|]. eapply map_Forall_impl; [exact Hm|]. cbn. intros b q Hq. lia.
  - intros b kp Hb. destruct (decide (b = a)) as [->|Hne]; [rewrite lookup_insert_eq; by eexists|].
    rewrite lookup_insert_ne by done. by eapply Hh.
  - apply map_Forall_insert_2; [|done]. apply Hfp, (Hf a (p, w) Ha).
Qed.

Lemma sound_waiting hs l1 lk l2 :
  sound hs (l1 ++ lk :: l2) -> lk_end lk = Waiting -> is_Some (hs !! lk_dest lk) ->
  exists st', advances hs (l1 ++ lk :: l2) st' /\ sound st'.1 st'.2.
Proof.
  intros Hs He [[p w] Hd]. pose proof Hs as [Hr Hu Ho Hm _ _]. pose proof (proj1 Hr) as Hg.
  destruct (rl_arrives Hrel w (Hu _ _ Hd)) as (s & w' & Hacc & Hin & Hund & Hu').
  destruct (accept_connection s (pr_node p) (pr_active p)) as [n active] eqn:Ea.
  assert (2 <= available_permits (connection_limiter (pr_node p)))%nat as Hroom.
  { pose proof (Hm _ _ Hd) as Hw. cbn in Hw. pose proof (link_work_le hs l1 lk l2) as Hl.
    unfold link_work in Hl. rewrite He in Hl. lia. }
  destruct (try_acquire (connection_limiter (pr_node p))) as [sem|] eqn:Et;
    [|apply available_exhausted in Et; lia].
  assert (available_permits (connection_limiter (pr_node p)) = S (available_permits (connection_limiter n))) as Hn.
  { unfold accept_connection in Ea. rewrite Et in Ea. injection Ea as <- <-. by apply available_acquire. }
  pose proof (dp_accept hs l1 lk l2 p w s w' n active He Hd Hacc Hin Hund Ea) as Hst. rewrite Et in Hst.
  set (hs' := <[lk_dest lk := (with_node n active p, w')]> hs) in *.
  set (ls' := l1 ++ set_end (Accepted s) lk :: l2) in *.
  assert (advances hs (l1 ++ lk :: l2) (hs', ls')) as Hadv.
  { rewrite <- (app_nil_r ls'). unfold ls'.
    eapply (step_advances relay_at _ _ _ _ _ _ [] [] (pr_node p) (pr_node p)); [exact Hg|by rewrite app_nil_r| |done|done|].
    - symmetry. apply (new_links_pool _ _ _ []). by left.
    - unfold stage. cbn. rewrite He. lia. }
  exists (hs', ls'). split; [exact Hadv|]. destruct Hadv as (_ & _ & Hlt). cbn [fst snd] in *.
  eapply sound_insert; [done|done|done|by apply (ready_step relay_at _ _ _ Hst)|by eapply open_middle| | |]; fold hs';
    [cbn [pr_node with_node]; lia..|].
  apply (filed_node p n active []). rewrite app_nil_r.
  by destruct (accept_connection_keeps _ _ _ _ _ Ea) as (_ & -> & _).
Qed.

Lemma sound_carry hs l1 lk l2 p w s bs w' :
  sound hs (l1 ++ lk :: l2) -> lk_end lk = Accepted s -> hs !! lk_dest lk = Some (p, w) ->
  deployment_step (hs, l1 ++ lk :: l2) (<[lk_dest lk := (p, w')]> hs, l1 ++ carried bs lk :: l2) -> up w' ->
  let hs' := <[lk_dest lk := (p, w')]> hs in let ls' := l1 ++ carried bs lk :: l2 in
  sound hs' ls' /\ (work hs' ls' <= work hs (l1 ++ lk :: l2))%nat.
Proof.
  intros Hs He Hd Hst Hu hs' ls'. pose proof Hs as [Hr _ Ho _ _ _].
  assert (work hs' ls' <= work hs (l1 ++ lk :: l2))%nat as Hw.
  { pose proof (step_paid relay_at _ _ _ Hst (proj1 Hr)) as Hp. unfold paid in Hp. cbn [fst snd] in Hp.
    pose proof (handled_middle l1 lk l2 (carried bs lk)) as Hh. unfold stage in Hh. cbn in Hh.
    unfold ls'. rewrite (budget_middle l1 lk l2 (carried bs lk)) in Hp by done. subst hs'. lia. }
  split; [|done]. eapply sound_insert; [done|done|done|by apply (ready_step relay_at _ _ _ Hst)| |done|subst hs' ls'; lia|done].
  eapply open_middle; [done|]. cbn. by rewrite He.
Qed.

Lemma sound_turn hs l1 lk l2 p w s ds :
  sound hs (l1 ++ lk :: l2) -> due ds (l1 ++ lk :: l2) -> lk_end lk = Accepted s -> hs !! lk_dest lk = Some (p, w) ->
  (split_frames (inbox w s)).1 <> [] ->
  exists st', advances hs (l1 ++ lk :: l2) st' /\ sound st'.1 st'.2.
Proof.
  intros Hs Hdue He Hd Hf. pose proof Hs as [[Hg Hsv] Hu Ho Hm _ _].
  assert (s ∈ pr_active p) as Hact.
  { destruct (Hsv (lk_dest lk) s) as (p0 & w0 & E & Ha); [|rewrite Hd in E; by injection E as <- <-].
    apply ends_middle. left. unfold accepted_end. by rewrite He. }
  assert (link_ok hs lk) as Hlk by (pose proof (dok_links _ _ _ (proj1 Hg)) as [_ [? _]%Forall_cons]%Forall_app; done).
  destruct (split_frames (inbox w s)) as [[|f fs] t] eqn:Hsp; [done|].
  destruct (handle_frame_next s (pr_node p) w f fs t Hsp) as (b & w1 & w2 & E1 & E2 & E3).
  destruct (handle_frame s (pr_node p) w) as [[fl n] w'] eqn:E.
  assert ((lk_dest lk, f) ∈ pending hs (l1 ++ lk :: l2)) as Hpend.
  { apply list_elem_of_bind. exists lk. split; [by eapply frame_next_pending|apply elem_of_app; right; by left]. }
  destruct (due_good ds hs _ Hdue Hg) as (rest & _ & _ & Hc). destruct (Hc _ Hpend) as (k & d & Hcourse).
  assert (up w2) as Hu2 by (eapply (rl_read Hrel), E2; eapply (rl_read Hrel), E1; apply (Hu _ _ Hd)).
  pose proof (hok_keys _ _ _ _ _ (dok_hosts _ _ _ (proj1 Hg) _ _ _ Hd)) as Hkeys.
  destruct (frame_reliable f (pr_node p) w2 fl n w' k _ _ Hkeys Hcourse Hu2 (eq_sym E3)) as [-> Hu'].
  destruct (process_frame_spec f (pr_node p) w2 _ _ _ (eq_sym E3)) as (_ & _ & _ & Hlim & _ & _ & Hch).
  specialize (Hch (hok_open _ _ _ _ _ (dok_hosts _ _ _ (proj1 Hg) _ _ _ Hd))).
  pose proof (dp_frame hs l1 lk l2 p w s n w' He Hd Hact E) as Hst.
  set (hs' := <[lk_dest lk := (with_node n (pr_active p) p, w')]> hs) in *.
  set (ls' := (l1 ++ processed lk :: l2) ++ new_links (lk_dest lk) (pr_node p) n) in *.
  assert (advances hs (l1 ++ lk :: l2) (hs', ls')) as Hadv.
  { eapply (step_advances relay_at hs l1 lk l2); [exact Hg|exact Hst|done..|]. unfold stage. cbn. lia. }
  exists (hs', ls'). split; [exact Hadv|]. destruct Hadv as (_ & _ & Hlt). cbn [fst snd] in *.
  eapply sound_insert; [done|done|done|by apply (ready_step relay_at _ _ _ Hst)| | | |]; fold hs';
    [|lia|cbn [pr_node with_node]; rewrite Hlim; lia|by eapply filed_node].
  apply Forall_app_2; [|apply open_new]. eapply open_middle; [done|]. cbn. by rewrite He.
Qed.

Lemma sound_accepted hs l1 lk l2 s ds :
  sound hs (l1 ++ lk :: l2) -> due ds (l1 ++ lk :: l2) -> lk_end lk = Accepted s -> pending_on hs lk <> [] ->
  exists st', advances hs (l1 ++ lk :: l2) st' /\ sound st'.1 st'.2.
Proof.
  intros Hs Hdue He Hne. pose proof Hs as [[Hg Hsv] Hu _ _ _ _].
  assert (link_ok hs lk) as Hlk by (pose proof (dok_links _ _ _ (proj1 Hg)) as [_ [? _]%Forall_cons]%Forall_app; done).
  destruct (Hsv (lk_dest lk) s) as (p & w & Hd & _).
  { apply ends_middle. left. unfold accepted_end. by rewrite He. }
  destruct (carried_inbox hs lk p w s Hlk He Hd) as (bs & Hbs & Hfr).
  assert (live w s) as Hl by (eapply good_accepted; [done| |done|done]; apply elem_of_app; right; by left).
  destruct (rl_carries Hrel w s bs (Hu _ _ Hd) Hl) as (w' & Hund & Hl' & Hin & Hout & Hb & Hu').
  assert (deployment_step (hs, l1 ++ lk :: l2) (<[lk_dest lk := (p, w')]> hs, l1 ++ carried bs lk :: l2)) as Hst
    by (apply (dp_carry hs l1 lk l2 p w s w' bs); try done; by rewrite Hbs).
  destruct (sound_carry hs l1 lk l2 p w s bs w' Hs He Hd Hst Hu') as [Hs1 Hw].
  assert (injected (l1 ++ carried bs lk :: l2) = injected (l1 ++ lk :: l2)) as Hi by by apply injected_replace.
  destruct (sound_turn _ l1 (carried bs lk) l2 p w' s ds Hs1) as (st' & (Hrun & Hinj & Hwk) & Hs').
  - unfold due. by rewrite Hi.
  - done.
  - apply lookup_insert_eq.
  - rewrite Hin, Hfr. intros Hz. apply Hne. unfold pending_on. by rewrite Hz.
  - exists st'. split; [|done]. split_and!; [by eapply rtc_l|by rewrite Hinj|lia].
Qed.

Lemma sound_settles ds hs ls :
  sound hs ls -> due ds ls -> exists hs' ls', rtc deployment_step (hs, ls) (hs', ls') /\ injected ls' = injected ls /\
    sound hs' ls' /\ Forall (settled hs') ls'.
Proof.
  remember (work hs ls) as k eqn:Hk. revert hs ls Hk.
  induction k as [k IH] using lt_wf_ind. intros hs ls -> Hs Hdue.
  destruct (decide (Forall (settled hs) ls)) as [Hall|Hnot]; [by exists hs, ls|].
  assert (exists st', advances hs ls st' /\ sound st'.1 st'.2) as ([hs1 ls1] & (Hrun & Hinj & Hlt) & Hs1).
  { apply not_Forall_Exists in Hnot; [|apply _]. apply Exists_exists in Hnot as (lk & Hin & Hn).
    apply list_elem_of_split in Hin as (l1 & l2 & ->). change (~ settled hs lk) in Hn. unfold settled in Hn.
    destruct (lk_end lk) as [|s|] eqn:He; [|by eapply sound_accepted|by destruct Hn].
    apply sound_waiting; [done|done|]. by apply not_eq_None_Some. }
  cbn [fst snd] in *. destruct (IH _ Hlt hs1 ls1 eq_refl Hs1) as (hs' & ls' & Hrun' & Hinj' & Hs' & Hall).
  { unfold due. by rewrite Hinj. }
  exists hs', ls'. split_and!; [by etransitivity|by rewrite Hinj', Hinj|done|done].
Qed.

(** When all streams are settled, everything that is due has been delivered. *)
Lemma sound_delivered ds hs ls :
  sound hs ls -> due ds ls -> Forall (settled hs) ls -> pending hs ls = [] /\ delivered hs ≡ₚ ds.
Proof.
  intros [[Hg _] _ Ho _ Hh _] Hdue Hall. destruct (due_good ds hs ls Hdue Hg) as (rest & Hds & Hlen & Hc).
  assert (pending hs ls = []) as Hp.
  { destruct (pending hs ls) as [|[a f] ps] eqn:Ep; [done|exfalso].
    assert ((a, f) ∈ pending hs ls) as Hin by (rewrite Ep; by left).
    destruct (settled_pending hs ls a f Hall Hin) as [Hn|(lk & Hlk & He & _)].
    - destruct (Hc (a, f)) as (k & d & Hcourse); [by left|]. apply on_course_step in Hcourse as (kp & Ha & _).
      destruct (Hh a kp Ha) as [pw Hpw]. congruence.
    - by apply (proj1 (Forall_forall _ _) Ho lk Hlk). }
  split; [done|]. rewrite Hp in Hlen. destruct rest; [|done]. by rewrite app_nil_r in Hds.
Qed.

(** The mailboxes, when they hold what was delivered. *)
Lemma mailboxes_delivered hs :
  (forall a p v, hs !! a = Some (p, v) -> ch_sent (delivery_tx (pr_node p)) = queue (pr_mailbox p)) ->
  map snd (delivered hs) = map_to_list hs ≫= fun h => queue (pr_mailbox h.2.1).
Proof.
  intros Hbox. unfold delivered.
  assert (Forall (fun h => ch_sent (delivery_tx (pr_node h.2.1)) = queue (pr_mailbox h.2.1)) (map_to_list hs)) as Hall.
  { apply Forall_forall. intros [a [p v]] Hin%elem_of_map_to_list. by apply (Hbox a p v). }
  induction Hall as [|h l Hh _ IH]; [done|]. cbn. rewrite map_app, IH. f_equal. unfold delivered_at. rewrite Hh.
  change (map snd (pair h.1 <$> ?x)) with (snd <$> (pair h.1 <$> x)). rewrite <- list_fmap_compose.
  change (snd ∘ pair h.1) with (fun x : bytes => x). apply list_fmap_id.
Qed.

(** ** From the start *)

(** Clients have opened these streams, and nothing else has happened. *)
Definition fresh_links ls : Prop :=
  Forall (fun lk => exists sent dest, lk = mkLink (FromClient sent) dest Waiting [] 0) ls.

Lemma fresh_run hs ls0 ls : fresh_links ls -> rtc deployment_step (hs, ls0) (hs, ls0 ++ ls).
Proof.
  intros Hf. revert ls0. induction Hf as [|lk ls (sent & dest & ->) _ IH]; intros ls0; [rewrite app_nil_r; apply rtc_refl|].
  eapply rtc_l; [apply (dp_send hs ls0 sent dest)|].
  change (mkLink (FromClient sent) dest Waiting [] 0 :: ls) with ([mkLink (FromClient sent) dest Waiting [] 0] ++ ls).
  rewrite (assoc (++)). apply IH.
Qed.

(** What is needed of the hosts: they have just been started, where the packets
    will find them, with their networks up and room for [n] connections. *)
Record prepared (n : nat) hs : Prop := {
  pp_started : started hs;
  pp_keyed : keyed relay_at hs;
  pp_hosts a kp : relay_at a = Some kp -> is_Some (hs !! a);
  pp_up : map_Forall (fun _ pw => up pw.2) hs;
  pp_room : map_Forall (fun _ pw => (n <= available_permits (connection_limiter (pr_node pw.1)))%nat) hs
}.

Lemma sound_start hs ls : fresh_links ls -> prepared (budget ls) hs -> sound hs ls.
Proof.
  intros Hf [Hs Hk Hh Hu Hr]. pose proof (fresh_run hs [] ls Hf) as Hrun. cbn [app] in Hrun.
  pose proof (reachable_paid relay_at hs (hs, ls) Hs Hk Hrun) as Hp. cbn [fst snd] in Hp.
  constructor; [by apply (ready_reachable relay_at hs (hs, ls))|done| | |done|].
  - eapply Forall_impl; [exact Hf|]. by intros lk (sent & dest & ->).
  - eapply map_Forall_impl; [exact Hr|]. cbn. intros a pw Ha. lia.
  - intros a pw Ha. destruct (Hs a pw Ha) as (cfg & kp & ident & serving & ->).
    unfold filed. cbn. rewrite ch_new_empty. split; [done|cbn; lia].
Qed.
End reliable.

(** ** Properties *)

Section properties.
Context {R W Conn Ch Sem : Type} `{EqDecision Conn} `{RngLaws R} `{NetLaws W Conn} `{!StreamBreak W Conn}
  `{!StreamBreakLaws W Conn} `{CryptoLaws} `{HashOrderLaws} `{ChannelLaws Ch} `{SemaphoreLaws Sem}.
Context (key_of : RelayInfo -> KeyPair) (relay_at : bytes -> option KeyPair).
Abbreviation hosts := (gmap bytes (Process Conn Ch Sem * W)).

(** From prepared hosts, everything that is due can be delivered and queued. *)
Lemma can_settle (up : W -> Prop) (hs : hosts) ls ds :
  reliable relay_at up -> fresh_links ls -> prepared relay_at up (budget ls) hs -> due relay_at ds ls ->
  exists hs' ls', rtc deployment_step (hs, ls) (hs', ls') /\ injected ls' = injected ls /\ pending hs' ls' = [] /\
    (forall a p v, hs' !! a = Some (p, v) -> ch_sent (delivery_tx (pr_node p)) = queue (pr_mailbox p)) /\
    delivered hs' ≡ₚ ds.
Proof.
  intros Hrel Hf Hp Hdue.
  destruct (sound_settles relay_at up Hrel ds hs ls (sound_start _ _ _ _ Hf Hp) Hdue)
    as (hs1 & ls' & Hrun1 & Hinj & Hs1 & Hall).
  destruct (sound_delivered relay_at up ds hs1 ls' Hs1) as [Hpn Hdl]; [by unfold due; rewrite Hinj|done|].
  destruct (queues_empty relay_at hs1 ls') as (hs' & Hrun2 & Hqd & Hz).
  exists hs', ls'. split_and!; [by etransitivity|done|by rewrite (queued_pending hs1 hs' ls' Hqd)| |
    by rewrite (queued_delivered hs1 hs' Hqd)].
  intros a p v Ha. apply filed_idle; [|by eapply Hz]. specialize (Hqd a). rewrite Ha in Hqd.
  destruct (hs1 !! a) as [[p1 v1]|] eqn:E1; [|done]. apply Hqd, (so_filed _ _ _ _ Hs1 a _ E1).
Qed.

(** The streams that a sender has dialled and written, seen from the deployment. *)
Definition client_links (w : W) (conns : list Conn) : list (link Conn) :=
  map (fun c => mkLink (FromClient (outbox w c)) (dialled c) Waiting [] 0) conns.

Lemma client_links_fresh w conns : fresh_links (client_links w conns).
Proof. apply Forall_fmap, Forall_forall. intros c _. by eexists _, _. Qed.

Lemma client_links_injected w conns packets :
  Forall2 (carries w) conns packets -> injected (client_links w conns) = packets.
Proof.
  induction 1 as [|c [a f] conns packets (Hd & Ho & Hl) _ IH]; [done|].
  change (client_links w (c :: conns))
    with (mkLink (FromClient (outbox w c)) (dialled c) Waiting [] 0 :: client_links w conns).
  unfold injected in *. rewrite bind_cons, IH. cbn [lk_origin lk_dest fst snd] in *. rewrite Hd, Ho.
  assert (Forall (fun g : bytes => len g < 2 ^ 32) [f]) as Hf by by apply Forall_singleton.
  pose proof (split_frames_app [f] [] Hf) as E.
  cbn in E. rewrite !app_nil_r in E. by rewrite E.
Qed.

(** C3: when nothing fails, a message can arrive. With a usable, deployed
    topology [send] does not panic, and succeeds over a network that is up. Take
    freshly started relays wherever the topology says, over networks that are up,
    with room for the connections that the message can cause. The streams that
    [send] dialled and wrote can be opened at them, and then the network and the
    tasks of the relays can process every packet, with every body delivered and in
    the mailbox of its host; and polling mailboxes that hold these bodies, among any
    envelopes of other messages and in any order, returns the message. *)
Theorem message_can_arrive (up : W -> Prop) self session recipient message (rng : R) (w : W) :
  usable key_of self -> deployed key_of relay_at self -> session_with recipient session ->
  1 <= len message <= MAX_MESSAGE_SIZE -> reliable relay_at up ->
  exists r rng' w', send self session message rng w = Done (r, rng', w') /\
  (forall open, stays_up self open -> open w -> exists scs, r = Ok scs) /\
  forall scs, r = Ok scs ->
  exists id cells conns, fragments_of id message cells /\ length conns = length cells /\
    let ls := client_links w' conns in
    forall hs : hosts, prepared relay_at up (budget ls) hs ->
      exists hs' ls', rtc deployment_step (hs, []) (hs, ls) /\ rtc deployment_step (hs, ls) (hs', ls') /\
        injected ls' = injected ls /\ pending hs' ls' = [] /\
        (forall a p v, hs' !! a = Some (p, v) -> ch_sent (delivery_tx (pr_node p)) = queue (pr_mailbox p)) /\
        forall rv rounds raws junk wr wr',
          recv_identity rv = recipient -> wf_reassembler (recv_reassembler rv) ->
          in_flight (recv_reassembler rv) !! id = None ->
          pull_each (concat rounds) wr = (Ok raws, wr') ->
          raws ≡ₚ (map_to_list hs' ≫= fun h => queue (pr_mailbox h.2.1)) ++ junk ->
          (forall raw c, raw ∈ junk -> opened recipient raw = Some c -> c_message_id c <> id) ->
          exists outs rv', poll_all rv rounds wr = Done (map Ok outs, rv', wr') /\ message ∈ concat outs.
Proof.
  intros Hu Hdep Hses Hm Hrel.
  destruct (send_delivers key_of relay_at self session recipient message rng w Hu Hdep Hses Hm)
    as (r & rng' & w' & E & Hup & Hr).
  exists r, rng', w'. split; [done|]. split; [done|]. intros scs ->.
  destruct (Hr scs eq_refl) as (id & cells & conns & ps & ds & Hfr & Hl & _ & _ & Hc & Hw & Hld & Ho).
  exists id, cells, conns. split; [done|]. split.
  { rewrite <- Hld. destruct (will_deliver_due _ _ _ _ Hw) as (rest & Hds & Hlen). cbn in Hds, Hlen.
    rewrite (Forall2_length _ _ _ Hc), <- Hlen. by rewrite Hds. }
  intros ls hs Hp. pose proof (client_links_fresh w' conns) as Hf. fold ls in Hf.
  assert (due relay_at ds ls) as Hdue
    by (exists ps, (length cells * hop_count self)%nat; unfold ls; by rewrite (client_links_injected _ _ _ Hc)).
  destruct (can_settle up hs ls ds Hrel Hf Hp Hdue) as (hs' & ls' & Hrun & Hinj & Hpn & Hbox & Hdl).
  exists hs', ls'. split_and!; [apply (fresh_run hs [] ls Hf)|done|done|done|done|].
  intros rv rounds raws junk wr wr' Hrv Hrw Hid Hpull Hraws Hj.
  destruct (polls_recover rv rounds wr raws wr' id message cells Hrw Hid Hpull Hfr) as (outs & r' & Hpoll & Hin & _).
  { rewrite Hrv. eapply opened_permutation; [exact Hraws| |by apply (fr_id _ _ _ Hfr)|done].
    rewrite <- (mailboxes_delivered hs' Hbox), Hdl. by rewrite Ho. }
  by exists outs, (mkReceiver (recv_identity rv) r').
Qed.
End properties.
