(* ===== verification/Delivery.v ===== *)
(** * From the sender to the recipient

    The whole way of a message: [VeilClient::send] at one end, the relay
    processes of a deployment in between, [Receiver::poll] with its PULL requests
    at the other. The streams of the requests end at hosts of the deployment: the
    recipient reads what the hosts wrote. *)
From S2P Require Import Prelude.
From S2P Require Import RustStd.
From S2P Require Import Interfaces.
From S2P Require Import Cell.
From S2P Require Import Keys.
From S2P Require Import Fragmentation.
From S2P Require Import Mailbox.
From S2P Require Import PullListener.
From S2P Require Import PullServer.
From S2P Require Import Node.
From S2P Require Import RelayProcess.
From S2P Require Import Topology.
From S2P Require Import Session.
From S2P Require Import Reassembly.
From S2P Require Import Client.
From S2P Require Import Receiver.
From S2P Require Import EndToEnd.
From S2P Require Import Links.
From S2P Require Import Deployment.
From S2P Require Import DeploymentRun.

Open Scope Z_scope.

(** A PULL request that a host answered: the host, the request's stream there,
    and the cells it drained. *)
Record answered_pull (Conn : Type) : Type := mkAnswer {
  ap_host : bytes;
  ap_stream : Conn;
  ap_cells : list bytes
}.
Arguments mkAnswer {Conn}.
Arguments ap_host {Conn}.
Arguments ap_stream {Conn}.
Arguments ap_cells {Conn}.

Section delivery.
Context {W Conn Ch Sem : Type} `{EqDecision Conn} `{NetLaws W Conn} `{!StreamBreak W Conn}
  `{!StreamBreakLaws W Conn} `{CryptoLaws} `{ChannelLaws Ch} `{SemaphoreLaws Sem}.
Context (relay_at : bytes -> option KeyPair).
Abbreviation hosts := (gmap bytes (Process Conn Ch Sem * W)).
Abbreviation logs := (bytes -> list (event Conn)).
Implicit Types (hs : hosts) (w : W) (log : logs) (q : answered_pull Conn).

(** The request drained these cells and ended well. *)
Definition answered log q : Prop :=
  Drained (ap_stream q) (ap_cells q) ∈ log (ap_host q) /\ Finished (ap_stream q) (Ok tt) ∈ log (ap_host q) /\
  wf_batch (ap_cells q).

(** A recipient dials mailbox addresses, one after the other; on each stream it
    finds what a host has written on the stream of its request. *)
Inductive pulls hs : list bytes -> W -> list (answered_pull Conn) -> W -> Prop :=
  | pulls_done w : pulls hs [] w [] w
  | pulls_next addr addrs w c w1 w2 q p wh qs w' :
      connect addr w = (Ok c, w1) -> write_all c [PULL_REQUEST_BYTE] w1 = (Ok tt, w2) ->
      hs !! ap_host q = Some (p, wh) -> inbox w2 c = outbox wh (ap_stream q) ->
      pulls hs addrs (pull addr w).2 qs w' -> pulls hs (addr :: addrs) w (q :: qs) w'.

(** Everything the hosts have drained. *)
Definition drains log hs : list (bytes * list bytes) :=
  map_to_list hs ≫= fun h => pair h.1 <$> drained_batches (log h.1).

Lemma pulls_collect log hs addrs w qs w' :
  (forall a p w s cells, hs !! a = Some (p, w) -> Drained s cells ∈ log a -> Finished s (Ok tt) ∈ log a ->
     outbox w s = pull_response cells) ->
  pulls hs addrs w qs w' -> Forall (answered log) qs ->
  pull_each addrs w = (Ok (concat (map ap_cells qs)), w').
Proof.
  intros Hlog. induction 1 as [w|addr addrs w c w1 w2 q p wh qs w' Hc Hw Hh Hio _ IH]; [done|].
  intros [(Hd & Hf & Hwf) Hqs]%Forall_cons.
  rewrite (Hlog _ _ _ _ _ Hh Hd Hf) in Hio.
  destruct (pull_ok addr w c w1 w2 (ap_cells q) Hc Hw Hwf Hio) as (w3 & E & _).
  rewrite E in IH. cbn [pull_each map concat]. rewrite E. cbn [snd] in IH. by rewrite (IH Hqs).
Qed.

Lemma concat_snd {A B} (l : list (A * list B)) : concat (map snd l) = l ≫= snd.
Proof. induction l as [|x l IH]; [done|]. cbn. by rewrite IH. Qed.

Lemma handed_drains log hs : handed log hs = concat (map snd (drains log hs)).
Proof.
  unfold handed, drains. induction (map_to_list hs) as [|h l IH]; [done|].
  cbn. rewrite map_app, concat_app, IH. do 2 f_equal.
  by induction (drained_batches (log h.1)) as [|b bs IHb]; [|cbn; f_equal].
Qed.

(** What the recipient collects is what was handed out, when nobody else asked. *)
Lemma pulls_handed log hs qs :
  drains log hs ≡ₚ map (fun q => (ap_host q, ap_cells q)) qs -> concat (map ap_cells qs) ≡ₚ handed log hs.
Proof.
  intros Hd. rewrite handed_drains, !concat_snd, Hd. rewrite <- concat_snd, map_map. done.
Qed.
End delivery.

(** ** Properties *)

Section properties.
Context {R W Conn Ch Sem : Type} `{EqDecision Conn} `{RngLaws R} `{NetLaws W Conn} `{!StreamBreak W Conn}
  `{!StreamBreakLaws W Conn} `{CryptoLaws} `{HashOrderLaws} `{ChannelLaws Ch} `{SemaphoreLaws Sem}.
Context (key_of : RelayInfo -> KeyPair) (relay_at : bytes -> option KeyPair).
Abbreviation hosts := (gmap bytes (Process Conn Ch Sem * W)).

(** C9: pulling collects what the relays delivered. In every reachable
    deployment, whatever the record of what its hosts did: a recipient whose
    requests were answered to the end receives, mailbox by mailbox, exactly the
    cells these requests drained. When nobody else has drained cells and nothing
    waits at the hosts any more, this is, in some order, everything that the
    fabric has delivered from the packets clients sent, each body once. *)
Theorem pulls_collect_deliveries (hs0 hs : hosts) ls log addrs (w : W) qs w' :
  started hs0 -> keyed relay_at hs0 -> rtc deployment_step (hs0, []) (hs, ls) -> records hs0 hs log ->
  pulls hs addrs w qs w' -> Forall (answered log) qs ->
  pull_each addrs w = (Ok (concat (map ap_cells qs)), w') /\
  (drains log hs ≡ₚ map (fun q => (ap_host q, ap_cells q)) qs -> waiting hs = [] ->
   exists ps ds, rtc (fabric_step relay_at) (injected ls, []) (ps, ds) /\ ps ≡ₚ pending hs ls /\
     map snd ds ≡ₚ concat (map ap_cells qs)).
Proof.
  intros Hs Hk Hr Hlog Hp Hq. destruct (records_say hs0 hs log Hs Hlog) as [Hdel Hans]. split.
  - by apply (pulls_collect log hs).
  - intros Hd Hw. destruct (good_reachable relay_at hs0 (hs, ls) Hs Hk Hr) as (_ & ps & ds & Hrun & Hps & Hds).
    cbn [fst snd] in *. exists ps, ds. split_and!; [done|done|].
    rewrite (pulls_handed log hs qs Hd). etransitivity; [by apply Permutation_map|].
    by rewrite Hdel, Hw, app_nil_r.
Qed.

(** C2: a message goes all the way. When [send] returns success, its new streams
    carry one packet per cell. Take any deployment that these packets (and any
    [others], which carry no cells of the same message) were sent into, that has
    processed everything and keeps no body waiting at a host, every body having
    been handed to the recipient's PULL requests, each answered to the end. Then
    polling with these requests, in any number of rounds, does not panic and
    returns the message. *)
Theorem message_goes_all_the_way self session recipient message (rng : R) (w : W) :
  usable key_of self -> deployed key_of relay_at self -> session_with recipient session ->
  1 <= len message <= MAX_MESSAGE_SIZE ->
  exists r rng' w', send self session message rng w = Done (r, rng', w') /\
  (forall up, stays_up self up -> up w -> exists scs, r = Ok scs) /\
  forall scs, r = Ok scs ->
  exists id cells conns packets,
    fragments_of id message cells /\ NoDup conns /\ Forall2 (carries w') conns packets /\
    forall (hs0 hs : hosts) ls others log,
      started hs0 -> keyed relay_at hs0 -> rtc deployment_step (hs0, []) (hs, ls) -> records hs0 hs log ->
      injected ls ≡ₚ packets ++ others ->
      (forall os theirs raw c, rtc (fabric_step relay_at) (others, []) (os, theirs) ->
         raw ∈ map snd theirs -> opened recipient raw = Some c -> c_message_id c <> id) ->
      pending hs ls = [] -> waiting hs = [] ->
      forall rv rounds wr qs wr',
        recv_identity rv = recipient -> wf_reassembler (recv_reassembler rv) ->
        in_flight (recv_reassembler rv) !! id = None ->
        pulls hs (concat rounds) wr qs wr' -> Forall (answered log) qs ->
        drains log hs ≡ₚ map (fun q => (ap_host q, ap_cells q)) qs ->
        exists outs rv', poll_all rv rounds wr = Done (map Ok outs, rv', wr') /\ message ∈ concat outs.
Proof.
  intros Hu Hdep Hses Hm.
  destruct (send_delivers key_of relay_at self session recipient message rng w Hu Hdep Hses Hm)
    as (r & rng' & w' & E & Hup & Hr).
  exists r, rng', w'. split_and!; [done|done|]. intros scs ->.
  destruct (Hr scs eq_refl) as (id & cells & conns & ps & ds & Hfr & _ & Hnd & _ & Hc & Hw & Hld & Ho).
  exists id, cells, conns, ps. split_and!; [done|done|done|].
  intros hs0 hs ls others log Hs Hk Hrun Hlog Hi Hoth Hpn Hwt rv rounds wr qs wr' Hrv Hrw Hid Hpl Hq Hd.
  destruct (deployment_due relay_at hs0 hs ls ps others ds _ Hs Hk Hrun Hi Hw)
    as (left & mine & os & theirs & rest & Hp & Hdv & Hot & Hds & Hlen).
  rewrite Hpn in Hp. apply Permutation_nil_l in Hp. symmetry in Hp. apply app_eq_nil in Hp as [-> ->].
  destruct rest; [|done]. rewrite app_nil_r in Hds.
  destruct (records_say hs0 hs log Hs Hlog) as [Hdel Hans]. rewrite Hwt, app_nil_r in Hdel.
  pose proof (pulls_collect log hs _ _ _ _ Hans Hpl Hq) as Hpull.
  destruct (polls_recover rv rounds wr _ wr' id message cells Hrw Hid Hpull Hfr) as (outs & r' & Hpoll & Hin & _).
  { rewrite Hrv. apply (opened_permutation recipient _ (map snd mine) (map snd theirs)).
    - rewrite (pulls_handed log hs qs Hd), <- Hdel, <- map_app. by apply Permutation_map.
    - by rewrite Hds, Ho.
    - apply (fr_id _ _ _ Hfr).
    - intros raw c Hin. by apply (Hoth [] theirs). }
  by exists outs, (mkReceiver (recv_identity rv) r').
Qed.
End properties.
