(* ===== verification/SmokeTest.v ===== *)
(** * The end-to-end smoke test: [veil-relay/examples/e2e_smoke_test.rs]

    Two relays, a two-layer onion built by hand, one client stream. The program
    runs once and hopes to see the cell within three seconds; here the two
    relays are a deployment, and the theorem is about all its runs. *)
From S2P Require Import Prelude.
From S2P Require Import RustStd.
From S2P Require Import Interfaces.
From S2P Require Import Keys.
From S2P Require Import CoreTests.
From S2P Require Import Forwarding.
From S2P Require Import Mailbox.
From S2P Require Import PullListener.
From S2P Require Import Node.
From S2P Require Import RelayProcess.
From S2P Require Import Circuit.
From S2P Require Import EndToEnd.
From S2P Require Import Deployment.
From S2P Require Import DeploymentRun.
From S2P Require Import Progress.

Open Scope Z_scope.

Definition relay1_addr : SocketAddr := mkSocketAddr (b_ "127.0.0.1") 19001.
Definition relay2_addr : SocketAddr := mkSocketAddr (b_ "127.0.0.1") 19002.

Definition relay2_config : RelayConfig :=
  {| listen_addr := relay2_addr; relay_id := b_ "relay-2"; static_secret_hex := None; max_connections := 16 |}.
Definition relay1_config : RelayConfig :=
  {| listen_addr := relay1_addr; relay_id := b_ "relay-1"; static_secret_hex := None; max_connections := 16 |}.

Definition final_cell : bytes := b_ "this is the real message payload".

Section smoke.
Context {R W Conn Ch Sem : Type} `{Rng R} `{Net W Conn} `{Crypto} `{Channel Ch} `{Semaphore Sem}.
Abbreviation node := (RelayNode Conn Ch Sem).

(** The relays that are spawned, and the onion. *)
Definition smoke_setup (rng : R) : outcome (node * node * bytes * R) :=
  let '(relay2_keypair, rng) := generate rng in
  let relay2_pubkey := public_key relay2_keypair in
  let! relay2_node := RelayNode_new relay2_config relay2_keypair in
  let '(relay1_keypair, rng) := generate rng in
  let relay1_pubkey := public_key relay1_keypair in
  let! relay1_node := RelayNode_new relay1_config relay1_keypair in
  let '(layer_for_relay2, rng) := build_onion_layer relay2_pubkey (Deliver final_cell) rng in
  let! layer_for_relay2 := unwrap_ok layer_for_relay2 in
  let '(layer_for_relay1, rng) :=
    build_onion_layer relay1_pubkey (Forward (b_ "127.0.0.1:19002") layer_for_relay2) rng in
  let! layer_for_relay1 := unwrap_ok layer_for_relay1 in
  Done (relay1_node, relay2_node, layer_for_relay1, rng).

(** The client's stream. *)
Definition smoke_client (layer_for_relay1 : bytes) : io W unit :=
  client_stream <-- connect (b_ "127.0.0.1:19001") ;;
  write_frame client_stream layer_for_relay1.

(** The cell that relay 2 has delivered first. *)
Definition smoke_check (relay2_node : node) : outcome unit :=
  let! delivered := unwrap_some (head (ch_sent (delivery_tx relay2_node))) in
  assert_eq delivered final_cell.
End smoke.

Section lemmas.
Context {R W Conn Ch Sem : Type} `{EqDecision Conn} `{RngLaws R} `{NetLaws W Conn} `{!StreamBreak W Conn}
  `{!StreamBreakLaws W Conn} `{CryptoLaws} `{ChannelLaws Ch} `{SemaphoreLaws Sem}.
Abbreviation hosts := (gmap bytes (Process Conn Ch Sem * W)).

Definition addr_1 : bytes := b_ "127.0.0.1:19001".
Definition addr_2 : bytes := b_ "127.0.0.1:19002".

Lemma smoke_addresses :
  SocketAddr_to_string (listen_addr relay1_config) = addr_1 /\
  SocketAddr_to_string (listen_addr relay2_config) = addr_2 /\ addr_1 <> addr_2.
Proof. split_and!; by vm_compute. Qed.

(** Only these two listen. *)
Definition smoke_relay_at (kp1 kp2 : KeyPair) (a : bytes) : option KeyPair :=
  if decide (a = addr_1) then Some kp1 else if decide (a = addr_2) then Some kp2 else None.

(** The two relays, which serve no mailbox. *)
Definition smoke_hosts (node1 node2 : RelayNode Conn Ch Sem) (i1 i2 : RelayIdentity) (w1 w2 : W) : hosts :=
  <[addr_1 := (process_new node1 i1 false, w1)]> {[addr_2 := (process_new node2 i2 false, w2)]}.

Lemma smoke_setup_ok (rng : R) :
  exists kp1 kp2 frame rng',
    smoke_setup (Conn:=Conn) (Ch:=Ch) (Sem:=Sem) rng =
      Done (fresh_node relay1_config kp1, fresh_node relay2_config kp2, frame, rng') /\
    on_course (smoke_relay_at kp1 kp2) 2 (addr_1, frame) (addr_2, final_cell) /\ len frame < 2 ^ 32.
Proof.
  unfold smoke_setup. destruct (generated rng) as (kp2 & rng1 & -> & Hkp2), (generated rng1) as (kp1 & rng2 & -> & Hkp1).
  rewrite !RelayNode_new_eq, !decide_True by by vm_compute.
  destruct (peel_build kp2 (Deliver final_cell) rng2 Hkp2) as (inner & -> & Ep2 & Hl2); [by vm_compute..|].
  cbv zeta beta iota. cbn [unwrap_ok].
  assert (length (encode_payload (Deliver final_cell)) = 33%nat) as Hl by by vm_compute.
  destruct (peel_build kp1 (Forward (b_ "127.0.0.1:19002") inner) (layer_rng rng2) Hkp1) as (frame & -> & Ep1 & Hl1);
    [by vm_compute| |]; unfold encode_payload, len in *; rewrite !length_app, length_to_be_bytes, Hl2, Hl in *;
    [by vm_compute|].
  exists kp1, kp2, frame, (layer_rng (layer_rng rng2)). split; [done|]. split; [|rewrite Hl1; by vm_compute].
  exists [kp1; kp2], [addr_2]. split_and!; [done| | |done].
  - repeat constructor; by vm_compute.
  - cbn [fst snd follow]. rewrite Ep1. cbn [follow]. by rewrite Ep2.
Qed.

Lemma smoke_started (node1 node2 : RelayNode Conn Ch Sem) (kp1 kp2 : KeyPair) (i1 i2 : RelayIdentity) (w1 w2 : W) :
  node1 = fresh_node relay1_config kp1 -> node2 = fresh_node relay2_config kp2 ->
  started (smoke_hosts node1 node2 i1 i2 w1 w2) /\ keyed (smoke_relay_at kp1 kp2) (smoke_hosts node1 node2 i1 i2 w1 w2).
Proof.
  intros -> ->. split; intros a pw; unfold smoke_hosts; rewrite lookup_insert_Some, lookup_singleton_Some.
  - intros [[_ <-]|[_ [_ <-]]]; by eexists _, _, _, _.
  - intros [[<- <-]|[_ [<- <-]]]; by vm_compute.
Qed.

(** One packet that is due: it is in flight or has been delivered. *)
Lemma one_due relay_at d n st :
  will_deliver relay_at [d] n st ->
  (exists a f kp, st.1 = [(a, f)] /\ relay_at a = Some kp /\ st.2 = []) \/ (st.1 = [] /\ st.2 = [d]).
Proof.
  intros (ns & rest & Ht & Hp & _). destruct st as [ps ds]. cbn in *.
  destruct rest as [|d' rest].
  - right. inversion Ht; subst. rewrite app_nil_r in Hp. split; [done|]. by apply Permutation_singleton_r in Hp.
  - left. pose proof (Permutation_length Hp) as Hl. rewrite length_app in Hl. cbn in Hl.
    destruct ds; [|cbn in Hl; lia]. destruct rest; [|cbn in Hl; lia].
    inversion Ht as [|n1 [a f] d1 ns' ps' r' Hc Hrest]; subst. inversion Hrest; subst.
    apply on_course_step in Hc as (kp & Ha & _). by exists a, f, kp.
Qed.

(** The only delivery is the first of its host. *)
Lemma only_delivery (hs : hosts) a body :
  delivered hs ≡ₚ [(a, body)] -> exists p w, hs !! a = Some (p, w) /\ ch_sent (delivery_tx (pr_node p)) = [body].
Proof.
  intros Hd. assert ((a, body) ∈ delivered hs) as Hin by (rewrite Hd; by left).
  unfold delivered in Hin. apply list_elem_of_bind in Hin as ([b [p w]] & Hx & Hb%elem_of_map_to_list).
  unfold delivered_at in Hx. cbn in Hx. apply list_elem_of_fmap in Hx as (x & [= <- <-] & Hx).
  exists p, w. split; [done|]. unfold delivered in Hd. rewrite <- (insert_delete_id hs a (p, w) Hb) in Hd.
  rewrite map_to_list_insert in Hd by apply lookup_delete_eq. cbn in Hd. unfold delivered_at at 1 in Hd. cbn in Hd.
  apply Permutation_length in Hd. rewrite length_app, length_fmap in Hd. cbn in Hd.
  destruct (ch_sent (delivery_tx (pr_node p))) as [|y [|]]; [by apply elem_of_nil in Hx| |cbn in Hd; lia].
  by apply list_elem_of_singleton in Hx as ->.
Qed.
End lemmas.

(** ** The property *)

Section properties.
Context {R W Conn Ch Sem : Type} `{EqDecision Conn} `{RngLaws R} `{NetLaws W Conn} `{!StreamBreak W Conn}
  `{!StreamBreakLaws W Conn} `{!NetFlow W Conn} `{CryptoLaws} `{ChannelLaws Ch} `{SemaphoreLaws Sem}.
Abbreviation hosts := (gmap bytes (Process Conn Ch Sem * W)).

(** Where the packet of the smoke test is. *)
Lemma smoke_state (kp1 kp2 : KeyPair) (frame : bytes) (n1 n2 : RelayNode Conn Ch Sem) (i1 i2 : RelayIdentity) (w1 w2 : W) (hs : hosts) (ls : list (link Conn)) :
  on_course (smoke_relay_at kp1 kp2) 2 (addr_1, frame) (addr_2, final_cell) ->
  n1 = fresh_node relay1_config kp1 -> n2 = fresh_node relay2_config kp2 ->
  rtc deployment_step (smoke_hosts n1 n2 i1 i2 w1 w2, []) (hs, ls) -> injected ls = [(addr_1, frame)] ->
  (exists a f, pending hs ls = [(a, f)] /\ is_Some (hs !! a) /\ delivered hs = []) \/
  (pending hs ls = [] /\ delivered hs ≡ₚ [(addr_2, final_cell)]).
Proof.
  intros Hc E1 E2 Hr Hi. destruct (smoke_started n1 n2 kp1 kp2 i1 i2 w1 w2 E1 E2) as [Hs Hk].
  destruct (good_reachable (smoke_relay_at kp1 kp2) _ (hs, ls) Hs Hk Hr) as (_ & ps & ds & Hrun & Hp & Hd).
  cbn [fst snd] in *. rewrite Hi in Hrun. apply rtc_nsteps in Hrun as [k Hrun].
  assert (will_deliver (smoke_relay_at kp1 kp2) [(addr_2, final_cell)] 2 ([(addr_1, frame)], [])) as Hw.
  { exists [2%nat], [(addr_2, final_cell)]. split_and!; [|done|done]. by repeat constructor. }
  destruct (will_deliver_nsteps _ _ _ _ _ _ Hw Hrun) as [_ Hw'].
  destruct (one_due _ _ _ _ Hw') as [(a & f & kp & Eps & Ha & Eds)|[Eps Eds]]; cbn in Eps, Eds; subst ps ds.
  - left. exists a, f. symmetry in Hp. apply Permutation_singleton_r in Hp. apply Permutation_nil_l in Hd.
    split_and!; [done| |done].
    assert (is_Some (smoke_hosts n1 n2 i1 i2 w1 w2 !! a)) as [[p0 w0] Hp0].
    { unfold smoke_relay_at in Ha. unfold smoke_hosts.
      destruct (decide (a = addr_1)) as [->|Hne]; [rewrite lookup_insert_eq; by eexists|].
      rewrite lookup_insert_ne by done. destruct (decide (a = addr_2)) as [->|]; [|done].
      rewrite lookup_singleton_eq. by eexists. }
    destruct (host_run _ _ _ _ _ Hr Hp0) as (p & w & _ & Hh & _). cbn in Hh. by eexists.
  - right. apply Permutation_nil_l in Hp. by split.
Qed.

Definition smoke_passes (hs : hosts) : Prop :=
  exists p w, hs !! addr_2 = Some (p, w) /\ smoke_check (pr_node p) = Done tt.

(** C11: the smoke test. The setup does not panic. When the client's write
    returns, its stream carries the onion to relay 1. In every state the two
    relays reach after it was sent, the onion is at one place, pending at a
    relay that is running, and nothing has been delivered; or nothing is pending
    and relay 2 has delivered the cell, so that the final assertion of the
    program passes. And from every such state the relays can get to one in which
    the assertion passes, unless the stream that the packet is on gets closed. *)
Theorem smoke_test_delivers (rng : R) (i1 i2 : RelayIdentity) (w1 w2 : W) :
  exists node1 node2 frame rng', smoke_setup rng = Done (node1, node2, frame, rng') /\
    (forall (w w' : W), smoke_client frame w = (Ok tt, w') -> exists c : Conn, carries w' c (addr_1, frame)) /\
    forall (hs : hosts) ls,
      rtc deployment_step (smoke_hosts node1 node2 i1 i2 w1 w2, []) (hs, ls) -> injected ls = [(addr_1, frame)] ->
      ((exists a f, pending hs ls = [(a, f)] /\ is_Some (hs !! a) /\ delivered hs = []) \/
       (pending hs ls = [] /\ smoke_passes hs)) /\
      exists hs' ls', rtc deployment_step (hs, ls) (hs', ls') /\
        (smoke_passes hs' \/ exists lk q, lk ∈ ls' /\ lk_end lk = Closed /\ q ∈ pending_on hs' lk).
Proof.
  destruct (smoke_setup_ok (Conn:=Conn) (Ch:=Ch) (Sem:=Sem) rng) as (kp1 & kp2 & frame & rng' & E & Hc & Hl).
  eexists _, _, frame, rng'. split; [exact E|].
  assert (forall hs : hosts, delivered hs ≡ₚ [(addr_2, final_cell)] -> smoke_passes hs) as Hpass.
  { intros hs (p & w & Hp & Hch)%only_delivery. exists p, w. split; [done|].
    unfold smoke_check. rewrite Hch. cbn [head unwrap_some]. apply assert_eq_refl. }
  split_and!.
  - intros w w'. unfold smoke_client, io_bind. destruct (connect _ w) as [[c|e] v] eqn:Ec; [|done].
    destruct (connect_ok _ _ _ _ Ec) as (_ & Ho & Hd). intros Ew. exists c. split; [done|]. split; [|done].
    by rewrite (write_frame_ok _ _ _ _ Ew), Ho.
  - intros hs ls Hr Hi. split.
    + destruct (smoke_state kp1 kp2 frame _ _ i1 i2 w1 w2 hs ls Hc eq_refl eq_refl Hr Hi) as [?|[? ?]]; auto.
    + destruct (smoke_started (Conn:=Conn) (Ch:=Ch) (Sem:=Sem) _ _ kp1 kp2 i1 i2 w1 w2 eq_refl eq_refl) as [Hs Hk].
      destruct (settles (smoke_relay_at kp1 kp2) hs ls) as (hs' & ls' & Hr' & Hi' & Hall);
        [by apply (ready_reachable _ _ (hs, ls) Hs Hk Hr)|].
      exists hs', ls'. split; [done|]. rewrite Hi in Hi'.
      destruct (smoke_state kp1 kp2 frame _ _ i1 i2 w1 w2 hs' ls' Hc eq_refl eq_refl) as [(a & f & Hp & [? Ha] & _)|[_ Hd]];
        [by etransitivity|done| |by left; apply Hpass].
      right. destruct (settled_pending hs' ls' a f Hall) as [Hn|(lk & ? & ? & ?)]; [rewrite Hp; by left|congruence|].
      by exists lk, (a, f).
Qed.
End properties.
