(* ===== verification/RelayMain.v ===== *)
(** * The relay binaries: [veil-relay/src/main.rs], [config.rs],
      [bin/veil-relay-keygen.rs]

    Loading the configuration, choosing the identity, the address convention
    of the mailbox port, and the whole of [main] up to the process whose tasks
    then run ([RelayProcess]). *)
From S2P Require Import Prelude.
From S2P Require Import RustStd.
From S2P Require Import Interfaces.
From S2P Require Import Cell.
From S2P Require Import Keys.
From S2P Require Import Mailbox.
From S2P Require Import PullListener.
From S2P Require Import Node.
From S2P Require Import RelayProcess.

Open Scope Z_scope.

(** ** [config.rs]

    [toml::from_str] is a parameter, with the [Display] of its errors and of
    I/O errors. *)
Section config.
Context {W E : Type} `{Fs W}.
Context (toml_from_str : bytes -> result E RelayConfig).
Context (show_toml_error : E -> bytes) (show_io_error : io_error -> bytes).

Definition load (path : bytes) (w : W) : result RelayError RelayConfig * W :=
  match read_to_string path w with
  | (Err e, w) =>
      (Err (Config (String.list_byte_of_string "cannot read " ++ path ++
                    String.list_byte_of_string ": " ++ show_io_error e)), w)
  | (Ok raw, w) =>
      (map_err (fun e => Config (String.list_byte_of_string "invalid config: " ++ show_toml_error e))
         (toml_from_str raw), w)
  end.
End config.

(** ** [main.rs] *)

(** The distance between a relay's port and its mailbox port. *)
Definition MAILBOX_PORT_OFFSET : Z := 1000.

(** [mailbox_addr.set_port(mailbox_addr.port() + 1000)] *)
Definition mailbox_addr (overflow_checks : bool) (listen : SocketAddr) : outcome SocketAddr :=
  let! port := add_u16 overflow_checks (sa_port listen) MAILBOX_PORT_OFFSET in
  Done (set_port listen port).

Section main.
Context {R Conn Ch Sem : Type} `{Rng R} `{Crypto} `{Hex} `{Channel Ch} `{Semaphore Sem}.

Definition load_keypair_from_hex (hex : bytes) : VeilResult KeyPair := from_hex hex.

(** The configured identity, or a fresh one. *)
Definition choose_identity (config : RelayConfig) (rng : R) : VeilResult KeyPair * R :=
  match static_secret_hex config with
  | Some hex => (load_keypair_from_hex hex, rng)
  | None => let '(kp, rng) := generate rng in (Ok kp, rng)
  end.

(** [main] up to the point where its tasks are spawned: the node, the
    address of its mailbox listener, and the identity that listener
    describes. *)
Definition relay_setup (overflow_checks : bool) (config : RelayConfig) (rng : R) :
    outcome (VeilResult (RelayNode Conn Ch Sem * SocketAddr * RelayIdentity) * R) :=
  let '(keypair, rng) := choose_identity config rng in
  match keypair with
  | Err e => Done (Err e, rng)
  | Ok keypair =>
      let! mailbox_address := mailbox_addr overflow_checks (listen_addr config) in
      let ident := {| ri_id := relay_id config; ri_public_key := public_key keypair;
                      ri_main_addr := SocketAddr_to_string (listen_addr config) |} in
      let! node := RelayNode_new config keypair in
      Done (Ok (node, mailbox_address, ident), rng)
  end.

(** The task [while let Some(delivered) = delivery_rx.recv().await], on the
    deliveries it receives. *)
Definition queue_deliveries (delivered : list bytes) (mailbox : Mailbox) : Mailbox :=
  fold_left push delivered mailbox.

(** The lines [bin/keygen.rs] prints that carry the identity. *)
Definition keygen (rng : R) : bytes * bytes :=
  let '(keypair, _) := generate rng in
  (String.list_byte_of_string "  static_secret_hex = " ++ [x22] ++ to_hex keypair ++ [x22],
   String.list_byte_of_string "  " ++ public_key_to_hex (public_key keypair)).
End main.

(** [Box<dyn Error>]: what [main] can return. *)
Inductive MainError : Type :=
  | MainRelay (e : RelayError)
  | MainCore (e : VeilError).

Definition DEFAULT_CONFIG_PATH : bytes := String.list_byte_of_string "config/relay.default.toml".

Section relay_main.
Context {R W E Conn Ch Sem : Type} `{Rng R} `{Crypto} `{Hex} `{Channel Ch} `{Semaphore Sem}
  `{Fs W} `{Listen W}.
Context (toml_from_str : bytes -> result E RelayConfig).
Context (show_toml_error : E -> bytes) (show_io_error : io_error -> bytes).

(** The whole of [main], up to the process whose tasks run from then on. [serve]
    binds the mailbox address in a task of its own, here before the node's. The
    error of the mailbox listener is logged in its own task and leaves the
    relay running without it; the error of the relay's listener ends [main]. *)
Definition relay_main (overflow_checks : bool) (args : list bytes) (rng : R) (w : W) :
    outcome (result MainError (Process Conn Ch Sem) * R * W) :=
  let config_path := default DEFAULT_CONFIG_PATH (args !! 1%nat) in
  match load toml_from_str show_toml_error show_io_error config_path w with
  | (Err e, w) => Done (Err (MainRelay e), rng, w)
  | (Ok config, w) =>
      let! (setup, rng) := relay_setup overflow_checks config rng in
      match setup with
      | Err e => Done (Err (MainCore e), rng, w)
      | Ok (node, mailbox_address, ident) =>
          let '(serving, w) :=
            match bind mailbox_address w with
            | (Ok _, w) => (true, w)
            | (Err _, w) => (false, w)
            end in
          match bind (listen_addr config) w with
          | (Err e, w) => Done (Err (MainRelay (Io e)), rng, w)
          | (Ok _, w) => Done (Ok (process_new node ident serving), rng, w)
          end
      end
  end.
End relay_main.

(** A socket address as the standard library builds it. *)
Definition wf_sockaddr (a : SocketAddr) : Prop := 0 <= sa_port a <= u16_MAX.

(** ** Properties *)

Lemma load_error {W E : Type} `{Fs W} (toml : bytes -> result E RelayConfig) show_toml show_io path (w : W) e w1 :
  load toml show_toml show_io path w = (Err e, w1) -> exists msg, e = Config msg.
Proof.
  unfold load. destruct (read_to_string path w) as [[raw|e0] w2]; [|intros [= <- _]; by eexists].
  destruct (toml raw); intros [= <- _]. by eexists.
Qed.

Lemma mailbox_addr_eq oc a :
  wf_sockaddr a ->
  mailbox_addr oc a =
    if decide (64535 < sa_port a /\ oc = true) then Panic
    else Done (mkSocketAddr (sa_host a)
                 (if decide (sa_port a <= 64535) then sa_port a + 1000 else sa_port a + 1000 - 2 ^ 16)).
Proof.
  unfold wf_sockaddr, mailbox_addr, add_u16, MAILBOX_PORT_OFFSET, u16_MAX, set_port. intros Ha.
  destruct (decide (sa_port a <= 64535)) as [Hp|Hp].
  - rewrite decide_True, decide_False by lia. done.
  - rewrite decide_False by lia. destruct oc; [by rewrite decide_True by lia|]. rewrite decide_False by by intros [_ ?].
    do 2 f_equal. unfold as_u16. rewrite <- (Z_mod_plus_full _ (-1)), Z.mod_small; lia.
Qed.

Lemma queue_deliveries_queue cells m : queue (queue_deliveries cells m) = queue m ++ cells.
Proof.
  revert m. induction cells as [|c cells IH]; intros m; cbn; [by rewrite app_nil_r|].
  unfold queue_deliveries in IH. rewrite IH. cbn. by rewrite <- app_assoc.
Qed.

(** The mailbox port. For ports up to 64,535 the mailbox listens exactly
    1000 above the relay, on the same host; above that the addition overflows
    the [u16], which panics when overflow checks are on and otherwise wraps to
    a port below 1000. *)
Theorem mailbox_addr_spec a :
  wf_sockaddr a ->
  (sa_port a <= 64535 -> forall oc, mailbox_addr oc a = Done (mkSocketAddr (sa_host a) (sa_port a + 1000))) /\
  (64535 < sa_port a -> mailbox_addr true a = Panic /\
     exists p, mailbox_addr false a = Done (mkSocketAddr (sa_host a) p) /\ 0 <= p < 1000).
Proof.
  unfold wf_sockaddr, mailbox_addr, add_u16, MAILBOX_PORT_OFFSET, u16_MAX, set_port.
  intros Ha. split.
  - intros Hp oc. by rewrite decide_True by lia.
  - intros Hp. rewrite !decide_False by lia. split; [done|].
    eexists. split; [reflexivity|]. unfold as_u16.
    replace (sa_port a + 1000) with (sa_port a - 64536 + 1 * 2 ^ 16) by lia.
    rewrite Z_mod_plus_full, Z.mod_small; lia.
Qed.

Section properties.
Context {R Conn Ch Sem : Type} `{RngLaws R} `{CryptoLaws} `{HexLaws} `{ChannelLaws Ch}
  `{SemaphoreLaws Sem}.

(** A relay's identity. Set-up succeeds unless the configured secret is
    not a key: without one a fresh pair is generated, with one exactly that
    identity is used, so that the secret printed by the key generator
    restores the key pair whose public key it printed. The node holds the
    same key pair that the mailbox listener describes, at the relay's own
    main address, and starts with all permits, no connection and an empty
    delivery channel. *)
Theorem relay_setup_identity oc config (rng : R) :
  sa_port (listen_addr config) <= 64535 -> Z.of_nat (max_connections config) <= MAX_PERMITS ->
  (forall hex, static_secret_hex config = Some hex ->
     match relay_setup (Conn:=Conn) (Ch:=Ch) (Sem:=Sem) oc config rng with
     | Done (Ok (node, _, _), _) => from_hex hex = Ok (keypair node)
     | Done (Err e, _) => from_hex hex = Err e
     | Panic => False
     end) /\
  (forall rng0, static_secret_hex config = None \/
       static_secret_hex config = Some (to_hex (generate rng0).1) ->
     exists node mb ident rng', relay_setup oc config rng = Done (Ok (node, mb, ident), rng') /\
       wf_keypair (keypair node) /\
       (static_secret_hex config <> None -> keypair node = (generate rng0).1) /\
       ri_public_key ident = public_key (keypair node) /\ ri_id ident = relay_id config /\
       ri_main_addr ident = SocketAddr_to_string (listen_addr config) /\
       mb = mkSocketAddr (sa_host (listen_addr config)) (sa_port (listen_addr config) + 1000) /\
       available_permits (connection_limiter (node : RelayNode Conn Ch Sem)) = max_connections config /\
       outbound node = ∅ /\ ch_sent (delivery_tx node) = []).
Proof.
  intros Hp Hmax. assert (mailbox_addr oc (listen_addr config) =
    Done (mkSocketAddr (sa_host (listen_addr config)) (sa_port (listen_addr config) + 1000))) as Hm.
  { unfold mailbox_addr, add_u16, MAILBOX_PORT_OFFSET, u16_MAX. by rewrite decide_True by lia. }
  unfold relay_setup, choose_identity, load_keypair_from_hex.
  assert (forall kp, RelayNode_new config kp = Done (fresh_node config kp : RelayNode Conn Ch Sem)) as Hnew
    by (intros kp; by rewrite RelayNode_new_eq, decide_True). split.
  - intros hex ->. destruct (from_hex hex) as [kp|e]; [|done]. by rewrite Hm, Hnew.
  - intros rng0 [-> | ->].
    + pose proof (generate_wf rng) as Hw. destruct (generate rng) as [kp rng'].
      rewrite Hm, Hnew. eexists _, _, _, _. split; [done|]. cbn.
      split_and!; try done; [apply available_new|apply ch_new_empty].
    + pose proof (from_hex_to_hex (generate rng0).1 [] [] (generate_wf rng0)) as E.
      cbn in E. rewrite app_nil_r in E. rewrite E by done.
      rewrite Hm, Hnew. eexists _, _, _, _. split; [done|]. cbn.
      split_and!; try done; [apply generate_wf|apply available_new|apply ch_new_empty].
Qed.

(** The identity is the one that was configured, or a fresh one. *)
Lemma choose_identity_ok config (rng : R) kp rng1 :
  choose_identity config rng = (Ok kp, rng1) -> wf_keypair kp /\
  forall rng0, static_secret_hex config = Some (to_hex (generate rng0).1) -> kp = (generate rng0).1.
Proof.
  unfold choose_identity, load_keypair_from_hex. destruct (static_secret_hex config) as [hex|].
  - intros [= Eh _]. split; [by eapply from_hex_wf|]. intros rng0 [= ->].
    pose proof (from_hex_to_hex (generate rng0).1 [] [] (generate_wf rng0)) as Er.
    cbn in Er. rewrite app_nil_r in Er. rewrite Er in Eh by done. by injection Eh.
  - pose proof (generate_wf rng) as Hw. destruct (generate rng). intros [= <- <-]. by split.
Qed.

Lemma choose_identity_error config (rng : R) e rng1 : choose_identity config rng = (Err e, rng1) -> rng1 = rng.
Proof.
  unfold choose_identity. destruct (static_secret_hex config); [by intros [= _ <-]|by destruct (generate rng)].
Qed.

(** C23: a relay starts as its configuration says, or reports or panics why not.
    An unreadable or malformed configuration, a configured secret that is not a
    key, and a main address that cannot be bound are each reported as their own
    error, nothing being bound before the identity is settled. A port above
    64,535, when overflow is checked, and a connection limit above
    [MAX_PERMITS] are panics. In every other case the
    process that starts holds the configured identity (the one printed by the
    key generator, when its line was copied there) or a fresh one, describes
    that very identity at its main address, and has nothing queued, held or
    requested; it serves PULLs exactly when the mailbox address could be bound:
    the port 1000 above its own, or, when overflow is not checked and that is
    more than a port can be, wrapped around. *)
Theorem relay_main_starts {W E : Type} `{Fs W} `{Listen W}
    (toml : bytes -> result E RelayConfig) show_toml show_io oc args (rng : R) (w : W) :
  let run := relay_main (Conn:=Conn) (Ch:=Ch) (Sem:=Sem) toml show_toml show_io oc args rng w in
  match load toml show_toml show_io (default DEFAULT_CONFIG_PATH (args !! 1%nat)) w with
  | (Err e, w1) => run = Done (Err (MainRelay e), rng, w1) /\ exists msg, e = Config msg
  | (Ok config, w1) =>
      wf_sockaddr (listen_addr config) ->
      match choose_identity config rng with
      | (Err e, rng1) => run = Done (Err (MainCore e), rng1, w1) /\ rng1 = rng
      | (Ok kp, rng1) =>
          wf_keypair kp /\
          (forall rng0, static_secret_hex config = Some (to_hex (generate rng0).1) -> kp = (generate rng0).1) /\
          let port := sa_port (listen_addr config) in
          if decide ((64535 < port /\ oc = true) \/ MAX_PERMITS < Z.of_nat (max_connections config))
          then run = Panic
          else
          let mailbox := mkSocketAddr (sa_host (listen_addr config))
                           (if decide (port <= 64535) then port + 1000 else port + 1000 - 2 ^ 16) in
          let ident := {| ri_id := relay_id config; ri_public_key := public_key kp;
                          ri_main_addr := SocketAddr_to_string (listen_addr config) |} in
          exists b w2, bind mailbox w1 = (b, w2) /\
            match bind (listen_addr config) w2 with
            | (Err e, w3) => run = Done (Err (MainRelay (Io e)), rng1, w3)
            | (Ok _, w3) => exists serving, (serving = true <-> b = Ok tt) /\
                run = Done (Ok (process_new (fresh_node config kp) ident serving), rng1, w3)
            end
      end
  end.
Proof.
  intros run. subst run. unfold relay_main.
  destruct (load _ _ _ _ w) as [[config|e] w1] eqn:El; [|split; [done|by eapply load_error]].
  intros Hp. unfold relay_setup.
  destruct (choose_identity config rng) as [[kp|e] rng1] eqn:Ei; [|split; [done|by eapply choose_identity_error]].
  destruct (choose_identity_ok _ _ _ _ Ei) as [Hw Hr]. split_and!; [done|done|]. cbv zeta.
  rewrite mailbox_addr_eq, RelayNode_new_eq by done.
  case_decide as Hbad.
  { destruct (decide (64535 < sa_port (listen_addr config) /\ oc = true)) as [_|Hn]; [done|].
    by rewrite decide_False by (destruct Hbad; [done|lia]). }
  rewrite (decide_False (P := 64535 < _ /\ _)), (decide_True (P := Z.of_nat _ <= _)) by (lia || tauto).
  destruct (bind _ w1) as [b w2] eqn:Eb. exists b, w2. split; [done|].
  destruct b as [[]|e]; destruct (bind (listen_addr config) w2) as [[[]|e'] w3]; try done.
  - by exists true.
  - by exists false.
Qed.
End properties.
