(* ===== verification/Cli.v ===== *)
(** * The command-line harness: [veil-cli/src/main.rs]

    Argument parsing, the mailbox address of a relay, the relays the
    self-hosted mode starts, the external mode, and the send-and-receive flow
    they share, composed into [cli_main]. The lines printed for the delivered
    payloads are the result, as text; other printing is left out; a failed
    [expect] and [panic!] are panics. *)
From S2P Require Import Prelude.
From S2P Require Import RustStd.
From S2P Require Import RustFmt.
From S2P Require Import Interfaces.
From S2P Require Import Cell.
From S2P Require Import Fragmentation.
From S2P Require Import Keys.
From S2P Require Import Forwarding.
From S2P Require Import Mailbox.
From S2P Require Import PullListener.
From S2P Require Import Node.
From S2P Require Import RelayProcess.
From S2P Require Import Topology.
From S2P Require Import TopologyFile.
From S2P Require Import PathSelection.
From S2P Require Import Circuit.
From S2P Require Import Session.
From S2P Require Import Client.
From S2P Require Import Receiver.
From S2P Require Import EndToEnd.
From S2P Require Import RelayMain.

Open Scope Z_scope.

Inductive Mode : Type :=
  | SelfHosted (message : bytes) (hop_count : Z)
  | External (topology_path message : bytes).

#[export] Instance Mode_eq_dec : EqDecision Mode.
Proof. solve_decision. Defined.

Definition TOPOLOGY_FLAG : bytes := String.list_byte_of_string "--topology".
Definition DEFAULT_MESSAGE : bytes := String.list_byte_of_string "hello from veil-cli".
Definition usize_MAX : Z := 2 ^ 64 - 1.

(** [Iterator::position] *)
Fixpoint position (x : bytes) (l : list bytes) : option nat :=
  match l with
  | [] => None
  | y :: l' => if decide (y = x) then Some 0%nat else S <$> position x l'
  end.

(** The arguments without the flag and its value. *)
Definition other_args (flag_pos : nat) (args : list bytes) : list bytes :=
  omap (fun ia : nat * bytes =>
    if decide (ia.1 <> flag_pos /\ ia.1 <> (flag_pos + 1)%nat) then Some ia.2 else None)
    (zip (seq 0 (length args)) args).

Definition parse_args (args : list bytes) : outcome Mode :=
  match position TOPOLOGY_FLAG args with
  | Some flag_pos =>
      match args !! (flag_pos + 1)%nat with
      | None => Panic
      | Some topology_path =>
          let message := default DEFAULT_MESSAGE (head (other_args flag_pos args)) in
          Done (External topology_path message)
      end
  | None =>
      let message := default DEFAULT_MESSAGE (head args) in
      let hop_count := default 3 (s ← args !! 1%nat; parse_uint usize_MAX s) in
      Done (SelfHosted message hop_count)
  end.

Definition mailbox_address_from (overflow_checks : bool) (addr : bytes) : outcome bytes :=
  match rsplit_once x3a addr with
  | None => Panic
  | Some (host, port_str) =>
      match parse_uint u16_MAX port_str with
      | None => Panic
      | Some port =>
          let! port := add_u16 overflow_checks port MAILBOX_PORT_OFFSET in
          Done (host ++ [x3a] ++ show_uint port)
      end
  end.

(** [mailbox_addrs] of the external mode. *)
Fixpoint mailbox_addresses (overflow_checks : bool) (rs : list RelayInfo) : outcome (list bytes) :=
  match rs with
  | [] => Done []
  | r :: rs' =>
      let! a := mailbox_address_from overflow_checks (info_address r) in
      let! rest := mailbox_addresses overflow_checks rs' in
      Done (a :: rest)
  end.

(** [topology.len().clamp(1, 3)] *)
Definition external_hop_count (t : Topology) : nat :=
  Z.to_nat (Z.min 3 (Z.max 1 (topology_len t))).

Section send_and_receive.
Context {R W Conn : Type} `{Rng R} `{Crypto} `{HashOrder} `{Net W Conn} `{Clock W} `{CharTable}.

(** How the process ends: having printed these lines, or with exit code 1. *)
Inductive cli_result : Type := Printed (lines : list bytes) | ExitFailure.

(** [println!("veil-cli: delivered payload = {:?}", String::from_utf8_lossy(..))] *)
Definition delivered_line (payload : bytes) : bytes :=
  String.list_byte_of_string "veil-cli: delivered payload = " ++ debug_str (from_utf8_lossy payload).

(** The loop over the received cells. *)
Fixpoint delivered_lines (cells : list Cell) : outcome (list bytes) :=
  match cells with
  | [] => Done []
  | cell :: cells' =>
      let! p := payload cell in
      let! rest := delivered_lines cells' in
      Done (delivered_line p :: rest)
  end.

Definition send_and_receive (topology : Topology) (hop_count : nat) (message : bytes)
    (mailbox_addrs : list bytes) (rng : R) (w : W) : outcome (cli_result * R * W) :=
  let '(recipient_identity, rng) := generate rng in
  match establish (public_key recipient_identity) rng with
  | (Err _, _) => Panic
  | (Ok session, rng) =>
      let client := {| topology := topology; hop_count := hop_count |} in
      let! (sent, rng, w) := send client session message rng w in
      match sent with
      | Err _ => Panic
      | Ok _ =>
          let w := sleep 300 w in
          let! (received, w) := receive recipient_identity mailbox_addrs w in
          match received with
          | Err _ => Panic
          | Ok [] => Done (ExitFailure, rng, w)
          | Ok cells =>
              let! lines := delivered_lines cells in
              Done (Printed lines, rng, w)
          end
      end
  end.
End send_and_receive.

(** ** The relays of the self-hosted mode *)

(** [format!("127.0.0.1:{}", 20000 + i).parse().unwrap()] *)
Definition local_addr (i : Z) : outcome SocketAddr :=
  if decide (20000 + i <= u16_MAX)
  then Done {| sa_host := String.list_byte_of_string "127.0.0.1"; sa_port := 20000 + i |}
  else Panic.

Section self_hosted.
Context {R W Conn Ch Sem : Type} `{Rng R} `{Crypto} `{Channel Ch} `{Semaphore Sem}
  `{Spawn W (Process Conn Ch Sem)}.

(** The loop of [run_self_hosted]: the topology and the mailbox addresses of the
    relays whose tasks it spawns. *)
Fixpoint start_relays (overflow_checks : bool) (count : nat) (i : Z) (topology : Topology)
    (mailbox_addrs : list bytes) (rng : R) (w : W) : outcome (Topology * list bytes * R * W) :=
  match count with
  | O => Done (topology, mailbox_addrs, rng, w)
  | S count' =>
      let! addr := local_addr i in
      let relay_id := String.list_byte_of_string "relay-" ++ show_uint i in
      let '(keypair, rng) := generate rng in
      let config := {| listen_addr := addr; relay_id := relay_id; static_secret_hex := None;
                       max_connections := 16 |} in
      let! node := RelayNode_new config keypair in
      let! mailbox_address := mailbox_addr overflow_checks addr in
      let ident := {| ri_id := relay_id; ri_public_key := public_key keypair;
                      ri_main_addr := SocketAddr_to_string addr |} in
      let w := spawn addr mailbox_address (process_new (Conn:=Conn) (Ch:=Ch) (Sem:=Sem) node ident true) w in
      let topology := add_relay topology
        {| info_id := relay_id; info_address := SocketAddr_to_string addr;
           info_public_key := public_key keypair |} in
      start_relays overflow_checks count' (i + 1) topology
        (mailbox_addrs ++ [SocketAddr_to_string mailbox_address]) rng w
  end.
End self_hosted.

(** ** The two modes *)

Section modes.
Context {R W E Conn Ch Sem : Type} `{Rng R} `{Crypto} `{Hex} `{HashOrder} `{Net W Conn}
  `{Channel Ch} `{Semaphore Sem} `{Clock W} `{Spawn W (Process Conn Ch Sem)} `{Fs W}
  `{Json E TopologyFile} `{CharTable}.

Definition run_self_hosted (overflow_checks : bool) (message : bytes) (hop_count : Z) (rng : R) (w : W) :
    outcome (cli_result * R * W) :=
  let! (topology, mailbox_addrs, rng, w) :=
    start_relays (Conn:=Conn) (Ch:=Ch) (Sem:=Sem) overflow_checks (Z.to_nat hop_count) 0
      topology_new [] rng w in
  let w := sleep 200 w in
  send_and_receive topology (Z.to_nat hop_count) message mailbox_addrs rng w.

Definition run_external (overflow_checks : bool) (topology_path message : bytes) (rng : R) (w : W) :
    outcome (cli_result * R * W) :=
  match load_from_file topology_path w with
  | (Err _, _) => Panic
  | (Ok topology, w) =>
      let hop_count := external_hop_count topology in
      let! mailbox_addrs := mailbox_addresses overflow_checks (all topology) in
      send_and_receive topology hop_count message mailbox_addrs rng w
  end.

(** [main]; the first argument is the program's name. *)
Definition cli_main (overflow_checks : bool) (args : list bytes) (rng : R) (w : W) :
    outcome (cli_result * R * W) :=
  let! mode := parse_args (drop 1 args) in
  match mode with
  | SelfHosted message hop_count => run_self_hosted overflow_checks message hop_count rng w
  | External topology_path message => run_external overflow_checks topology_path message rng w
  end.
End modes.

#[global] Arguments parse_args : simpl never.
#[global] Arguments mailbox_address_from : simpl never.

(** ** Lemmas *)

Lemma position_app (x : bytes) (a b : list bytes) : x ∉ a -> position x (a ++ x :: b) = Some (length a).
Proof.
  induction a as [|y a IH]; cbn; [by rewrite decide_True|].
  intros [Hne Hni]%not_elem_of_cons. rewrite decide_False by congruence. by rewrite IH.
Qed.

Lemma position_None (x : bytes) (l : list bytes) : x ∉ l -> position x l = None.
Proof.
  induction l as [|y l IH]; cbn; [done|].
  intros [Hne Hni]%not_elem_of_cons. rewrite decide_False by congruence. by rewrite IH.
Qed.

Lemma position_Some (x : bytes) (l : list bytes) : x ∈ l -> exists a b, l = a ++ x :: b /\ x ∉ a.
Proof.
  induction l as [|y l IH]; [by intros ?%not_elem_of_nil|].
  destruct (decide (y = x)) as [->|Hne].
  - intros _. exists [], l. split; [done|]. apply not_elem_of_nil.
  - intros [->|Hin]%elem_of_cons; [done|]. destruct (IH Hin) as (a & b & -> & Ha).
    exists (y :: a), b. split; [done|]. rewrite not_elem_of_cons. done.
Qed.

Lemma other_args_keep k i l :
  (k + 1 < i \/ i + length l <= k)%nat ->
  omap (fun ia : nat * bytes =>
    if decide (ia.1 <> k /\ ia.1 <> (k + 1)%nat) then Some ia.2 else None)
    (zip (seq i (length l)) l) = l.
Proof.
  revert i. induction l as [|x l IH]; intros i Hi; [done|].
  cbn [length] in Hi. cbn. rewrite decide_True by lia. f_equal. apply IH. lia.
Qed.

Lemma other_args_app a f p b : other_args (length a) (a ++ f :: p :: b) = a ++ b.
Proof.
  unfold other_args. rewrite length_app, seq_app.
  rewrite zip_with_app by by rewrite length_seq.
  rewrite omap_app, other_args_keep by lia. f_equal. cbn [length seq zip_with omap list_omap].
  cbn. rewrite !decide_False by lia. apply other_args_keep. lia.
Qed.

Lemma length_show_uint z : (length (show_uint z) <= 20)%nat.
Proof.
  unfold show_uint. generalize 20%nat. intros f. revert z.
  induction f as [|f IH]; intros z; cbn [show_uint_fuel]; [done|].
  rewrite length_app. cbn [length]. case_decide; cbn [length]; [lia|].
  pose proof (IH (z / 10)). lia.
Qed.

Lemma show_uint_ascii z : 0 <= z < 10 ^ 20 -> Forall (fun b => byte_to_Z b <= 127) (show_uint z).
Proof.
  intros Hz. destruct (show_uint_digits 20 z) as (_ & _ & Hd); [lia|done|].
  eapply Forall_impl; [done|]. cbn. lia.
Qed.

Lemma show_uint_inj a b : 0 <= a < 10 ^ 20 -> 0 <= b < 10 ^ 20 -> show_uint a = show_uint b -> a = b.
Proof.
  intros Ha Hb E. pose proof (parse_show_uint (10 ^ 20) a ltac:(lia) ltac:(lia)) as Ea.
  rewrite E, parse_show_uint in Ea by lia. by injection Ea.
Qed.

(** ** Properties *)

(** The command line. The first [--topology] takes the next argument as
    its path, whatever it is, and the message is the first of the remaining
    arguments; as the last argument it is refused with a panic. Without it the
    message is the first argument and the hop count the second, with the
    documented defaults when absent or not an unsigned integer. *)
Theorem parse_args_spec (a b : list bytes) (p : bytes) (args : list bytes) :
  TOPOLOGY_FLAG ∉ a ->
  parse_args (a ++ TOPOLOGY_FLAG :: p :: b) =
    Done (External p (default DEFAULT_MESSAGE (head (a ++ b)))) /\
  parse_args (a ++ [TOPOLOGY_FLAG]) = Panic /\
  parse_args a = Done (SelfHosted (default DEFAULT_MESSAGE (head a))
                         (default 3 (s ← a !! 1%nat; parse_uint usize_MAX s))) /\
  (parse_args args = Panic <-> exists c, args = c ++ [TOPOLOGY_FLAG] /\ TOPOLOGY_FLAG ∉ c).
Proof.
  assert (forall a : list bytes, TOPOLOGY_FLAG ∉ a -> parse_args (a ++ [TOPOLOGY_FLAG]) = Panic) as Hlast.
  { intros l Hl. unfold parse_args. rewrite position_app by done.
    by rewrite lookup_ge_None_2 by (rewrite length_app; cbn; lia). }
  assert (forall (a : list bytes) p b, TOPOLOGY_FLAG ∉ a -> parse_args (a ++ TOPOLOGY_FLAG :: p :: b) =
    Done (External p (default DEFAULT_MESSAGE (head (a ++ b))))) as Hflag.
  { intros l q r Hl. unfold parse_args. rewrite position_app, other_args_app by done.
    rewrite lookup_app_r by lia. by replace (length l + 1 - length l)%nat with 1%nat by lia. }
  intros Ha. split_and!; [by apply Hflag|by apply Hlast|by unfold parse_args; rewrite position_None|].
  split; [|intros (c & -> & Hc); by apply Hlast].
  intros E. destruct (decide (TOPOLOGY_FLAG ∈ args)) as [Hin|Hin].
  - apply position_Some in Hin as (c & [|q d] & -> & Hc); [by exists c|].
    by rewrite Hflag in E.
  - unfold parse_args in E. by rewrite position_None in E.
Qed.

(** Relay and command line agree on the mailbox address. For every
    socket address, applying [mailbox_address_from] to its text gives the text
    of the address where the relay's mailbox listens, including the panic or
    the wrap-around when the port overflows. Any address whose last
    colon-separated part is not a port panics. *)
Theorem mailbox_address_agrees oc a (addr : bytes) :
  wf_sockaddr a ->
  mailbox_address_from oc (SocketAddr_to_string a) =
    match mailbox_addr oc a with
    | Done m => Done (SocketAddr_to_string m)
    | Panic => Panic
    end /\
  (x3a ∉ addr \/ (exists host port : bytes, addr = host ++ [x3a] ++ port /\ (x3a ∉ port) /\
      parse_uint u16_MAX port = None) -> mailbox_address_from oc addr = Panic).
Proof.
  unfold wf_sockaddr. intros Ha. split.
  - unfold u16_MAX in Ha. unfold mailbox_address_from, SocketAddr_to_string, mailbox_addr.
    rewrite rsplit_once_app by (apply show_uint_no_colon; lia).
    rewrite parse_show_uint by (unfold u16_MAX; lia).
    by destruct (add_u16 oc (sa_port a) MAILBOX_PORT_OFFSET).
  - unfold mailbox_address_from. intros [Hn|(h & p & -> & Hp & Hn)].
    + by rewrite (proj2 (rsplit_once_None _ _) Hn).
    + rewrite rsplit_once_app by done. by rewrite Hn.
Qed.

(** ** The self-hosted fabric *)

(** The number of local relays for which there are ports. *)
Definition local_limit (overflow_checks : bool) : Z := if overflow_checks then 44536 else 45536.

Section hosts.
Context {Conn Ch Sem : Type} `{Crypto} `{Channel Ch} `{Semaphore Sem}.
Abbreviation host := (SocketAddr * SocketAddr * Process Conn Ch Sem)%type.

(** The process that was spawned is the relay that the entry describes: it
    listens at the address of the entry, holds the key pair of its public key and
    describes itself with its identity; its mailbox is where the command line
    looks for it, and it has just been started, with room for 16 connections. *)
Definition serves (overflow_checks : bool) (h : host) (r : RelayInfo) : Prop :=
  SocketAddr_to_string h.1.1 = info_address r /\
  mailbox_address_from overflow_checks (info_address r) = Done (SocketAddr_to_string h.1.2) /\
  exists kp, owns kp r /\
    h.2 = process_new
            (fresh_node {| listen_addr := h.1.1; relay_id := info_id r; static_secret_hex := None;
                           max_connections := 16 |} kp)
            {| ri_id := info_id r; ri_public_key := info_public_key r; ri_main_addr := info_address r |} true.

(** The key pair of the process that was spawned at an address. *)
Definition hosting (hs : list host) (addr : bytes) : option KeyPair :=
  (fun h => keypair (pr_node h.2)) <$> head (filter (fun h => SocketAddr_to_string h.1.1 = addr) hs).

Definition mailboxes (hs : list host) : list bytes := map (fun h => SocketAddr_to_string h.1.2) hs.

Lemma hosting_serves oc hs rs r :
  Forall2 (serves oc) hs rs -> NoDup (info_address <$> rs) -> r ∈ rs ->
  exists kp, hosting hs (info_address r) = Some kp /\ owns kp r.
Proof.
  unfold hosting. induction 1 as [|h r' hs rs (Ha & _ & kp & Ho & Hp) _ IH]; intros Hnd Hin; [by apply elem_of_nil in Hin|].
  cbn in Hnd. apply NoDup_cons in Hnd as [Hni Hnd]. apply elem_of_cons in Hin as [->|Hin].
  - rewrite filter_cons_True by done. cbn. rewrite Hp. by exists kp.
  - rewrite filter_cons_False; [by apply IH|]. rewrite Ha. intros E. apply Hni. rewrite E.
    apply list_elem_of_fmap. by exists r.
Qed.
End hosts.

Section self_hosted_lemmas.
Context {R W Conn Ch Sem : Type} `{RngLaws R} `{CryptoLaws} `{Channel Ch} `{Semaphore Sem}
  `{SpawnLaws W (Process Conn Ch Sem)}.

Definition local_id (i : Z) : bytes := String.list_byte_of_string "relay-" ++ show_uint i.
Definition local_address (i : Z) : bytes :=
  String.list_byte_of_string "127.0.0.1" ++ [x3a] ++ show_uint (20000 + i).

(** The relays started from number [i] on. *)
Definition numbered (i : Z) (rs : list RelayInfo) : Prop :=
  forall j r, rs !! j = Some r ->
    info_id r = local_id (i + Z.of_nat j) /\ info_address r = local_address (i + Z.of_nat j).

Lemma start_relays_ok oc count i t mbs (rng : R) (w : W) :
  0 <= i -> i + Z.of_nat count <= local_limit oc ->
  exists rs hs rng' w',
    start_relays (Conn:=Conn) (Ch:=Ch) (Sem:=Sem) oc count i t mbs rng w =
      Done (add_relays t rs, mbs ++ mailboxes hs, rng', w') /\
    spawned w' = spawned w ++ hs /\ length rs = count /\ numbered i rs /\ Forall2 (serves oc) hs rs.
Proof.
  intros Hi. revert i t mbs rng w Hi. induction count as [|count IH]; intros i t mbs rng w Hi Hc.
  - exists [], [], rng, w. cbn [mailboxes map]. rewrite !app_nil_r. split_and!; [done|done|done| |constructor].
    intros j r. by rewrite lookup_nil.
  - assert (i < 45536) as Hlim by (unfold local_limit in Hc; destruct oc; lia).
    cbn [start_relays]. unfold local_addr. rewrite decide_True by (unfold u16_MAX; lia).
    pose proof (generate_wf rng) as Hw. destruct (generate rng) as [kp rng1]. cbn [fst] in Hw.
    rewrite RelayNode_new_eq, decide_True by by vm_compute.
    set (addr := mkSocketAddr _ _). assert (wf_sockaddr addr) as Ha by (unfold wf_sockaddr, u16_MAX; cbn; lia).
    destruct (mailbox_address_agrees oc addr [] Ha) as [Hm _].
    rewrite (mailbox_addr_eq oc addr Ha) in Hm |- *.
    rewrite decide_False in Hm |- * by (cbn; unfold local_limit in Hc; intros [? ->]; lia).
    match goal with |- context[mkSocketAddr ?h (if ?d then ?a else ?b)] => set (m := mkSocketAddr h (if d then a else b)) in * end.
    cbv zeta. set (r := mkRelayInfo _ _ _). set (p := process_new _ _ _).
    destruct (IH (i + 1) (add_relay t r) (mbs ++ [SocketAddr_to_string m]) rng1 (spawn addr m p w))
      as (rs & hs & rng' & w' & -> & Hs & Hl & Hn & Hall); [lia|lia|].
    exists (r :: rs), ((addr, m, p) :: hs), rng', w'. cbn [mailboxes map fst snd]. rewrite <- !app_assoc.
    split_and!; [done|by rewrite Hs, spawned_spawn, <- app_assoc|by cbn; rewrite Hl| |constructor; [|done]].
    + intros [|j] r' Hr'; [injection Hr' as <-; by rewrite Z.add_0_r|].
      destruct (Hn j r' Hr') as [-> ->]. split; f_equal; lia.
    + split; [done|]. split; [exact Hm|]. exists kp. by split.
Qed.

Lemma local_id_inj i j : 0 <= i < 10 ^ 20 -> 0 <= j < 10 ^ 20 -> local_id i = local_id j -> i = j.
Proof. intros Hi Hj E%app_inv_head. by apply show_uint_inj. Qed.

Lemma local_address_inj i j :
  0 <= i < 10 ^ 19 -> 0 <= j < 10 ^ 19 -> local_address i = local_address j -> i = j.
Proof.
  intros Hi Hj E%app_inv_head. apply app_inv_head in E.
  enough (20000 + i = 20000 + j) by lia. apply show_uint_inj; [lia|lia|done].
Qed.

Lemma local_routable i r : 0 <= i < 10 ^ 19 -> info_address r = local_address i -> routable r.
Proof.
  intros Hi E. unfold routable. rewrite E. unfold local_address. split.
  - apply utf8_valid_ascii. rewrite app_assoc. apply Forall_app_2; [by vm_compute; repeat constructor|].
    apply show_uint_ascii. lia.
  - rewrite !len_app. unfold len at 3. pose proof (length_show_uint (20000 + i)).
    change (len (String.list_byte_of_string "127.0.0.1")) with 9. change (len [x3a]) with 1.
    unfold u16_MAX. lia.
Qed.

Lemma numbered_NoDup (name : RelayInfo -> bytes) i rs :
  (forall j r j' r', rs !! j = Some r -> rs !! j' = Some r' -> name r = name r' -> j = j') ->
  numbered i rs -> NoDup (name <$> rs).
Proof.
  intros Hinj _. apply NoDup_alt. intros j j' x Hj Hj'.
  rewrite list_lookup_fmap in Hj, Hj'.
  destruct (rs !! j) as [r|] eqn:Er; [|done]. destruct (rs !! j') as [r'|] eqn:Er'; [|done].
  cbn in *. eapply Hinj; [done|done|congruence].
Qed.
End self_hosted_lemmas.

Section self_hosted_properties.
Context {R W Conn Ch Sem : Type} `{RngLaws R} `{CryptoLaws} `{HashOrderLaws} `{Channel Ch}
  `{Semaphore Sem} `{SpawnLaws W (Process Conn Ch Sem)}.

(** The key of a relay of the topology is that of the process at its address. *)
Definition hosted_key (hs : list (SocketAddr * SocketAddr * Process Conn Ch Sem)) (r : RelayInfo) : KeyPair :=
  default (mkKeyPair [] []) (hosting hs (info_address r)).

Lemma numbered_distinct i rs :
  0 <= i -> i + len rs < 10 ^ 19 -> numbered i rs ->
  NoDup (info_id <$> rs) /\ NoDup (info_address <$> rs) /\ Forall routable rs.
Proof.
  intros Hi Hl Hn.
  assert (Hbound : forall j r, rs !! j = Some r -> 0 <= i + Z.of_nat j < 10 ^ 19)
    by (intros j r Hj%lookup_lt_Some; unfold len in Hl; lia).
  split_and!.
  - apply (numbered_NoDup _ i); [|done]. intros j r j' r' Hj Hj' En.
    destruct (Hn j r Hj) as [Ej _], (Hn j' r' Hj') as [Ej' _]. rewrite Ej, Ej' in En.
    apply local_id_inj in En; [lia| |]; [pose proof (Hbound j r Hj)|pose proof (Hbound j' r' Hj')]; lia.
  - apply (numbered_NoDup _ i); [|done]. intros j r j' r' Hj Hj' En.
    destruct (Hn j r Hj) as [_ Ej], (Hn j' r' Hj') as [_ Ej']. rewrite Ej, Ej' in En.
    apply local_address_inj in En; [lia| |]; [pose proof (Hbound j r Hj)|pose proof (Hbound j' r' Hj')]; lia.
  - apply Forall_forall. intros r [j Hj]%list_elem_of_lookup.
    eapply local_routable; [|by apply (Hn j r Hj)]. by eapply Hbound.
Qed.

(** The self-hosted fabric is usable. Starting relays for which there are ports
    never panics and spawns one process for each; the topology has exactly the
    relays that these processes are, with distinct addresses, and a client for it
    meets the conditions under which the processes deliver messages. *)
Theorem self_hosted_usable oc count (rng : R) (w : W) :
  (1 <= count)%nat -> Z.of_nat count <= local_limit oc ->
  exists t rs hs rng' w',
    start_relays (Conn:=Conn) (Ch:=Ch) (Sem:=Sem) oc count 0 topology_new [] rng w =
      Done (t, mailboxes hs, rng', w') /\
    wf_topology t /\ spawned w' = spawned w ++ hs /\ length hs = count /\
    all t ≡ₚ rs /\ Forall2 (serves oc) hs rs /\
    usable (hosted_key hs) {| topology := t; hop_count := count |} /\
    deployed (hosted_key hs) (hosting hs) {| topology := t; hop_count := count |}.
Proof.
  intros Hc1 Hc2. assert (Z.of_nat count <= 45536) as Hc by (unfold local_limit in Hc2; destruct oc; lia).
  destruct (start_relays_ok oc count 0 topology_new [] rng w)
    as (rs & hs & rng' & w' & E & Hs & Hl & Hn & Hall); [lia|lia|].
  destruct (numbered_distinct 0 rs) as (Hids & Haddrs & Hrout); [lia|unfold len; lia|done|].
  pose proof (all_add_relays rs Hids) as Hperm. set (t := add_relays topology_new rs) in *.
  assert (wf_topology t) as Hwf by (subst t; auto with veil).
  assert (Hget : forall r, get t (info_id r) = Some r ->
            r ∈ rs /\ exists kp, hosting hs (info_address r) = Some kp /\ owns kp r).
  { intros r Hr. assert (r ∈ rs) as Hin by (rewrite <- Hperm; apply elem_of_all; by exists (info_id r)).
    split; [done|]. by eapply hosting_serves. }
  assert (topology_len t = Z.of_nat count) as Hlen.
  { rewrite <- length_all. unfold len. by rewrite Hperm, Hl. }
  exists t, rs, hs, rng', w'. split_and!; try done; [by rewrite (Forall2_length _ _ _ Hall)| |].
  - constructor; cbn [topology hop_count]; [done| |lia|lia].
    intros r Hr. destruct (Hget r Hr) as (Hin & kp & Hk & Hown).
    split; [by apply (proj1 (Forall_forall _ _) Hrout)|]. unfold hosted_key. by rewrite Hk.
  - intros r Hr. destruct (Hget r Hr) as (_ & kp & Hk & _). unfold hosted_key. by rewrite Hk.
Qed.
End self_hosted_properties.
