(* ===== verification/RelayTests.v ===== *)
(** * The unit tests of [veil-relay] and [veil-sdk]

    The [#[cfg(test)]] modules of forwarding.rs, mailbox.rs, node.rs,
    dummy_traffic.rs (of [veil-routing]), session.rs, envelope.rs and of the
    command line's main.rs, as in [CoreTests]; the tests that need a running
    listener or a pipe are in [SocketTests]. *)
From S2P Require Import Prelude.
From S2P Require Import RustStd.
From S2P Require Import Interfaces.
From S2P Require Import Cell.
From S2P Require Import Encryption.
From S2P Require Import Keys.
From S2P Require Import CoreTests.
From S2P Require Import Forwarding.
From S2P Require Import Mailbox.
From S2P Require Import Node.
From S2P Require Import DummyTraffic.
From S2P Require Import Envelope.
From S2P Require Import Session.
From S2P Require Import CoverTraffic.
From S2P Require Import Cli.

Open Scope Z_scope.

(** ** [forwarding.rs] *)

Section forwarding_tests.
Context {R : Type} `{Rng R} `{Crypto}.

Definition forward_layer_roundtrip (rng : R) : outcome unit :=
  let '(relay, rng) := generate rng in
  let payload := Forward (b_ "127.0.0.1:9002") (b_ "opaque inner frame") in
  let '(frame, rng) := build_onion_layer (public_key relay) payload rng in
  let! frame := unwrap_ok frame in
  let! peeled := unwrap_ok (peel_onion_layer relay frame) in
  match peeled with
  | Forward next_hop body =>
      let! _ := assert_eq next_hop (b_ "127.0.0.1:9002") in
      assert_eq body (b_ "opaque inner frame")
  | _ => Panic
  end.

Definition deliver_layer_roundtrip (rng : R) : outcome unit :=
  let '(relay, rng) := generate rng in
  let payload := Deliver (b_ "final cell bytes") in
  let '(frame, rng) := build_onion_layer (public_key relay) payload rng in
  let! frame := unwrap_ok frame in
  let! peeled := unwrap_ok (peel_onion_layer relay frame) in
  match peeled with
  | Deliver body => assert_eq body (b_ "final cell bytes")
  | _ => Panic
  end.

Definition forwarding_tests (rng : R) : list (outcome unit) :=
  [forward_layer_roundtrip rng; deliver_layer_roundtrip rng].
End forwarding_tests.

Lemma forwarding_tests_pass {R} `{RngLaws R} `{CryptoLaws} (rng : R) : Forall passes (forwarding_tests rng).
Proof.
  destruct (generated rng) as (kp & rng1 & E & Hkp).
  repeat apply Forall_cons_2; [| |constructor]; unfold passes.
  - unfold forward_layer_roundtrip. rewrite E.
    destruct (peel_build kp (Forward (b_ "127.0.0.1:9002") (b_ "opaque inner frame")) rng1 Hkp)
      as (frame & Eb & Ep & _); [by vm_compute|by vm_compute|].
    rewrite Eb. cbn [unwrap_ok]. rewrite Ep. by vm_compute.
  - unfold deliver_layer_roundtrip. rewrite E.
    destruct (peel_build kp (Deliver (b_ "final cell bytes")) rng1 Hkp)
      as (frame & Eb & Ep & _); [done|by vm_compute|].
    rewrite Eb. cbn [unwrap_ok]. rewrite Ep. by vm_compute.
Qed.

(** ** [mailbox.rs]

    A clone of a mailbox is the same mailbox, so that there is one state. *)

Definition push_then_drain_returns_everything_in_order : outcome unit :=
  let mailbox := mailbox_new in
  let mailbox := push mailbox (b_ "one") in
  let mailbox := push mailbox (b_ "two") in
  let '(drained, mailbox) := drain mailbox in
  assert_eq drained [b_ "one"; b_ "two"].

Definition drain_empties_the_queue : outcome unit :=
  let mailbox := mailbox_new in
  let mailbox := push mailbox (b_ "x") in
  let '(_, mailbox) := drain mailbox in
  assert_eq (mailbox_len mailbox) 0.

Definition drain_on_empty_mailbox_returns_empty_vec : outcome unit :=
  let mailbox := mailbox_new in
  let '(drained, mailbox) := drain mailbox in
  assert_eq (length drained) 0%nat.

Definition shared_clones_see_the_same_queue : outcome unit :=
  let mailbox := mailbox_new in
  let mailbox := push mailbox (b_ "shared") in
  assert_eq (mailbox_len mailbox) 1.

Definition mailbox_tests : list (outcome unit) :=
  [push_then_drain_returns_everything_in_order; drain_empties_the_queue;
   drain_on_empty_mailbox_returns_empty_vec; shared_clones_see_the_same_queue].

Lemma mailbox_tests_pass : Forall passes mailbox_tests.
Proof. repeat apply Forall_cons_2; by vm_compute. Qed.

(** ** [node.rs]

    The connections arrive one after the other and nothing is sent on them; a
    connection that the node does not serve has been dropped, and its peer
    reads the end of the stream. *)

Section node_tests.
Context {R W Conn Ch Sem : Type} `{EqDecision Conn} `{Rng R} `{Net W Conn} `{Crypto} `{Channel Ch} `{Semaphore Sem}.

Fixpoint accept_all (conns : list Conn) (node : RelayNode Conn Ch Sem) (active : list Conn) :
    RelayNode Conn Ch Sem * list Conn :=
  match conns with
  | [] => (node, active)
  | conn :: conns' =>
      let '(node, active) := accept_connection conn node active in accept_all conns' node active
  end.

Definition stays_open (active : list Conn) (conn : Conn) : bool := bool_decide (conn ∈ active).

Definition exceeding_max_connections_rejects_new_connections (conn1 conn2 : Conn) (rng : R) : outcome unit :=
  let addr := mkSocketAddr (b_ "127.0.0.1") 28100 in
  let '(keypair, rng) := generate rng in
  let config := {| listen_addr := addr; relay_id := b_ "rate-limited-relay";
                   static_secret_hex := None; max_connections := 1 |} in
  let! node := (RelayNode_new config keypair : outcome (RelayNode Conn Ch Sem)) in
  let '(node, active) := accept_connection conn1 node [] in
  let '(node, active) := accept_connection conn2 node active in
  assert (negb (stays_open active conn2)).

Definition connections_within_the_limit_are_accepted (conns : list Conn) (rng : R) : outcome unit :=
  let addr := mkSocketAddr (b_ "127.0.0.1") 28101 in
  let '(keypair, rng) := generate rng in
  let config := {| listen_addr := addr; relay_id := b_ "roomy-relay";
                   static_secret_hex := None; max_connections := 4 |} in
  let! node := (RelayNode_new config keypair : outcome (RelayNode Conn Ch Sem)) in
  let '(node, active) := accept_all conns node [] in
  assert (forallb (stays_open active) conns).
End node_tests.

Section node_pass.
Context {R W Conn Ch Sem : Type} `{EqDecision Conn} `{Rng R} `{Net W Conn} `{Crypto} `{Channel Ch} `{SemaphoreLaws Sem}.
Implicit Types (n : RelayNode Conn Ch Sem) (c : Conn).

(** While permits are left a connection is served, then it is dropped. *)
Lemma accept_within c n active k :
  available_permits (connection_limiter n) = S k ->
  exists n', accept_connection c n active = (n', active ++ [c]) /\
    available_permits (connection_limiter n') = k.
Proof.
  intros Hk. unfold accept_connection.
  destruct (try_acquire (connection_limiter n)) as [s|] eqn:E.
  - apply available_acquire in E. eexists. split; [done|]. cbn. lia.
  - apply available_exhausted in E. lia.
Qed.

Lemma accept_beyond c n active :
  available_permits (connection_limiter n) = 0%nat -> (accept_connection c n active).2 = active.
Proof. intros Hk%available_exhausted. unfold accept_connection. by rewrite Hk. Qed.

Lemma accept_all_within conns : forall n active,
  (length conns <= available_permits (connection_limiter n))%nat ->
  (accept_all conns n active).2 = active ++ conns.
Proof.
  induction conns as [|c conns IH]; intros n active Hl; cbn in *; [by rewrite app_nil_r|].
  destruct (available_permits (connection_limiter n)) as [|k] eqn:Hk; [lia|].
  destruct (accept_within c n active k Hk) as (n' & -> & Hk'). rewrite IH by lia. by rewrite <- app_assoc.
Qed.

Lemma exceeding_passes conn1 conn2 (rng : R) :
  conn1 <> conn2 ->
  passes (exceeding_max_connections_rejects_new_connections (Conn:=Conn) (Ch:=Ch) (Sem:=Sem) conn1 conn2 rng).
Proof.
  intros Hne. unfold passes, exceeding_max_connections_rejects_new_connections.
  destruct (generate rng) as [kp rng1]. cbv zeta.
  rewrite RelayNode_new_eq, decide_True by by vm_compute.
  match goal with |- context[fresh_node ?cfg kp] => set (n := fresh_node cfg kp) end.
  destruct (accept_within conn1 n [] 0) as (n1 & -> & Hk); [by cbn; rewrite available_new|].
  pose proof (accept_beyond conn2 n1 ([] ++ [conn1]) Hk) as Ha.
  destruct (accept_connection conn2 n1 _) as [n2 active]. cbn in Ha. subst active.
  unfold stays_open. rewrite bool_decide_false; [done|]. by intros ->%list_elem_of_singleton.
Qed.

Lemma within_passes conns (rng : R) :
  length conns = 4%nat ->
  passes (connections_within_the_limit_are_accepted (Conn:=Conn) (Ch:=Ch) (Sem:=Sem) conns rng).
Proof.
  intros Hl. unfold passes, connections_within_the_limit_are_accepted.
  destruct (generate rng) as [kp rng1]. cbv zeta.
  rewrite RelayNode_new_eq, decide_True by by vm_compute.
  match goal with |- context[fresh_node ?cfg kp] => set (n := fresh_node cfg kp) end.
  pose proof (accept_all_within conns n []) as Ha.
  destruct (accept_all conns n []) as [n' active]. cbn in Ha. rewrite available_new in Ha.
  rewrite Ha by lia. unfold assert. rewrite (proj2 (forallb_forall _ _)); [done|].
  intros c Hc. by apply bool_decide_eq_true, list_elem_of_In.
Qed.
End node_pass.

(** ** [dummy_traffic.rs], [session.rs], [envelope.rs] *)

Section client_tests.
Context {R : Type} `{Rng R} `{Crypto}.

(** The elapsed time is the time the generator slept. *)
Definition emits_a_dummy_cell_within_bounds (rng : R) : outcome unit :=
  let generator := DummyTrafficGenerator_new (from_millis 1) (from_millis 5) in
  let! (elapsed, cell, rng) := next_dummy generator rng in
  let! _ := assert_eq (cell_type cell) Dummy in
  assert (from_millis 1 <=? elapsed).

Definition sender_and_recipient_derive_the_same_key (rng : R) : outcome unit :=
  let '(recipient, rng) := generate rng in
  let '(session, rng) := establish (public_key recipient) rng in
  let! session := unwrap_ok session in
  let recipient_shared := diffie_hellman recipient (session_public_key session) in
  let! recipient_key := unwrap_ok (derive_key recipient_shared (b_ "veil-sdk-session-v1")) in
  assert_eq (cell_key session) recipient_key.

Definition wrap_then_unwrap_roundtrips (rng : R) : outcome unit :=
  let '(sender, rng) := generate rng in
  let fake_encrypted := replicate ENCRYPTED_CELL_SIZE x07 in
  let envelope := wrap (public_key sender) fake_encrypted in
  let! (recovered_public, recovered_cell) := unwrap_ok (unwrap envelope) in
  let! _ := assert_eq recovered_public (public_key sender) in
  assert_eq recovered_cell fake_encrypted.

Definition wrong_length_is_rejected : outcome unit := assert (is_err (unwrap (replicate 10 x00))).

Definition envelope_is_exactly_the_advertised_size (rng : R) : outcome unit :=
  let '(sender, rng) := generate rng in
  let envelope := wrap (public_key sender) (replicate ENCRYPTED_CELL_SIZE x00) in
  assert_eq (length envelope) ENVELOPE_SIZE.

Definition client_tests (rng : R) : list (outcome unit) :=
  [emits_a_dummy_cell_within_bounds rng; sender_and_recipient_derive_the_same_key rng;
   wrap_then_unwrap_roundtrips rng; wrong_length_is_rejected; envelope_is_exactly_the_advertised_size rng].
End client_tests.

Lemma client_tests_pass {R} `{RngLaws R} `{CryptoLaws} (rng : R) : Forall passes (client_tests rng).
Proof.
  destruct (generated rng) as (kp & rng1 & E & Hkp). pose proof (wf_public_length kp Hkp) as Hl.
  repeat apply Forall_cons_2; [| | | | |constructor]; unfold passes.
  - unfold emits_a_dummy_cell_within_bounds.
    destruct (next_dummy_ok (DummyTrafficGenerator_new (from_millis 1) (from_millis 5)) rng)
      as (delay & c & rng2 & -> & Hlo & _ & _ & _ & Ht); [split; by vm_compute|split; by vm_compute|by vm_compute|].
    apply Z.leb_le in Hlo. rewrite Ht, assert_eq_refl. unfold assert.
    by rewrite (Hlo : (from_millis 1 <=? delay) = true).
  - unfold sender_and_recipient_derive_the_same_key. rewrite E.
    destruct (establish_ok kp rng1 Hkp) as (s & Es & _ & _ & Hk).
    destruct (establish (public_key kp) rng1) as [r rng2]. cbn [fst] in Es. subst r. cbn [unwrap_ok].
    unfold recipient_key, SESSION_CONTEXT in Hk. unfold b_. rewrite Hk. apply assert_eq_refl.
  - unfold wrap_then_unwrap_roundtrips. rewrite E. cbv zeta.
    rewrite unwrap_wrap by (done || by rewrite length_replicate). cbn [unwrap_ok].
    by rewrite !assert_eq_refl.
  - by vm_compute.
  - unfold envelope_is_exactly_the_advertised_size. rewrite E. cbv zeta. apply assert_eq_eq.
    apply length_wrap; [done|by rewrite length_replicate].
Qed.

(** ** The command line's [main.rs], built with and without overflow checks *)

Definition works_with_a_literal_ip_address (oc : bool) : outcome unit :=
  let! addr := mailbox_address_from oc (b_ "127.0.0.1:9001") in
  assert_eq addr (b_ "127.0.0.1:10001").

Definition works_with_a_dns_hostname_like_a_docker_service_name (oc : bool) : outcome unit :=
  let! addr := mailbox_address_from oc (b_ "relay2:9001") in
  assert_eq addr (b_ "relay2:10001").

(** [should_panic]. *)
Definition panics_on_missing_port (oc : bool) : outcome unit :=
  match mailbox_address_from oc (b_ "relay2") with Panic => Done tt | Done _ => Panic end.

Definition cli_tests (oc : bool) : list (outcome unit) :=
  [works_with_a_literal_ip_address oc; works_with_a_dns_hostname_like_a_docker_service_name oc;
   panics_on_missing_port oc].

Lemma cli_tests_pass oc : Forall passes (cli_tests oc).
Proof. destruct oc; repeat apply Forall_cons_2; by vm_compute. Qed.

(** ** All of them *)

(** The unit tests of [veil-relay], [veil-sdk] and the command line pass in
    the model, whatever the random generator does, for every implementation of
    the ciphers and semaphores that meets its laws, and for any connections. *)
Lemma relay_tests_pass {R W Conn Ch Sem : Type} `{EqDecision Conn} `{RngLaws R} `{Net W Conn} `{CryptoLaws}
    `{Channel Ch} `{SemaphoreLaws Sem} (rng : R) (conn1 conn2 : Conn) (conns : list Conn) oc :
  conn1 <> conn2 -> length conns = 4%nat ->
  Forall passes (forwarding_tests rng) /\ Forall passes mailbox_tests /\
  passes (exceeding_max_connections_rejects_new_connections (Ch:=Ch) (Sem:=Sem) conn1 conn2 rng) /\
  passes (connections_within_the_limit_are_accepted (Ch:=Ch) (Sem:=Sem) conns rng) /\
  Forall passes (client_tests rng) /\ Forall passes (cli_tests oc).
Proof.
  intros Hne Hl. split_and!; [apply forwarding_tests_pass|apply mailbox_tests_pass|by apply exceeding_passes
    |by apply within_passes|apply client_tests_pass|apply cli_tests_pass].
Qed.
