(* ===== verification/SocketTests.v ===== *)
(** * The unit tests that use sockets

    The [#[cfg(test)]] modules of pull_listener.rs, discovery.rs and
    cover_traffic.rs, and the pipe of forwarding.rs, on the network of
    [Instances]: a listener that a test spawns is its request handler run on the
    stream of each request, and the client's stream carries what it wrote. The
    sleeps that let the listeners start have no counterpart. *)
From S2P Require Import Prelude.
From S2P Require Import RustStd.
From S2P Require Import Interfaces.
From S2P Require Import Instances.
From S2P Require Import Cell.
From S2P Require Import Keys.
From S2P Require Import CoreTests.
From S2P Require Import Forwarding.
From S2P Require Import Mailbox.
From S2P Require Import PullListener.
From S2P Require Import Node.
From S2P Require Import Topology.
From S2P Require Import Circuit.
From S2P Require Import Discovery.
From S2P Require Import DummyTraffic.
From S2P Require Import Envelope.
From S2P Require Import Client.
From S2P Require Import CoverTraffic.

Open Scope Z_scope.

(** ** Listeners and clients *)

(** A stream that has just been accepted, with what its client sent. *)
Definition accepted (sent : bytes) : sim_conn * sim :=
  let stream := (0%nat, []) in (stream, mkSim 1 {[stream := sent]} {[stream := []]} ∅ []).

(** What a listener's task writes in answer to a request, and the mailbox then. *)
Definition answer_request (request : byte) (mailbox : Mailbox) (identity : RelayIdentity) : bytes * Mailbox :=
  let '(stream, w) := accepted [request] in
  let '(_, w, mailbox) := handle_request stream mailbox identity w in
  (outbox w stream, mailbox).

(** The client's network: the addresses that answer, and what they will send. *)
Definition answering (answers : list (bytes * bytes)) : sim := mkSim 0 ∅ ∅ (list_to_map answers) [].

(** [pull(addr).await] and [describe(addr).await] against a listener at [addr]. *)
Definition pull_at (addr : bytes) (mailbox : Mailbox) (identity : RelayIdentity) : io_result (list bytes) * Mailbox :=
  let '(response, mailbox) := answer_request PULL_REQUEST_BYTE mailbox identity in
  ((pull addr (answering [(addr, response)])).1, mailbox).

Definition describe_at (addr : bytes) (mailbox : Mailbox) (identity : RelayIdentity) : io_result RelayIdentity * Mailbox :=
  let '(response, mailbox) := answer_request DESCRIBE_REQUEST_BYTE mailbox identity in
  ((describe addr (answering [(addr, response)])).1, mailbox).

(** ** [pull_listener.rs] *)

Section pull_tests.
Context {R : Type} `{Rng R} `{Crypto}.

Definition test_identity (id main_addr : bytes) (rng : R) : RelayIdentity * R :=
  let '(kp, rng) := generate rng in
  ({| ri_id := id; ri_public_key := public_key kp; ri_main_addr := main_addr |}, rng).

Definition pull_returns_queued_cells_and_empties_the_mailbox (rng : R) : outcome unit :=
  let mailbox := mailbox_new in
  let mailbox := push mailbox (b_ "first") in
  let mailbox := push mailbox (b_ "second") in
  let '(identity, rng) := test_identity (b_ "r") (b_ "127.0.0.1:9000") rng in
  let '(received, mailbox) := pull_at (b_ "127.0.0.1:29500") mailbox identity in
  let! received := unwrap_ok received in
  let! _ := assert_eq received [b_ "first"; b_ "second"] in
  assert_eq (mailbox_len mailbox) 0.

Definition pull_on_empty_mailbox_returns_empty (rng : R) : outcome unit :=
  let mailbox := mailbox_new in
  let '(identity, rng) := test_identity (b_ "r") (b_ "127.0.0.1:9000") rng in
  let '(received, mailbox) := pull_at (b_ "127.0.0.1:29501") mailbox identity in
  let! received := unwrap_ok received in
  assert_eq (length received) 0%nat.

Definition second_pull_after_new_pushes_only_returns_the_new_ones (rng : R) : outcome unit :=
  let mailbox := mailbox_new in
  let mailbox := push mailbox (b_ "batch-one") in
  let '(identity, rng) := test_identity (b_ "r") (b_ "127.0.0.1:9000") rng in
  let '(first, mailbox) := pull_at (b_ "127.0.0.1:29502") mailbox identity in
  let! first := unwrap_ok first in
  let! _ := assert_eq first [b_ "batch-one"] in
  let mailbox := push mailbox (b_ "batch-two") in
  let '(second, mailbox) := pull_at (b_ "127.0.0.1:29502") mailbox identity in
  let! second := unwrap_ok second in
  assert_eq second [b_ "batch-two"].

Definition describe_returns_the_relays_own_identity (rng : R) : outcome unit :=
  let mailbox := mailbox_new in
  let '(identity, rng) := test_identity (b_ "relay-xyz") (b_ "127.0.0.1:9042") rng in
  let expected_public_key := ri_public_key identity in
  let '(described, mailbox) := describe_at (b_ "127.0.0.1:29503") mailbox identity in
  let! described := unwrap_ok described in
  let! _ := assert_eq (ri_id described) (b_ "relay-xyz") in
  let! _ := assert_eq (ri_main_addr described) (b_ "127.0.0.1:9042") in
  assert_eq (ri_public_key described) expected_public_key.

Definition describe_and_pull_both_work_against_the_same_listener (rng : R) : outcome unit :=
  let mailbox := mailbox_new in
  let mailbox := push mailbox (b_ "a real cell") in
  let '(identity, rng) := test_identity (b_ "both") (b_ "127.0.0.1:9099") rng in
  let '(described, mailbox) := describe_at (b_ "127.0.0.1:29504") mailbox identity in
  let! described := unwrap_ok described in
  let! _ := assert_eq (ri_id described) (b_ "both") in
  let '(pulled, mailbox) := pull_at (b_ "127.0.0.1:29504") mailbox identity in
  let! pulled := unwrap_ok pulled in
  assert_eq pulled [b_ "a real cell"].

Definition pull_tests (rng : R) : list (outcome unit) :=
  [pull_returns_queued_cells_and_empties_the_mailbox rng; pull_on_empty_mailbox_returns_empty rng;
   second_pull_after_new_pushes_only_returns_the_new_ones rng; describe_returns_the_relays_own_identity rng;
   describe_and_pull_both_work_against_the_same_listener rng].
End pull_tests.

(** ** The network of the tests *)

Lemma unbroken_write (c : sim_conn) b (w : sim) :
  sim_broken w = [] -> exists w', write_all c b w = (Ok tt, w') /\ sim_broken w' = [].
Proof.
  intros Hb. cbn. rewrite decide_False; [by eexists|]. rewrite Hb. by intros [_ ?%elem_of_nil].
Qed.

Lemma unbroken_read (c : sim_conn) n (w : sim) r w' :
  sim_broken w = [] -> read_exact c n w = (r, w') -> sim_broken w' = [].
Proof. cbn. intros Hb. by case_decide; intros [= _ <-]. Qed.

Lemma answer_describe mb ident : answer_request DESCRIBE_REQUEST_BYTE mb ident = (describe_response ident, mb).
Proof.
  unfold answer_request, accepted. set (s := (0%nat, [])). set (w := mkSim _ _ _ _ _).
  assert (inbox w s = [DESCRIBE_REQUEST_BYTE]) as Hin by by vm_compute.
  destruct (handle_request s mb ident w) as [[r w'] mb'] eqn:E.
  destruct (handle_other s DESCRIBE_REQUEST_BYTE [] mb ident w r w' mb') as (-> & _ & Hd); [done|done|done|].
  rewrite (Hd eq_refl); [done|]. revert E. unfold handle_request.
  destruct (read_exact_app s w 1 [DESCRIBE_REQUEST_BYTE] [] Hin eq_refl) as (w1 & E1 & _).
  pose proof (unbroken_read s 1 w _ w1 eq_refl E1) as Hb. rewrite E1.
  rewrite decide_False, decide_True by done. unfold write_len_prefixed, io_bind.
  destruct (unbroken_write s (to_be_bytes 2 (as_u16 (len (ri_id ident)))) w1 Hb) as (w2 & -> & Hb2).
  destruct (unbroken_write s (ri_id ident) w2 Hb2) as (w3 & -> & Hb3).
  destruct (unbroken_write s (ri_public_key ident) w3 Hb3) as (w4 & -> & Hb4).
  destruct (unbroken_write s (to_be_bytes 2 (as_u16 (len (ri_main_addr ident)))) w4 Hb4) as (w5 & -> & Hb5).
  destruct (unbroken_write s (ri_main_addr ident) w5 Hb5) as (w6 & -> & Hb6). by intros [= <- _].
Qed.

(** Describing a relay that answers. *)
Lemma describe_answer addr (w : sim) ident :
  sim_script w !! addr = Some (describe_response ident) -> sim_broken w = [] -> wf_identity ident ->
  (describe addr w).1 = Ok ident.
Proof.
  intros Hs Hb Hwf. set (c := (sim_next w, addr)).
  assert (connect addr w = (Ok c, (connect addr w).2)) as Hc by (cbn; unfold sim_connect; by rewrite Hs).
  assert (sim_broken (connect addr w).2 = []) as Hb1 by (cbn; unfold sim_connect; by rewrite Hs).
  destruct (unbroken_write c [DESCRIBE_REQUEST_BYTE] (connect addr w).2 Hb1) as (w2 & Hw & _).
  assert (inbox w2 c = describe_response ident) as Hin.
  { pose proof (write_all_frame _ _ _ _ _ c Hw) as (-> & _). cbn. unfold sim_connect. rewrite Hs. cbn.
    unfold sim_inbox. cbn. by rewrite lookup_insert_eq. }
  by destruct (describe_ok addr w c _ w2 ident Hc Hw Hwf Hin) as (w3 & ->).
Qed.

Lemma describe_at_ok addr mb ident : wf_identity ident -> describe_at addr mb ident = (Ok ident, mb).
Proof.
  intros Hwf. unfold describe_at. rewrite answer_describe. f_equal. apply describe_answer; [|done|done].
  cbn. apply lookup_insert_eq.
Qed.

Section pull_pass.
Context {R : Type} `{RngLaws R} `{CryptoLaws}.

Lemma test_identity_ok id addr (rng : R) :
  utf8_valid id = true -> len id <= u16_MAX -> utf8_valid addr = true -> len addr <= u16_MAX ->
  exists i rng', test_identity id addr rng = (i, rng') /\ wf_identity i /\ ri_id i = id /\ ri_main_addr i = addr.
Proof.
  intros Hu Hl Hu' Hl'. unfold test_identity. destruct (generated rng) as (kp & rng1 & -> & Hkp).
  eexists _, rng1. split_and!; try done. split_and!; try done. by apply wf_public_length.
Qed.

Lemma pull_tests_pass (rng : R) : Forall passes (pull_tests rng).
Proof.
  repeat apply Forall_cons_2; [| | | | |constructor]; unfold passes.
  - unfold pull_returns_queued_cells_and_empties_the_mailbox.
    destruct (test_identity (b_ "r") (b_ "127.0.0.1:9000") rng) as [i rng1]. by vm_compute.
  - unfold pull_on_empty_mailbox_returns_empty.
    destruct (test_identity (b_ "r") (b_ "127.0.0.1:9000") rng) as [i rng1]. by vm_compute.
  - unfold second_pull_after_new_pushes_only_returns_the_new_ones.
    destruct (test_identity (b_ "r") (b_ "127.0.0.1:9000") rng) as [i rng1]. by vm_compute.
  - unfold describe_returns_the_relays_own_identity.
    destruct (test_identity_ok (b_ "relay-xyz") (b_ "127.0.0.1:9042") rng) as (i & rng1 & -> & Hwf & Hid & Ha);
      [by vm_compute..|].
    cbv zeta. rewrite describe_at_ok by done. cbn [unwrap_ok]. by rewrite Hid, Ha, !assert_eq_refl.
  - unfold describe_and_pull_both_work_against_the_same_listener.
    destruct (test_identity_ok (b_ "both") (b_ "127.0.0.1:9099") rng) as (i & rng1 & -> & Hwf & Hid & Ha);
      [by vm_compute..|].
    cbv zeta. rewrite describe_at_ok by done. cbn [unwrap_ok]. rewrite Hid, assert_eq_refl. by vm_compute.
Qed.
End pull_pass.

(** ** [discovery.rs] *)

(** The listeners stay as they are. *)
Definition steady (w w' : sim) : Prop := sim_script w' = sim_script w /\ sim_broken w' = sim_broken w.

Lemma steady_read (c : sim_conn) n (w : sim) r w' : read_exact c n w = (r, w') -> steady w w'.
Proof. cbn. by case_decide; intros [= _ <-]. Qed.

Lemma steady_write (c : sim_conn) b (w : sim) r w' : write_all c b w = (r, w') -> steady w w'.
Proof. cbn. by case_decide; intros [= _ <-]. Qed.

Lemma steady_connect addr (w : sim) r w' : connect addr w = (r, w') -> steady w w'.
Proof. cbn. unfold sim_connect. by case_match; intros [= _ <-]. Qed.

Lemma steady_trans w1 w2 w3 : steady w1 w2 -> steady w2 w3 -> steady w1 w3.
Proof. intros [Ha Hb] [Hc Hd]. split; congruence. Qed.

Lemma steady_string (c : sim_conn) (w : sim) r w' : read_len_prefixed_string c w = (r, w') -> steady w w'.
Proof.
  unfold read_len_prefixed_string, io_bind.
  destruct (read_exact c 2 w) as [[b|e] w1] eqn:E1; apply steady_read in E1; [|by intros [= _ <-]].
  destruct (read_exact c _ w1) as [[b'|e] w2] eqn:E2; apply steady_read in E2; pose proof (steady_trans _ _ _ E1 E2);
    [|by intros [= _ <-]].
  destruct (from_utf8 b'); by intros [= _ <-].
Qed.

Lemma steady_describe addr (w : sim) r w' : describe addr w = (r, w') -> steady w w'.
Proof.
  unfold describe, io_bind. destruct (connect addr w) as [[c|e] w1] eqn:E1; apply steady_connect in E1; [|by intros [= _ <-]].
  destruct (write_all c _ w1) as [[[]|e] w2] eqn:E2; apply steady_write in E2; pose proof (steady_trans _ _ _ E1 E2) as H2;
    [|by intros [= _ <-]].
  destruct (read_len_prefixed_string c w2) as [[id|e] w3] eqn:E3; apply steady_string in E3;
    pose proof (steady_trans _ _ _ H2 E3) as H3; [|by intros [= _ <-]].
  destruct (read_exact c 32 w3) as [[pk|e] w4] eqn:E4; apply steady_read in E4;
    pose proof (steady_trans _ _ _ H3 E4) as H4; [|by intros [= _ <-]].
  destruct (read_len_prefixed_string c w4) as [[ma|e] w5] eqn:E5; apply steady_string in E5;
    pose proof (steady_trans _ _ _ H4 E5) as H5; by intros [= _ <-].
Qed.

(** The answer at an address, further down the list. *)
Lemma answering_here a b l : sim_script (answering ((a, b) :: l)) !! a = Some b.
Proof. apply lookup_insert_eq. Qed.

Lemma answering_next a a' b l r :
  bool_decide (a' = a) = false -> sim_script (answering l) !! a = r -> sim_script (answering ((a', b) :: l)) !! a = r.
Proof. intros Hne%bool_decide_eq_false Hr. by etransitivity; [apply lookup_insert_ne|]. Qed.

(** Asking an address: a relay answers, or nobody listens. *)
Lemma discover_answers addr addresses t u (w : sim) ident :
  sim_script w !! addr = Some (describe_response ident) -> sim_broken w = [] -> wf_identity ident ->
  exists w', steady w w' /\
    discover_loop (addr :: addresses) t u w = discover_loop addresses (add_relay t (identity_relay ident)) u w'.
Proof.
  intros Hs Hb Hwf. pose proof (describe_answer addr w ident Hs Hb Hwf) as E. cbn [discover_loop].
  destruct (describe addr w) as [r w'] eqn:Ed. cbn in E. subst r. exists w'. split; [|done]. by eapply steady_describe.
Qed.

Lemma discover_nobody addr addresses t u (w : sim) :
  sim_script w !! addr = None ->
  discover_loop (addr :: addresses) t u w =
    discover_loop addresses t (u ++ [mkUnreachable addr (ConnectionError 111)]) w.
Proof. intros Hs. cbn [discover_loop]. unfold describe, io_bind. cbn. unfold sim_connect. by rewrite Hs. Qed.

Section discovery_tests.
Context {R : Type} `{Rng R} `{Crypto}.

(** A relay whose mailbox listener answers at the port of the relay plus 1000:
    that address and the answer to DESCRIBE. Nothing connects to the relay's own port. *)
Definition spin_up_discoverable_relay (port : Z) (relay_id : bytes) (rng : R) : bytes * bytes * R :=
  let addr := mkSocketAddr (b_ "127.0.0.1") port in
  let '(keypair, rng) := generate rng in
  let mailbox_addr := set_port addr (sa_port addr + 1000) in
  let identity := {| ri_id := relay_id; ri_public_key := public_key keypair;
                     ri_main_addr := SocketAddr_to_string addr |} in
  (SocketAddr_to_string mailbox_addr, (answer_request DESCRIBE_REQUEST_BYTE mailbox_new identity).1, rng).

Definition is_some {A : Type} (o : option A) : bool := negb (is_none o).

Definition discovers_every_reachable_relay (rng : R) : outcome unit :=
  let '(relay_1, rng) := spin_up_discoverable_relay 25000 (b_ "disco-1") rng in
  let '(relay_2, rng) := spin_up_discoverable_relay 25001 (b_ "disco-2") rng in
  let '(relay_3, rng) := spin_up_discoverable_relay 25002 (b_ "disco-3") rng in
  let addresses := [b_ "127.0.0.1:26000"; b_ "127.0.0.1:26001"; b_ "127.0.0.1:26002"] in
  let '(topology, unreachable, _) := discover_topology addresses (answering [relay_1; relay_2; relay_3]) in
  let! _ := assert_eq (topology_len topology) 3 in
  let! _ := assert_eq (length unreachable) 0%nat in
  let! _ := assert (is_some (get topology (b_ "disco-1"))) in
  let! relay := unwrap_some (get topology (b_ "disco-1")) in
  assert_eq (info_address relay) (b_ "127.0.0.1:25000").

Definition unreachable_relays_are_reported_not_fatal (rng : R) : outcome unit :=
  let '(relay, rng) := spin_up_discoverable_relay 25100 (b_ "reachable") rng in
  let addresses := [b_ "127.0.0.1:26100"; b_ "127.0.0.1:26999"] in
  let '(topology, unreachable, _) := discover_topology addresses (answering [relay]) in
  let! _ := assert_eq (topology_len topology) 1 in
  let! _ := assert_eq (length unreachable) 1%nat in
  let! first := unwrap_some (unreachable !! 0%nat) in
  assert_eq (unreachable_address first) (b_ "127.0.0.1:26999").

Definition discovery_tests (rng : R) : list (outcome unit) :=
  [discovers_every_reachable_relay rng; unreachable_relays_are_reported_not_fatal rng].
End discovery_tests.

Section discovery_pass.
Context {R : Type} `{RngLaws R} `{CryptoLaws}.

Lemma spun_up port id (rng : R) mailbox addr :
  SocketAddr_to_string (mkSocketAddr (b_ "127.0.0.1") (port + 1000)) = mailbox ->
  SocketAddr_to_string (mkSocketAddr (b_ "127.0.0.1") port) = addr ->
  utf8_valid id = true -> len id <= u16_MAX -> utf8_valid addr = true -> len addr <= u16_MAX ->
  exists i rng', spin_up_discoverable_relay port id rng = (mailbox, describe_response i, rng') /\
    wf_identity i /\ ri_id i = id /\ ri_main_addr i = addr.
Proof.
  intros Hm Ha Hu Hl Hu' Hl'. unfold spin_up_discoverable_relay. destruct (generated rng) as (kp & rng1 & -> & Hkp).
  cbv zeta. rewrite answer_describe, Ha. unfold set_port. cbn [sa_host sa_port fst]. rewrite Hm.
  eexists _, rng1. split_and!; try done. split_and!; try done. by apply wf_public_length.
Qed.

Lemma discovers_every_passes (rng : R) : passes (discovers_every_reachable_relay rng).
Proof.
  unfold passes, discovers_every_reachable_relay.
  destruct (spun_up 25000 (b_ "disco-1") rng (b_ "127.0.0.1:26000") (b_ "127.0.0.1:25000"))
    as (i1 & rng1 & -> & Hwf1 & Hi1 & Ha1); [by vm_compute..|].
  destruct (spun_up 25001 (b_ "disco-2") rng1 (b_ "127.0.0.1:26001") (b_ "127.0.0.1:25001"))
    as (i2 & rng2 & -> & Hwf2 & Hi2 & Ha2); [by vm_compute..|].
  destruct (spun_up 25002 (b_ "disco-3") rng2 (b_ "127.0.0.1:26002") (b_ "127.0.0.1:25002"))
    as (i3 & rng3 & -> & Hwf3 & Hi3 & Ha3); [by vm_compute..|].
  cbv zeta. unfold discover_topology. set (w := answering _).
  destruct (discover_answers (b_ "127.0.0.1:26000") [b_ "127.0.0.1:26001"; b_ "127.0.0.1:26002"] topology_new [] w i1)
    as (w1 & [Hs1 Hb1] & ->); [apply answering_here|done|done|].
  destruct (discover_answers (b_ "127.0.0.1:26001") [b_ "127.0.0.1:26002"] (add_relay topology_new (identity_relay i1)) [] w1 i2)
    as (w2 & [Hs2 Hb2] & ->); [rewrite Hs1; apply answering_next; [by vm_compute|apply answering_here]|by rewrite Hb1|done|].
  destruct (discover_answers (b_ "127.0.0.1:26002") []
    (add_relay (add_relay topology_new (identity_relay i1)) (identity_relay i2)) [] w2 i3)
    as (w3 & _ & ->); [|by rewrite Hb2, Hb1|done|].
  { rewrite Hs2, Hs1. do 2 (apply answering_next; [by vm_compute|]). apply answering_here. }
  cbn [discover_loop]. destruct i1, i2, i3. cbn in *. subst. by vm_compute.
Qed.

Lemma unreachable_passes (rng : R) : passes (unreachable_relays_are_reported_not_fatal rng).
Proof.
  unfold passes, unreachable_relays_are_reported_not_fatal.
  destruct (spun_up 25100 (b_ "reachable") rng (b_ "127.0.0.1:26100") (b_ "127.0.0.1:25100"))
    as (i & rng1 & -> & Hwf & Hi & Ha); [by vm_compute..|].
  cbv zeta. unfold discover_topology. set (w := answering _).
  destruct (discover_answers (b_ "127.0.0.1:26100") [b_ "127.0.0.1:26999"] topology_new [] w i)
    as (w1 & [Hs1 Hb1] & ->); [apply answering_here|done|done|].
  rewrite discover_nobody by (rewrite Hs1; by apply answering_next; [vm_compute|]).
  cbn [discover_loop]. destruct i. cbn in *. subst. by vm_compute.
Qed.

Lemma discovery_tests_pass (rng : R) : Forall passes (discovery_tests rng).
Proof. repeat apply Forall_cons_2; [apply discovers_every_passes|apply unreachable_passes|constructor]. Qed.
End discovery_pass.

(** ** [cover_traffic.rs] *)

Section cover_test.
Context {R Ch Sem : Type} `{Rng R} `{Crypto} `{HashOrder} `{Channel Ch} `{Semaphore Sem}.

(** The first turn of the task, on the network of the client; then the relay, to
    which the client's stream leads, takes its turn. *)
Definition cover_traffic_actually_delivers_cells_to_a_relay (rng : R) : outcome unit :=
  let addr := mkSocketAddr (b_ "127.0.0.1") 23000 in
  let '(keypair, rng) := generate rng in
  let config := {| listen_addr := addr; relay_id := b_ "cover-relay";
                   static_secret_hex := None; max_connections := 16 |} in
  let! node := (RelayNode_new config keypair : outcome (RelayNode sim_conn Ch Sem)) in
  let topology := add_relay topology_new
    {| info_id := b_ "cover-relay"; info_address := SocketAddr_to_string addr;
       info_public_key := public_key keypair |} in
  let network := answering [(SocketAddr_to_string addr, [])] in
  let! (turns, rng) := cover_spawn topology 1 (from_millis 10) (from_millis 30) [network] rng in
  let! turn := unwrap_some (head turns) in
  let sent := outbox turn.2 (0%nat, SocketAddr_to_string addr) in
  let '(stream, w) := accepted sent in
  let '(_, node, _) := handle_frame stream node w in
  let! delivered := unwrap_some (head (ch_sent (delivery_tx node))) in
  assert_eq (length delivered) ENVELOPE_SIZE.
End cover_test.

Section cover_pass.
Context {R Ch Sem : Type} `{RngLaws R} `{CryptoLaws} `{HashOrderLaws} `{ChannelLaws Ch} `{SemaphoreLaws Sem}.

(** A frame written on a stream of the client's network. *)
Lemma dial_write addr frame :
  len frame < 2 ^ 32 ->
  outbox ((stream <-- connect addr ;; write_frame stream frame) (answering [(addr, [])])).2 (0%nat, addr) = frame_bytes frame.
Proof.
  intros Hl. unfold io_bind at 1. set (w := answering _).
  assert (sim_script w !! addr = Some []) as Hs by apply answering_here.
  assert (connect addr w = (Ok (0%nat, addr), (connect addr w).2)) as Hc by (cbn; unfold sim_connect; by rewrite Hs).
  assert (sim_broken (connect addr w).2 = []) as Hb by (cbn; unfold sim_connect; by rewrite Hs).
  pose proof (connect_ok _ _ _ _ Hc) as (_ & Ho & _). rewrite Hc.
  set (c := (0%nat, addr) : sim_conn) in *. set (w1 := (connect addr w).2) in *.
  destruct (unbroken_write c (to_be_bytes 4 (as_u32 (len frame))) w1 Hb) as (w2 & E2 & Hb2).
  destruct (unbroken_write c frame w2 Hb2) as (w3 & E3 & _).
  assert (write_frame c frame w1 = (Ok tt, w3)) as E by (unfold write_frame, io_bind; by rewrite E2, E3).
  rewrite E. cbn [snd]. by rewrite (write_frame_ok _ _ _ _ E), Ho.
Qed.

(** A relay that receives a frame for itself. *)
Lemma frame_arrives (n : RelayNode sim_conn Ch Sem) frame body :
  len frame < 2 ^ 32 -> peel_onion_layer (keypair n) frame = Ok (Deliver body) -> delivery_tx n = ch_new ->
  exists fl n' w', (let '(stream, w) := accepted (frame_bytes frame) in handle_frame stream n w) = (fl, n', w') /\
    ch_sent (delivery_tx n') = [body].
Proof.
  intros Hl Hp Hch. unfold accepted. set (s := (0%nat, []) : sim_conn). set (w := mkSim _ _ _ _ _).
  assert (inbox w s = to_be_bytes 4 (as_u32 (len frame)) ++ frame) as Hin.
  { cbn. unfold sim_inbox, w. cbn [sim_in]. by rewrite lookup_singleton_eq. }
  unfold handle_frame. destruct (read_exact_app s w 4 _ _ Hin) as (w1 & -> & Hin1); [apply length_to_be_bytes|].
  unfold as_u32. pose proof (len_nonneg frame). rewrite Z.mod_small, from_to_be_bytes_small by lia.
  unfold len. rewrite Nat2Z.id. rewrite <- (app_nil_r frame) in Hin1.
  destruct (read_exact_app s w1 (length frame) frame [] Hin1 eq_refl) as (w2 & -> & _).
  unfold process_frame. rewrite Hp. eexists _, _, _. split; [done|]. cbn.
  by rewrite ch_sent_send, Hch, ch_new_open, ch_new_empty.
Qed.

Lemma cover_test_passes (rng : R) :
  passes (cover_traffic_actually_delivers_cells_to_a_relay (Ch:=Ch) (Sem:=Sem) rng).
Proof.
  unfold passes, cover_traffic_actually_delivers_cells_to_a_relay.
  destruct (generated rng) as (kp & rng1 & -> & Hkp). cbv zeta. rewrite RelayNode_new_eq, decide_True by by vm_compute.
  set (addr := SocketAddr_to_string _). set (r := {| info_id := _; info_address := _; info_public_key := _ |}).
  set (w := answering _). set (t := add_relay topology_new r).
  assert (usable (fun _ => kp) (VeilClient_new t 1)) as Hu.
  { constructor; [apply wf_add_relay, wf_topology_new| |by vm_compute|by vm_compute].
    intros r' Hr. unfold get in Hr. cbn in Hr. apply lookup_insert_Some in Hr as [[_ <-]|[_ Hr]]; [|done].
    split; [by vm_compute|by split]. }
  destruct (cover_loop_ok (fun _ => kp) (VeilClient_new t 1) (DummyTrafficGenerator_new (from_millis 10) (from_millis 30))
              [w] rng1 Hu) as (turns & rng2 & E & Hall); [by vm_compute..|].
  unfold cover_spawn. cbn [topology hop_count VeilClient_new] in E. rewrite E.
  apply Forall2_cons_inv_l in Hall as (turn & rest & (path & first & onion & env & Ew & _ & _ & Hp & Hh & Hf & He & Hl & _) & _ & ->).
  destruct Hp as (Hlen & _ & Hget). destruct path as [|x [|]]; [done| |done]. injection Hh as ->.
  assert (first = r) as ->.
  { pose proof (Hget first ltac:(by left)) as Hg. unfold get in Hg. cbn in Hg.
    apply lookup_insert_Some in Hg as [[_ <-]|[_ Hg]]; done. }
  assert (peel_onion_layer kp onion = Ok (Deliver env)) as Hpeel.
  { cbn in Hf. destruct (peel_onion_layer kp onion) as [[hop inner|body]|e]; [done| |done]. by injection Hf as <-. }
  assert (len onion < 2 ^ 32) as Hl32 by (rewrite Hl; by vm_compute).
  cbn [head unwrap_some]. rewrite Ew. change (info_address r) with addr. unfold w. rewrite dial_write by done.
  set (node := fresh_node _ kp : RelayNode sim_conn Ch Sem).
  destruct (frame_arrives node onion env Hl32 Hpeel eq_refl) as (fl & n' & w' & E' & Hch).
  destruct (accepted (frame_bytes onion)) as [stream v]. rewrite E', Hch. cbn [head unwrap_some].
  by apply assert_eq_eq.
Qed.
End cover_pass.

(** ** The pipe of [forwarding.rs] *)

(** What is written at one end of the pipe is read at the other. *)
Definition frame_roundtrip_over_a_pipe : outcome unit :=
  let '(client, w) := accepted [] in
  let '(written, w) := write_frame client (b_ "hello relay") w in
  let! _ := unwrap_ok written in
  let '(server, w) := accepted (outbox w client) in
  let '(received, w) := read_frame server w in
  let! received := unwrap_ok received in
  assert_eq received (b_ "hello relay").

Lemma pipe_test_passes : passes frame_roundtrip_over_a_pipe.
Proof. by vm_compute. Qed.

(** ** All of them *)

(** The tests over sockets pass in the model, whatever the random generator
    does and for every implementation of the ciphers, of hash-map order and of
    the synchronisation primitives that meets its laws. *)
Lemma socket_tests_pass {R Ch Sem} `{RngLaws R} `{CryptoLaws} `{HashOrderLaws} `{ChannelLaws Ch} `{SemaphoreLaws Sem} (rng : R) :
  Forall passes (pull_tests rng) /\ Forall passes (discovery_tests rng) /\
  passes (cover_traffic_actually_delivers_cells_to_a_relay (Ch:=Ch) (Sem:=Sem) rng) /\
  passes frame_roundtrip_over_a_pipe.
Proof.
  split_and!; [apply pull_tests_pass|apply discovery_tests_pass|apply cover_test_passes|apply pipe_test_passes].
Qed.
