(* ===== verification/UnitTests.v ===== *)
(** * The unit tests of the repository

    The tests of [CoreTests], [RoutingTests], [TopologyFileTests], [RelayTests]
    and [SocketTests] together: what the authors check on one random run holds
    in the model on every run. *)
From S2P Require Import Prelude.
From S2P Require Import RustStd.
From S2P Require Import Interfaces.
From S2P Require Import TopologyFile.
From S2P Require Import CoreTests.
From S2P Require Import RoutingTests.
From S2P Require Import TopologyFileTests.
From S2P Require Import RelayTests.
From S2P Require Import SocketTests.

Open Scope Z_scope.

Section all_tests.
Context {R E F W Conn Ch Sem : Type} `{EqDecision Conn} `{RngLaws R} `{Net W Conn} `{CryptoLaws}
  `{HashOrderLaws} `{HexLaws} `{FsLaws F} `{JsonLaws E TopologyFile valid_file} `{ChannelLaws Ch} `{SemaphoreLaws Sem}.

(** C34: the model passes the unit tests of the crates. Every test of a
    [#[cfg(test)]] module that was translated ends without a failed assertion
    and without a panic, in every state of the random generator, for every
    implementation of the ciphers, hex, JSON, files, hash-map order, channels
    and semaphores that meets its laws, with and without overflow checks. Some
    tests need more: that two encryptions of a cell differ holds when their nonces
    do ([fresh_nonces]); the connections of two tests are distinct; tests of a
    JSON text assume what the parser makes of it ([parses_test_texts]), and the
    test of a file that it can be written ([writable]). The tests over sockets
    ([SocketTests]) run on one concrete network, that of [Instances]. *)
Theorem unit_tests_pass (rng : R) (conn1 conn2 : Conn) (conns : list Conn) oc path (files : F) :
  conn1 <> conn2 -> length conns = 4%nat -> parses_test_texts (E:=E) -> writable path files ->
  (Forall passes (cell_tests rng) /\ Forall passes (fragmentation_tests rng) /\
   Forall passes reassembly_tests /\ Forall passes (crypto_tests rng) /\
   (fresh_nonces rng -> passes (repeated_encryption_of_same_cell_produces_different_ciphertext rng))) /\
  (Forall passes (topology_tests rng) /\ Forall passes (path_tests rng) /\
   Forall passes (circuit_tests rng) /\ passes (json_roundtrip_preserves_every_relay (E:=E) rng) /\
   Forall passes (topology_file_tests (E:=E) path files rng)) /\
  (Forall passes (forwarding_tests rng) /\ Forall passes mailbox_tests /\
   passes (exceeding_max_connections_rejects_new_connections (Ch:=Ch) (Sem:=Sem) conn1 conn2 rng) /\
   passes (connections_within_the_limit_are_accepted (Ch:=Ch) (Sem:=Sem) conns rng) /\
   Forall passes (client_tests rng) /\ Forall passes (cli_tests oc)) /\
  (Forall passes (pull_tests rng) /\ Forall passes (discovery_tests rng) /\
   passes (cover_traffic_actually_delivers_cells_to_a_relay (Ch:=Ch) (Sem:=Sem) rng) /\
   passes frame_roundtrip_over_a_pipe).
Proof.
  intros Hne Hl Ht Hw. destruct (core_tests_pass rng) as (Hc1 & Hc2 & Hc3 & Hc4).
  destruct (routing_tests_pass (E:=E) rng) as (Hr1 & Hr2 & Hr3 & Hr4).
  split; [|split; [|split; [by apply relay_tests_pass|apply socket_tests_pass]]].
  - split_and!; [done..|apply repeated_encryption_passes].
  - split_and!; [done..|by apply topology_file_tests_pass].
Qed.
End all_tests.
