(* ===== verification/CliRun.v ===== *)
(** * Running the command line end to end: [veil-cli/src/main.rs]

    The two modes of [Cli.cli_main], from the arguments to what is printed.
    The network is abstract; what the theorems ask of it is that it settles:
    while the program sleeps, the relays process the packets that were sent, in
    whatever order, and their mailboxes then serve what was delivered. Under
    that assumption there is one line for each piece of the message, with the
    text of that piece ([Cli.delivered_line]). In the self-hosted mode the relays
    that must process the packets are the processes that the program spawned. *)
From S2P Require Import Prelude.
From S2P Require Import RustStd.
From S2P Require Import RustFmt.
From S2P Require Import Interfaces.
From S2P Require Import Cell.
From S2P Require Import Fragmentation.
From S2P Require Import Keys.
From S2P Require Import Forwarding.
From S2P Require Import Node.
From S2P Require Import RelayProcess.
From S2P Require Import Topology.
From S2P Require Import TopologyFile.
From S2P Require Import PathSelection.
From S2P Require Import Session.
From S2P Require Import Client.
From S2P Require Import Receiver.
From S2P Require Import EndToEnd.
From S2P Require Import RelayMain.
From S2P Require Import Cli.

Open Scope Z_scope.

(** A message of one cell is one piece. *)
Lemma chunks_single (message : bytes) :
  1 <= len message <= 488 -> chunks PAYLOAD_CAPACITY message = [message].
Proof.
  unfold len. intros Hm. rewrite chunks_cons by (apply capacity_pos || (intros ->; cbn in Hm; lia)).
  pose proof capacity_Z. rewrite take_ge, drop_ge by lia. done.
Qed.

Section settling.
Context {W Conn : Type} `{Crypto} `{Net W Conn} `{Clock W}.

(** From [w] to [w1] packets were sent on [n] new streams. Once the program
    has slept for [ms], the fabric has processed them, in some order, and
    polling [addrs] yields what it delivered, besides envelopes that are not
    for [recipient]. *)
Definition settles (relay_at : bytes -> option KeyPair) (recipient : KeyPair)
    (addrs : list bytes) (ms : Z) (n : nat) (w w1 : W) : Prop :=
  forall (conns : list Conn) packets,
    length conns = n -> NoDup conns -> Forall (fun c => live w1 c /\ ~ live w c) conns ->
    Forall2 (carries w1) conns packets ->
    exists delivered raws junk w2,
      rtc (fabric_step relay_at) (packets, []) ([], delivered) /\
      pull_each addrs (sleep ms w1) = (Ok raws, w2) /\
      raws ≡ₚ map snd delivered ++ junk /\
      Forall (fun raw => opened recipient raw = None) junk.
End settling.

Section send_and_receive_lemmas.
Context {R W Conn : Type} `{RngLaws R} `{CryptoLaws} `{HashOrderLaws} `{NetLaws W Conn} `{Clock W} `{CharTable}.

(** The network of a command that starts in [w] is up for its client, and settles
    on the relays at [relay_at] and the mailboxes at [addrs] while it sleeps. *)
Record settling (relay_at : bytes -> option KeyPair) (self : VeilClient) (message : bytes)
    (addrs : list bytes) (rng : R) (w : W) : Prop := {
  sg_up : exists up, stays_up self up /\ up w;
  sg_settles session rng2 scs rng3 w1 :
    establish (public_key (generate rng).1) (generate rng).2 = (Ok session, rng2) ->
    send self session message rng2 w = Done (Ok scs, rng3, w1) ->
    settles relay_at (generate rng).1 addrs 300 (length scs) w w1
}.

(** The conditions under which the command succeeds. *)
Record working (key_of : RelayInfo -> KeyPair) (relay_at : bytes -> option KeyPair)
    (self : VeilClient) (message : bytes) (addrs : list bytes) (rng : R) (w : W) : Prop := {
  wk_usable : usable key_of self;
  wk_deployed : deployed key_of relay_at self;
  wk_message : 1 <= len message <= MAX_MESSAGE_SIZE;
  wk_settling : settling relay_at self message addrs rng w
}.

(** The lines that are printed for a message: one for each piece of it, in some
    order. A message that fits in a cell is one line, with its own text when it is
    valid UTF-8, and with the very bytes, between quotes, when it is plain ASCII. *)
Definition prints (message : bytes) (lines : list bytes) : Prop :=
  lines ≡ₚ map delivered_line (chunks PAYLOAD_CAPACITY message) /\
  (len message <= 488 -> lines = [delivered_line message]) /\
  (len message <= 488 -> utf8_valid message = true ->
     lines = [String.list_byte_of_string "veil-cli: delivered payload = " ++ debug_str message]) /\
  (len message <= 488 -> Forall plain message ->
     lines = [String.list_byte_of_string "veil-cli: delivered payload = " ++ [x22] ++ message ++ [x22]]).

Lemma delivered_lines_ok cells :
  Forall wf_cell cells -> delivered_lines cells = Done (map (fun c => delivered_line (payload_bytes c)) cells).
Proof. induction 1 as [|c cells Hc _ IH]; cbn; [done|]. by rewrite payload_ok, IH. Qed.

Lemma prints_pieces message lines :
  1 <= len message -> lines ≡ₚ map delivered_line (chunks PAYLOAD_CAPACITY message) -> prints message lines.
Proof.
  intros Hm Hp.
  assert (len message <= 488 -> lines = [delivered_line message]) as Hone.
  { intros Hl. rewrite chunks_single in Hp by done. by apply Permutation_singleton_r. }
  split_and!; [done|done| |]; intros Hl Ht; rewrite Hone by done; unfold delivered_line.
  - by rewrite lossy_valid.
  - by rewrite lossy_valid, debug_plain by (done || by apply plain_valid).
Qed.

Lemma send_and_receive_ok key_of relay_at t hops message addrs (rng : R) (w : W) :
  working key_of relay_at (mkClient t hops) message addrs rng w ->
  exists lines rng' w', send_and_receive t hops message addrs rng w = Done (Printed lines, rng', w') /\
    prints message lines.
Proof.
  intros [Hu Hdep Hm [(up & Hup & Hw) Hset]]. unfold send_and_receive.
  pose proof (generate_wf rng) as Hk. destruct (generate rng) as [kp rng1]. cbn [fst snd] in *.
  destruct (establish_ok kp rng1 Hk) as (session & Es & Hs).
  destruct (establish (public_key kp) rng1) as [[s|e] rng2]; [|done]. injection Es as ->. cbn [fst] in *.
  destruct (send_delivers key_of relay_at (mkClient t hops) session kp message rng2 w Hu Hdep Hs Hm)
    as (r & rng3 & w1 & E & Hok & Hr).
  destruct (Hok up Hup Hw) as [scs ->]. rewrite E.
  destruct (Hr scs eq_refl) as (id & cells & conns & ps & ds & Hfr & Hlen & Hnd & Hnew & Hc & Hwd & Hld & Ho).
  destruct (Hset session rng2 scs rng3 w1 eq_refl E conns ps) as (del & raws & junk & w2 & Hrun & Hpull & Hraws & Hj);
    [|done..|].
  { rewrite (Forall2_length _ _ _ Hc), (will_deliver_count _ _ _ _ Hwd). congruence. }
  apply rtc_nsteps_1 in Hrun as [n Hn]. destruct (will_deliver_nsteps _ _ _ _ _ _ Hwd Hn) as [_ Hd].
  apply will_deliver_done in Hd. cbv zeta. unfold receive. rewrite receive_loop_spec, Hpull. cbn [app].
  assert (omap (opened kp) raws ≡ₚ cells) as Hopen.
  { rewrite Hraws, omap_app, Hd, Ho. rewrite (omap_nothing _ junk) by done. by rewrite app_nil_r. }
  destruct (omap (opened kp) raws) as [|c cs] eqn:Eo.
  { apply Permutation_nil in Hopen. subst cells. by destruct (fr_nonempty _ _ _ Hfr). }
  rewrite <- Eo in *. rewrite delivered_lines_ok by apply opened_all_wf.
  eexists _, _, _. split; [done|]. apply prints_pieces; [lia|].
  rewrite Hopen, <- (fr_payload _ _ _ Hfr), map_map. done.
Qed.
End send_and_receive_lemmas.

Section modes_lemmas.
Context {R W E Conn Ch Sem : Type} `{RngLaws R} `{CryptoLaws} `{Hex} `{HashOrderLaws} `{NetLaws W Conn}
  `{Channel Ch} `{Semaphore Sem} `{Clock W} `{SpawnLaws W (Process Conn Ch Sem)} `{Fs W}
  `{Json E TopologyFile} `{CharTable}.

Lemma start_relays_panic oc count i t mbs (rng : R) (w : W) :
  0 <= i <= local_limit oc -> local_limit oc < i + Z.of_nat count ->
  start_relays (Conn:=Conn) (Ch:=Ch) (Sem:=Sem) oc count i t mbs rng w = Panic.
Proof.
  unfold local_limit. revert i t mbs rng w.
  induction count as [|count IH]; intros i t mbs rng w Hi Hc; [lia|].
  cbn [start_relays]. unfold local_addr. case_decide as Hp; [|done]. unfold u16_MAX in Hp.
  destruct (generate rng) as [kp rng1]. rewrite RelayNode_new_eq, decide_True by by vm_compute.
  unfold mailbox_addr, add_u16, MAILBOX_PORT_OFFSET, u16_MAX.
  cbn [sa_port]. case_decide as Hm; [apply IH; destruct oc; lia|].
  destruct oc; [done|]. apply IH; lia.
Qed.

(** What [send] refuses ends the program. *)
Lemma send_and_receive_refused t hops message addrs (rng : R) (w : W) :
  wf_topology t -> hops = 0%nat \/ ~ 1 <= len message <= MAX_MESSAGE_SIZE ->
  send_and_receive t hops message addrs rng w = Panic.
Proof.
  intros Ht Hbad. unfold send_and_receive. pose proof (generate_wf rng) as Hk.
  destruct (generate rng) as [kp rng1]. cbn [fst] in Hk.
  destruct (establish_ok kp rng1 Hk) as (s & Es & Hs).
  destruct (establish (public_key kp) rng1) as [[s'|e] rng2]; [|done].
  destruct (send_refuses (mkClient t hops) s' message rng2 w Ht) as (e & rng3 & Hsize & Hzero).
  destruct (decide (1 <= len message <= MAX_MESSAGE_SIZE)) as [Hm|Hm].
  - destruct Hbad as [->|?]; [|done]. destruct (Hzero Hm (or_introl eq_refl)) as [-> _]. done.
  - rewrite Hsize by (pose proof (len_nonneg message); lia). done.
Qed.
End modes_lemmas.

(** ** Properties *)

Section properties.
Context {R W E Conn Ch Sem : Type} `{RngLaws R} `{CryptoLaws} `{Hex} `{HashOrderLaws} `{NetLaws W Conn}
  `{Channel Ch} `{Semaphore Sem} `{Clock W} `{SpawnLaws W (Process Conn Ch Sem)} `{Fs W}
  `{Json E TopologyFile} `{CharTable}.

(** C10: the external mode delivers. When the topology file loads, its relays
    are deployed and up, and the network settles while the program sleeps, the
    command [veil-cli message --topology path] ends by printing one line for each
    piece of the message that travelled in a cell, each once, in the order in
    which they were received: the debug text of the lossy UTF-8 decoding of the
    piece. A message of at most 488 bytes is one line; when it is valid UTF-8 its
    line has the debug text of the message itself, and plain ASCII appears as it
    is. A topology file that cannot be loaded is a panic. *)
Theorem external_mode_prints oc prog message path (rng : R) (w : W) :
  message <> TOPOLOGY_FLAG ->
  match load_from_file path w with
  | (Err _, _) => cli_main (Conn:=Conn) (Ch:=Ch) (Sem:=Sem) oc [prog; message; TOPOLOGY_FLAG; path] rng w = Panic
  | (Ok t, w0) =>
      forall addrs key_of relay_at,
        mailbox_addresses oc (all t) = Done addrs ->
        working key_of relay_at (mkClient t (external_hop_count t)) message addrs rng w0 ->
        exists lines rng' w',
          cli_main (Conn:=Conn) (Ch:=Ch) (Sem:=Sem) oc [prog; message; TOPOLOGY_FLAG; path] rng w =
            Done (Printed lines, rng', w') /\
          prints message lines
  end.
Proof.
  intros Hne. assert (parse_args [message; TOPOLOGY_FLAG; path] = Done (External path message)) as Hparse.
  { unfold parse_args. cbn [position]. rewrite decide_False by done. rewrite decide_True by done. done. }
  unfold cli_main. cbn [drop]. rewrite Hparse. unfold run_external.
  destruct (load_from_file path w) as [[t|e] w0]; [|done].
  intros addrs key_of relay_at Ha Hw. rewrite Ha. by eapply send_and_receive_ok.
Qed.

(** C20: the self-hosted mode runs its own relays. Asked for no relay, for more
    than there are ports (44,536 when overflow is checked, 45,536 otherwise), or
    to send a message that is empty or too long, it panics. Otherwise it starts
    the relays: the processes that it spawns are those that the topology
    describes, each holding the key pair of its entry's public key, listening at
    the entry's address and describing itself with the entry's identity, with its
    mailbox where the program polls; and a client for this topology is usable.
    When the network is up and settles, while the program sleeps, on these
    processes and mailboxes, the program prints one line for each piece of the
    message. *)
Theorem self_hosted_mode oc message hop_count (rng : R) (w : W) :
  0 <= hop_count -> spawned w = [] ->
  let run := run_self_hosted (Conn:=Conn) (Ch:=Ch) (Sem:=Sem) oc message hop_count rng w in
  (hop_count = 0 \/ local_limit oc < hop_count \/ ~ 1 <= len message <= MAX_MESSAGE_SIZE -> run = Panic) /\
  (1 <= hop_count <= local_limit oc -> 1 <= len message <= MAX_MESSAGE_SIZE ->
   exists t rs rng1 w1,
     start_relays (Conn:=Conn) (Ch:=Ch) (Sem:=Sem) oc (Z.to_nat hop_count) 0 topology_new [] rng w =
       Done (t, mailboxes (spawned w1), rng1, w1) /\
     all t ≡ₚ rs /\ len rs = hop_count /\ Forall2 (serves oc) (spawned w1) rs /\
     let self := mkClient t (Z.to_nat hop_count) in
     usable (hosted_key (spawned w1)) self /\
     (settling (hosting (spawned w1)) self message (mailboxes (spawned w1)) rng1 (sleep 200 w1) ->
      exists lines rng' w', run = Done (Printed lines, rng', w') /\ prints message lines)).
Proof.
  intros Hh Hsp run. subst run. unfold run_self_hosted.
  destruct (decide (hop_count = 0)) as [->|Hz].
  { split; [intros _|lia]. cbn [Z.to_nat start_relays]. cbv zeta.
    apply send_and_receive_refused; [apply wf_topology_new|by left]. }
  destruct (decide (local_limit oc < hop_count)) as [Hc|Hc].
  { split; [intros _|lia].
    rewrite start_relays_panic; [done|unfold local_limit; destruct oc; lia|lia]. }
  destruct (self_hosted_usable (Conn:=Conn) (Ch:=Ch) (Sem:=Sem) oc (Z.to_nat hop_count) rng w)
    as (t & rs & hs & rng1 & w1 & Est & Hwf & Hs & Hl & Hall & Hsv & Hu & Hd); [lia|lia|].
  rewrite Hsp in Hs. cbn [app] in Hs. rewrite <- Hs in *. split.
  - intros [?|[?|Hm]]; [done|done|]. rewrite Est. cbv zeta.
    apply send_and_receive_refused; [done|by right].
  - intros _ Hm. exists t, rs, rng1, w1. split; [done|]. split; [done|].
    split; [unfold len; rewrite <- (Forall2_length _ _ _ Hsv), Hl; lia|]. split; [done|]. split; [done|].
    intros Hset. rewrite Est. cbv zeta. by eapply send_and_receive_ok.
Qed.
End properties.

(** A character that is cut at the end of a cell is printed as two replacement
    characters: its bytes travel in different cells, and each is decoded alone. *)
Example cut_character_is_replaced :
  map from_utf8_lossy (chunks PAYLOAD_CAPACITY (replicate 487 x61 ++ [xc3; xa9])) =
    [replicate 487 x61 ++ REPLACEMENT; REPLACEMENT].
Proof. by vm_compute. Qed.
