(* ===== verification/Laboratory.v ===== *)
(** * An executable network

    An instance of the network, file, time and task interfaces in which whole
    programs run: streams are those of [Instances.sim], relays that were spawned
    process, while the program sleeps, the frames sent to them, forwarding along
    the circuit in one go, and their mailbox ports answer a PULL with what was
    delivered. It satisfies the laws of [Interfaces], so that the theorems on
    whole runs apply to it and the runs can be evaluated. *)
From S2P Require Import Prelude.
From S2P Require Import RustStd.
From S2P Require Import Interfaces.
From S2P Require Import Instances.
From S2P Require Import Keys.
From S2P Require Import Forwarding.
From S2P Require Import PullListener.
From S2P Require Import Node.
From S2P Require Import RelayProcess.
From S2P Require Import Receiver.
From S2P Require Import EndToEnd.
From S2P Require Import CliRun.

Open Scope Z_scope.

(** [lab_relays] maps the address of each relay to its keys and its mailbox
    address, [lab_boxes] each mailbox address to the queue; the streams numbered
    below [lab_seen] have been processed; [lab_spawned] are the processes that
    were spawned. *)
Record lab : Type := mkLab {
  lab_sim : sim;
  lab_relays : gmap bytes (KeyPair * bytes);
  lab_boxes : gmap bytes (list bytes);
  lab_seen : nat;
  lab_files : gmap bytes bytes;
  lab_spawned : list (SocketAddr * SocketAddr * Process sim_conn (list bytes) nat)
}.

Definition set_sim (s : sim) (w : lab) : lab :=
  mkLab s (lab_relays w) (lab_boxes w) (lab_seen w) (lab_files w) (lab_spawned w).
Definition set_boxes (b : gmap bytes (list bytes)) (w : lab) : lab :=
  mkLab (lab_sim w) (lab_relays w) b (lab_seen w) (lab_files w) (lab_spawned w).

(** The streams, when connecting to [addr] makes the peer send [script]. *)
Definition set_script (addr script : bytes) (s : sim) : sim :=
  mkSim (sim_next s) (sim_in s) (sim_out s) {[addr := script]} (sim_broken s).

(** A mailbox port answers the PULL that its client is about to send; a relay
    listens and sends nothing. *)
Definition lab_connect (addr : bytes) (w : lab) : io_result sim_conn * lab :=
  match lab_boxes w !! addr with
  | Some cells =>
      let '(r, s) := sim_connect addr (set_script addr (pull_response cells) (lab_sim w)) in
      (r, set_boxes (<[addr := []]> (lab_boxes w)) (set_sim s w))
  | None =>
      match lab_relays w !! addr with
      | Some _ =>
          let '(r, s) := sim_connect addr (set_script addr [] (lab_sim w)) in (r, set_sim s w)
      | None => (Err (ConnectionError 111), w)
      end
  end.

Definition in_lab {A} (m : sim -> io_result A * sim) (w : lab) : io_result A * lab :=
  let '(r, s) := m (lab_sim w) in (r, set_sim s w).

#[export] Instance lab_net : Net lab sim_conn := {
  connect := lab_connect;
  read_exact c n := in_lab (read_exact c n);
  write_all c bs := in_lab (write_all c bs);
  inbox w c := sim_inbox (lab_sim w) c;
  outbox w c := sim_outbox (lab_sim w) c;
  dialled c := c.2;
  live w c := (c.1 < sim_next (lab_sim w))%nat
}.

Lemma set_script_keeps addr script (s : sim) (c : sim_conn) :
  inbox (set_script addr script s) c = inbox s c /\
  outbox (set_script addr script s) c = outbox s c /\
  (live (set_script addr script s) c <-> live s c).
Proof. done. Qed.

(** Connecting is connecting with some script, or failing. *)
Lemma lab_connect_cases addr w r w' :
  lab_connect addr w = (r, w') ->
  (exists e, r = Err e /\ w' = w) \/
  (exists script s, connect addr (set_script addr script (lab_sim w)) = (r, s) /\ lab_sim w' = s).
Proof.
  unfold lab_connect. destruct (lab_boxes w !! addr) as [cells|].
  - destruct (sim_connect _ _) as [r' s] eqn:E. intros [= <- <-]. right. eauto.
  - destruct (lab_relays w !! addr).
    + destruct (sim_connect _ _) as [r' s] eqn:E. intros [= <- <-]. right. eauto.
    + intros [= <- <-]. left. by eexists.
Qed.

#[export] Instance lab_net_laws : NetLaws lab sim_conn.
Proof.
  constructor; cbn; unfold in_lab.
  - intros c n w Hn. pose proof (read_exact_ok c n (lab_sim w)) as Hok. cbn in Hok.
    destruct (Hok Hn) as (s & E & Hi). rewrite E. eexists; split; [done|]. exact Hi.
  - intros c n w Hn. pose proof (read_exact_eof c n (lab_sim w)) as Hok. cbn in Hok.
    destruct (Hok Hn) as (e & s & E). rewrite E. by eexists _, _.
  - intros c bs w w'. pose proof (write_all_ok c bs (lab_sim w)) as Hok. cbn in Hok.
    case_decide; [done|]. intros [= <-]. by apply Hok.
  - intros c n w r w' c'. pose proof (read_exact_frame c n (lab_sim w)) as Hok. cbn in Hok.
    case_decide; intros [= <- <-]; by eapply Hok.
  - intros c bs w r w' c'. pose proof (write_all_frame c bs (lab_sim w)) as Hok. cbn in Hok.
    case_decide; intros [= <- <-]; by eapply Hok.
  - intros addr w r w' c' E Hl. apply lab_connect_cases in E as [(e & -> & ->)|(script & s & E & <-)].
    + by split_and!.
    + apply (connect_fresh _ _ _ _ c' E). done.
  - intros addr w c w' E. apply lab_connect_cases in E as [(e & ? & _)|(script & s & E & <-)]; [done|].
    by apply (connect_ok _ _ _ _ E).
Qed.

(** A packet travels from relay to relay, to the mailbox of its exit. *)
Fixpoint route (fuel : nat) (relays : gmap bytes (KeyPair * bytes)) (addr frame : bytes)
    (boxes : gmap bytes (list bytes)) : gmap bytes (list bytes) :=
  match fuel, relays !! addr with
  | S fuel', Some (kp, mailbox) =>
      match peel_onion_layer kp frame with
      | Ok (Forward hop inner) => route fuel' relays hop inner boxes
      | Ok (Deliver body) => <[mailbox := default [] (boxes !! mailbox) ++ [body]]> boxes
      | Err _ => boxes
      end
  | _, _ => boxes
  end.

(** What was sent on a stream reaches the relay it was dialled to. *)
Definition deliver_stream (relays : gmap bytes (KeyPair * bytes)) (s : sim)
    (boxes : gmap bytes (list bytes)) (k : nat) : gmap bytes (list bytes) :=
  fold_left (fun boxes c =>
    fold_left (fun boxes frame => route 16 relays c.2 frame boxes)
      (split_frames (sim_outbox s c)).1 boxes)
    (filter (fun c => c.1 = k) (map_to_list (sim_out s)).*1) boxes.

#[export] Instance lab_clock : Clock lab := {
  sleep _ w :=
    mkLab (lab_sim w) (lab_relays w)
      (fold_left (deliver_stream (lab_relays w) (lab_sim w))
         (seq (lab_seen w) (sim_next (lab_sim w) - lab_seen w)) (lab_boxes w))
      (sim_next (lab_sim w)) (lab_files w) (lab_spawned w)
}.

#[export] Instance lab_fs : Fs lab := {
  read_to_string path w :=
    (match lab_files w !! path with Some s => Ok s | None => Err (ConnectionError 2) end, w);
  fs_write path data w :=
    (Ok tt, mkLab (lab_sim w) (lab_relays w) (lab_boxes w) (lab_seen w) (<[path := data]> (lab_files w))
    (lab_spawned w))
}.

#[export] Instance lab_fs_laws : FsLaws lab.
Proof. constructor. intros p d w w' [= <-]. cbn. rewrite lookup_insert_eq. by eexists. Qed.

(** An address can be bound once. *)
#[export] Instance lab_listen : Listen lab := {
  bind a w :=
    match lab_relays w !! SocketAddr_to_string a with
    | Some _ => (Err (ConnectionError 98), w)
    | None => (Ok tt, w)
    end
}.

#[export] Instance lab_spawn : Spawn lab (Process sim_conn (list bytes) nat) := {
  spawn addr mailbox p w :=
    mkLab (lab_sim w)
      (<[SocketAddr_to_string addr := (keypair (pr_node p), SocketAddr_to_string mailbox)]> (lab_relays w))
      (<[SocketAddr_to_string mailbox := []]> (lab_boxes w)) (lab_seen w) (lab_files w)
      (lab_spawned w ++ [(addr, mailbox, p)]);
  spawned := lab_spawned
}.

#[export] Instance lab_spawn_laws : SpawnLaws lab (Process sim_conn (list bytes) nat).
Proof. done. Qed.

Definition lab_new : lab := mkLab (mkSim 0 ∅ ∅ ∅ []) ∅ ∅ 0 ∅ [].

(** All the relays known to a client are up, none of them is a mailbox port,
    and streams accept data. *)
Definition lab_up (addrs : list bytes) (w : lab) : Prop :=
  Forall (fun a => is_Some (lab_relays w !! a) /\ lab_boxes w !! a = None) addrs /\
  sim_broken (lab_sim w) = [].

Lemma lab_up_connect addrs a w :
  lab_up addrs w -> a ∈ addrs -> exists c w', connect a w = (Ok c, w') /\ lab_up addrs w'.
Proof.
  intros [Ha Hb] Hin. destruct (proj1 (Forall_forall _ _) Ha a Hin) as [[x Hx] Hn].
  cbn. unfold lab_connect. rewrite Hn, Hx. unfold sim_connect. cbn. rewrite lookup_singleton_eq.
  eexists _, _. split; [done|]. by split.
Qed.

Lemma lab_up_write addrs (c : sim_conn) bs w :
  lab_up addrs w -> exists w', write_all c bs w = (Ok tt, w') /\ lab_up addrs w'.
Proof.
  intros [Ha Hb]. cbn. unfold in_lab. rewrite Hb. rewrite decide_False by by intros [_ ?%elem_of_nil].
  eexists. split; [done|]. by split.
Qed.

(** ** Settling, by computation *)

(** The fabric, processing the first packet in flight at every step. *)
Fixpoint fabric_run (fuel : nat) (relay_at : bytes -> option KeyPair) (packets : list packet)
    (delivered : list delivery) : option (list delivery) :=
  match packets with
  | [] => Some delivered
  | (addr, frame) :: packets' =>
      match fuel, relay_at addr with
      | S fuel', Some kp =>
          match peel_onion_layer kp frame with
          | Ok (Forward hop inner) => fabric_run fuel' relay_at ((hop, inner) :: packets') delivered
          | Ok (Deliver body) => fabric_run fuel' relay_at packets' (delivered ++ [(addr, body)])
          | Err _ => fabric_run fuel' relay_at packets' delivered
          end
      | _, _ => None
      end
  end.

Lemma fabric_run_sound fuel relay_at packets delivered ds :
  fabric_run fuel relay_at packets delivered = Some ds ->
  rtc (fabric_step relay_at) (packets, delivered) ([], ds).
Proof.
  revert packets delivered. induction fuel as [|fuel IH]; intros [|[addr frame] packets] delivered; cbn.
  - by intros [= <-].
  - done.
  - by intros [= <-].
  - destruct (relay_at addr) as [kp|] eqn:Ea; [|done].
    destruct (peel_onion_layer kp frame) as [[hop inner|body]|e] eqn:Ep; intros Hr;
      (eapply rtc_l; [|by apply IH]).
    + by apply (fabric_forward relay_at [] packets addr frame delivered kp hop inner).
    + by apply (fabric_deliver relay_at [] packets addr frame delivered kp body).
    + by apply (fabric_drop relay_at [] packets addr frame delivered kp e).
Qed.

(** The streams of [w1] that carry data are those before [k] and [c0]. *)
Definition one_new_stream (k : nat) (c0 : sim_conn) (w1 : lab) : bool :=
  forallb (fun c => (c.1 <? k)%nat || bool_decide (c = c0)) (map_to_list (sim_out (lab_sim w1))).*1.

Lemma one_new_stream_spec k c0 w1 c :
  one_new_stream k c0 w1 = true -> sim_outbox (lab_sim w1) c <> [] -> (c.1 < k)%nat \/ c = c0.
Proof.
  unfold one_new_stream, sim_outbox. intros Hall Hout.
  destruct (sim_out (lab_sim w1) !! c) as [b|] eqn:E; [|done].
  rewrite forallb_forall in Hall. specialize (Hall c). apply orb_true_iff in Hall as [Hlt|Heq].
  - left. by apply Nat.ltb_lt.
  - right. by apply bool_decide_eq_true in Heq.
  - apply list_elem_of_In, list_elem_of_fmap. exists (c, b). split; [done|]. by apply elem_of_map_to_list.
Qed.

(** A message of one cell: the fabric is run on its packet, and the mailboxes
    are polled. *)
Lemma lab_settles fuel relay_at recipient addrs ms (w w1 w2 : lab) c0 frame delivered :
  one_new_stream (sim_next (lab_sim w)) c0 w1 = true ->
  sim_outbox (lab_sim w1) c0 = frame_bytes frame ->
  fabric_run fuel relay_at [(c0.2, frame)] [] = Some delivered ->
  pull_each addrs (sleep ms w1) = (Ok (map snd delivered), w2) ->
  settles relay_at recipient addrs ms 1 w w1.
Proof.
  intros Hone Hout Hrun Hpull [|c [|]] packets Hl _ Hnew Hc; try done.
  inversion Hc as [|? p ? packets' (Hd & Ho & _) Hnil]; subst. inversion Hnil; subst.
  apply Forall_inv in Hnew as [_ Hnew]. cbn in Hnew, Hd, Ho.
  assert (frame_bytes p.2 <> []) as Hne.
  { unfold frame_bytes. intros E%(f_equal length). rewrite length_app, length_to_be_bytes in E. done. }
  destruct (one_new_stream_spec _ _ _ c Hone) as [Hlt| ->]; [by rewrite Ho|done|].
  rewrite Hout in Ho. unfold frame_bytes in Ho.
  apply app_inj_1 in Ho as [_ Hf]; [|by rewrite !length_to_be_bytes].
  exists delivered, (map snd delivered), [], w2. split_and!; [|done|by rewrite app_nil_r|done].
  destruct p as [a f]. cbn in *. subst. by eapply fabric_run_sound.
Qed.
