(* ===== verification/Witnesses.v ===== *)
(** * Concrete instances of the theorems

    Every theorem with hypotheses is applied here at a concrete input, over
    the executable interfaces of [Instances]: the hypotheses hold there, so
    none of the theorems is vacuous. *)
From S2P Require Import Prelude.
From S2P Require Import RustStd.
From S2P Require Import Interfaces.
From S2P Require Import Instances.
From S2P Require Import Cell.
From S2P Require Import Fragmentation.
From S2P Require Import Reassembly.
From S2P Require Import Encryption.
From S2P Require Import Keys.
From S2P Require Import Forwarding.
From S2P Require Import Mailbox.
From S2P Require Import PullListener.
From S2P Require Import Node.
From S2P Require Import RelayProcess.
From S2P Require Import Topology.
From S2P Require Import TopologyFile.
From S2P Require Import PathSelection.
From S2P Require Import Circuit.
From S2P Require Import Discovery.
From S2P Require Import DummyTraffic.
From S2P Require Import Envelope.
From S2P Require Import Session.
From S2P Require Import Client.
From S2P Require Import CoverTraffic.
From S2P Require Import Receiver.
From S2P Require Import EndToEnd.
From S2P Require Import RelayMain.
From S2P Require Import Cli.
From S2P Require Import CoreTests.
From S2P Require Import RoutingTests.
From S2P Require Import TopologyFileTests.
From S2P Require Import RelayTests.
From S2P Require Import SocketTests.
From S2P Require Import UnitTests.
From S2P Require Import Laboratory.

Open Scope Z_scope.

(** ** Inputs *)

Definition text (s : string) : bytes := String.list_byte_of_string s.

(** A message of one cell and a message of two. *)
Definition short_message : bytes := text "hello veil".
Definition long_message : bytes := replicate 600 x41.

Definition fragments (m : bytes) : list Cell :=
  match (fragment_message m 5).1 with Ok cells => cells | Err _ => [] end.
Definition message_id_5 : bytes := (fill_bytes 16 5).1.

Definition a_cell : Cell := hd (new_dummy 1).1 (fragments short_message).

Definition relay_keys : KeyPair := (generate 3).1.
Definition recipient_keys : KeyPair := (generate 77).1.

Lemma long_fragments : fragments_of message_id_5 long_message (fragments long_message).
Proof.
  destruct (fragment_message_ok long_message 5) as (cells & E & Hf & _); [done|by vm_compute|].
  unfold fragments. by rewrite E.
Defined.

Lemma short_fragments : fragments_of message_id_5 short_message (fragments short_message).
Proof.
  destruct (fragment_message_ok short_message 5) as (cells & E & Hf & _); [done|by vm_compute|].
  unfold fragments. by rewrite E.
Defined.

Lemma a_cell_wf : wf_cell a_cell.
Proof.
  destruct (proj1 (Forall_cons _ _ _) (fr_wf _ _ _ short_fragments : Forall wf_cell (a_cell :: []))).
  done.
Qed.

Lemma relay_keys_wf : wf_keypair relay_keys.
Proof. apply generate_wf. Qed.

Lemma recipient_keys_wf : wf_keypair recipient_keys.
Proof. apply generate_wf. Qed.

(** ** Cells, fragmentation and reassembly *)

Lemma from_bytes_iff_witness :
  length (to_bytes a_cell) = CELL_SIZE /\
  (from_bytes (to_bytes a_cell) = Ok a_cell <-> wf_cell a_cell /\ to_bytes a_cell = to_bytes a_cell).
Proof.
  split; [by vm_compute|]. apply from_bytes_iff. by vm_compute.
Defined.

Lemma fragment_message_spec_witness :
  concat (map payload_bytes (fragments long_message)) = long_message /\ len (fragments long_message) = 2.
Proof.
  pose proof (fragment_message_spec (R:=Z) long_message 5) as H.
  unfold fragments. destruct (fragment_message long_message 5) as [[cells|e] rng'] eqn:E.
  - destruct H as (_ & _ & _ & Hc & Hl & _). split; [exact Hc|]. cbn [fst]. rewrite Hl. by vm_compute.
  - destruct H as ([H|H] & _); vm_compute in H; discriminate H.
Defined.

Lemma fragment_sizes_witness :
  length (to_bytes a_cell) = 512%nat /\ len short_message = len (payload_bytes a_cell).
Proof.
  destruct (fragment_sizes (R:=Z) short_message 5 (fragments short_message) 6 0 a_cell)
    as (Hl & _ & Hlast); [by vm_compute|by vm_compute|].
  split; [exact Hl|]. apply Hlast. by vm_compute.
Defined.

Lemma reassembler_refines_witness :
  exists outs r', insert_all new (fragments long_message) = Done (outs, r') /\ wf_reassembler r' /\
    spec_insert_all ∅ (fragments long_message) = (outs, abs r').
Proof.
  destruct (reassembler_refines new (fragments long_message) message_id_5)
    as (outs & r' & E & Hw & Hs & _); [apply map_Forall_empty|apply (fr_wf _ _ _ long_fragments)|].
  exists outs, r'. split; [exact E|]. split; [exact Hw|]. exact Hs.
Defined.

(** The two cells arrive in reverse order. *)
Lemma reassemble_any_order_witness :
  exists outs r', insert_all new (rev (fragments long_message)) =
    Done (outs ++ [Ok (Some long_message)], r') /\ length outs = 1%nat.
Proof.
  pose proof long_fragments as Hf.
  assert (exists a b, fragments long_message = [a; b] /\ a <> b) as (a & b & E & Hne)
    by (eexists _, _; split; [by vm_compute|]; intros E%(f_equal c_seq_index); discriminate E).
  destruct (reassemble_any_order message_id_5 long_message (fragments long_message) new [b] a)
    as (outs & r' & Hr & Hl & _); rewrite ?E.
  - apply map_Forall_empty.
  - done.
  - by rewrite <- E.
  - pose proof (fr_wf _ _ _ Hf) as Hw. rewrite E in Hw. by apply Forall_inv_tail in Hw.
  - intros x Hx%list_elem_of_singleton _. subst. right. by left.
  - by left.
  - intros Hx%list_elem_of_singleton. done.
  - intros x Hx. apply elem_of_app. apply elem_of_cons in Hx as [->|Hx]; [right; by left|by left].
  - exists outs, r'. cbn. split; [exact Hr|exact Hl].
Defined.

(** ** Cryptography *)

Lemma cell_encryption_roundtrip_witness :
  exists data, (encrypt_cell (zeros 32) a_cell 9).1 = Done (Ok data) /\
    length data = 540%nat /\ decrypt_cell (zeros 32) data = Done (Ok a_cell).
Proof. apply (cell_encryption_roundtrip (R:=Z)). apply a_cell_wf. Defined.

Lemma decrypt_cell_genuine_witness :
  exists res, decrypt_cell (zeros 32) (replicate 540 x01) = Done res /\ res = Err DecryptionFailed.
Proof.
  destruct (decrypt_cell_genuine (zeros 32) (replicate 540 x01)) as (res & E & _ & Hn); [by vm_compute|].
  exists res. split; [exact E|]. apply Hn. by vm_compute.
Defined.

Lemma keypair_hex_roundtrip_witness :
  from_hex ([x0a] ++ to_hex relay_keys ++ [x20]) = Ok relay_keys /\
  from_hex (to_hex relay_keys) = Ok relay_keys.
Proof.
  destruct (keypair_hex_roundtrip (R:=Z) 3 [x0a] [x20] (to_hex relay_keys) relay_keys) as [Ha Hb].
  - repeat constructor; by vm_compute.
  - constructor; [by right|constructor].
  - split; [exact Ha|]. apply Hb. by vm_compute.
Defined.

(** ** Onion layers and frames *)

Definition forward_payload : OnionPayload := Forward (text "10.0.0.2:9001") (text "inner").

(** An address of 65,537 bytes. *)
Definition long_address : bytes := replicate (Z.to_nat 65537) x61.

Lemma long_address_len : len long_address = 65537.
Proof. unfold len, long_address. rewrite length_replicate. reflexivity. Qed.


Lemma onion_layer_roundtrip_witness :
  exists frame, (build_onion_layer (public_key relay_keys) forward_payload 7).1 = Ok frame /\
    length frame = 81%nat /\ peel_onion_layer relay_keys frame = Ok forward_payload.
Proof.
  apply (onion_layer_roundtrip (R:=Z)); [apply relay_keys_wf|split; by vm_compute|by vm_compute].
Defined.

Lemma peel_accepts_only_genuine_witness :
  peel_onion_layer relay_keys (zeros 59) = Err FrameTooShort.
Proof. apply (peel_accepts_only_genuine relay_keys (zeros 59)). by vm_compute. Defined.

Definition empty_sim : sim := mkSim 1 ∅ ∅ ∅ [].
Definition stream_0 : sim_conn := (0%nat, []).

Lemma framing_roundtrip_witness :
  exists sent, len sent = 14 /\
    (exists r', read_frame stream_0 (set_in stream_0 (sent ++ [x41]) empty_sim) =
       (Ok short_message, r') /\ inbox r' stream_0 = [x41]).
Proof.
  destruct (framing_roundtrip stream_0 short_message empty_sim
              (write_frame stream_0 short_message empty_sim).2 stream_0
              (set_in stream_0 (frame_bytes short_message ++ [x41]) empty_sim) [x41] 0)
    as (sent & Ho & Hr & _); [by vm_compute|by vm_compute|].
  exists sent. assert (sent = frame_bytes short_message) as -> by (vm_compute in Ho; rewrite <- Ho; by vm_compute).
  split; [by vm_compute|]. apply Hr. by vm_compute.
Defined.

(** ** The mailbox port *)

Definition two_cells : Mailbox := mkMailbox [text "first"; text "second"].
Definition an_identity : RelayIdentity :=
  mkIdentity (text "relay-1") (public_key relay_keys) (text "127.0.0.1:9001").
Definition mailbox_address : bytes := text "127.0.0.1:10001".

(** A stream that carries the given request, and a world where a peer at
    the mailbox address answers with the given bytes. *)
Definition serving (request : bytes) : sim := set_in stream_0 request empty_sim.
Definition answering (answer : bytes) : sim := mkSim 1 ∅ ∅ {[mailbox_address := answer]} [].

Lemma pull_transfers_mailbox_witness :
  exists w3, pull mailbox_address (answering (pull_response (queue two_cells))) =
    (Ok (queue two_cells), w3).
Proof.
  destruct (handle_request stream_0 two_cells an_identity (serving [x01])) as [[r ws'] mb'] eqn:E.
  assert (r = Ok tt) as -> by (apply (run_1_of_3 _ _ _ _ _ E); vm_refl).
  assert (outbox ws' stream_0 = pull_response (queue two_cells)) as Ho
    by (assert (ws' = (handle_request stream_0 two_cells an_identity (serving [x01])).1.2) as -> by (by rewrite E); vm_refl).
  destruct (pull_transfers_mailbox (serving [x01]) stream_0 [] two_cells an_identity (Ok tt) ws' mb'
    mailbox_address (answering (pull_response (queue two_cells))) (1%nat, mailbox_address)
    (connect mailbox_address (answering (pull_response (queue two_cells)))).2
    (write_all (1%nat, mailbox_address) [x01]
      (connect mailbox_address (answering (pull_response (queue two_cells)))).2).2) as [_ Hp];
    [by vm_compute|exact E|].
  apply Hp; [done| |vm_refl|vm_refl|rewrite Ho; vm_refl].
  split; [by vm_compute|]. repeat constructor; by vm_compute.
Defined.


(** ** The relay node *)

Abbreviation sim_node := (RelayNode sim_conn (list (list byte)) nat).

Definition local_socket (port : Z) : SocketAddr := mkSocketAddr (text "127.0.0.1") port.
Definition relay_config : RelayConfig := mkRelayConfig (local_socket 9001) (text "relay-1") None 2.
Definition a_node : sim_node := fresh_node relay_config relay_keys.

(** A frame for the exit, a frame that does not peel, and a frame to forward. *)
Definition exit_frame : bytes :=
  match (build_onion_layer (public_key relay_keys) (Deliver short_message) 7).1 with
  | Ok f => f | Err _ => [] end.
Definition forward_frame : bytes :=
  match (build_onion_layer (public_key relay_keys) forward_payload 8).1 with
  | Ok f => f | Err _ => [] end.
Definition inbound : bytes :=
  frame_bytes exit_frame ++ frame_bytes [x00; x01] ++ frame_bytes exit_frame ++ [x00; x00].

Lemma relay_processes_stream_witness :
  exists frames tail r n' w' k,
    split_frames inbound = (frames, tail) /\
    handle_connection 400 stream_0 a_node (serving inbound) = (Some r, n', w') /\
    (k <= length frames)%nat /\
    delivery_tx n' = deliveries relay_keys (take k frames).
Proof.
  destruct (relay_processes_stream stream_0 a_node (serving inbound) 400)
    as (frames & tail & r & n' & w' & k & Hs & Hc & Hk & Hd & _);
    [cbn; lia|done|apply Nat.ltb_lt; by vm_compute|].
  exists frames, tail, r, n', w', k. split; [exact Hs|]. split; [exact Hc|]. split; [exact Hk|exact Hd].
Defined.

(** The next hop accepts connections. *)
Definition next_hop : bytes := text "10.0.0.2:9001".
Definition reachable : sim := mkSim 1 ∅ ∅ {[next_hop := []]} [].

Lemma forward_hands_over_witness :
  exists n' w' c, forward next_hop short_message a_node reachable = (Ok tt, n', w') /\
    outbound n' !! next_hop = Some c /\ dialled c = next_hop.
Proof.
  destruct (forward next_hop short_message a_node reachable) as [[r n'] w'] eqn:E.
  destruct (forward_hands_over next_hop short_message a_node reachable r n' w')
    as (_ & _ & _ & _ & _ & Hr); [apply map_Forall_empty|exact E|].
  assert (r = Ok tt) as -> by (apply (run_1_of_3 _ _ _ _ _ E); vm_refl).
  destruct (Hr eq_refl) as (c & Hc & Hd & _). by exists n', w', c.
Defined.

(** Two connections arrive at a relay that serves at most two. *)
Lemma connection_limit_witness :
  exists n : sim_node, rtc relay_step (a_node, [], empty_sim) (n, [stream_0; stream_0], empty_sim) /\
    accept_connection stream_0 n [stream_0; stream_0] =
      (set_metrics inc_rejected n, [stream_0; stream_0]).
Proof.
  set (n1 := set_limiter 1%nat a_node). set (n2 := set_limiter 0%nat a_node).
  assert (rtc relay_step (a_node, [], empty_sim) (n2, [stream_0; stream_0], empty_sim)) as Hr.
  { eapply rtc_l; [by apply (step_accept stream_0 a_node [] n1 [stream_0])|].
    eapply rtc_l; [by apply (step_accept stream_0 n1 [stream_0] n2 [stream_0; stream_0])|].
    apply rtc_refl. }
  exists n2. split; [exact Hr|].
  destruct (connection_limit relay_config relay_keys empty_sim n2 [stream_0; stream_0] empty_sim stream_0 Hr)
    as (_ & _ & _ & Ha). exact Ha.
Defined.

(** ** Topology, paths and circuits *)

(** Three relays; the first two share a /24 subnet. *)
Definition relay_key (i : Z) : KeyPair := (generate (40 + i)).1.
Definition relay_info (i : Z) (addr : string) : RelayInfo :=
  mkRelayInfo (text "relay-" ++ show_uint i) (text addr) (public_key (relay_key i)).
Definition relay_1 : RelayInfo := relay_info 1 "10.0.0.1:9001".
Definition relay_2 : RelayInfo := relay_info 2 "10.0.0.2:9001".
Definition relay_3 : RelayInfo := relay_info 3 "relay3:9001".
Definition known_relays : list RelayInfo := [relay_1; relay_2; relay_3].
Definition a_topology : Topology := add_relays topology_new known_relays.

Lemma a_topology_wf : wf_topology a_topology.
Proof. apply wf_add_relays, wf_topology_new. Qed.

Lemma a_topology_relays id r : get a_topology id = Some r -> r ∈ known_relays.
Proof.
  unfold a_topology. rewrite get_add_relays.
  destruct (last_with_id id known_relays) as [r'|] eqn:E; [|done]. intros [= <-].
  apply last_Some_elem_of in E. by apply list_elem_of_filter in E as [_ ?].
Qed.

Lemma topology_holds_last_added_witness :
  get a_topology (text "relay-2") = Some relay_2 /\ topology_len a_topology = 3.
Proof.
  destruct (topology_holds_last_added known_relays) as (Hg & _ & _ & _ & Hl & _).
  split; [etransitivity; [apply Hg|by vm_compute]|].
  unfold a_topology. rewrite <- Hl. by vm_compute.
Defined.

#[local] Instance a_json : Json unit TopologyFile := bits_json.
#[local] Instance a_json_laws : JsonLaws unit TopologyFile valid_file := bits_json_laws valid_file.
Definition no_files : gmap bytes bytes := ∅.

Lemma a_topology_valid : valid_topology a_topology.
Proof.
  split; [apply a_topology_wf|]. intros id r Hr. apply (a_topology_relays id) in Hr.
  repeat (apply elem_of_cons in Hr as [->|Hr]; [split_and!; by vm_compute|]).
  by apply not_elem_of_nil in Hr.
Qed.

Lemma topology_file_roundtrip_witness :
  exists w', save_to_file (E:=unit) a_topology (text "t.json") no_files = Done (Ok tt, w') /\
    (load_from_file (E:=unit) (text "t.json") w').1 = Ok a_topology.
Proof.
  destruct (save_to_file (E:=unit) a_topology (text "t.json") no_files) as [[res w']|] eqn:E; [|done].
  destruct (topology_file_roundtrip a_topology (text "t.json") no_files res w' a_topology_valid E)
    as [_ Hl].
  assert (res = Ok tt) as -> by (unfold save_to_file in E; cbn in E; congruence).
  exists w'. split; [done|]. by apply Hl.
Defined.

Lemma from_json_spec_witness :
  exists raw es, from_json (E:=unit) raw = Ok a_topology /\ from_str raw = Ok (mkTopologyFile 1 es).
Proof.
  destruct (from_to_json (E:=unit) a_topology a_topology_valid) as (raw & _ & E).
  pose proof (from_json_spec (E:=unit) raw) as H. rewrite E in H.
  destruct H as (es & rs & Hp & _). by exists raw, es.
Defined.

(** One relay answers, another address does not. *)
Lemma discovered_topology_typed_witness :
  exists t json unreachable w',
    discover_relays (E:=unit) [text "discover_relays"; mailbox_address; text "nowhere:1"]
      (answering (describe_response an_identity)) = Done (Scanned 1 json unreachable, w') /\
    from_json (E:=unit) json = Ok t /\ get t (text "relay-1") = Some (identity_relay an_identity).
Proof.
  pose proof (discovered_topology_typed (E:=unit) (text "discover_relays") [mailbox_address; text "nowhere:1"]
    (answering (describe_response an_identity))) as H.
  destruct (discover_topology _ _) as [[t unreachable] w'] eqn:E. destruct H as (_ & json & Hd & Hj).
  assert (t = add_relay topology_new (identity_relay an_identity)) as ->
    by (apply (run_1_of_3 _ _ _ _ _ E); vm_refl).
  exists (add_relay topology_new (identity_relay an_identity)), json, unreachable, w'.
  split; [etransitivity; [exact Hd|done]|]. split; [exact Hj|by vm_compute].
Defined.

Lemma select_path_spec_witness :
  match (select_path a_topology 2 (5 : Z)).1 with
  | Ok path => length path = 2%nat
  | Err _ => False
  end.
Proof.
  pose proof (select_path_spec a_topology 2 (5 : Z) a_topology_wf) as H.
  destruct (select_path a_topology 2 (5 : Z)).1 as [path|[n a]] eqn:E; [apply H|].
  destruct H as (_ & H & Hlt & _). vm_compute in E. discriminate E.
Defined.

(** Two relays of three: the subnet shared by the first two is not repeated. *)
Lemma select_diverse_path_spec_witness :
  match (select_diverse_path a_topology 3 (5 : Z)).1 with
  | Ok path => length path = 3%nat
  | Err _ => False
  end.
Proof.
  pose proof (select_diverse_path_spec a_topology 3 (5 : Z) a_topology_wf) as H.
  destruct (select_diverse_path a_topology 3 (5 : Z)).1 as [path|e] eqn:E; [apply H|].
  destruct H as [H _]. vm_compute in H. discriminate H.
Defined.

Lemma relay_owns i addr : owns (relay_key i) (relay_info i addr).
Proof. split; [apply generate_wf|done]. Qed.

Lemma circuit_routes_to_exit_witness :
  match (build_circuit known_relays short_message (6 : Z)).1 with
  | Ok frame => follow [relay_key 1; relay_key 2; relay_key 3] frame =
      Some ([text "10.0.0.2:9001"; text "relay3:9001"], short_message) /\ len frame = 221
  | Err _ => False
  end.
Proof.
  pose proof (circuit_routes_to_exit [relay_key 1; relay_key 2; relay_key 3] known_relays
    short_message (6 : Z)) as H.
  destruct (build_circuit known_relays short_message (6 : Z)).1 as [frame|e].
  - destruct H as (_ & Hf & Hl).
    + repeat constructor; apply generate_wf.
    + repeat constructor; by vm_compute.
    + by vm_compute.
    + split; [exact Hf|]. rewrite Hl. by vm_compute.
  - destruct H as [H _]; [repeat constructor; apply generate_wf|repeat constructor; by vm_compute|by vm_compute|].
    discriminate H.
Defined.

(** ** Timing and sessions *)

Lemma dummy_delay_within_range_witness :
  exists delay c rng', next_dummy (mkGenerator (from_millis 50) (from_millis 150)) (5 : Z) =
    Done (delay, c, rng') /\ from_millis 50 <= delay /\ delay < from_millis 150.
Proof.
  destruct (dummy_delay_within_range (mkGenerator (from_millis 50) (from_millis 150)) (5 : Z))
    as (delay & c & rng' & E & Hlo & Hhi & _); [split; by vm_compute|split; by vm_compute|by vm_compute|].
  exists delay, c, rng'. split; [exact E|]. split; [exact Hlo|]. apply Hhi. by vm_compute.
Defined.

Lemma session_key_agreement_witness :
  exists s, (establish (public_key recipient_keys) (12 : Z)).1 = Ok s /\
    derive_key (diffie_hellman recipient_keys (session_public_key s)) SESSION_CONTEXT = Ok (cell_key s).
Proof.
  destruct (session_key_agreement recipient_keys (12 : Z) recipient_keys_wf) as (s & E & _ & _ & Hk).
  exists s. split; [exact E|exact Hk].
Defined.

(** ** Sending and receiving *)

Definition key_of_relay (r : RelayInfo) : KeyPair :=
  if decide (info_id r = info_id relay_1) then relay_key 1
  else if decide (info_id r = info_id relay_2) then relay_key 2 else relay_key 3.

Definition relay_listening (addr : bytes) : option KeyPair :=
  if decide (addr = info_address relay_1) then Some (relay_key 1)
  else if decide (addr = info_address relay_2) then Some (relay_key 2)
  else if decide (addr = info_address relay_3) then Some (relay_key 3) else None.

Definition a_client : VeilClient := mkClient a_topology 2.

(** A case analysis over the known relays. *)
Ltac each_relay H :=
  apply (a_topology_relays _) in H;
  repeat (apply elem_of_cons in H as [->|H]); [| | |by apply not_elem_of_nil in H].

Lemma a_client_usable : usable key_of_relay a_client.
Proof.
  constructor; [apply a_topology_wf| |by vm_compute|by vm_compute].
  intros r Hr. each_relay Hr.
  - split; [split; by vm_compute|]. apply (relay_owns 1).
  - split; [split; by vm_compute|]. apply (relay_owns 2).
  - split; [split; by vm_compute|]. apply (relay_owns 3).
Qed.

Lemma a_client_deployed : deployed key_of_relay relay_listening a_client.
Proof. intros r Hr. each_relay Hr; by vm_compute. Qed.

Definition a_session : Session :=
  match (establish (public_key recipient_keys) (12 : Z)).1 with
  | Ok s => s | Err _ => mkSession relay_keys [] end.

Lemma a_session_with : session_with recipient_keys a_session.
Proof.
  destruct (establish_ok recipient_keys (12 : Z) recipient_keys_wf) as (s & E & Hs).
  unfold a_session. by rewrite E.
Qed.

(** All three relays accept connections. *)
Definition all_up : sim :=
  mkSim 1 ∅ ∅ (list_to_map [(info_address relay_1, []); (info_address relay_2, []);
                            (info_address relay_3, [])]) [].

Definition sim_up (w : sim) : Prop :=
  sim_broken w = [] /\ sim_script w = sim_script all_up.

Lemma a_client_up : stays_up a_client sim_up.
Proof.
  constructor.
  - intros r w [Hb Hs] Hr.
    assert (sim_script w !! info_address r = Some []) as E
      by (rewrite Hs; each_relay Hr; by vm_compute).
    cbn. unfold sim_connect. rewrite E. eexists _, _. split; [reflexivity|]. by split.
  - intros c bs w [Hb Hs]. cbn. rewrite Hb, decide_False by by intros [_ ?%elem_of_nil].
    eexists. split; [reflexivity|]. by split.
Qed.

Lemma client_send_spec_witness :
  exists scs rng' w' cells, send a_client a_session long_message (5 : Z) all_up = Done (Ok scs, rng', w') /\
    length cells = 2%nat /\ exists conns, Forall3 (on_wire key_of_relay a_client a_session w') cells scs conns.
Proof.
  destruct (client_send_spec key_of_relay a_client a_session long_message (5 : Z) all_up)
    as (r & rng' & w' & id & cells & k & scs & conns & E & Hf & _ & _ & Hall & _ & Hr & Hup);
    [apply a_client_usable|by vm_compute|by vm_compute|].
  assert (r = Ok scs) as -> by (apply (Hup sim_up); [apply a_client_up|by split]).
  destruct Hr as [[-> _]|[_ [e Hr]]]; [|discriminate Hr].
  rewrite take_ge in Hall by lia. exists scs, rng', w', cells.
  split; [exact E|]. split; [|by exists conns].
  pose proof (fr_payload _ _ _ Hf) as Hp%(f_equal length). rewrite length_map in Hp.
  rewrite Hp. by vm_compute.
Defined.

Lemma client_send_refuses_witness :
  send (R:=Z) a_client a_session [] 5 all_up =
    Done (Err (Core (MessageTooLarge 0 MAX_MESSAGE_SIZE)), 5, all_up).
Proof.
  destruct (client_send_refuses a_client a_session [] (5 : Z) all_up a_topology_wf) as (e & rng' & Ha & _).
  apply Ha. by left.
Defined.

Lemma cover_traffic_shape_witness :
  exists delay rng' w', cover_step a_topology 2 (mkGenerator 0 (from_millis 100)) (5 : Z) all_up =
    Done (delay, rng', w') /\ 0 <= delay < from_millis 100.
Proof.
  destruct (cover_traffic_shape key_of_relay a_client (mkGenerator 0 (from_millis 100)) (5 : Z) all_up)
    as (delay & rng' & path & first & onion & env & E & Hlo & Hhi & _);
    [apply a_client_usable|split; by vm_compute|split; by vm_compute|by vm_compute|].
  eexists delay, rng', _. split; [exact E|]. split; [exact Hlo|]. apply Hhi. by vm_compute.
Defined.

Lemma cover_task_runs_witness :
  exists turns rng', spawn_cover_traffic a_client (from_millis 10) (from_millis 30) [all_up; all_up] (5 : Z) =
    Done (turns, rng') /\ 2 * from_millis 10 <= slept turns < 2 * from_millis 30.
Proof.
  destruct (cover_task_runs key_of_relay a_topology 2 (from_millis 10) (from_millis 30) [all_up; all_up] (5 : Z))
    as (turns & rng' & E & _ & Hlo & Hhi);
    [apply a_client_usable|split; by vm_compute|split; by vm_compute|by vm_compute|by vm_compute|].
  exists turns, rng'. split; [exact E|]. split; [exact Hlo|]. by apply Hhi.
Defined.

(** The envelopes of a message, as the exits queue them: in reverse order and
    with one that is not for the recipient. *)
Definition envelope_of (s : Session) (c : Cell) : bytes :=
  match (encrypt_cell (cell_key s) c (21 : Z)).1 with
  | Done (Ok enc) => wrap (session_public_key s) enc
  | _ => []
  end.

Definition queued : list bytes :=
  replicate 572 x55 :: rev (map (envelope_of a_session) (fragments long_message)).

(** Two mailboxes; the second is down in [one_down]. *)
Definition mailbox_2 : bytes := text "10.0.0.2:10001".
Definition both_up : sim :=
  mkSim 1 ∅ ∅ (list_to_map [(mailbox_address, pull_response queued); (mailbox_2, pull_response [])]) [].
Definition one_down : sim := mkSim 1 ∅ ∅ {[mailbox_address := pull_response queued]} [].

Definition a_receiver : Receiver := Receiver_new recipient_keys.

Lemma pulled_both : exists w', pull_each [mailbox_address; mailbox_2] both_up = (Ok queued, w').
Proof. apply run_1. vm_refl. Qed.

Lemma pulled_first : exists w', pull mailbox_address one_down = (Ok queued, w') /\
  exists e w2, pull_each [mailbox_2] w' = (Err e, w2).
Proof.
  exists (pull mailbox_address one_down).2. split.
  - apply run_pair. vm_refl.
  - eexists. apply run_1. vm_compute. reflexivity.
Qed.

Lemma opened_queued : omap (opened recipient_keys) queued = rev (fragments long_message).
Proof. by vm_compute. Qed.

Lemma receive_opens_everything_witness :
  exists w', receive recipient_keys [mailbox_address; mailbox_2] both_up =
    Done (Ok (rev (fragments long_message)), w').
Proof.
  destruct (receive_opens_everything recipient_keys [mailbox_address; mailbox_2] both_up) as [E _].
  destruct pulled_both as [w' Hp]. rewrite Hp, opened_queued in E. exists w'. exact E.
Defined.

Lemma failed_pull_loses_batch_witness :
  exists e w2, poll a_receiver [mailbox_address; mailbox_2] one_down =
    Done (Err (ReceiveIo e), a_receiver, w2).
Proof.
  destruct pulled_first as (w1 & E1 & e & w2 & E2).
  destruct (failed_pull_loses_batch a_receiver mailbox_address queued [mailbox_2] one_down w1 e w2 E1 E2)
    as [_ Hp].
  exists e, w2. exact Hp.
Defined.

Lemma polls_recover_message_witness :
  exists outs rv' w', poll_all a_receiver [[mailbox_address]; [mailbox_2]] both_up =
    Done (map Ok outs, rv', w') /\ long_message ∈ concat outs.
Proof.
  destruct pulled_both as [w' Hp].
  destruct (polls_recover_message a_receiver [[mailbox_address]; [mailbox_2]] both_up queued w'
              message_id_5 long_message (fragments long_message))
    as (outs & r' & E & Hin & _).
  - apply map_Forall_empty.
  - done.
  - exact Hp.
  - exact long_fragments.
  - change (recv_identity a_receiver) with recipient_keys. rewrite opened_queued.
    assert (filter (fun c => c_message_id c = message_id_5) (rev (fragments long_message)) =
              rev (fragments long_message)) as -> by (apply filter_Forall; repeat constructor; by vm_compute).
    symmetry. apply Permutation_rev.
  - eexists outs, _, w'. split; [exact E|exact Hin].
Defined.

(** ** End to end *)

Lemma relay_refines_fabric_witness :
  exists n' w' emitted delivered,
    process_frame forward_frame a_node reachable = (Continue, n', w') /\
    fabric_step (fun _ => Some relay_keys)
      ([] ++ (text "10.0.0.1:9001", forward_frame) :: [], [])
      ([] ++ emitted ++ [], [] ++ delivered).
Proof.
  destruct (process_frame forward_frame a_node reachable) as [[fl n'] w'] eqn:E.
  assert (fl = Continue) as -> by (apply (run_1_of_3 _ _ _ _ _ E); vm_refl).
  destruct (relay_refines_fabric (fun _ => Some relay_keys) (text "10.0.0.1:9001") forward_frame
              a_node reachable n' w' [] [] []) as (emitted & delivered & Hs & _);
    [done|apply map_Forall_empty|done|exact E|].
  exists n', w', emitted, delivered. split; [done|exact Hs].
Defined.

Lemma message_reaches_recipient_witness :
  exists scs rng' w' (cells : list Cell) conns packets,
    send a_client a_session long_message (5 : Z) all_up = Done (Ok scs, rng', w') /\
    length scs = length cells /\ Forall2 (carries w') conns packets /\
    forall n st, nsteps (fabric_step relay_listening) n (packets, []) st ->
      (n <= length cells * 2)%nat /\
      (st.1 <> [] -> exists st', fabric_step relay_listening st st') /\
      (st.1 = [] -> length st.2 = length cells).
Proof.
  destruct (message_reaches_recipient key_of_relay relay_listening a_client a_session recipient_keys
              long_message (5 : Z) all_up) as (r & rng' & w' & E & Hup & H);
    [apply a_client_usable|apply a_client_deployed|apply a_session_with|by vm_compute|].
  destruct (Hup sim_up) as [scs ->]; [apply a_client_up|by split|].
  destruct (H scs eq_refl) as (id & cells & conns & packets & _ & Hl & _ & Hc & Hrun).
  exists scs, rng', w', cells, conns, packets. split; [exact E|]. split; [exact Hl|]. split; [exact Hc|].
  intros n st Hn. destruct (Hrun n st Hn) as (Hle & Hp & Hd). split; [exact Hle|]. split; [exact Hp|].
  intros Hnil. apply (Hd Hnil).
Defined.

(** ** The binaries *)

Lemma mailbox_addr_spec_witness :
  mailbox_addr true (local_socket 9001) = Done (local_socket 10001) /\
  mailbox_addr true (local_socket 65000) = Panic.
Proof.
  split.
  - apply (mailbox_addr_spec (local_socket 9001)); by vm_compute.
  - apply (mailbox_addr_spec (local_socket 65000)); by vm_compute.
Defined.

Definition persisted_config : RelayConfig :=
  mkRelayConfig (local_socket 9001) (text "relay-1") (Some (to_hex relay_keys)) 2.

Lemma relay_setup_identity_witness :
  exists (node : sim_node) mb ident rng',
    relay_setup true persisted_config (5 : Z) = Done (Ok (node, mb, ident), rng') /\
    keypair node = relay_keys /\ mb = local_socket 10001.
Proof.
  destruct (relay_setup_identity (R:=Z) (Conn:=sim_conn) (Ch:=list (list byte)) (Sem:=nat)
              true persisted_config 5) as [_ H]; [by vm_compute|by vm_compute|].
  destruct (H 3) as (node & mb & ident & rng' & E & _ & Hk & _ & _ & _ & Hm & _); [by right|].
  exists node, mb, ident, rng'. split; [exact E|]. split; [by apply Hk|exact Hm].
Defined.

Lemma parse_args_spec_witness :
  parse_args [text "hi"; TOPOLOGY_FLAG; text "t.json"] = Done (External (text "t.json") (text "hi")) /\
  parse_args [text "hi"; text "5"] = Done (SelfHosted (text "hi") 5).
Proof.
  destruct (parse_args_spec [text "hi"] [] (text "t.json") []) as (H & _).
  { intros Hin%list_elem_of_singleton. discriminate Hin. }
  split; [exact H|].
  destruct (parse_args_spec [text "hi"; text "5"] [] [] []) as (_ & _ & H' & _).
  { intros Hin. apply elem_of_cons in Hin as [Hin|Hin%list_elem_of_singleton]; discriminate Hin. }
  etransitivity; [exact H'|by vm_compute].
Defined.

Lemma mailbox_address_agrees_witness :
  mailbox_address_from true (text "127.0.0.1:9001") = Done (text "127.0.0.1:10001").
Proof.
  destruct (mailbox_address_agrees true (local_socket 9001) []) as [H _]; [split; by vm_compute|].
  etransitivity; [exact H|by vm_compute].
Defined.

Lemma self_hosted_usable_witness :
  exists t rs hs rng' w',
    start_relays (W:=lab) (Conn:=sim_conn) (Ch:=list (list byte)) (Sem:=nat) true 3 0
      topology_new [] (5 : Z) lab_new = Done (t, mailboxes hs, rng', w') /\
    Forall2 (serves (Conn:=sim_conn) (Ch:=list (list byte)) (Sem:=nat) true) hs rs /\ length hs = 3%nat.
Proof.
  destruct (self_hosted_usable (W:=lab) (Conn:=sim_conn) (Ch:=list (list byte)) (Sem:=nat) true 3 (5 : Z) lab_new)
    as (t & rs & hs & rng' & w' & E & _ & _ & Hl & _ & Hs & _); [lia|by vm_compute|].
  exists t, rs, hs, rng', w'. split; [exact E|]. split; [exact Hs|exact Hl].
Defined.

(** ** The unit tests *)

(** A parser that knows the texts of the tests. *)
Definition text_json : Json unit TopologyFile := {|
  from_str s :=
    if decide (s = version_99_text) then Ok {| version := 99; file_relays := [] |}
    else if decide (s = one_relay_text "not hex at all") then Ok (one_relay_file "not hex at all")
    else if decide (s = one_relay_text "aabbcc") then Ok (one_relay_file "aabbcc")
    else if decide (s = b_ "not json at all") then Err tt
    else @from_str _ _ bits_json s;
  to_string_pretty f := @to_string_pretty _ _ bits_json f
|}.

Lemma bits_differ p (s : bytes) :
  bool_decide (s = [] \/ head s = Some x30 \/ head s = Some x31) = false -> bits_of_pos p <> s.
Proof. intros Hs%bool_decide_eq_false <-. apply Hs. destruct p; cbn; auto. Qed.

Lemma text_json_laws : @JsonLaws unit TopologyFile valid_file text_json.
Proof.
  constructor; [by eexists|]. intros a s _ Hs. injection Hs as <-. cbn [from_str text_json bits_json].
  rewrite !decide_False by (by apply bits_differ; vm_compute).
  by rewrite pos_of_bits_of_pos, countable.decode_encode.
Qed.

Lemma texts_parse : @parses_test_texts unit text_json.
Proof.
  constructor.
  - by vm_compute.
  - intros key [->|[->|[]%elem_of_nil]%elem_of_cons]%elem_of_cons.
    + by vm_compute.
    + by vm_compute.
  - exists tt. by vm_compute.
Qed.

Lemma unit_tests_pass_witness :
  passes (@json_roundtrip_preserves_every_relay unit Z _ _ _ _ text_json (5 : Z)) /\
  passes (exceeding_max_connections_rejects_new_connections (R:=Z) (Ch:=list (list byte)) (Sem:=nat)
            stream_0 (7%nat, text "another client") 5) /\
  Forall passes (@topology_file_tests unit Z (gmap bytes bytes) _ _ _ _ _ text_json (text "/tmp/topology.json") ∅ (5 : Z)) /\
  Forall passes (discovery_tests (5 : Z)).
Proof.
  pose proof (@unit_tests_pass Z unit (gmap bytes bytes) sim sim_conn (list (list byte)) nat _ _ _ _ _ _ _ _ _ _ _ _
    text_json text_json_laws _ _ _ _ (5 : Z)
    stream_0 (7%nat, text "another client") [stream_0; stream_0; stream_0; stream_0] true
    (text "/tmp/topology.json") ∅) as H.
  destruct H as (_ & (_ & _ & _ & Hj & Hf) & (_ & _ & He & _) & (_ & Hd & _));
    [by vm_compute|done|exact texts_parse|by intros data; eexists|].
  split; [exact Hj|]. split; [exact He|]. split; [exact Hf|exact Hd].
Defined.
