(* ===== verification/Runs.v ===== *)
(** * Whole runs

    The theorems on runs of a relay process and of the command line, applied to
    runs in the executable network of [Laboratory] and [Instances]. *)
From S2P Require Import Prelude.
From S2P Require Import RustStd.
From S2P Require Import RustFmt.
From S2P Require Import Interfaces.
From S2P Require Import Instances.
From S2P Require Import Cell.
From S2P Require Import Fragmentation.
From S2P Require Import Reassembly.
From S2P Require Import Encryption.
From S2P Require Import Keys.
From S2P Require Import Forwarding.
From S2P Require Import Mailbox.
From S2P Require Import PullListener.
From S2P Require Import PullServer.
From S2P Require Import Node.
From S2P Require Import RelayProcess.
From S2P Require Import Topology.
From S2P Require Import TopologyFile.
From S2P Require Import PathSelection.
From S2P Require Import Circuit.
From S2P Require Import Discovery.
From S2P Require Import DummyTraffic.
From S2P Require Import Envelope.
From S2P Require Import Session.
From S2P Require Import Client.
From S2P Require Import Receiver.
From S2P Require Import EndToEnd.
From S2P Require Import RelayMain.
From S2P Require Import Cli.
From S2P Require Import CliRun.
From S2P Require Import Laboratory.
From S2P Require Import Witnesses.

Open Scope Z_scope.

#[local] Instance a_json : Json unit TopologyFile := bits_json.

(** ** Whole runs *)

(** The relays of a list are the only ones a topology built from it knows. *)
Lemma known_from (rs : list RelayInfo) id r : get (add_relays topology_new rs) id = Some r -> r ∈ rs.
Proof.
  rewrite get_add_relays. destruct (last_with_id id rs) as [r'|] eqn:E; [|done]. intros [= <-].
  apply last_Some_elem_of in E. by apply list_elem_of_filter in E as [_ ?].
Qed.

Section lab_runs.
Context (rs : list RelayInfo) (key : RelayInfo -> KeyPair).

Let self : VeilClient := mkClient (add_relays topology_new rs) (length rs).

Definition listening (addr : bytes) : option KeyPair :=
  key <$> head (filter (fun r => info_address r = addr) rs).

Lemma lab_usable :
  Forall (fun r => routable r /\ owns (key r) r) rs -> 1 <= len rs <= 60000 ->
  len rs = topology_len (topology self) -> usable key self.
Proof.
  intros Hrs Hl Ht. constructor; cbn; [apply wf_add_relays, wf_topology_new| |done|].
  - intros r Hr. apply known_from in Hr. by apply (proj1 (Forall_forall _ _) Hrs).
  - unfold len in Ht. cbn in Ht. lia.
Qed.

Lemma lab_deployed : Forall (fun r => listening (info_address r) = Some (key r)) rs -> deployed key listening self.
Proof. intros Hrs r Hr. apply known_from in Hr. by apply (proj1 (Forall_forall _ _) Hrs). Qed.

Lemma lab_stays_up : stays_up self (lab_up (info_address <$> rs)).
Proof.
  constructor.
  - intros r w Hw Hr. apply known_from in Hr. apply lab_up_connect; [done|].
    apply list_elem_of_fmap. by exists r.
  - intros c bs w Hw. by apply lab_up_write.
Qed.
End lab_runs.

(** The external mode: the three known relays, and their topology file. *)
Definition relay_address_box (r : RelayInfo) : bytes :=
  match mailbox_address_from true (info_address r) with Done a => a | Panic => [] end.

Definition external_lab : lab :=
  mkLab (mkSim 0 ∅ ∅ ∅ [])
    (list_to_map (map (fun r => (info_address r, (key_of_relay r, relay_address_box r))) known_relays))
    (list_to_map (map (fun r => (relay_address_box r, [])) known_relays)) 0
    {[text "t.json" := match to_json (E:=unit) a_topology with Done raw => raw | Panic => [] end]} [].

Definition sent_state (t : Topology) (hops : nat) (message : bytes) (rng : Z) (w : lab) :
    option (Session * Z * list SentCircuit * Z * lab) :=
  match establish (public_key (generate rng).1) (generate rng).2 with
  | (Ok session, rng2) =>
      match send (mkClient t hops) session message rng2 w with
      | Done (Ok scs, rng3, w1) => Some (session, rng2, scs, rng3, w1)
      | _ => None
      end
  | _ => None
  end.

(** The network of a run that starts in the laboratory settles, by computation. *)
Lemma lab_settling rs relay_at message (addrs : list bytes) (rng : Z) (w : lab) session rng2 scs rng3 w1 c0 frame :
  let t := add_relays topology_new rs in
  lab_up (info_address <$> rs) w ->
  sent_state t (length rs) message rng w = Some (session, rng2, scs, rng3, w1) ->
  length scs = 1%nat -> one_new_stream (sim_next (lab_sim w)) c0 w1 = true ->
  sim_outbox (lab_sim w1) c0 = frame_bytes frame ->
  let delivered := default [] (fabric_run 16 relay_at [(c0.2, frame)] []) in
  fabric_run 16 relay_at [(c0.2, frame)] [] = Some delivered ->
  (pull_each addrs (sleep 300 w1)).1 = Ok (map snd delivered) ->
  settling relay_at (mkClient t (length rs)) message addrs rng w.
Proof.
  intros t Hup Hsent Hone Hnew Hout delivered Hrun Hpull. constructor.
  - exists (lab_up (info_address <$> rs)). split; [apply lab_stays_up|done].
  - intros session' rng2' scs' rng3' w1' Ee Es. unfold sent_state in Hsent. rewrite Ee, Es in Hsent.
    injection Hsent as -> -> -> -> ->. rewrite Hone.
    destruct (pull_each addrs (sleep 300 w1)) as [raws w2] eqn:E. cbn in Hpull. subst raws.
    by eapply lab_settles.
Qed.

Definition a_state (t : option (Session * Z * list SentCircuit * Z * lab)) :
    Session * Z * list SentCircuit * Z * lab :=
  default (a_session, 0, [], 0, lab_new) t.

Definition state_lab (t : option (Session * Z * list SentCircuit * Z * lab)) : lab := (a_state t).2.

(** The only stream that carries data, and its frame. *)
Definition new_stream (w1 : lab) : sim_conn := default (0%nat, []) (head (map_to_list (sim_out (lab_sim w1))).*1).
Definition new_frame (w1 : lab) : bytes := drop 4 (sim_outbox (lab_sim w1) (new_stream w1)).

Lemma known_relays_routable : Forall (fun r => routable r /\ owns (key_of_relay r) r) known_relays.
Proof.
  repeat apply Forall_cons_2; [..|constructor]; (split; [split; by vm_compute|]).
  - apply (relay_owns 1).
  - apply (relay_owns 2).
  - apply (relay_owns 3).
Qed.

Definition external_addrs : list bytes :=
  match mailbox_addresses true (all a_topology) with Done a => a | Panic => [] end.
Definition external_sent := sent_state a_topology 3 short_message 5 external_lab.

Definition short_line : bytes := text "veil-cli: delivered payload = " ++ [x22] ++ short_message ++ [x22].

Lemma short_plain : Forall plain short_message.
Proof. repeat (apply Forall_cons_2; [split_and!; [by vm_compute|by vm_compute|done|done]|]). constructor. Qed.

Lemma external_settling :
  settling (listening known_relays key_of_relay) (mkClient a_topology 3) short_message external_addrs (5 : Z) external_lab.
Proof.
  apply (lab_settling known_relays _ short_message _ 5 external_lab
      (a_state external_sent).1.1.1.1 (a_state external_sent).1.1.1.2 (a_state external_sent).1.1.2
      (a_state external_sent).1.2 (state_lab external_sent) (new_stream (state_lab external_sent))
      (new_frame (state_lab external_sent))).
  - split; [|vm_refl]. repeat apply Forall_cons_2; [..|constructor];
      (split; [eexists; vm_compute; reflexivity|vm_refl]).
  - vm_refl.
  - vm_refl.
  - vm_refl.
  - vm_refl.
  - vm_refl.
  - vm_refl.
Qed.

Lemma external_mode_prints_witness :
  exists rng' w',
    cli_main (Conn:=sim_conn) (Ch:=list (list byte)) (Sem:=nat) (E:=unit) true
      [text "veil-cli"; short_message; TOPOLOGY_FLAG; text "t.json"] (5 : Z) external_lab =
    Done (Printed [short_line], rng', w').
Proof.
  assert (short_message <> TOPOLOGY_FLAG) as Hne by done.
  pose proof (external_mode_prints (Conn:=sim_conn) (Ch:=list (list byte)) (Sem:=nat) (E:=unit) true
    (text "veil-cli") short_message (text "t.json") (5 : Z) external_lab Hne) as H.
  assert (load_from_file (E:=unit) (text "t.json") external_lab = (Ok a_topology, external_lab)) as El
    by (vm_refl).
  rewrite El in H.
  destruct (H external_addrs key_of_relay (listening known_relays key_of_relay)) as (ls & rng' & w' & E & _ & _ & _ & Hone).
  - vm_refl.
  - constructor.
    + apply (lab_usable known_relays); [apply known_relays_routable|split; intros E; vm_compute in E; discriminate E|vm_refl].
    + apply (lab_deployed known_relays). repeat apply Forall_cons_2; [vm_refl..|constructor].
    + split; intros E; vm_compute in E; discriminate E.
    + apply external_settling.
  - exists rng', w'. rewrite (Hone ltac:(intros Hc; vm_compute in Hc; discriminate Hc) short_plain) in E. exact E.
Defined.

(** The self-hosted mode, with two relays. *)
Definition started :=
  start_relays (W:=lab) (Conn:=sim_conn) (Ch:=list (list byte)) (Sem:=nat) true 2 0
    topology_new [] (5 : Z) lab_new.
Definition started_lab : lab := match started with Done (_, _, _, w) => w | Panic => lab_new end.
Definition hosted_lab : lab := sleep 200 started_lab.
Definition hosted_relay (i : Z) : RelayInfo :=
  mkRelayInfo (local_id i) (local_address i) (public_key (generate (5 + i)).1).
Definition hosted : list RelayInfo := [hosted_relay 0; hosted_relay 1].
Definition hosted_sent := sent_state (add_relays topology_new hosted) 2 short_message 7 hosted_lab.

Lemma hosted_settling :
  settling (hosting (spawned started_lab)) (mkClient (add_relays topology_new hosted) 2) short_message
    (mailboxes (spawned started_lab)) (7 : Z) hosted_lab.
Proof.
  apply (lab_settling hosted _ short_message _ 7 hosted_lab
      (a_state hosted_sent).1.1.1.1 (a_state hosted_sent).1.1.1.2 (a_state hosted_sent).1.1.2
      (a_state hosted_sent).1.2 (state_lab hosted_sent) (new_stream (state_lab hosted_sent))
      (new_frame (state_lab hosted_sent))).
  - split; [|vm_refl]. repeat apply Forall_cons_2; [..|constructor];
      (split; [eexists; vm_compute; reflexivity|vm_refl]).
  - vm_refl.
  - vm_refl.
  - vm_refl.
  - vm_refl.
  - vm_refl.
  - vm_refl.
Qed.

Lemma self_hosted_mode_witness :
  exists rng' w',
    run_self_hosted (W:=lab) (Conn:=sim_conn) (Ch:=list (list byte)) (Sem:=nat) true short_message 2
      (5 : Z) lab_new = Done (Printed [short_line], rng', w').
Proof.
  assert (0 <= 2) as Hh by lia.
  destruct (self_hosted_mode (W:=lab) (Conn:=sim_conn) (Ch:=list (list byte)) (Sem:=nat) true short_message 2
    (5 : Z) lab_new Hh) as [_ H]; [reflexivity|].
  destruct H as (t & rs & rng1 & w1 & E & _ & _ & _ & _ & Hrun);
    [split; intros Hc; vm_compute in Hc; discriminate Hc..|].
  assert (started = Done (add_relays topology_new hosted, mailboxes (spawned started_lab), 7, started_lab)) as E'
    by vm_refl.
  assert (Done (t, mailboxes (spawned w1), rng1, w1) =
          Done (add_relays topology_new hosted, mailboxes (spawned started_lab), 7, started_lab)) as Eq
    by (etransitivity; [symmetry; exact E|exact E']).
  injection Eq as -> _ -> ->.
  destruct (Hrun hosted_settling) as (ls & rng' & w' & Er & _ & _ & _ & Hone).
  exists rng', w'. rewrite (Hone ltac:(intros Hc; vm_compute in Hc; discriminate Hc) short_plain) in Er. exact Er.
Defined.

(** ** A relay process *)

Abbreviation sim_process := (Process sim_conn (list (list byte)) nat).

(** A cell arrives, is delivered and queued, and a PULL takes it. *)
Definition inbound_stream : sim_conn := (0%nat, text "sender").
Definition pull_stream : sim_conn := (1%nat, text "client").
Definition exit_body : bytes := text "a delivered cell".
Definition exit_layer : bytes :=
  match (build_onion_layer (public_key relay_keys) (Deliver exit_body) (31 : Z)).1 with
  | Ok f => f | Err _ => [] end.

Definition quiet : sim := mkSim 0 ∅ ∅ ∅ [].
Definition arriving (w : sim) (c : sim_conn) (b : bytes) : sim :=
  mkSim (S (sim_next w)) (<[c := b]> (sim_in w)) (<[c := []]> (sim_out w)) (sim_script w) (sim_broken w).

Definition stage0 : sim_process * sim :=
  (process_new (fresh_node relay_config relay_keys) an_identity true, quiet).
Definition accepted := accept_connection inbound_stream (pr_node stage0.1) (pr_active stage0.1).
Definition stage1 : sim_process * sim :=
  (with_node accepted.1 accepted.2 stage0.1, arriving quiet inbound_stream (frame_bytes exit_layer)).
Definition handled := handle_frame inbound_stream (pr_node stage1.1) stage1.2.
Definition stage2 : sim_process * sim :=
  (with_node handled.1.2 (pr_active stage1.1) stage1.1, handled.2).
Definition stage3 : sim_process * sim :=
  (with_queue 1 (Some exit_body) (pr_mailbox stage2.1) stage2.1, stage2.2).
Definition stage4 : sim_process * sim :=
  (with_queue 1 None (push (pr_mailbox stage3.1) exit_body) stage3.1, stage3.2).
Definition stage5 : sim_process * sim :=
  (with_requests true (pr_mailbox stage4.1) (pr_requests stage4.1 ++ [(pull_stream, AwaitRequest)]) stage4.1,
   arriving stage4.2 pull_stream [PULL_REQUEST_BYTE]).

(** One turn of the request's task. *)
Definition turn (st : sim_process * sim) (t : request_task) : sim_process * sim :=
  match task_step pull_stream t (pr_mailbox st.1) an_identity st.2 with
  | (Goes t', mb, w) => (with_requests true mb [(pull_stream, t')] st.1, w)
  | (Ends _, mb, w) => (with_requests true mb [] st.1, w)
  end.

Definition pull_buffers : list bytes := pull_writes [exit_body].
Definition stage6 := turn stage5 AwaitRequest.
Definition stage7 := turn stage6 Draining.
Definition stage8 := turn stage7 (Responding pull_buffers).
Definition stage9 := turn stage8 (Responding (drop 1 pull_buffers)).
Definition stage10 := turn stage9 (Responding (drop 2 pull_buffers)).
Definition stage11 := turn stage10 (Responding []).

Lemma arriving_accepts (w : sim) c b : c.1 = sim_next w -> accepts w c (arriving w c b).
Proof.
  intros Hc. unfold accepts, sends_nothing. cbn. unfold sim_outbox. cbn. rewrite Hc.
  split_and!; [lia|lia| |]. { by rewrite lookup_insert_eq. }
  intros c' Hc'. split; [lia|]. rewrite lookup_insert_ne; [done|]. intros <-. lia.
Qed.

Lemma run_to_mailbox : process_run stage0 [] stage4.
Proof.
  change (@nil (event sim_conn)) with ((((([] ++ []) ++ []) ++ []) ++ []) : list (event sim_conn)).
  eapply run_step; [eapply run_step; [eapply run_step; [eapply run_step; [apply run_start|]|]|]|].
  - apply (process_accept stage0.1 inbound_stream accepted.1 accepted.2 quiet);
      [by apply arriving_accepts|apply surjective_pairing].
  - apply (process_frame_step stage1.1 inbound_stream handled.1.2 stage1.2 handled.2); [by left|vm_refl].
  - apply process_queue. apply (queue_recv stage2.1 exit_body); vm_refl.
  - apply process_queue. apply (queue_push stage3.1 exit_body). vm_refl.
Qed.

(** The turns of the only request are steps of the pull listener. *)
Lemma turn_goes st t t' evs :
  pr_requests st.1 = [(pull_stream, t)] -> pr_identity st.1 = an_identity -> pr_serving st.1 = true ->
  (task_step pull_stream t (pr_mailbox st.1) an_identity st.2).1.1 = Goes t' ->
  evs = (if decide (t = Draining) then [Drained pull_stream (queue (pr_mailbox st.1))] else []) ->
  process_step st evs (turn st t).
Proof.
  destruct st as [p w]. cbn. intros Hr Hi Hs Ht ->. apply process_serve. unfold turn. cbn.
  destruct (task_step _ _ _ _ w) as [[fl mb] w'] eqn:E. cbn in Ht. subst fl.
  rewrite <- Hs. apply (serve_turn p [] pull_stream t []); [done|by rewrite Hi].
Qed.

Lemma turn_ends st t r :
  pr_requests st.1 = [(pull_stream, t)] -> pr_identity st.1 = an_identity -> pr_serving st.1 = true ->
  (task_step pull_stream t (pr_mailbox st.1) an_identity st.2).1.1 = Ends r ->
  process_step st [Finished pull_stream r] (turn st t).
Proof.
  destruct st as [p w]. cbn. intros Hr Hi Hs Ht. apply process_serve. unfold turn. cbn.
  destruct (task_step _ _ _ _ w) as [[fl mb] w'] eqn:E. cbn in Ht. subst fl.
  rewrite <- Hs. apply (serve_end p [] pull_stream t []); [done|by rewrite Hi].
Qed.

Definition pull_events : list (event sim_conn) :=
  [Drained pull_stream [exit_body]; Finished pull_stream (Ok tt)].

Lemma run_of_pull : process_run stage0 pull_events stage11.
Proof.
  change pull_events with
    ((((((([] ++ []) ++ []) ++ [Drained pull_stream [exit_body]]) ++ []) ++ []) ++ []) ++ [Finished pull_stream (Ok tt)]).
  apply (run_step stage0 _ stage10 _ stage11); [apply (run_step stage0 _ stage9 _ stage10);
    [apply (run_step stage0 _ stage8 _ stage9); [apply (run_step stage0 _ stage7 _ stage8);
    [apply (run_step stage0 _ stage6 _ stage7); [apply (run_step stage0 _ stage5 _ stage6);
    [apply (run_step stage0 _ stage4 _ stage5); [exact run_to_mailbox|]|]|]|]|]|]|].
  - apply process_serve. apply (serve_accept stage4.1 pull_stream); [vm_refl|by apply arriving_accepts].
  - apply (turn_goes stage5 AwaitRequest Draining); vm_refl.
  - apply (turn_goes stage6 Draining (Responding pull_buffers)); vm_refl.
  - apply (turn_goes stage7 (Responding pull_buffers) (Responding (drop 1 pull_buffers))); vm_refl.
  - apply (turn_goes stage8 (Responding (drop 1 pull_buffers)) (Responding (drop 2 pull_buffers))); vm_refl.
  - apply (turn_goes stage9 (Responding (drop 2 pull_buffers)) (Responding [])); vm_refl.
  - apply (turn_ends stage10 (Responding []) (Ok tt)); vm_refl.
Qed.

Lemma process_hands_out_once_witness :
  outbox stage11.2 pull_stream = pull_response [exit_body] /\
  cells_delivered (metrics (pr_node stage11.1)) = 1.
Proof.
  pose proof (process_hands_out_once relay_config relay_keys an_identity true quiet pull_events stage11.1 stage11.2) as H.
  destruct H as (_ & _ & Hsent & _ & _ & Hcount & _); [rewrite <- surjective_pairing; exact run_of_pull|].
  split; [apply Hsent; [left|right; left]|]. rewrite Hcount. vm_refl.
Defined.

Lemma deliveries_reach_mailbox_witness :
  ch_sent (delivery_tx (pr_node stage4.1)) = queue (pr_mailbox stage4.1) /\ queue (pr_mailbox stage4.1) = [exit_body].
Proof.
  destruct (deliveries_reach_mailbox relay_config relay_keys an_identity true quiet [] stage4.1 stage4.2 0 stage4.1)
    as (_ & _ & Hdone); [rewrite <- surjective_pairing; exact run_to_mailbox|constructor|].
  split; [|vm_refl]. destruct (Hdone ltac:(vm_refl)) as [Hs _]. exact Hs.
Defined.

Definition pull_handled := handle_request pull_stream (pr_mailbox stage5.1) an_identity stage5.2.

Lemma pull_handled_ok : pull_handled = (Ok tt, pull_handled.1.2, mailbox_new).
Proof.
  assert (pull_handled.1.1 = Ok tt) as Hr by vm_refl. assert (pull_handled.2 = mailbox_new) as Hm by vm_refl.
  destruct pull_handled as [[r w] mb]. cbn in *. by subst.
Qed.

Lemma request_task_agrees_witness :
  task_run 11 pull_stream AwaitRequest (pr_mailbox stage5.1) an_identity stage5.2 =
    (Some (Ok tt), mailbox_new, pull_handled.1.2).
Proof.
  destruct (request_task_agrees pull_stream (pr_mailbox stage5.1) an_identity stage5.2 11) as [E _];
    [vm_compute; lia|].
  fold pull_handled in E. rewrite pull_handled_ok in E. exact E.
Defined.

(** The client's side of that request. *)
Definition pulled_from : bytes := text "mailbox of the relay".
Definition pulling : sim := mkSim 0 ∅ ∅ {[pulled_from := pull_response [exit_body]]} [].
Definition pull_run := task_run 11 pull_stream AwaitRequest (pr_mailbox stage5.1) an_identity stage5.2.

Lemma request_task_serves_witness :
  exists mb' w', pull_run = (Some (Ok tt), mb', w') /\ queue mb' = [] /\
    (pull pulled_from pulling).1 = Ok [exit_body].
Proof.
  destruct (request_task_serves pull_stream (pr_mailbox stage5.1) an_identity stage5.2 11 pulled_from pulling
              (0%nat, pulled_from) (connect pulled_from pulling).2
              (write_all (0%nat, pulled_from) [PULL_REQUEST_BYTE] (connect pulled_from pulling).2).2
              PULL_REQUEST_BYTE []) as [_ H].
  - vm_compute. lia.
  - apply injective_projections; vm_refl.
  - apply injective_projections; vm_refl.
  - destruct H as (r & mb' & w' & E & Hp & _); [vm_refl|].
    assert (pull_run.1.1 = Some (Ok tt)) as Hr by vm_refl.
    assert (outbox pull_run.2 pull_stream = pull_response [exit_body]) as Ho by vm_refl.
    fold pull_run in E. rewrite E in Hr, Ho. cbn [fst snd] in Hr, Ho. injection Hr as ->.
    destruct (Hp eq_refl) as [Hq Hpull]. exists mb', w'. split; [exact E|]. split; [exact Hq|].
    assert (queue (pr_mailbox stage5.1) = [exit_body]) as Hb by vm_refl. rewrite Hb in Hpull.
    apply Hpull; [reflexivity| |].
    + split; [by vm_compute|]. by repeat constructor.
    + rewrite Ho. vm_refl.
Defined.

(** A relay with a configuration file, in the laboratory. *)
Definition config_toml (raw : bytes) : result unit RelayConfig :=
  if decide (raw = text "relay-1") then Ok persisted_config else Err tt.

Definition configured_lab : lab :=
  mkLab (mkSim 0 ∅ ∅ ∅ []) ∅ ∅ 0 {[text "relay.toml" := text "relay-1"]} [].

Lemma configured_load :
  load config_toml (fun _ => []) (fun _ => [])
    (default DEFAULT_CONFIG_PATH ([text "veil-relay"; text "relay.toml"] !! 1%nat)) configured_lab =
  (Ok persisted_config, configured_lab).
Proof. vm_refl. Qed.

Lemma configured_identity : choose_identity persisted_config (5 : Z) = (Ok relay_keys, 5).
Proof. vm_refl. Qed.

Lemma configured_bind a : bind a configured_lab = (Ok tt, configured_lab).
Proof. reflexivity. Qed.

Lemma configured_port : wf_sockaddr (listen_addr persisted_config).
Proof. split; by apply Z.leb_le. Qed.

Lemma relay_main_starts_witness :
  exists ident, relay_main (W:=lab) (Conn:=sim_conn) (Ch:=list (list byte)) (Sem:=nat) config_toml
    (fun _ => []) (fun _ => []) true [text "veil-relay"; text "relay.toml"] (5 : Z) configured_lab =
    Done (Ok (process_new (fresh_node persisted_config relay_keys) ident true), 5, configured_lab) /\
    ri_public_key ident = public_key relay_keys.
Proof.
  pose proof (relay_main_starts (Conn:=sim_conn) (Ch:=list (list byte)) (Sem:=nat) config_toml
    (fun _ => []) (fun _ => []) true [text "veil-relay"; text "relay.toml"] (5 : Z) configured_lab) as H.
  cbv zeta in H. rewrite configured_load in H. specialize (H configured_port). rewrite configured_identity in H.
  destruct H as (_ & _ & b & w2 & Eb & H). rewrite configured_bind in Eb. injection Eb as <- <-.
  rewrite configured_bind in H. destruct H as (serving & Hs & Hrun).
  assert (serving = true) as -> by by apply Hs.
  eexists. split; [exact Hrun|]. reflexivity.
Defined.
