(* ===== verification/DeployedRun.v ===== *)
(** * A run of two deployed relays

    A deployment of [Deployment] in the network of [Instances]: a client's
    packet reaches the first relay, which forwards it on a stream it dials to
    the second, which delivers. The theorems of [DeploymentRun] are applied to
    it. *)
From S2P Require Import Prelude.
From S2P Require Import RustStd.
From S2P Require Import Interfaces.
From S2P Require Import Instances.
From S2P Require Import Cell.
From S2P Require Import Fragmentation.
From S2P Require Import Keys.
From S2P Require Import Forwarding.
From S2P Require Import Mailbox.
From S2P Require Import PullListener.
From S2P Require Import PullServer.
From S2P Require Import Node.
From S2P Require Import RelayProcess.
From S2P Require Import Topology.
From S2P Require Import Session.
From S2P Require Import Client.
From S2P Require Import Receiver.
From S2P Require Import EndToEnd.
From S2P Require Import Links.
From S2P Require Import Deployment.
From S2P Require Import DeploymentRun.
From S2P Require Import Progress.
From S2P Require Import Reliable.
From S2P Require Import SmokeTest.
From S2P Require Import Witnesses.

Open Scope Z_scope.

Abbreviation sim_process := (Process sim_conn (list (list byte)) nat).
Abbreviation sim_hosts := (gmap bytes (sim_process * sim)).

(** ** Streams of a host *)

(** A stream arrives, and more of it. *)
Definition arrives (c : sim_conn) (w : sim) : sim :=
  mkSim (S (sim_next w)) (<[c := []]> (sim_in w)) (<[c := []]> (sim_out w)) (sim_script w) (sim_broken w).
Definition receives (c : sim_conn) (bs : bytes) (w : sim) : sim := set_in c (sim_inbox w c ++ bs) w.

Lemma arrives_new c (w : sim) :
  c.1 = sim_next w ->
  accepts w c (arrives c w) /\ inbox (arrives c w) c = [] /\ undisturbed [] w (arrives c w).
Proof.
  intros Hc. unfold accepts, sends_nothing, undisturbed, undisturbed_at. cbn.
  unfold sim_inbox, sim_outbox, broken, sim_break. cbn. rewrite !lookup_insert_eq.
  split_and!; try done; [lia|lia| |].
  - intros c' Hc'. split; [lia|]. rewrite lookup_insert_ne; [done|]. intros <-. lia.
  - intros c' Hc' _. assert (c <> c') by (intros <-; lia). rewrite !lookup_insert_ne by done.
    split_and!; [lia|done..].
Qed.

Lemma receives_more c bs (w : sim) :
  undisturbed [c] w (receives c bs w) /\ inbox (receives c bs w) c = inbox w c ++ bs /\
  outbox (receives c bs w) c = outbox w c.
Proof.
  unfold undisturbed, undisturbed_at. cbn. unfold sim_inbox, broken, sim_break. cbn.
  rewrite lookup_insert_eq. split_and!; [|done|done]. intros c' Hc' Hne.
  rewrite lookup_insert_ne; [by split_and!|]. intros <-. apply Hne. by left.
Qed.

#[global] Instance sim_flow : NetFlow sim sim_conn.
Proof.
  split.
  - intros w. exists (sim_next w, []), (arrives (sim_next w, []) w). by apply arrives_new.
  - intros w s bs Hl. destruct (receives_more s bs w) as (Hu & Hi & Ho). by exists (receives s bs w).
Qed.

(** ** The relays *)

Definition addr1 : bytes := info_address relay_1.
Definition addr2 : bytes := info_address relay_2.
Definition keys1 : KeyPair := key_of_relay relay_1.
Definition keys2 : KeyPair := key_of_relay relay_2.

Lemma addresses_differ : addr1 <> addr2.
Proof. vm_compute. congruence. Qed.

Definition two (h1 h2 : sim_process * sim) : sim_hosts := <[addr1 := h1]> {[addr2 := h2]}.

Lemma two_1 h1 h2 : two h1 h2 !! addr1 = Some h1.
Proof. apply lookup_insert_eq. Qed.
Lemma two_2 h1 h2 : two h1 h2 !! addr2 = Some h2.
Proof. unfold two. rewrite lookup_insert_ne by apply addresses_differ. apply lookup_singleton_eq. Qed.
Lemma two_insert_1 h1 h2 h : <[addr1 := h]> (two h1 h2) = two h h2.
Proof. apply insert_insert_eq. Qed.
Lemma two_insert_2 h1 h2 h : <[addr2 := h]> (two h1 h2) = two h1 h.
Proof. unfold two. rewrite insert_insert_ne by (symmetry; apply addresses_differ). by rewrite insert_singleton_eq. Qed.

(** The second layer delivers, the first forwards to the second relay. *)
Definition inner_frame : bytes :=
  match (build_onion_layer (public_key keys2) (Deliver (text "a cell")) (31 : Z)).1 with Ok f => f | Err _ => [] end.
Definition outer_frame : bytes :=
  match (build_onion_layer (public_key keys1) (Forward addr2 inner_frame) (37 : Z)).1 with Ok f => f | Err _ => [] end.

(** ** The run *)

Definition relay_process (kp : KeyPair) : sim_process := process_new (fresh_node relay_config kp) an_identity true.

Definition to_1 : sim_conn := (0%nat, text "client").
Definition to_2 : sim_conn := (0%nat, addr1).
Definition between : sim_conn := (1%nat, addr2).

(** The hosts after a stream was accepted, has arrived, and its frame was
    processed. *)
Definition accepting (s : sim_conn) (h : sim_process * sim) : sim_process * sim :=
  let '(n, active) := accept_connection s (pr_node h.1) (pr_active h.1) in
  (with_node n active h.1, arrives s h.2).
Definition receiving (s : sim_conn) (bs : bytes) (h : sim_process * sim) : sim_process * sim :=
  (h.1, receives s bs h.2).
Definition processing (s : sim_conn) (h : sim_process * sim) : sim_process * sim :=
  let '(_, n, w) := handle_frame s (pr_node h.1) h.2 in (with_node n (pr_active h.1) h.1, w).

Definition first0 : sim_process * sim := (relay_process keys1, mkSim 0 ∅ ∅ {[addr2 := []]} []).
Definition first1 := accepting to_1 first0.
Definition first2 := receiving to_1 (frame_bytes outer_frame) first1.
Definition first3 := processing to_1 first2.
Definition second0 : sim_process * sim := (relay_process keys2, mkSim 0 ∅ ∅ ∅ []).
Definition second1 := accepting to_2 second0.
Definition second2 := receiving to_2 (frame_bytes inner_frame) second1.
Definition second3 := processing to_2 second2.

Definition client_link : link sim_conn := mkLink (FromClient (frame_bytes outer_frame)) addr1 Waiting [] 0.
Definition relay_link : link sim_conn := mkLink (FromRelay addr1 between) addr2 Waiting [] 0.
Definition used (s : sim_conn) (bs : bytes) (lk : link sim_conn) : link sim_conn :=
  processed (carried bs (set_end (Accepted s) lk)).
Definition all_links : list (link sim_conn) :=
  [used to_1 (frame_bytes outer_frame) client_link; used to_2 (frame_bytes inner_frame) relay_link].

(** One stream at one host: accepted, carried whole, processed. *)
Lemma stream_used (hs : sim_hosts) l1 lk l2 p w s bs permits' (new : list (link sim_conn)) :
  hs !! lk_dest lk = Some (p, w) -> lk_end lk = Waiting -> lk_moved lk = [] ->
  s.1 = sim_next w -> try_acquire (connection_limiter (pr_node p)) = Some permits' ->
  (forall h, sent_on (<[lk_dest lk := h]> hs) (lk_origin lk) = bs) ->
  let h1 := accepting s (p, w) in let h2 := receiving s bs h1 in let h3 := processing s h2 in
  s ∈ pr_active h2.1 -> (handle_frame s (pr_node h2.1) h2.2).1.1 = Continue ->
  new_links (lk_dest lk) (pr_node h2.1) (pr_node h3.1) = new ->
  rtc deployment_step (hs, l1 ++ lk :: l2)
    (<[lk_dest lk := h3]> hs, (l1 ++ used s bs lk :: l2) ++ new).
Proof.
  intros Hd He Hm Hs Hperm Hso h1 h2 h3 Hact Hfl Hnew.
  destruct (arrives_new s w Hs) as (Hacc & Hin & Hund).
  destruct (accept_connection s (pr_node p) (pr_active p)) as [n active] eqn:Ea.
  assert (h1 = (with_node n active p, arrives s w)) as Eh1 by (unfold h1, accepting; cbn; by rewrite Ea).
  eapply rtc_l; [eapply (dp_accept hs l1 lk l2 p w s (arrives s w) n active); done|].
  rewrite Hperm, <- Eh1.
  destruct (receives_more s bs (arrives s w)) as (Hu & Hi & Ho).
  eapply rtc_l.
  { apply (dp_carry _ l1 (set_end (Accepted s) lk) l2 h1.1 h1.2 s (receives s bs h1.2) bs); rewrite ?Eh1; try done.
    - apply lookup_insert_eq.
    - cbn [set_end lk_moved lk_origin]. rewrite Hm, Hso. done.
    - destruct Hacc as (_ & Hl & _). done. }
  cbn [set_end lk_dest]. rewrite insert_insert_eq. change (h1.1, receives s bs h1.2) with h2.
  destruct (handle_frame s (pr_node h2.1) h2.2) as [[fl n'] w'] eqn:Ef. cbn in Hfl. subst fl.
  assert (h3 = (with_node n' (pr_active h2.1) h2.1, w')) as Eh3 by (unfold h3, processing; by rewrite Ef).
  rewrite Eh3 in Hnew. cbn [fst snd pr_node with_node] in Hnew.
  apply rtc_once. rewrite Eh3, <- Hnew, <- (insert_insert_eq hs (lk_dest lk) (with_node n' (pr_active h2.1) h2.1, w') h2).
  apply (dp_frame (<[lk_dest lk := h2]> hs) l1 (carried bs (set_end (Accepted s) lk)) l2 h2.1 h2.2 s n' w');
    [done| |done|done]. cbn [carried set_end lk_dest]. rewrite lookup_insert_eq. by destruct h2.
Qed.

Lemma deployed_run :
  rtc deployment_step (two first0 second0, []) (two first3 second3, all_links).
Proof.
  eapply rtc_l; [apply (dp_send _ [] (frame_bytes outer_frame) addr1)|]. cbn [app].
  etransitivity.
  { apply (stream_used (two first0 second0) [] client_link [] first0.1 first0.2 to_1 (frame_bytes outer_frame)
             (default 0%nat (try_acquire (connection_limiter (pr_node first0.1)))) [relay_link]).
    - cbn [client_link lk_dest]. rewrite two_1. apply f_equal, surjective_pairing.
    - done.
    - done.
    - done.
    - vm_refl.
    - done.
    - by left.
    - vm_refl.
    - vm_refl. }
  cbn [client_link lk_dest]. rewrite two_insert_1.
  match goal with |- rtc _ (?hs, _) _ => change hs with (two first3 second0) end.
  assert (outbox first3.2 between = frame_bytes inner_frame) as Hb by vm_refl.
  pose proof (stream_used (two first3 second0) [used to_1 (frame_bytes outer_frame) client_link] relay_link []
    second0.1 second0.2 to_2 (frame_bytes inner_frame)
    (default 0%nat (try_acquire (connection_limiter (pr_node second0.1)))) []) as H.
  cbn [relay_link lk_dest lk_origin] in H. rewrite two_insert_2 in H.
  apply H; clear H.
  - rewrite two_2. apply f_equal, surjective_pairing.
  - done.
  - done.
  - done.
  - vm_refl.
  - intros h. rewrite two_insert_2. unfold sent_on. rewrite two_1. rewrite (surjective_pairing first3). exact Hb.
  - by left.
  - vm_refl.
  - vm_refl.
Qed.

(** ** The theorems at this run *)

Lemma two_started : started (two first0 second0).
Proof.
  intros a pw. unfold two. rewrite lookup_insert_Some, lookup_singleton_Some.
  intros [[_ <-]|[_ [_ <-]]]; by eexists _, _, _, _.
Qed.

Lemma two_keyed : keyed relay_listening (two first0 second0).
Proof.
  intros a pw. unfold two. rewrite lookup_insert_Some, lookup_singleton_Some.
  intros [[<- <-]|[_ [<- <-]]]; vm_refl.
Qed.

Lemma between_sent : sent_on (two first3 second3) (FromRelay addr1 between) = frame_bytes inner_frame.
Proof. unfold sent_on. rewrite two_1, (surjective_pairing first3). vm_refl. Qed.

Lemma nothing_pending : pending (two first3 second3) all_links = [].
Proof.
  unfold pending, all_links, pending_on, link_frames. cbn [used processed carried set_end client_link relay_link
    lk_origin lk_dest lk_done mbind list_bind]. rewrite between_sent. vm_refl.
Qed.

Lemma one_delivered : delivered (two first3 second3) ≡ₚ [(addr2, text "a cell")].
Proof.
  unfold delivered, two. rewrite map_to_list_insert
    by (rewrite lookup_singleton_ne; [done|symmetry; apply addresses_differ]).
  rewrite map_to_list_singleton. cbn [mbind list_bind]. unfold delivered_at.
  assert (ch_sent (delivery_tx (pr_node first3.1)) = []) as E1 by vm_refl.
  assert (ch_sent (delivery_tx (pr_node second3.1)) = [text "a cell"]) as E2 by vm_refl.
  cbn [fst snd]. by rewrite E1, E2.
Qed.

Lemma deployment_refines_fabric_witness :
  injected all_links = [(addr1, outer_frame)] /\
  (exists ps ds, rtc (fabric_step relay_listening) ([(addr1, outer_frame)], []) (ps, ds) /\
     ps ≡ₚ [] /\ ds ≡ₚ [(addr2, text "a cell")]) /\
  exists p w evs, two first3 second3 !! addr1 = Some (p, w) /\ process_run first0 evs (p, w).
Proof.
  assert (injected all_links = [(addr1, outer_frame)]) as Hi by vm_refl.
  destruct (deployment_refines_fabric relay_listening (two first0 second0) (two first3 second3) all_links
    two_started two_keyed deployed_run) as [(ps & ds & Hr & Hp & Hd) Hh].
  split; [exact Hi|]. split.
  - exists ps, ds. rewrite Hi in Hr. rewrite nothing_pending in Hp. rewrite one_delivered in Hd. by split_and!.
  - apply (Hh addr1 first0.1 first0.2). rewrite two_1. apply f_equal, surjective_pairing.
Defined.

Lemma deployment_delivers_message_witness :
  exists scs rng' w' (cells : list Cell) packets,
    send a_client a_session long_message (5 : Z) all_up = Done (Ok scs, rng', w') /\
    length packets = length cells /\
    forall (hs0 hs : sim_hosts) ls,
      started hs0 -> keyed relay_listening hs0 -> rtc deployment_step (hs0, []) (hs, ls) ->
      injected ls ≡ₚ packets ->
      exists (left : list packet) (mine : list delivery), (length left + length mine = length cells)%nat /\
        omap (opened recipient_keys) (map snd mine) ⊆+ cells.
Proof.
  destruct (deployment_delivers_message (Conn:=sim_conn) (Ch:=list (list byte)) (Sem:=nat)
              key_of_relay relay_listening a_client a_session recipient_keys
              long_message (5 : Z) all_up) as (r & rng' & w' & E & Hup & H);
    [apply a_client_usable|apply a_client_deployed|apply a_session_with|by vm_compute|].
  destruct (Hup sim_up) as [scs ->]; [apply a_client_up|by split|].
  destruct (H scs eq_refl) as (id & cells & conns & packets & _ & _ & _ & Hl & Hrun).
  exists scs, rng', w', cells, packets. split; [exact E|]. split; [exact Hl|].
  intros hs0 hs ls Hs Hk Hr Hi. rewrite <- (app_nil_r packets) in Hi.
  destruct (Hrun hs0 hs ls [] Hs Hk Hr Hi) as (left & mine & _ & _ & _ & _ & _ & Hc & Hin & _).
  exists left, mine. split; [exact Hc|exact Hin].
Defined.

Lemma one_waiting : waiting (two first3 second3) ≡ₚ [text "a cell"].
Proof.
  unfold waiting, two. rewrite map_to_list_insert
    by (rewrite lookup_singleton_ne; [done|symmetry; apply addresses_differ]).
  rewrite map_to_list_singleton. cbn [mbind list_bind].
  assert (waiting_at first3.1 = []) as E1 by vm_refl.
  assert (waiting_at second3.1 = [text "a cell"]) as E2 by vm_refl.
  cbn [fst snd]. by rewrite E1, E2.
Qed.

Lemma deployment_hands_over_witness :
  exists log ps ds, rtc (fabric_step relay_listening) ([(addr1, outer_frame)], []) (ps, ds) /\
    ps ≡ₚ [] /\ map snd ds ≡ₚ handed log (two first3 second3) ++ [text "a cell"] /\
    exists p0 w0, two first0 second0 !! addr2 = Some (p0, w0) /\ process_run (p0, w0) (log addr2) second3.
Proof.
  assert (injected all_links = [(addr1, outer_frame)]) as Hi by vm_refl.
  destruct (deployment_hands_over relay_listening (two first0 second0) (two first3 second3) all_links
    two_started two_keyed deployed_run) as (log & Hlog & (ps & ds & Hr & Hp & Hd) & _).
  exists log, ps, ds. rewrite Hi in Hr. rewrite nothing_pending in Hp. rewrite one_waiting in Hd.
  split; [exact Hr|]. split; [exact Hp|]. split; [exact Hd|].
  assert (two first3 second3 !! addr2 = Some (second3.1, second3.2)) as H2
    by (rewrite two_2; apply f_equal, surjective_pairing).
  destruct (Hlog addr2 second3.1 second3.2 H2) as (p0 & w0 & Hp0 & Hrun).
  exists p0, w0. split; [exact Hp0|]. rewrite <- surjective_pairing in Hrun. exact Hrun.
Defined.

Lemma deployment_work_bounded_witness :
  handled all_links = 4%nat /\
  (4 + work (two first3 second3) all_links <= 2 + 3 * layers [(addr1, outer_frame)])%nat.
Proof.
  split; [reflexivity|].
  pose proof (deployment_work_bounded relay_listening (two first0 second0) (two first3 second3) all_links
    two_started two_keyed deployed_run) as H.
  assert (injected all_links = [(addr1, outer_frame)]) as Hi by vm_refl.
  rewrite Hi in H. exact H.
Defined.

(** A client has sent its packet, and nothing else has happened yet. *)
Lemma deployment_quiesces_witness :
  exists hs' ls', rtc deployment_step (two first0 second0, [client_link]) (hs', ls') /\
    injected ls' = [(addr1, outer_frame)] /\
    forall a f, (a, f) ∈ pending hs' ls' -> hs' !! a = None \/
      exists lk, lk ∈ ls' /\ lk_end lk = Closed /\ (a, f) ∈ pending_on hs' lk.
Proof.
  destruct (deployment_quiesces relay_listening (two first0 second0) (two first0 second0) [client_link]
    two_started two_keyed) as (hs' & ls' & Hr & Hi & Hp & _).
  - apply rtc_once. apply (dp_send _ [] (frame_bytes outer_frame) addr1).
  - exists hs', ls'. split; [exact Hr|]. split; [|exact Hp]. rewrite Hi. vm_refl.
Defined.

(** ** A network in which nothing fails *)

Lemma listening_up hop kp (w : sim) :
  relay_listening hop = Some kp -> sim_up w -> exists c w', connect hop w = (Ok c, w') /\ sim_up w'.
Proof.
  intros Hk [Hb Hs].
  assert (sim_script w !! hop = Some []) as E.
  { rewrite Hs. revert Hk. unfold relay_listening.
    case_decide as E1; [intros _; rewrite E1; by vm_compute|]. case_decide as E2; [intros _; rewrite E2; by vm_compute|].
    case_decide as E3; [intros _; rewrite E3; by vm_compute|done]. }
  cbn. unfold sim_connect. rewrite E. eexists _, _. split; [reflexivity|]. by split.
Qed.

Lemma sim_reliable : reliable (W:=sim) (Conn:=sim_conn) relay_listening sim_up.
Proof.
  split.
  - intros w Hu. exists (sim_next w, []), (arrives (sim_next w, []) w).
    destruct (arrives_new (sim_next w, []) w eq_refl) as (? & ? & ?). by split_and!.
  - intros w s bs Hu Hl. destruct (receives_more s bs w) as (? & ? & ?). exists (receives s bs w). by split_and!.
  - intros hop kp w r w' Hk Hu. destruct (listening_up hop kp w Hk Hu) as (c & v & -> & Hv). intros [= <- <-].
    split; [by eexists|done].
  - intros c bs w r w' [Hb Hs]. cbn. rewrite decide_False by (rewrite Hb; by intros [_ ?%elem_of_nil]).
    by intros [= <- <-].
  - intros c n w r w' Hu. cbn. by case_decide; intros [= _ <-].
Qed.

(** The three relays of the client's topology, with room for [n] connections. *)
Definition roomy (n : nat) (r : RelayInfo) : bytes * (sim_process * sim) :=
  (info_address r,
   (process_new (fresh_node (mkRelayConfig (local_socket 9001) (info_id r) None n) (key_of_relay r)) an_identity true,
    all_up)).
Definition three (n : nat) : sim_hosts := list_to_map [roomy n relay_1; roomy n relay_2; roomy n relay_3].

Lemma three_hosts n a pw : three n !! a = Some pw -> exists r, (a, pw) = roomy n r /\ r ∈ [relay_1; relay_2; relay_3].
Proof.
  intros Ha%elem_of_list_to_map_2. change [roomy n relay_1; roomy n relay_2; roomy n relay_3]
    with (roomy n <$> [relay_1; relay_2; relay_3]) in Ha. by apply list_elem_of_fmap in Ha.
Qed.

Lemma three_prepared n : prepared relay_listening sim_up n (three n).
Proof.
  split.
  - intros a pw (r & [= -> ->] & _)%three_hosts. by eexists _, _, _, _.
  - intros a pw (r & [= -> ->] & Hr)%three_hosts. cbn [pr_node process_new fst keypair fresh_node].
    repeat (apply elem_of_cons in Hr as [->|Hr]); [vm_refl..|by apply not_elem_of_nil in Hr].
  - intros a kp. unfold relay_listening, three. cbn [list_to_map foldr roomy fst snd].
    case_decide as E1; [intros _; rewrite E1, lookup_insert_eq; by eexists|].
    case_decide as E2; [intros _; rewrite lookup_insert_ne, E2, lookup_insert_eq by congruence; by eexists|].
    case_decide as E3; [intros _|done].
    rewrite !lookup_insert_ne, E3, lookup_insert_eq by congruence. by eexists.
  - intros a pw (r & [= -> ->] & _)%three_hosts. by split.
  - intros a pw (r & [= -> ->] & _)%three_hosts. by apply Nat.le_refl.
Qed.

Lemma message_can_arrive_witness :
  exists scs rng' w' id (cells : list Cell) (ls : list (link sim_conn)) (hs' : sim_hosts) ls',
    send a_client a_session long_message (5 : Z) all_up = Done (Ok scs, rng', w') /\ fragments_of id long_message cells /\
    rtc deployment_step (three (budget ls), []) (hs', ls') /\ pending hs' ls' = [] /\
    forall rounds raws wr wr',
      pull_each (concat rounds) wr = (Ok raws, wr') -> raws ≡ₚ (map_to_list hs' ≫= fun h => queue (pr_mailbox h.2.1)) ->
      exists outs rv', poll_all (mkReceiver recipient_keys Reassembly.new) rounds wr = Done (map Ok outs, rv', wr') /\
        long_message ∈ concat outs.
Proof.
  destruct (message_can_arrive (W:=sim) (Conn:=sim_conn) (Ch:=list (list byte)) (Sem:=nat)
              key_of_relay relay_listening sim_up a_client a_session recipient_keys
              long_message (5 : Z) all_up) as (r & rng' & w' & E & Hup & H);
    [apply a_client_usable|apply a_client_deployed|apply a_session_with|by vm_compute|apply sim_reliable|].
  destruct (Hup sim_up) as [scs ->]; [apply a_client_up|by split|].
  destruct (H scs eq_refl) as (id & cells & conns & Hfr & _ & Hall).
  destruct (Hall (three (budget (client_links w' conns))) (three_prepared _))
    as (hs' & ls' & Hr0 & Hr & _ & Hp & _ & Hpoll).
  exists scs, rng', w', id, cells, (client_links w' conns), hs', ls'.
  split; [exact E|]. split; [exact Hfr|]. split; [etransitivity; [exact Hr0|exact Hr]|]. split; [exact Hp|].
  intros rounds raws wr wr' Hpull Hraws. rewrite <- (app_nil_r (_ ≫= _)) in Hraws.
  refine (Hpoll (mkReceiver recipient_keys Reassembly.new) rounds raws [] wr wr' eq_refl _ _ Hpull Hraws _).
  - apply map_Forall_empty.
  - apply lookup_empty.
  - intros raw c Hin. destruct (not_elem_of_nil raw Hin).
Defined.

Definition smoke_frame : bytes :=
  match smoke_setup (Conn:=sim_conn) (Ch:=list (list byte)) (Sem:=nat) (5 : Z) with
  | Done (_, _, frame, _) => frame
  | Panic => []
  end.
Definition smoke_link : link sim_conn := mkLink (FromClient (frame_bytes smoke_frame)) addr_1 Waiting [] 0.

(** The onion has been sent and nothing else has happened. *)
Lemma smoke_test_delivers_witness :
  exists (node1 node2 : RelayNode sim_conn (list (list byte)) nat) hs' ls',
    rtc deployment_step (smoke_hosts node1 node2 an_identity an_identity all_up all_up, [smoke_link]) (hs', ls') /\
    (smoke_passes hs' \/ exists lk q, lk ∈ ls' /\ lk_end lk = Closed /\ q ∈ pending_on hs' lk).
Proof.
  destruct (smoke_test_delivers (W:=sim) (Ch:=list (list byte)) (Sem:=nat) (5 : Z) an_identity an_identity all_up all_up)
    as (node1 & node2 & frame & rng' & E & _ & H).
  assert (frame = smoke_frame) as Hf by (unfold smoke_frame; by rewrite E).
  destruct (H (smoke_hosts node1 node2 an_identity an_identity all_up all_up) [smoke_link]) as [_ (hs' & ls' & Hr & Hp)].
  - apply rtc_once. apply (dp_send _ [] (frame_bytes smoke_frame) addr_1).
  - rewrite Hf. vm_refl.
  - exists node1, node2, hs', ls'. split; [exact Hr|exact Hp].
Defined.
