(* ===== verification/FullRun.v ===== *)
(** * A run to the end

    The run of [DeployedRun] goes on: the second relay queues the body, a
    recipient's PULL is accepted and answered by its task, turn by turn, and the
    recipient reads the response. The theorems of [Delivery] are applied to it. *)
From S2P Require Import Prelude.
From S2P Require Import RustStd.
From S2P Require Import Interfaces.
From S2P Require Import Instances.
From S2P Require Import Cell.
From S2P Require Import Fragmentation.
From S2P Require Import Keys.
From S2P Require Import Forwarding.
From S2P Require Import Mailbox.
From S2P Require Import PullListener.
From S2P Require Import PullServer.
From S2P Require Import Node.
From S2P Require Import RelayProcess.
From S2P Require Import Topology.
From S2P Require Import Session.
From S2P Require Import Reassembly.
From S2P Require Import Client.
From S2P Require Import Receiver.
From S2P Require Import EndToEnd.
From S2P Require Import Links.
From S2P Require Import Deployment.
From S2P Require Import DeploymentRun.
From S2P Require Import Delivery.
From S2P Require Import Witnesses.
From S2P Require Import DeployedRun.

Open Scope Z_scope.

(** ** What each host did *)

Lemma stream_used_run p (w : sim) s bs permits' :
  s.1 = sim_next w -> try_acquire (connection_limiter (pr_node p)) = Some permits' ->
  let h1 := accepting s (p, w) in let h2 := receiving s bs h1 in let h3 := processing s h2 in
  s ∈ pr_active h2.1 -> (handle_frame s (pr_node h2.1) h2.2).1.1 = Continue ->
  process_run (p, w) [] h3.
Proof.
  intros Hs Hperm h1 h2 h3 Hact Hfl. destruct (arrives_new s w Hs) as (Hacc & _ & _).
  destruct (accept_connection s (pr_node p) (pr_active p)) as [n active] eqn:Ea.
  assert (h1 = (with_node n active p, arrives s w)) as Eh1 by (unfold h1, accepting; cbn; by rewrite Ea).
  destruct (handle_frame s (pr_node h2.1) h2.2) as [[fl n'] w'] eqn:Ef. cbn in Hfl. subst fl.
  assert (h3 = (with_node n' (pr_active h2.1) h2.1, w')) as Eh3 by (unfold h3, processing; by rewrite Ef).
  apply (run_step _ [] h2 [] h3); [apply (run_step _ [] h1 [] h2); [apply (run_step _ [] (p, w) [] h1)|]|].
  - apply run_start.
  - rewrite Eh1. by eapply process_accept.
  - unfold h2, receiving. rewrite Eh1. apply process_others. intros c Hc.
    destruct (receives_more s bs (arrives s w)) as (Hu & _ & Ho). destruct (decide (c = s)) as [->|Hne].
    + split; [done|exact Ho].
    + destruct (Hu c Hc) as (? & _ & ? & _); [by intros ?%list_elem_of_singleton|done].
  - rewrite Eh3, (surjective_pairing h2). by eapply process_frame_step.
Qed.

Lemma first_run : process_run first0 [] first3.
Proof.
  apply (stream_used_run first0.1 first0.2 to_1 (frame_bytes outer_frame)
           (default 0%nat (try_acquire (connection_limiter (pr_node first0.1))))).
  - done.
  - vm_refl.
  - by left.
  - vm_refl.
Qed.

Lemma second_run : process_run second0 [] second3.
Proof.
  apply (stream_used_run second0.1 second0.2 to_2 (frame_bytes inner_frame)
           (default 0%nat (try_acquire (connection_limiter (pr_node second0.1))))).
  - done.
  - vm_refl.
  - by left.
  - vm_refl.
Qed.

(** ** The second host goes on *)

Definition goes_on (evs : list (event sim_conn)) (st : sim_process * sim) : Prop :=
  rtc deployment_step (two first0 second0, []) (two first3 st, all_links) /\ process_run second0 evs st.

Lemma goes_on_start : goes_on [] second3.
Proof. split; [apply deployed_run|apply second_run]. Qed.

Lemma goes_on_queue evs p p' w : queue_step p p' -> goes_on evs (p, w) -> goes_on evs (p', w).
Proof.
  intros Hq [Hd Hp]. split.
  - eapply rtc_r; [exact Hd|]. rewrite <- (two_insert_2 first3 (p, w) (p', w)).
    apply (dp_queue _ _ addr2 p w p'); [apply two_2|done].
  - rewrite <- (app_nil_r evs). eapply run_step; [exact Hp|by apply process_queue].
Qed.

Lemma goes_on_serve evs new p w p' w' :
  serve_step (p, w) new (p', w') -> undisturbed (pr_requests p).*1 w w' ->
  goes_on evs (p, w) -> goes_on (evs ++ new) (p', w').
Proof.
  intros Hs Hu [Hd Hp]. split.
  - eapply rtc_r; [exact Hd|]. rewrite <- (two_insert_2 first3 (p, w) (p', w')).
    apply (dp_serve _ _ addr2 p w new p'); [apply two_2|done|done].
  - eapply run_step; [exact Hp|by apply process_serve].
Qed.

(** A stream on which a request has been sent. *)
Definition asks (c : sim_conn) (w : sim) : sim := receives c [PULL_REQUEST_BYTE] (arrives c w).

Lemma asks_new c (w : sim) D : c.1 = sim_next w -> accepts w c (asks c w) /\ undisturbed D w (asks c w).
Proof.
  intros Hc. destruct (arrives_new c w Hc) as ((Hn & Hl & Ho & Hs) & _ & Hu).
  destruct (receives_more c [PULL_REQUEST_BYTE] (arrives c w)) as (Hu' & _ & Ho').
  assert (forall c', live w c' -> undisturbed_at w (asks c w) c') as Hall.
  { intros c' Hc'. destruct (Hu c' Hc') as (Hl1 & Hi1 & Ho1 & Hb1); [apply not_elem_of_nil|].
    destruct (Hu' c' Hl1) as (? & Hi2 & Ho2 & Hb2); [by intros ->%list_elem_of_singleton|].
    unfold undisturbed_at, asks. rewrite Hi2, Ho2, Hi1, Ho1. split_and!; auto. }
  split; [|by intros c' Hc' _; apply Hall]. split_and!; [done|done|by rewrite <- Ho|].
  intros c' Hc'. by destruct (Hall c' Hc') as (? & _ & ? & _).
Qed.

(** A turn of the only request. *)
Definition turning (h : sim_process * sim) : sim_process * sim :=
  match pr_requests h.1 with
  | [(s, t)] =>
      match task_step s t (pr_mailbox h.1) (pr_identity h.1) h.2 with
      | (Goes t', mb, w) => (with_requests (pr_serving h.1) mb [(s, t')] h.1, w)
      | (Ends _, mb, w) => (with_requests (pr_serving h.1) mb [] h.1, w)
      end
  | _ => h
  end.

(** The task of a request leaves other streams alone. *)
Lemma task_step_undisturbed s t mb ident (w : sim) fl mb' w' :
  task_step s t mb ident w = (fl, mb', w') -> undisturbed [s] w w'.
Proof.
  intros E c Hc Hs. assert (c <> s) as Hne by (intros ->; apply Hs; by left). revert E.
  assert (forall r w1, read_exact s 1 w = (r, w1) -> undisturbed_at w w1 c) as Hrd.
  { intros r w1 E. destruct (read_exact_reads _ _ _ _ _ E c Hc) as (? & ? & Hi & ?). by split_and!; auto. }
  assert (forall b r w1, write_all s b w = (r, w1) -> undisturbed_at w w1 c) as Hwr.
  { intros b r w1 E. destruct (write_all_frame _ _ _ _ _ c E) as (? & Ho & ?).
    split_and!; auto. by eapply write_all_stays_broken. }
  destruct t as [| |[|b bs]]; cbn [task_step drain].
  - destruct (read_exact s 1 w) as [r w1] eqn:E. intros Hw.
    assert (w' = w1) as -> by (destruct r; repeat case_decide; congruence). by eapply Hrd.
  - by intros [= _ _ <-].
  - by intros [= _ _ <-].
  - destruct (write_all s b w) as [r w1] eqn:E. intros Hw.
    assert (w' = w1) as -> by (destruct r; congruence). by eapply Hwr.
Qed.

Lemma goes_on_turn evs h s t t' :
  pr_requests h.1 = [(s, t)] -> (task_step s t (pr_mailbox h.1) (pr_identity h.1) h.2).1.1 = Goes t' ->
  goes_on evs h ->
  goes_on (evs ++ if decide (t = Draining) then [Drained s (queue (pr_mailbox h.1))] else []) (turning h).
Proof.
  destruct h as [p w]. cbn [fst snd]. intros Hr Hf Hg. unfold turning. cbn [fst snd]. rewrite Hr.
  destruct (task_step s t (pr_mailbox p) (pr_identity p) w) as [[fl mb] w'] eqn:E. cbn in Hf. subst fl.
  eapply goes_on_serve; [by apply (serve_turn p [] s t [] t' mb w w')| |done].
  rewrite Hr. by eapply task_step_undisturbed.
Qed.

Lemma goes_on_end evs h s t r :
  pr_requests h.1 = [(s, t)] -> (task_step s t (pr_mailbox h.1) (pr_identity h.1) h.2).1.1 = Ends r ->
  goes_on evs h -> goes_on (evs ++ [Finished s r]) (turning h).
Proof.
  destruct h as [p w]. cbn [fst snd]. intros Hr Hf Hg. unfold turning. cbn [fst snd]. rewrite Hr.
  destruct (task_step s t (pr_mailbox p) (pr_identity p) w) as [[fl mb] w'] eqn:E. cbn in Hf. subst fl.
  eapply goes_on_serve; [by apply (serve_end p [] s t [] r mb w w')| |done].
  rewrite Hr. by eapply task_step_undisturbed.
Qed.

(** Two turns of the queueing task, then a request and its turns. *)
Definition asking : sim_conn := (sim_next second3.2, text "recipient").
Definition second4 : sim_process * sim := (with_queue 1 (Some (text "a cell")) (pr_mailbox second3.1) second3.1, second3.2).
Definition second5 : sim_process * sim :=
  (with_queue 1 None (push (pr_mailbox second4.1) (text "a cell")) second4.1, second4.2).
Definition second6 : sim_process * sim :=
  (with_requests true (pr_mailbox second5.1) [(asking, AwaitRequest)] second5.1, asks asking second5.2).
Definition second7 := turning second6.
Definition second8 := turning second7.
Definition second9 := turning second8.
Definition second10 := turning second9.
Definition second11 := turning second10.
Definition second12 := turning second11.

Definition second_log : list (event sim_conn) := [Drained asking [text "a cell"]; Finished asking (Ok tt)].

Lemma second_asked : goes_on [] second6.
Proof.
  change ([] : list (event sim_conn)) with ([] ++ [] : list (event sim_conn)).
  destruct (asks_new asking second5.2 (pr_requests second5.1).*1 eq_refl) as [Hacc Hu].
  apply (goes_on_serve [] [] second5.1 second5.2); [|done|].
  { pose proof (serve_accept second5.1 asking second5.2 _ eq_refl Hacc) as H. exact H. }
  apply (goes_on_queue [] second4.1); [by apply queue_push|].
  apply (goes_on_queue [] second3.1); [|apply goes_on_start].
  apply queue_recv; vm_refl.
Qed.

Definition answer (k : nat) : request_task := Responding (drop k (pull_writes [text "a cell"])).

Lemma second_answered : goes_on second_log second12.
Proof.
  change second_log with (((((([] ++ []) ++ [Drained asking [text "a cell"]]) ++ []) ++ []) ++ []) ++ [Finished asking (Ok tt)]).
  apply (goes_on_end _ second11 asking (answer 3)); [vm_refl|vm_refl|].
  apply (goes_on_turn _ second10 asking (answer 2) (answer 3)); [vm_refl|vm_refl|].
  apply (goes_on_turn _ second9 asking (answer 1) (answer 2)); [vm_refl|vm_refl|].
  apply (goes_on_turn _ second8 asking (answer 0) (answer 1)); [vm_refl|vm_refl|].
  assert (queue (pr_mailbox second7.1) = [text "a cell"]) as Hq by vm_refl. rewrite <- Hq.
  apply (goes_on_turn _ second7 asking Draining (answer 0)); [vm_refl|vm_refl|].
  apply (goes_on_turn _ second6 asking AwaitRequest Draining); [vm_refl|vm_refl|].
  apply second_asked.
Qed.

(** ** The theorems at this run *)

Definition the_log (a : bytes) : list (event sim_conn) := if decide (a = addr2) then second_log else [].

Lemma the_records : records (two first0 second0) (two first3 second12) the_log.
Proof.
  intros a p w Ha. unfold the_log. unfold two in Ha. apply lookup_insert_Some in Ha as [[<- E]|[Hne Ha]].
  - rewrite decide_False by apply addresses_differ. exists first0.1, first0.2.
    split; [rewrite two_1; apply f_equal, surjective_pairing|].
    rewrite <- surjective_pairing, <- E. apply first_run.
  - apply lookup_singleton_Some in Ha as [<- E]. rewrite decide_True by done. exists second0.1, second0.2.
    split; [rewrite two_2; apply f_equal, surjective_pairing|].
    rewrite <- surjective_pairing, <- E. apply second_answered.
Qed.

Definition the_pull : answered_pull sim_conn := mkAnswer addr2 asking [text "a cell"].

Lemma the_answer : answered the_log the_pull.
Proof.
  unfold answered, the_log. cbn [the_pull ap_host ap_stream ap_cells]. rewrite decide_True by done.
  split_and!; [by left|right; by left|]. split; [by vm_compute|]. by repeat constructor.
Qed.

(** The recipient's side of the request. *)
Definition mailbox_2 : bytes := text "mailbox of the second relay".
Definition recipient0 : sim := mkSim 0 ∅ ∅ {[mailbox_2 := pull_response [text "a cell"]]} [].

Lemma the_pulls : pulls (two first3 second12) [mailbox_2] recipient0 [the_pull] (pull mailbox_2 recipient0).2.
Proof.
  apply (pulls_next _ mailbox_2 [] recipient0 (0%nat, mailbox_2) (connect mailbox_2 recipient0).2
           (write_all (0%nat, mailbox_2) [PULL_REQUEST_BYTE] (connect mailbox_2 recipient0).2).2
           the_pull second12.1 second12.2).
  - apply injective_projections; vm_refl.
  - apply injective_projections; vm_refl.
  - cbn [the_pull ap_host]. rewrite two_2. apply f_equal, surjective_pairing.
  - cbn [the_pull ap_stream].
    assert (outbox second12.2 asking = pull_response [text "a cell"]) as -> by vm_refl. vm_refl.
  - constructor.
Qed.

Lemma the_drains :
  drains the_log (two first3 second12) ≡ₚ map (fun q => (ap_host q, ap_cells q)) [the_pull].
Proof.
  unfold drains, two. rewrite map_to_list_insert
    by (rewrite lookup_singleton_ne; [done|symmetry; apply addresses_differ]).
  rewrite map_to_list_singleton. cbn [mbind list_bind fst]. unfold the_log.
  rewrite decide_False by apply addresses_differ. by rewrite decide_True by done.
Qed.

Lemma nobody_waits : waiting (two first3 second12) = [].
Proof.
  apply Permutation_nil_r. unfold waiting, two. rewrite map_to_list_insert
    by (rewrite lookup_singleton_ne; [done|symmetry; apply addresses_differ]).
  rewrite map_to_list_singleton. cbn [mbind list_bind].
  assert (waiting_at first3.1 = []) as E1 by vm_refl.
  assert (waiting_at second12.1 = []) as E2 by vm_refl.
  cbn [fst snd]. by rewrite E1, E2.
Qed.

Lemma pulls_collect_deliveries_witness :
  pull_each [mailbox_2] recipient0 = (Ok [text "a cell"], (pull mailbox_2 recipient0).2) /\
  exists ps ds, rtc (fabric_step relay_listening) ([(addr1, outer_frame)], []) (ps, ds) /\
    map snd ds ≡ₚ [text "a cell"].
Proof.
  destruct (pulls_collect_deliveries relay_listening (two first0 second0) (two first3 second12) all_links the_log
    [mailbox_2] recipient0 [the_pull] (pull mailbox_2 recipient0).2 two_started two_keyed
    (proj1 second_answered) the_records the_pulls (Forall_cons_2 _ _ _ the_answer (Forall_nil_2 _))) as [E H].
  split; [exact E|]. destruct (H the_drains nobody_waits) as (ps & ds & Hr & _ & Hd).
  assert (injected all_links = [(addr1, outer_frame)]) as Hi by vm_refl. rewrite Hi in Hr.
  exists ps, ds. split; [exact Hr|exact Hd].
Defined.

Lemma nothing_delivered (os : list packet) theirs :
  rtc (fabric_step relay_listening) ([], []) (os, theirs) -> theirs = [].
Proof.
  intros Hr. inversion Hr as [|? st ? Hst _]; subst; [done|].
  inversion Hst as [l1 l2 ? ? ? ? ? ? ? ? E|l1 l2 ? ? ? ? ? ? ? E|l1 l2 ? ? ? ? ? ? ? E]; by destruct l1.
Qed.

Lemma message_goes_all_the_way_witness :
  exists scs rng' w' id (cells : list Cell) packets,
    send a_client a_session long_message (5 : Z) all_up = Done (Ok scs, rng', w') /\
    fragments_of id long_message cells /\
    forall (hs0 hs : sim_hosts) ls log rv rounds wr qs wr',
      started hs0 -> keyed relay_listening hs0 -> rtc deployment_step (hs0, []) (hs, ls) -> records hs0 hs log ->
      injected ls ≡ₚ packets -> pending hs ls = [] -> waiting hs = [] ->
      recv_identity rv = recipient_keys -> wf_reassembler (recv_reassembler rv) ->
      in_flight (recv_reassembler rv) !! id = None ->
      pulls hs (concat rounds) wr qs wr' -> Forall (answered log) qs ->
      drains log hs ≡ₚ map (fun q => (ap_host q, ap_cells q)) qs ->
      exists outs rv', poll_all rv rounds wr = Done (map Ok outs, rv', wr') /\ long_message ∈ concat outs.
Proof.
  destruct (message_goes_all_the_way (Conn:=sim_conn) (Ch:=list (list byte)) (Sem:=nat)
              key_of_relay relay_listening a_client a_session recipient_keys
              long_message (5 : Z) all_up) as (r & rng' & w' & E & Hup & H);
    [apply a_client_usable|apply a_client_deployed|apply a_session_with|by vm_compute|].
  destruct (Hup sim_up) as [scs ->]; [apply a_client_up|by split|].
  destruct (H scs eq_refl) as (id & cells & conns & packets & Hfr & _ & _ & Hall).
  exists scs, rng', w', id, cells, packets. split; [exact E|]. split; [exact Hfr|].
  intros hs0 hs ls log rv rounds wr qs wr' Hs Hk Hr Hlog Hi Hp Hw Hrv Hrw Hid Hpl Hq Hd.
  rewrite <- (app_nil_r packets) in Hi.
  refine (Hall hs0 hs ls [] log Hs Hk Hr Hlog Hi _ Hp Hw rv rounds wr qs wr' Hrv Hrw Hid Hpl Hq Hd).
  intros os theirs raw c Hf Hin. exfalso.
  assert (theirs = []) as ->; [|by apply elem_of_nil in Hin].
  by apply (nothing_delivered os theirs).
Defined.
